(* ===== verification/_CoqProject ===== *)
-Q . S2P
Prelude.v
Threads.v
Url.v
LruCache.v
CharBuffer.v
Http.v
Effects.v
Stream.v
Restful.v
Transport.v
Session.v
Signals.v
EventLoop.v
LoopLife.v
Interleave.v
Config.v
Server.v
Plugins.v
World.v
Startup.v
StaticContent.v
StaticInit.v
EndToEnd.v
Connection.v
Devices.v
TestPlugin.v
