(* ===== verification/Prelude.v ===== *)
(** * Getodac: a verification library for the Getodac HTTP server

    ** The program

    Getodac (src/server) is a multi-threaded HTTP server around the header-only
    library Dracon (include/dracon).  A main thread accepts connections, counts
    them per address and gives each to the least loaded of several event loops.
    An event loop drives its sessions with epoll; a session is a coroutine that
    reads requests from its socket (plain or TLS), asks the plugins for a service,
    runs it and suspends whenever the socket is not ready.  Services write
    responses through a stream interface.  Plugins are shared libraries; the
    repository has one that serves files, one for the tests and a template, a small
    device service built with the RESTful router.

    ** The files

    - [Prelude] (this file): bytes, exceptions as values, machine integers, string
      search, positional numerals, generic list lemmas, the shared hint data base.
    - [Threads]: [SpinLock] and [SimpleTimer] of include/dracon/utils.h and
      include/dracon/thread_worker.h, each a step function over the positions of its
      threads; theorems quantify over all interleavings.
    - [Url]: [fromHex], [unescapeUrl] and [split] of include/dracon/utils.h.
    - [LruCache]: class [LruCache] of utils.h; its list iterators are node
      identities, its contract is the association-list cache of module [Spec].
    - [CharBuffer]: class [Buffer] of utils.h with its pointers; [None] is an
      access outside the block.
    - [Http]: [Response] and [Request] of include/dracon/http.h, the status table,
      content lengths as [strtoull] reads them.
    - [Effects]: the monad of stateful code, whose outcomes are a normal return, an
      exception, a coroutine that stays suspended, and undefined behaviour; what it
      means for code to respect a preorder on states.
    - [Stream]: include/dracon/stream.h.  The interface [AbstractStream] is a class,
      its promises are the class [StreamLaws], those of gathered writes the class
      [GatherLaws] and those of reading a body the class [BodyLaws]; [ChunkedStream] (a stream again, [chunked_laws]), [OStreamBuffer]
      and the stream operators are verified against the interface.
    - [Restful]: routes, captures, query strings and dispatch of
      include/dracon/restful.h.
    - [Transport]: the transports of src/server/streams.cpp (class [Transport], its
      instances [SocketSession] and [SslSocketSession], its promises
      [TransportLaws]) and the two write loops of [BasicHttpSession].
    - [Session]: the rest of [BasicHttpSession]: parser callbacks, [readHeaders],
      [read], [ioLoop].  The parser is a parameter with the laws [ParserLaws],
      reading obeys [ReadLaws].  It ends with the instances that make a session
      over either transport a stream with request bodies, and a plain one on sockets that
      write everything a stream with gathered writes.
    - [Signals]: the signal handler of src/server/server.cpp and [stackTrace] of
      include/dracon/exceptions.h, and what a fault in a service does to its session.
    - [EventLoop]: [SessionsEventLoop] (src/server/sessionseventloop.cpp) and the
      session objects of src/server/serversession.h: one pass of the loop.
    - [LoopLife]: the loop's constructor, the loop around the passes and the
      destructor.
    - [Interleave]: the pass and the registration of [EventLoop] again, cut at
      their critical sections, with a schedule of what the other threads do between
      any two of them.
    - [Config]: the command line, the configuration file and the set-up of OpenSSL in
      [Server::exec], and [Server::~Server], as code over what it assigns and calls.
    - [Server]: the connections per address and the load balancing of
      src/server/server.cpp and the status page of serverservicesessions.cpp.
    - [Plugins]: the plugin interface of include/dracon/plugin.h, serverplugin.cpp and
      the plugins' part of [Server::exec].
    - [World]: the accept loop and the shutdown of [Server::exec] over the books of
      [Server] and the loops of [LoopLife], with every socket accepted and closed.
    - [Startup]: [Server::bind], privileges, signals, the rest of [Server::exec] and
      [main], around [Plugins] and [World].
    - [StaticContent], [StaticInit]: src/plugins/staticContent, the service and the
      plugin's start with its timer.
    - [EndToEnd]: the services of [StaticContent] and of the status page as plugins of
      [Plugins], run by the loop of [Session] over either transport; the interface between a service
      and the server that runs it is the class [Honest].
    - [Connection]: [ServerSession::ioLoop] of src/server/serversession.h, the whole
      coroutine of a connection, and how errors make it end; what it needs of the services
      is the class [Prompt], of the transports [QuitLaws].
    - [Devices]: template/src/main.cpp, the device service with its shared mutex, over
      a JSON library with laws ([JsonLaws]).
    - [TestPlugin]: src/plugins/test/test_plugin.cpp.

    ** The theorems

    - Parsing and printing: [unescapeUrl] decodes exactly the escape grammar and
      inverts the encoder ([Url]); a serialised response is read back as the same status, headers and body, with
      the framing header its content length requires ([Http]); a chunked stream
      decodes to what was written ([Stream]); a routed URL gives back its
      captures and query ([Restful]).
    - Memory: no history of buffer operations that keeps to the documented bounds
      leaves the block ([CharBuffer]); [readHeaders] and [read] never do and give
      every received byte to the parser exactly once ([Session]); a pass of an
      event loop uses no freed session, frees none twice and never takes its lock
      twice ([EventLoop]), also when the other threads act between its steps,
      as long as no session they register is due in the same pass ([Interleave]).
    - Delivery: a write that returns has delivered its bytes once and in order
      under every schedule of short writes, would-blocks and errors, and does
      return when the socket accepts ([Transport]); gathered writes likewise up to
      the boundary where the code stops too early, which is stated; buffered output
      is flushed completely ([Stream]); errors are answered as they map ([Session]),
      faults of services too ([Signals]).
    - Composition: whatever the peer of a connection, plain or TLS, receives is a sequence of answers of the
      plugins to the requests on it, each by the first plugin that takes the request,
      and one ending; for the server with the static plugin these are files under
      the configured roots and status pages ([EndToEnd]).
    - Refinement: the cache simulates [LruCache.Spec]; the session over either
      transport implements the stream interface the services are verified against; the
      device service performs abstract operations on a list of names ([Devices]).
    - Services: files are served from under their root with their own length and
      contents ([StaticContent]); the test services send what they announce ([TestPlugin]).
    - Invariants: the books of connections per address ([Server]); sessions, loops,
      books and sockets of the whole running server ([World]); the life of the
      plugins' libraries ([Plugins]).
    - Starting and stopping: ports are bound before and workers started after
      privileges are dropped; a shutdown deletes every session exactly once and
      leaves no socket, loop or library open and nothing of OpenSSL allocated; the exit
      status tells which it was; an accepted configuration is what the file says
      ([LoopLife], [World], [Startup], [Config]).
    - Threads: mutual exclusion, tasks run once, timers and workers that stop
      ([Threads]).
    - Termination: every loop is shown to end within its fuel, the request loop
      of a connection serves at most one request per unit of input ([Session]), a
      connection that is told to quit ends after a bounded number of resumptions
      ([Connection]), an event loop ends when it is shut down ([LoopLife]).
    - Where the code does not do what it means to, the theorem states what it does
      (pipelined requests, gathered writes, lost wake-ups, a session deleted while it
      is registered, the lock held by a stalled client, user directories, a worker that
      misses the end, a POST that fails in the middle).

    ** Bounds and fuel

    Loops that are not structural take fuel: the length of the remaining input for
    [unescapeUrl], [split], [xsputn] and the parse of chunked data, the length of
    the list for [cleanCache], one more than the bytes of the buffer for the lines
    of [readHeaders], and for the loops that wait for the socket one more than what
    is left of the script of outside events ([write_fuel], [read_fuel]), because
    each round uses up one; [serve] starts with one more than the input left,
    [quitIoLoop] with the suspensions left in the coroutine, the destructor of an
    event loop with the number of its sessions, the timer of the static plugin
    with the length of the cache, the chunks of the test plugin with the length of
    the response, [read_wakeups] of [Interleave] with one more than what is left of the
    schedule.  The lemmas that describe these loops show that they never run out.
    [size_t] values are naturals where they are lengths of existing objects and wrap at 64 bits where
    the code computes with them; 32-bit counters wrap.

    The outside of a session is a script of read and write results and
    resumptions; theorems quantify over all scripts.  A session object of an event
    loop is given by the deadlines of its coroutine's suspensions; theorems
    quantify over these lists, and [Connection] shows that the list is short once the
    object is told to quit.

    A running server is a list of rounds: what happens while its accept loop waits
    (passes of the loops, wake-ups, the exit signal) and the events it then gets.
    Threads that share no more than a lock are sequences of atomic steps.  In
    [Interleave] a schedule gives, for every critical section of a pass, the moves
    the other threads make before it; theorems quantify over all schedules.

    ** Not modelled

    The http_parser library, OpenSSL, epoll, getnameinfo, the file system, the dynamic
    linker, the JSON library, the parsers of property trees and of the command line,
    and what backtrace and dladdr find are parameters.  Left out are logging (its
    set-up is a parameter of [Startup]) and the operators new and delete, which are
    replaced by malloc and free.  The
    buffer size the kernel makes of one asked for with setsockopt is a parameter.

    Three compositions stop at a stated interface.  The services of the test plugin and of
    the device template are verified against [AbstractStream] and are not run under
    [Honest]: their bodies are byte strings while the static plugin's variables are the
    state of [EndToEnd], and the test services gather writes, which only a socket without
    short writes delivers completely.  The cache of the static plugin is shared by the
    connections of one event loop at a time: a session that waits for the mutex of another
    loop's session blocks its thread, and the theorems assume the mutex free when a
    service starts ([unlocked]) or say nothing of a service that waits for it. *)

From Stdlib Require Import Ascii String NArith ZArith Lia.
From stdpp Require Import gmap strings list fin_maps sorting.

(** * Bytes

    A [std::string] or [std::string_view] is the list of its [char]s.  [str]
    turns a literal of the source into such a list. *)

Abbreviation bytes := (list ascii).

Definition str (s : string) : bytes := list_ascii_of_string s.
Arguments str _%_string.

(** The CR LF pair, [CrlfString] of stream.h. *)
Definition CR : ascii := ascii_of_N 13.
Definition LF : ascii := ascii_of_N 10.
Definition CRLF : bytes := [CR; LF].

(** * Fallible code

    A C++ function that throws is a function to [result]: [Ok] for a normal
    return, [Throw] for the exception object. *)

Inductive result (E A : Type) : Type :=
| Ok (a : A)
| Throw (e : E).
Arguments Ok {E A} _.
Arguments Throw {E A} _.

Definition rbind {E A B : Type} (c : result E A) (k : A -> result E B) : result E B :=
  match c with
  | Ok a => k a
  | Throw e => Throw e
  end.

Definition rmap_err {E F A : Type} (f : E -> F) (c : result E A) : result F A :=
  match c with
  | Ok a => Ok a
  | Throw e => Throw (f e)
  end.

Declare Scope getodac_scope.
Delimit Scope getodac_scope with getodac.

Notation "'let*' x ':=' c 'in' k" := (rbind c (fun x => k))
  (at level 10, x name, c at level 100, k at level 200)
  : getodac_scope.

(** The standard library's exception classes the sources throw. *)
Inductive std_exception : Type :=
| invalid_argument (what : bytes)
| range_error (what : bytes)
| runtime_error (what : bytes)
| out_of_range (what : bytes).

Definition what (e : std_exception) : bytes :=
  match e with
  | invalid_argument w | range_error w | runtime_error w | out_of_range w => w
  end.

#[export] Instance std_exception_eq_dec : EqDecision std_exception.
Proof. solve_decision. Defined.

(** * Machine integers *)

(** [size_t], [uint64_t] and [unsigned long long] are 64 bits wide. *)
Definition wrap64 (z : Z) : Z := z mod 2 ^ 64.
Definition wrap32 (z : Z) : Z := z mod 2 ^ 32.
Definition wrap16 (z : Z) : Z := z mod 2 ^ 16.
Definition SIZE_MAX : Z := 2 ^ 64 - 1.
Definition UINT32_MAX : Z := 2 ^ 32 - 1.

(** * Searching in strings *)

(** First index of [c] in [s]. *)
Fixpoint index_of (c : ascii) (s : bytes) : option nat :=
  match s with
  | [] => None
  | d :: s' => if decide (d = c) then Some 0 else (S <$> index_of c s')
  end.

(** [s.find(c, pos)]; [None] is [npos]. *)
Definition find (s : bytes) (c : ascii) (pos : nat) : option nat :=
  (Nat.add pos) <$> index_of c (drop pos s).

(** [boost::starts_with] on ranges compared element by element. *)
Fixpoint starts_with {A : Type} `{EqDecision A} (s p : list A) {struct p} : bool :=
  match p, s with
  | [], _ => true
  | c :: p', d :: s' => if decide (c = d) then starts_with s' p' else false
  | _ :: _, [] => false
  end.

(** [s.find(p)] for a string pattern. *)
Fixpoint find_sub (s p : bytes) : option nat :=
  if starts_with s p then Some 0
  else match s with
       | [] => None
       | _ :: s' => S <$> find_sub s' p
       end.

(** * Positional numerals

    [std::ostream << n] prints decimal digits, with [std::hex] lower-case
    hexadecimal ones, without leading zeros. *)

Fixpoint digits_loop (fuel : nat) (base n : N) (acc : list N) : list N :=
  match fuel with
  | O => acc
  | S fuel' =>
      let acc' := (n mod base)%N :: acc in
      if (n / base =? 0)%N then acc' else digits_loop fuel' base (n / base)%N acc'
  end.

Definition digits (base n : N) : list N :=
  digits_loop (S (N.to_nat (N.log2 n))) base n [].

Definition of_digits (base : N) (l : list N) : N :=
  fold_left (fun a d => a * base + d)%N l 0%N.

Definition digit_char (d : N) : ascii :=
  ascii_of_N (if (d <? 10)%N then 48 + d else 87 + d)%N.

Definition print_dec (n : N) : bytes := digit_char <$> digits 10 n.
Definition print_hex (n : N) : bytes := digit_char <$> digits 16 n.

(** * Automation

    [getodac] collects the well-formedness and non-emptiness facts the components
    need of each other; [decided] proves a closed decidable fact by evaluating
    its decision procedure. *)

Create HintDb getodac.

Ltac decided := by apply (bool_decide_unpack _).

(** * Generic lemmas *)

Lemma index_of_Some c s i :
  index_of c s = Some i <-> c ∉ take i s /\ s !! i = Some c.
Proof.
  revert i; induction s as [|d s IH]; intros i; simpl.
  { split; [done | intros [_ H]; by rewrite lookup_nil in H]. }
  case_decide as Hd; subst.
  - split; [intros [= <-] | intros [H1 H2]].
    + by split; [apply not_elem_of_nil | ].
    + destruct i as [|i]; [done|]. simpl in H1. set_solver.
  - rewrite fmap_Some. split.
    + intros (j & Hj & ->). apply IH in Hj as [H1 H2]. simpl. set_solver.
    + intros [H1 H2]. destruct i as [|i]; simpl in *; [congruence|].
      exists i. split; [|done]. apply IH. set_solver.
Qed.

Lemma index_of_None c s : index_of c s = None <-> c ∉ s.
Proof.
  induction s as [|d s IH]; simpl; [set_solver|].
  case_decide; subst; [set_solver|].
  rewrite fmap_None, IH. set_solver.
Qed.

Lemma index_of_lt c s i : index_of c s = Some i -> i < length s.
Proof. intros [_ H]%index_of_Some. by eapply lookup_lt_Some. Qed.

Lemma starts_with_app {A : Type} `{EqDecision A} (p s : list A) :
  starts_with (p ++ s) p = true.
Proof. induction p; simpl; [done|]. by rewrite decide_True. Qed.

Lemma starts_with_spec {A : Type} `{EqDecision A} (s p : list A) :
  starts_with s p = true <-> exists r, s = p ++ r.
Proof.
  split.
  - revert s; induction p as [|c p IH]; intros s H; [by exists s|].
    destruct s as [|d s]; simpl in H; [done|]. case_decide; [subst|done].
    destruct (IH _ H) as [r ->]. by exists r.
  - intros [r ->]. apply starts_with_app.
Qed.

Lemma of_digits_snoc base l d :
  of_digits base (l ++ [d]) = (of_digits base l * base + d)%N.
Proof. unfold of_digits. by rewrite fold_left_app. Qed.

Lemma of_digits_cons_aux base l a :
  fold_left (fun a d => a * base + d)%N l a =
  (a * base ^ N.of_nat (length l) + of_digits base l)%N.
Proof.
  revert a; induction l as [|d l IH] using rev_ind; intros a.
  - cbn. lia.
  - unfold of_digits in *. rewrite !fold_left_app. simpl. rewrite IH.
    rewrite length_app, Nat.add_1_r, Nat2N.inj_succ, N.pow_succ_r'. nia.
Qed.

Lemma digits_loop_value fuel base n acc :
  (2 <= base)%N -> (n < 2 ^ N.of_nat fuel)%N -> fuel <> O ->
  of_digits base (digits_loop fuel base n acc) =
  (n * base ^ N.of_nat (length acc) + of_digits base acc)%N.
Proof.
  intros Hb. revert n acc; induction fuel as [|fuel IH]; intros n acc Hn H0; [done|].
  cbn [digits_loop].
  pose proof (N.div_mod n base ltac:(lia)) as Hdm.
  assert (Hacc : of_digits base ((n mod base)%N :: acc) =
    ((n mod base) * base ^ N.of_nat (length acc) + of_digits base acc)%N).
  { unfold of_digits at 1. simpl. by rewrite of_digits_cons_aux. }
  destruct (N.eqb_spec (n / base) 0) as [E|E].
  - rewrite Hacc. rewrite E in Hdm. f_equal. f_equal. lia.
  - rewrite Nat2N.inj_succ, N.pow_succ_r' in Hn.
    rewrite IH.
    + rewrite Hacc. simpl. rewrite Nat2N.inj_succ, N.pow_succ_r'. nia.
    + apply N.Div0.div_lt_upper_bound. nia.
    + intros ->. simpl in Hn. apply E, N.div_small. lia.
Qed.

Lemma of_digits_digits base n : (2 <= base)%N -> of_digits base (digits base n) = n.
Proof.
  intros Hb. unfold digits. rewrite digits_loop_value; [cbn; lia|done| |done].
  rewrite Nat2N.inj_succ, N2Nat.id.
  destruct (N.eq_dec n 0%N) as [->|Hn]; [done|].
  apply N.log2_spec. lia.
Qed.

Lemma digits_loop_bound fuel base n acc :
  (0 < base)%N -> Forall (fun d => d < base)%N acc ->
  Forall (fun d => d < base)%N (digits_loop fuel base n acc).
Proof.
  intros Hb. revert n acc; induction fuel as [|fuel IH]; intros n acc Hacc; [done|].
  cbn [digits_loop].
  assert (Forall (fun d => d < base)%N ((n mod base)%N :: acc)).
  { constructor; [by apply N.mod_lt; lia | done]. }
  destruct (_ =? _)%N; [done | by apply IH].
Qed.

Lemma digits_bound base n : (0 < base)%N -> Forall (fun d => d < base)%N (digits base n).
Proof. intros. by apply digits_loop_bound. Qed.

Lemma digits_loop_nonempty fuel base n acc :
  (fuel <> O \/ acc <> []) -> digits_loop fuel base n acc <> [].
Proof.
  revert n acc; induction fuel as [|fuel IH]; intros n acc H; cbn [digits_loop].
  - destruct H; done.
  - destruct (_ =? _)%N; [done|]. apply IH. by right.
Qed.

Lemma digits_nonempty base n : digits base n <> [].
Proof. apply digits_loop_nonempty. by left. Qed.

#[export] Hint Resolve digits_nonempty digits_bound starts_with_app : getodac.

Lemma NoDup_fmap_filter {A B : Type} (f : A -> B) (P : A -> Prop) `{forall x, Decision (P x)}
    (l : list A) :
  NoDup (f <$> l) -> NoDup (f <$> filter P l).
Proof.
  induction l as [|x l IH]; simpl; [done|]. intros [Hx Hl]%NoDup_cons.
  rewrite filter_cons. case_decide; [|by apply IH]. simpl.
  apply NoDup_cons; split; [|by apply IH].
  intros Hin. apply Hx. apply list_elem_of_fmap in Hin as (y & -> & Hy).
  apply list_elem_of_filter in Hy as [_ Hy]. by apply list_elem_of_fmap_2.
Qed.

Lemma filter_ext_in {A : Type} (P Q : A -> Prop) `{forall x, Decision (P x)}
    `{forall x, Decision (Q x)} (l : list A) :
  (forall x, x ∈ l -> P x <-> Q x) -> filter P l = filter Q l.
Proof.
  induction l as [|x l IH]; intros HPQ; [done|].
  rewrite !filter_cons, IH by (intros; apply HPQ; by right).
  pose proof (HPQ x ltac:(left)). repeat case_decide; tauto.
Qed.

Lemma NoDup_fmap_inj {A B : Type} (f : A -> B) (l : list A) x y :
  NoDup (f <$> l) -> x ∈ l -> y ∈ l -> f x = f y -> x = y.
Proof.
  intros Hnd [i Hi]%list_elem_of_lookup [j Hj]%list_elem_of_lookup Hf.
  assert (i = j) as ->; [|by simplify_eq].
  eapply NoDup_lookup; [exact Hnd| |]; rewrite list_lookup_fmap.
  - by rewrite Hi.
  - rewrite Hj. simpl. by rewrite Hf.
Qed.

Lemma list_find_unique {A B : Type} `{EqDecision B} (f : A -> B) (l : list A) x :
  NoDup (f <$> l) -> x ∈ l -> snd <$> list_find (fun y => f y = f x) l = Some x.
Proof.
  intros Hnd Hx. destruct (list_find_elem_of (fun y => f y = f x) l x Hx eq_refl) as [[i y] Hy].
  rewrite Hy. simpl. apply list_find_Some in Hy as (Hi & Hfy & _).
  apply list_elem_of_lookup_2 in Hi. f_equal. by eapply NoDup_fmap_inj.
Qed.

Lemma starts_with_ne {A : Type} `{EqDecision A} (c d : A) (s p : list A) :
  d <> c -> starts_with (d :: s) (c :: p) = false.
Proof. intros Hd. simpl. by rewrite decide_False by congruence. Qed.

(** A pattern is found right after a text that does not hold its first byte. *)
Lemma find_sub_app (c : ascii) (p l r : bytes) :
  c ∉ l -> find_sub (l ++ (c :: p) ++ r) (c :: p) = Some (length l).
Proof.
  induction l as [|d l IH]; intros Hc.
  - simpl. by rewrite decide_True, starts_with_app.
  - assert (d <> c) by set_solver. rewrite <- app_comm_cons. cbn [find_sub].
    rewrite starts_with_ne by done. rewrite IH by set_solver. done.
Qed.

(** Facts about the sixteen digit values are checked one by one. *)
Lemma digit_forall (P : N -> Prop) `{forall d, Decision (P d)} :
  Forall P (N.of_nat <$> seq 0 16) -> forall d, (d < 16)%N -> P d.
Proof.
  intros HP d Hd. rewrite Forall_forall in HP. apply HP, list_elem_of_fmap.
  exists (N.to_nat d). rewrite N2Nat.id, elem_of_seq. lia.
Qed.

Definition is_digit_char (c : ascii) : bool :=
  let n := N_of_ascii c in (((48 <=? n) && (n <=? 57)) || ((97 <=? n) && (n <=? 102)))%N.

Lemma digit_char_ok d : (d < 16)%N -> is_digit_char (digit_char d) = true.
Proof.
  apply (digit_forall (fun d => is_digit_char (digit_char d) = true)).
  vm_compute. repeat constructor.
Qed.

Lemma digit_chars_absent base n c :
  (0 < base <= 16)%N -> is_digit_char c = false -> c ∉ digit_char <$> digits base n.
Proof.
  intros Hb Hc (d & -> & Hd)%list_elem_of_fmap.
  pose proof (digits_bound base n ltac:(lia)) as Hall. rewrite Forall_forall in Hall.
  specialize (Hall d Hd). simpl in Hall. rewrite digit_char_ok in Hc by lia. done.
Qed.
