(* ===== verification/Threads.v ===== *)
(** The thread helpers of Dracon: [SpinLock] and [SimpleTimer] of
    include/dracon/utils.h and [ThreadWorker] of include/dracon/thread_worker.h.

    Each is a transition function: a label says which thread takes its next step
    (or which outside event happens), the state says where every thread is, and
    [None] means that the step is not enabled.  A run is a list of labels, so the
    theorems quantify over every interleaving.  A condition variable releases its
    mutex and parks the thread in one step; a notification reaches only threads
    that are parked already; a parked thread may also wake up spuriously. *)

From Stdlib Require Import Ascii Lia.
From stdpp Require Import base list.
From S2P Require Import Prelude.

(** * Runs of a transition function *)

Section Runs.
Context {L S : Type} (step : L -> S -> option S).

Fixpoint run (ls : list L) (s : S) : option S :=
  match ls with
  | [] => Some s
  | l :: ls' => step l s ≫= run ls'
  end.

Definition reaches (s s' : S) : Prop := exists ls, run ls s = Some s'.

(** Nothing can happen any more. *)
Definition stuck (s : S) : Prop := forall l, step l s = None.

Lemma run_app ls1 ls2 s : run (ls1 ++ ls2) s = run ls1 s ≫= run ls2.
Proof.
  revert s; induction ls1 as [|l ls1 IH]; intros s; [done|]. simpl.
  destruct (step l s); simpl; [apply IH|done].
Qed.

Lemma run_invariant (I : S -> Prop) ls s s' :
  (forall l s s', I s -> step l s = Some s' -> I s') -> I s -> run ls s = Some s' -> I s'.
Proof.
  intros HI. revert s; induction ls as [|l ls IH]; intros s Hs; simpl; [by intros [= <-]|].
  destruct (step l s) as [s1|] eqn:E; simpl; [|done]. apply IH. by eapply HI.
Qed.

(** A measure that every step decreases bounds the length of every run. *)
Lemma run_bounded (I : S -> Prop) (m : S -> nat) ls s s' :
  (forall l s s', I s -> step l s = Some s' -> I s' /\ m s' < m s) ->
  I s -> run ls s = Some s' -> length ls + m s' <= m s.
Proof.
  intros HI. revert s; induction ls as [|l ls IH]; intros s Hs; simpl; [intros [= <-]; lia|].
  destruct (step l s) as [s1|] eqn:E; simpl; [|done]. intros Hr.
  destruct (HI l s s1 Hs E) as [Hs1 Hm]. specialize (IH s1 Hs1 Hr). lia.
Qed.
End Runs.

(** * SpinLock *)

Module SpinLock.

(** [std::atomic_flag::test_and_set]: the old value and the new one. *)
Definition test_and_set (flag : bool) : bool * bool := (flag, true).

Definition tryLock (flag : bool) : bool * bool :=
  let '(old, flag') := test_and_set flag in (negb old, flag').

Definition unlock (flag : bool) : bool := false.

(** Where a thread is: it spins in [lock] between the call and the iteration that
    finds the flag clear. *)
Inductive position : Type := Outside | Spinning | Inside.

#[export] Instance position_eq_dec : EqDecision position.
Proof. solve_decision. Defined.

Record spin_lock := State { m_lock : bool; threads : list position }.

Inductive label : Type :=
| call_lock (i : nat)
| spin (i : nat)
| call_tryLock (i : nat)
| call_unlock (i : nat).

Definition move (i : nat) (p : position) (flag : bool) (s : spin_lock) : option spin_lock :=
  Some (State flag (<[i := p]> (threads s))).

(** [spin] is one iteration of [while (m_lock.test_and_set(...)) ;]. *)
Definition lock_step (l : label) (s : spin_lock) : option spin_lock :=
  match l with
  | call_lock i =>
      match threads s !! i with Some Outside => move i Spinning (m_lock s) s | _ => None end
  | spin i =>
      match threads s !! i with
      | Some Spinning =>
          let '(old, flag) := test_and_set (m_lock s) in
          move i (if old then Spinning else Inside) flag s
      | _ => None
      end
  | call_tryLock i =>
      match threads s !! i with
      | Some Outside =>
          let '(ok, flag) := tryLock (m_lock s) in move i (if ok then Inside else Outside) flag s
      | _ => None
      end
  | call_unlock i =>
      match threads s !! i with Some Inside => move i Outside (unlock (m_lock s)) s | _ => None end
  end.

Definition new_lock (n : nat) : spin_lock := State false (replicate n Outside).

(** The flag is set exactly while one thread is inside. *)
Definition inv (s : spin_lock) : Prop :=
  (m_lock s = true <-> exists i, threads s !! i = Some Inside) /\
  forall i j, threads s !! i = Some Inside -> threads s !! j = Some Inside -> i = j.

Lemma inside_insert (l : list position) i j p q :
  l !! i = Some q ->
  <[i := p]> l !! j = Some Inside <-> (i = j /\ p = Inside) \/ (i <> j /\ l !! j = Some Inside).
Proof.
  intros Hi. apply lookup_lt_Some in Hi. destruct (decide (i = j)) as [->|Hne].
  - rewrite list_lookup_insert_eq by done. naive_solver.
  - rewrite list_lookup_insert_ne by done. naive_solver.
Qed.

Lemma lock_step_inv l s s' : inv s -> lock_step l s = Some s' -> inv s'.
Proof.
  intros [H1 H2] Hs. unfold inv.
  destruct l as [i|i|i|i]; simpl in Hs; destruct (threads s !! i) as [[]|] eqn:E; try done;
    injection Hs as <-; simpl; setoid_rewrite (inside_insert _ _ _ _ _ E);
    destruct (m_lock s); naive_solver.
Qed.

Lemma new_lock_inv n : inv (new_lock n).
Proof.
  split; simpl; [split; [done|]|]; [intros [i Hi]|intros i j Hi];
    apply lookup_replicate in Hi as [Hi _]; done.
Qed.
End SpinLock.

(** * SimpleTimer *)

Module SimpleTimer.

(** Where the timer's thread is.  [Test] and [Last] evaluate the predicate of
    [wait_for] (before waiting, and after the timeout), [Park] is between a false
    predicate and the wait. *)
Inductive position : Type :=
| Lock | Test | Park | Wait | Wake (timed_out : bool) | Last | Callback | Store | Finished.

#[export] Instance position_eq_dec : EqDecision position.
Proof. solve_decision. Defined.

(** Where the destructor is. *)
Inductive destructor : Type := Alive | Quit | Notified | Joined.

Record timer := State {
  m_quit : bool;
  thread : position;
  owner : destructor;
  calls : nat
}.

Definition at_ (p : position) (s : timer) : timer := State (m_quit s) p (owner s) (calls s).

(** The thread's own next step. *)
Definition thread_step (singleShot : bool) (s : timer) : option timer :=
  match thread s with
  | Lock => Some (at_ Test s)
  | Test => Some (at_ (if m_quit s then Finished else Park) s)
  | Park => Some (at_ Wait s)
  | Wait => None
  | Wake timed_out => Some (at_ (if timed_out then Last else Test) s)
  | Last => Some (at_ (if m_quit s then Finished else Callback) s)
  | Callback => Some (State (m_quit s) (if singleShot then Store else Test) (owner s) (S (calls s)))
  | Store => Some (State true Test (owner s) (calls s))
  | Finished => None
  end.

(** The destructor: stores [m_quit], notifies, joins. *)
Definition timer_destroy_step (s : timer) : option timer :=
  match owner s with
  | Alive => Some (State true (thread s) Quit (calls s))
  | Quit => Some (State (m_quit s) (match thread s with Wait => Wake false | p => p end) Notified (calls s))
  | Notified => match thread s with Finished => Some (State (m_quit s) Finished Joined (calls s)) | _ => None end
  | Joined => None
  end.

Inductive label : Type := run_thread | elapse | spurious | destroy.

Definition timer_step (singleShot : bool) (l : label) (s : timer) : option timer :=
  match l with
  | run_thread => thread_step singleShot s
  | elapse => match thread s with Wait => Some (at_ (Wake true) s) | _ => None end
  | spurious => match thread s with Wait => Some (at_ (Wake false) s) | _ => None end
  | destroy => timer_destroy_step s
  end.

Definition new_timer : timer := State false Lock Alive 0.

(** The steps left to a thread that is to quit, and to the destructor. *)
Definition thread_left (p : position) : nat :=
  match p with
  | Finished => 0 | Test | Last => 1 | Store | Wake _ | Lock => 2 | Callback | Wait => 3 | Park => 4
  end.

Definition owner_left (d : destructor) : nat :=
  match d with Alive => 3 | Quit => 2 | Notified => 1 | Joined => 0 end.

Definition steps_left (s : timer) : nat := thread_left (thread s) + owner_left (owner s).

(** What a step does once [m_quit] is set. *)
Lemma quit_step b l s s' :
  m_quit s = true -> timer_step b l s = Some s' ->
  m_quit s' = true /\ steps_left s' < steps_left s /\
  calls s' + (if decide (thread s' = Callback) then 1 else 0) <=
  calls s + (if decide (thread s = Callback) then 1 else 0).
Proof.
  destruct s as [q p d n]. simpl. intros -> Hs. unfold steps_left.
  destruct l; [destruct p as [| | | |[]| | | |]; try destruct b|destruct p..|
    destruct d; destruct p as [| | | |[]| | | |]];
    cbv [timer_step thread_step timer_destroy_step at_] in Hs; simpl in Hs; simplify_eq; simpl; split_and!; (done || lia).
Qed.

(** A timer that is to quit calls back at most once more, and only if it had
    decided to. *)
Lemma quit_calls b ls s s' :
  m_quit s = true -> run (timer_step b) ls s = Some s' ->
  calls s' <= calls s + (if decide (thread s = Callback) then 1 else 0).
Proof.
  intros Hq Hr. set (m := fun x => calls x + (if decide (thread x = Callback) then 1 else 0)).
  assert (Hi : m_quit s' = true /\ m s' <= m s); [|unfold m in Hi; lia].
  apply (run_invariant (timer_step b) (fun x => m_quit x = true /\ m x <= m s) ls s s'); [|done|done].
  intros l x x' [Hx Hm] Es. destruct (quit_step b l x x' Hx Es) as (? & _ & ?). unfold m in *. split; [done|lia].
Qed.

(** Before the first callback of a single-shot timer, or after it with [m_quit] on
    its way. *)
Definition shot_inv (s : timer) : Prop :=
  calls s = 0 \/ (calls s = 1 /\ thread s <> Callback /\ (m_quit s = true \/ thread s = Store)).

Lemma shot_step l s s' : shot_inv s -> timer_step true l s = Some s' -> shot_inv s'.
Proof.
  destruct s as [q p d n]. unfold shot_inv. simpl. intros Hi Hs.
  destruct l; [destruct p as [| | | |[]| | | |]|destruct p..|destruct d; destruct p as [| | | |[]| | | |]];
    cbv [timer_step thread_step timer_destroy_step at_] in Hs; simpl in Hs; simplify_eq; simpl; naive_solver.
Qed.

Lemma progress b s : m_quit s = true -> stuck (timer_step b) s -> thread s = Finished /\ owner s = Joined.
Proof.
  intros Hq Hs. pose proof (Hs run_thread) as H1. pose proof (Hs elapse) as H2. pose proof (Hs destroy) as H3.
  destruct s as [q p d n]. simpl in *. destruct p as [| | | |[]| | | |]; try done. by destruct d.
Qed.
End SimpleTimer.

(** * ThreadWorker *)

Module ThreadWorker.
Section ThreadWorker.
Context {T : Type}.

(** Where a worker is: [Top] tests [m_quit] of the loop, [Lock] to [Take] are in
    [nextTask] ([Test] evaluates the predicate of [wait], [Park] is between a
    false predicate and the wait), [Run] executes a task. *)
Inductive position : Type :=
| Top | Lock | Test | Park | Wait | Wake | Take | Run (task : T) | Finished.

(** The destructor: stores [m_quit], notifies all, joins the workers in order. *)
Inductive destructor : Type := Alive | Quit | Joining (i : nat).

(** [inserted] and [started] record the tasks for the theorems. *)
Record pool := State {
  m_quit : bool;
  m_pendingTasks : list T;
  m_lock : bool;
  m_workers : list position;
  owner : destructor;
  inserted : list T;
  started : list T
}.

(** The constructor starts [std::max(uint32_t(1), workers)] threads. *)
Definition new_worker (workers : nat) : pool :=
  State false [] false (replicate (Nat.max 1 workers) Top) Alive [] [].

Definition at_ (i : nat) (p : position) (lock : bool) (s : pool) : pool :=
  State (m_quit s) (m_pendingTasks s) lock (<[i := p]> (m_workers s)) (owner s) (inserted s) (started s).

(** The next step of worker [i]; a task ends or throws, which is caught. *)
Definition worker_step (i : nat) (s : pool) : option pool :=
  match m_workers s !! i with
  | Some Top => Some (at_ i (if m_quit s then Finished else Lock) (m_lock s) s)
  | Some Lock => if m_lock s then None else Some (at_ i Test true s)
  | Some Test =>
      Some (at_ i (if (m_quit s || negb (bool_decide (m_pendingTasks s = [])))%bool then Take else Park) (m_lock s) s)
  | Some Park => Some (at_ i Wait false s)
  | Some Wake => if m_lock s then None else Some (at_ i Test true s)
  | Some Take =>
      if m_quit s then Some (at_ i Top false s)
      else match m_pendingTasks s with
           | t :: rest =>
               Some (State (m_quit s) rest false (<[i := Run t]> (m_workers s)) (owner s)
                       (inserted s) (started s ++ [t]))
           | [] => None
           end
  | Some (Run _) => Some (at_ i Top (m_lock s) s)
  | _ => None
  end.

(** [notify_one] wakes a waiting worker, whichever the system chooses. *)
Definition is_waiting (p : position) : bool := match p with Wait => true | _ => false end.

Definition notify (p : position) : position := match p with Wait => Wake | _ => p end.

(** [insertTask] while the object lives; [j] is the worker [notify_one] wakes, any
    number when none waits. *)
Definition insert_step (task : T) (j : nat) (s : pool) : option pool :=
  match owner s, m_lock s with
  | Alive, false =>
      if existsb is_waiting (m_workers s) then
        match m_workers s !! j with
        | Some Wait =>
            Some (State (m_quit s) (task :: m_pendingTasks s) false (<[j := Wake]> (m_workers s)) Alive
                    (inserted s ++ [task]) (started s))
        | _ => None
        end
      else Some (State (m_quit s) (task :: m_pendingTasks s) false (m_workers s) Alive
                   (inserted s ++ [task]) (started s))
  | _, _ => None
  end.

Definition worker_destroy_step (s : pool) : option pool :=
  match owner s with
  | Alive =>
      Some (State true (m_pendingTasks s) (m_lock s) (m_workers s) Quit (inserted s) (started s))
  | Quit =>
      Some (State (m_quit s) (m_pendingTasks s) (m_lock s) (notify <$> m_workers s) (Joining 0)
              (inserted s) (started s))
  | Joining i =>
      match m_workers s !! i with
      | Some Finished =>
          Some (State (m_quit s) (m_pendingTasks s) (m_lock s) (m_workers s) (Joining (S i))
                  (inserted s) (started s))
      | _ => None
      end
  end.

Inductive label : Type :=
| run_worker (i : nat)
| spurious (i : nat)
| insertTask (task : T) (j : nat)
| destroy.

Definition pool_step (l : label) (s : pool) : option pool :=
  match l with
  | run_worker i => worker_step i s
  | spurious i =>
      match m_workers s !! i with Some Wait => Some (at_ i Wake (m_lock s) s) | _ => None end
  | insertTask t j => insert_step t j s
  | destroy => worker_destroy_step s
  end.

(** The destructor has returned. *)
Definition destroyed (s : pool) : Prop :=
  match owner s with Joining i => i = length (m_workers s) | _ => False end.

(** ** Invariant *)

(** The positions in which a worker holds [m_lock]. *)
Definition holds (p : position) : bool := match p with Test | Park | Take => true | _ => false end.

(** A worker that will look at the pending tasks (again). *)
Definition active (p : position) : bool :=
  match p with Park | Wait | Finished => false | _ => true end.

(** The mutex is held exactly while one worker is in its critical section. *)
Definition guarded (lock : bool) (ws : list position) : Prop :=
  (lock = true <-> exists i p, ws !! i = Some p /\ holds p = true) /\
  forall i j p q, ws !! i = Some p -> ws !! j = Some q -> holds p = true -> holds q = true -> i = j.

Record inv (s : pool) : Prop := {
  inv_guard : guarded (m_lock s) (m_workers s);
  inv_take : forall i, m_workers s !! i = Some Take -> m_quit s = true \/ m_pendingTasks s <> [];
  inv_park : forall i, m_workers s !! i = Some Park -> m_pendingTasks s = [];
  inv_live : m_pendingTasks s <> [] -> m_quit s = false ->
    exists i p, m_workers s !! i = Some p /\ active p = true;
  inv_finished : forall i, m_workers s !! i = Some Finished -> m_quit s = true;
  inv_owner : m_quit s = false <-> owner s = Alive;
  inv_some : m_workers s <> [];
  inv_tasks : inserted s ≡ₚ m_pendingTasks s ++ started s
}.

(** Splits what is known of a worker after one has moved. *)
Ltac moved :=
  repeat match goal with
  | H : <[_ := _]> _ !! _ = Some _ |- _ =>
      apply list_lookup_insert_Some in H; destruct H as [(? & ? & _)|(? & H)]; subst
  end.

Lemma guarded_move lock ws i p0 p :
  ws !! i = Some p0 -> guarded lock ws -> (holds p = true -> holds p0 = true \/ lock = false) ->
  guarded (holds p || (lock && negb (holds p0))) (<[i := p]> ws).
Proof.
  intros Hi [H1 H2] Hp. pose proof (lookup_lt_Some _ _ _ Hi) as Hlt. split.
  - split.
    + intros Hl. destruct (holds p) eqn:Ep.
      { exists i, p. by rewrite list_lookup_insert_eq. }
      simpl in Hl. apply andb_true_iff in Hl as [Hl Hn].
      destruct (proj1 H1 Hl) as (j & q & Hj & Hq). exists j, q. split; [|done].
      rewrite list_lookup_insert_ne; [done|]. intros ->. simplify_eq. by rewrite Hq in Hn.
    + intros (j & q & Hj & Hq). moved; [by rewrite Hq|].
      destruct (holds p) eqn:Ep; [done|]. simpl. apply andb_true_iff.
      assert (lock = true) as -> by (apply H1; eauto). split; [done|].
      destruct (holds p0) eqn:E0; [|done]. by destruct (H2 i j p0 q).
  - intros j k q r Hj Hk Hq Hr. moved; try done; try (by eapply H2);
      destruct (Hp ltac:(done)) as [H0| ->]; try (by eapply H2);
      exfalso; assert (false = true) by (apply H1; eauto); done.
Qed.

Lemma guarded_holds lock ws i p : guarded lock ws -> ws !! i = Some p -> holds p = true -> lock = true.
Proof. intros [H _] Hi Hp. apply H. eauto. Qed.

(** A worker moves and nothing else changes. *)
Lemma inv_move s i p0 p lock :
  inv s -> m_workers s !! i = Some p0 ->
  (holds p = true -> holds p0 = true \/ m_lock s = false) ->
  lock = (holds p || (m_lock s && negb (holds p0)))%bool ->
  (p = Take -> m_quit s = true \/ m_pendingTasks s <> []) -> (p = Park -> m_pendingTasks s = []) ->
  (p = Finished -> m_quit s = true) ->
  (active p = true \/ m_pendingTasks s = [] \/ m_quit s = true) -> inv (at_ i p lock s).
Proof.
  intros H Hi Hp -> Htake Hpark Hfin Hlive. pose proof (lookup_lt_Some _ _ _ Hi) as Hlt.
  split; simpl; [apply guarded_move; [done|apply H|done]| | | | |apply H| |apply H].
  - intros j Hj. moved; [auto|by eapply inv_take].
  - intros j Hj. moved; [auto|by eapply inv_park].
  - intros Hne Hq. destruct Hlive as [Ha|[?|?]]; [|done|congruence].
    exists i, p. by rewrite list_lookup_insert_eq.
  - intros j Hj. moved; [auto|by eapply inv_finished].
  - intros E. apply (f_equal length) in E. rewrite length_insert in E.
    apply (inv_some s H). by apply nil_length_inv.
Qed.

(** Worker [i] moves from [p0] by [inv_move]. *)
Ltac moves s i p0 := apply (inv_move s i p0); simpl; rewrite ?andb_true_r; try done; auto.

(** Worker [i] takes the task on top of the stack. *)
Lemma take_inv i s t rest :
  inv s -> m_workers s !! i = Some Take -> m_pendingTasks s = t :: rest ->
  inv (State (m_quit s) rest false (<[i := Run t]> (m_workers s)) (owner s) (inserted s) (started s ++ [t])).
Proof.
  intros H Hi Ep. pose proof (lookup_lt_Some _ _ _ Hi) as Hlt.
  assert (Hl : m_lock s = true) by (eapply guarded_holds; [apply H|done|done]).
  pose proof (guarded_move _ _ i Take (Run t) Hi (inv_guard s H) ltac:(done)) as Hg.
  rewrite Hl in Hg. split; simpl; [exact Hg| | | | |apply H| |].
  - intros j Hj. moved; [done|]. exfalso. by destruct (proj2 (inv_guard s H) i j Take Take).
  - intros j Hj. moved; [done|]. exfalso. by destruct (proj2 (inv_guard s H) i j Take Park).
  - intros _ _. exists i, (Run t). by rewrite list_lookup_insert_eq.
  - intros j Hj. moved; [done|]. by eapply inv_finished.
  - intros E. apply (f_equal length) in E. rewrite length_insert in E.
    apply (inv_some s H). by apply nil_length_inv.
  - rewrite (inv_tasks s H), Ep, (Permutation_app_comm (started s) [t]), Permutation_app_swap_app. done.
Qed.

Lemma worker_step_inv i s s' : inv s -> worker_step i s = Some s' -> inv s'.
Proof.
  intros H. unfold worker_step. destruct (m_workers s !! i) as [p|] eqn:Hi; [|done].
  pose proof (guarded_holds _ _ i p (inv_guard s H) Hi) as Hh. destruct p; try done.
  - intros [= <-]. destruct (m_quit s) eqn:Eq; moves s i Top.
  - destruct (m_lock s) eqn:El; [done|]. intros [= <-]. moves s i Lock.
  - intros [= <-]. rewrite (Hh eq_refl). destruct (m_quit s || _)%bool eqn:E.
    + moves s i Test. intros _.
      apply orb_true_iff in E as [?|E%negb_true_iff%bool_decide_eq_false]; auto.
    + apply orb_false_iff in E as [E1 E2%negb_false_iff%bool_decide_eq_true]. moves s i Test.
  - intros [= <-]. moves s i Park; [by rewrite andb_false_r|].
    right. left. by eapply inv_park.
  - destruct (m_lock s) eqn:El; [done|]. intros [= <-]. moves s i Wake.
  - destruct (m_quit s) eqn:Eq; [intros [= <-]; moves s i Take; by rewrite andb_false_r|].
    destruct (m_pendingTasks s) as [|t rest] eqn:Ep; [done|]. intros [= <-].
    pose proof (take_inv i s t rest H Hi Ep) as Ht. by rewrite Eq in Ht.
  - intros [= <-]. moves s i (Run task).
Qed.

Lemma existsb_waiting (ws : list position) :
  existsb is_waiting ws = false -> forall i, ws !! i <> Some Wait.
Proof.
  intros E i Hi. assert (existsb is_waiting ws = true); [|congruence].
  apply existsb_exists. exists Wait. split; [|done].
  apply list_elem_of_In. by eapply list_elem_of_lookup_2.
Qed.

Lemma insert_step_inv t j s s' : inv s -> insert_step t j s = Some s' -> inv s'.
Proof.
  intros H. unfold insert_step. destruct (owner s) eqn:Eo; [|done..]. destruct (m_lock s) eqn:El; [done|].
  assert (Hno : forall i p, m_workers s !! i = Some p -> holds p = false).
  { intros i p Hi. destruct (holds p) eqn:Ep; [|done].
    pose proof (guarded_holds _ _ i p (inv_guard s H) Hi Ep). congruence. }
  assert (Hq : m_quit s = false) by (by apply (inv_owner s H)).
  assert (Htasks : forall l, inserted s ++ [t] ≡ₚ t :: l ++ started s <-> inserted s ≡ₚ l ++ started s).
  { intros l. rewrite (Permutation_app_comm (inserted s)). simpl. split; [apply Permutation_cons_inv|by intros ->]. }
  destruct (existsb is_waiting (m_workers s)) eqn:Ew.
  - destruct (m_workers s !! j) as [[]|] eqn:Hj; try done. intros [= <-].
    pose proof (guarded_move _ _ j Wait Wake Hj (inv_guard s H) ltac:(done)) as Hg. rewrite El in Hg.
    pose proof (lookup_lt_Some _ _ _ Hj) as Hlt.
    split; simpl; [exact Hg|by right| | | |by rewrite Hq| |apply Htasks, H].
    + intros i Hi. moved; [done|]. by specialize (Hno i Park Hi).
    + intros _ _. exists j, Wake. by rewrite list_lookup_insert_eq.
    + intros i Hi. moved; [done|]. by eapply inv_finished.
    + intros E. apply (f_equal length) in E. rewrite length_insert in E.
      apply (inv_some s H). by apply nil_length_inv.
  - intros [= <-]. pose proof (existsb_waiting _ Ew) as Hw.
    split; simpl; [rewrite <- El; apply H|by right| | |apply H|by rewrite Hq|apply H|apply Htasks, H].
    + intros i Hi. by specialize (Hno i Park Hi).
    + intros _ _. destruct (m_workers s) as [|p ws] eqn:E; [by destruct (inv_some s H)|].
      exists 0, p. split; [done|]. specialize (Hno 0 p eq_refl). specialize (Hw 0).
      assert (Hf := inv_finished s H 0). rewrite E, Hq in Hf.
      destruct p; try done. by specialize (Hf eq_refl).
Qed.

Lemma fmap_notify_Some (ws : list position) i p :
  (notify <$> ws) !! i = Some p -> exists q, ws !! i = Some q /\ p = notify q.
Proof. rewrite list_lookup_fmap, fmap_Some. done. Qed.

Lemma holds_notify p : holds (notify p) = holds p.
Proof. by destruct p. Qed.

Lemma guarded_notify lock ws : guarded lock ws -> guarded lock (notify <$> ws).
Proof.
  intros [H1 H2]. split.
  - rewrite H1. split; intros (i & p & Hi & Hp).
    + exists i, (notify p). by rewrite list_lookup_fmap, Hi, holds_notify.
    + apply fmap_notify_Some in Hi as (q & Hi & ->). exists i, q. by rewrite holds_notify in Hp.
  - intros i j p q Hi Hj. apply fmap_notify_Some in Hi as (p' & Hi & ->), Hj as (q' & Hj & ->).
    rewrite !holds_notify. by eapply H2.
Qed.

Lemma destroy_step_inv s s' : inv s -> worker_destroy_step s = Some s' -> inv s'.
Proof.
  intros H. unfold worker_destroy_step. destruct (owner s) as [| |i] eqn:Eo.
  - intros [= <-]. split; simpl; [apply H|by left|apply H|done|done|done|apply H|apply H].
  - assert (Hq : m_quit s = true).
    { destruct (m_quit s) eqn:E; [done|]. apply (inv_owner s H) in E. congruence. }
    intros [= <-]. split; simpl; [apply guarded_notify, H|by left| | |done| | |apply H].
    + intros i Hi. apply fmap_notify_Some in Hi as (q & Hi & Hp). destruct q; try done. by eapply inv_park.
    + by rewrite Hq.
    + by rewrite Hq.
    + intros E%fmap_nil_inv. by apply (inv_some s H).
  - assert (Hq : m_quit s = true).
    { destruct (m_quit s) eqn:E; [done|]. apply (inv_owner s H) in E. congruence. }
    destruct (m_workers s !! i) as [[]|]; try done. intros [= <-].
    split; simpl; [apply H..|by rewrite Hq|apply H|apply H].
Qed.

Lemma pool_step_inv l s s' : inv s -> pool_step l s = Some s' -> inv s'.
Proof.
  intros H. destruct l as [i|i|t j|]; simpl.
  - by apply worker_step_inv.
  - destruct (m_workers s !! i) as [[]|] eqn:Hi; try done. intros [= <-]. moves s i Wait.
  - by apply insert_step_inv.
  - by apply destroy_step_inv.
Qed.

Lemma new_worker_inv n : inv (new_worker n).
Proof.
  assert (Ht : forall i p, replicate (Nat.max 1 n) Top !! i = Some p -> p = Top).
  { intros i p [Hi _]%lookup_replicate. done. }
  split; simpl; [split|..]; try done; try (intros i Hi; by apply Ht in Hi).
  - split; [done|]. intros (i & p & Hi & Hp). by apply Ht in Hi as ->.
  - intros i j p q Hi Hj Hp. by apply Ht in Hi as ->.
  - destruct n; simpl; [done|]. by destruct n.
Qed.

(** ** Termination of the destructor *)

(** After [notify_all] no worker is, or will ever be, asleep or about to be. *)
Definition awake (p : position) : bool := match p with Park | Wait => false | _ => true end.

Definition quitting (s : pool) : Prop :=
  m_quit s = true /\ Forall (fun p => awake p = true) (m_workers s) /\
  (exists i, owner s = Joining i /\ i <= length (m_workers s)).

(** The steps left to a worker that is to quit. *)
Definition worker_left (p : position) : nat :=
  match p with
  | Finished => 0 | Top => 1 | Take | Run _ => 2 | Test => 3 | Lock | Wake => 4 | Park | Wait => 5
  end.

Definition steps_left (s : pool) : nat :=
  sum_list (worker_left <$> m_workers s) +
  match owner s with Joining i => length (m_workers s) - i | _ => 0 end.

Lemma sum_list_insert (f : position -> nat) ws i p0 p :
  ws !! i = Some p0 -> sum_list (f <$> <[i := p]> ws) + f p0 = sum_list (f <$> ws) + f p.
Proof.
  revert i; induction ws as [|q ws IH]; intros [|i] Hi; simplify_eq/=; [lia|].
  specialize (IH i Hi). lia.
Qed.

Lemma quitting_move s i p0 p lock :
  quitting s -> m_workers s !! i = Some p0 -> awake p = true -> worker_left p < worker_left p0 ->
  quitting (at_ i p lock s) /\ steps_left (at_ i p lock s) < steps_left s.
Proof.
  intros (Hq & Ha & k & Ho & Hk) Hi Hp Hlt. split.
  - split_and!; simpl; [done|by apply Forall_insert|]. exists k. by rewrite length_insert.
  - unfold steps_left. simpl. rewrite Ho, length_insert.
    pose proof (sum_list_insert worker_left (m_workers s) i p0 p Hi). lia.
Qed.

Lemma quitting_step l s s' :
  quitting s -> pool_step l s = Some s' -> quitting s' /\ steps_left s' < steps_left s.
Proof.
  intros Hs. pose proof Hs as (Hq & Ha & k & Ho & Hk).
  assert (Haw : forall i p, m_workers s !! i = Some p -> awake p = true).
  { intros i p Hi. by apply (proj1 (Forall_lookup _ _) Ha i). }
  destruct l as [i|i|t j|]; simpl.
  - unfold worker_step. destruct (m_workers s !! i) as [p|] eqn:Hi; [|done]. specialize (Haw i p Hi).
    rewrite Hq. simpl. destruct p; try done;
      try (destruct (m_lock s); [done|]); intros [= <-]; (eapply quitting_move; [done|done|done|simpl; lia]).
  - destruct (m_workers s !! i) as [[]|] eqn:Hi; try done. by specialize (Haw i Wait Hi).
  - unfold insert_step. by rewrite Ho.
  - unfold worker_destroy_step. rewrite Ho. destruct (m_workers s !! k) as [[]|] eqn:Hi; try done. intros [= <-].
    apply lookup_lt_Some in Hi. split.
    + split_and!; simpl; [done|done|]. exists (S k). split; [done|lia].
    + unfold steps_left. simpl. rewrite Ho. lia.
Qed.

(** [notify_all] reaches every worker that waits. *)
Lemma notified_quitting s s1 :
  inv s -> owner s = Quit -> Park ∉ m_workers s -> worker_destroy_step s = Some s1 -> quitting s1.
Proof.
  intros H Ho Hp. unfold worker_destroy_step. rewrite Ho. intros [= <-]. split_and!; simpl.
  - destruct (m_quit s) eqn:E; [done|]. apply (inv_owner s H) in E. congruence.
  - apply Forall_fmap, Forall_forall. intros p Hin. destruct p; try done.
  - exists 0. split; [done|lia].
Qed.

(** As long as the destructor has not returned, somebody can go on. *)
Lemma quitting_progress s : inv s -> quitting s -> stuck pool_step s -> destroyed s.
Proof.
  intros H (Hq & Ha & k & Ho & Hk) Hs. unfold destroyed. rewrite Ho.
  destruct (Nat.eq_dec k (length (m_workers s))) as [->|Hne]; [done|exfalso].
  destruct (lookup_lt_is_Some_2 (m_workers s) k ltac:(lia)) as [p Hp].
  assert (Hh : m_lock s = false).
  { destruct (m_lock s) eqn:El; [exfalso|done]. apply (inv_guard s H) in El as (i & q & Hi & Hh).
    specialize (Hs (run_worker i)). simpl in Hs. unfold worker_step in Hs. rewrite Hi, Hq in Hs. by destruct q. }
  specialize (Hs destroy) as Hd. simpl in Hd. unfold worker_destroy_step in Hd. rewrite Ho, Hp in Hd.
  specialize (Hs (run_worker k)). simpl in Hs. unfold worker_step in Hs. rewrite Hp, Hq, Hh in Hs.
  assert (awake p = true) by (by apply (proj1 (Forall_lookup _ _) Ha k)). by destruct p.
Qed.

(** ** Tasks are not forgotten *)

(** While a task is pending and the object lives, some worker can move. *)
Lemma live_progress s :
  inv s -> m_pendingTasks s <> [] -> m_quit s = false -> exists i s', worker_step i s = Some s'.
Proof.
  intros H Hp Hq. destruct (m_lock s) eqn:El.
  - apply (inv_guard s H) in El as (i & p & Hi & Hh). exists i. unfold worker_step. rewrite Hi, Hq.
    destruct p; try done; [eauto|eauto|]. destruct (m_pendingTasks s); [done|eauto].
  - destruct (inv_live s H Hp Hq) as (i & p & Hi & Ha). exists i. unfold worker_step. rewrite Hi, El.
    destruct p; try done; eauto. exfalso.
    pose proof (guarded_holds _ _ i Take (inv_guard s H) Hi eq_refl). congruence.
Qed.

(** A worker that sleeps while the destructor waits for it sleeps on. *)
Definition hangs (s : pool) : Prop :=
  m_workers s !! 0 = Some Wait /\ owner s = Joining 0.

Lemma hangs_step l s s' :
  hangs s -> (forall i, l <> spurious i) -> pool_step l s = Some s' -> hangs s'.
Proof.
  intros [Hw Ho] Hl. unfold hangs. destruct l as [i|i|t j|]; simpl; [|by destruct (Hl i)| |].
  - assert (Hne : forall p, i = 0 -> m_workers s !! i = Some p -> p = Wait) by (intros p ->; congruence).
    unfold worker_step. destruct (m_workers s !! i) as [p|] eqn:Hi; [|done].
    destruct (decide (i = 0)) as [Hz|Hz]; [by rewrite (Hne p Hz eq_refl)|].
    repeat case_match; intros; simplify_eq; simpl; by rewrite list_lookup_insert_ne.
  - unfold insert_step. by rewrite Ho.
  - unfold worker_destroy_step. by rewrite Ho, Hw.
Qed.
End ThreadWorker.
Arguments position : clear implicits.
Arguments pool : clear implicits.
Arguments label : clear implicits.
End ThreadWorker.

(** * Properties *)

(** C33. [SpinLock]: whatever the interleaving of [lock], [tryLock] and [unlock]
    calls of any number of threads, at most one thread is between acquiring the
    lock and releasing it, and the flag is set exactly while one is; a thread that
    spins gets in with its next iteration as soon as nobody is inside, and
    [tryLock] succeeds exactly then. *)
Theorem spin_lock_excludes n ls s :
  run SpinLock.lock_step ls (SpinLock.new_lock n) = Some s ->
  (forall i j, SpinLock.threads s !! i = Some SpinLock.Inside ->
     SpinLock.threads s !! j = Some SpinLock.Inside -> i = j) /\
  (SpinLock.m_lock s = true <-> exists i, SpinLock.threads s !! i = Some SpinLock.Inside) /\
  ((forall i, SpinLock.threads s !! i <> Some SpinLock.Inside) ->
     (SpinLock.tryLock (SpinLock.m_lock s)).1 = true /\
     forall i, SpinLock.threads s !! i = Some SpinLock.Spinning ->
       exists s', SpinLock.lock_step (SpinLock.spin i) s = Some s' /\
         SpinLock.threads s' !! i = Some SpinLock.Inside).
Proof.
  intros Hr. assert (Hi : SpinLock.inv s).
  { eapply run_invariant; [apply SpinLock.lock_step_inv|apply SpinLock.new_lock_inv|exact Hr]. }
  destruct Hi as [H1 H2]. split; [done|]. split; [done|]. intros Hno.
  destruct (SpinLock.m_lock s) eqn:E; [by destruct (proj1 H1 eq_refl) as [i Hi]; destruct (Hno i)|].
  split; [done|]. intros i Hi. eexists. simpl. rewrite Hi, E. simpl. split; [reflexivity|]. simpl.
  apply list_lookup_insert_eq. by eapply lookup_lt_Some.
Qed.

Lemma spin_lock_excludes_witness :
  let ls := [SpinLock.call_lock 0; SpinLock.spin 0; SpinLock.call_lock 1; SpinLock.spin 1; SpinLock.call_unlock 0] in
  exists s, run SpinLock.lock_step ls (SpinLock.new_lock 2) = Some s /\
    (SpinLock.tryLock (SpinLock.m_lock s)).1 = true.
Proof.
  intros ls. eexists. split; [reflexivity|].
  refine (proj1 (proj2 (proj2 (spin_lock_excludes 2 ls _ eq_refl)) _)).
  intros [|[|i]]; discriminate.
Defined.

(** C32. [SimpleTimer] stops: once [m_quit] is set (by the destructor, or by a
    single-shot timer itself), however the thread, the clock and the destructor
    interleave and although the notification can be missed, only a bounded
    number of steps remain, the callback is called at most once more, and the
    timer cannot get stuck before its thread has ended and the destructor has
    returned. *)
Theorem timer_stops singleShot ls s ls' s' :
  run (SimpleTimer.timer_step singleShot) ls SimpleTimer.new_timer = Some s -> SimpleTimer.m_quit s = true ->
  run (SimpleTimer.timer_step singleShot) ls' s = Some s' ->
  length ls' <= 7 /\ SimpleTimer.calls s' <= S (SimpleTimer.calls s) /\
  (stuck (SimpleTimer.timer_step singleShot) s' ->
     SimpleTimer.thread s' = SimpleTimer.Finished /\ SimpleTimer.owner s' = SimpleTimer.Joined).
Proof.
  intros _ Hq Hr.
  pose proof (run_bounded (SimpleTimer.timer_step singleShot) (fun s => SimpleTimer.m_quit s = true)
    SimpleTimer.steps_left ls' s s') as Hb.
  pose proof (SimpleTimer.quit_calls singleShot ls' s s' Hq Hr) as Hc.
  assert (Hl : SimpleTimer.steps_left s <= 7).
  { unfold SimpleTimer.steps_left. destruct (SimpleTimer.thread s), (SimpleTimer.owner s); simpl; lia. }
  split; [|split; [by case_decide; lia|]].
  - assert (Hx : length ls' + SimpleTimer.steps_left s' <= SimpleTimer.steps_left s); [|lia].
    apply Hb; [|done|done]. intros l x x' Hx Hs.
    by destruct (SimpleTimer.quit_step singleShot l x x' Hx Hs) as (? & ? & _).
  - apply SimpleTimer.progress. revert Hr. apply (run_invariant _ (fun s => SimpleTimer.m_quit s = true)); [|done].
    intros l x x' Hx Hs. by destruct (SimpleTimer.quit_step singleShot l x x' Hx Hs) as (? & _).
Qed.

(** The notification comes between the test and the wait. *)
Lemma timer_stops_witness :
  let ls := [SimpleTimer.run_thread; SimpleTimer.run_thread; SimpleTimer.destroy; SimpleTimer.destroy] in
  let ls' := [SimpleTimer.run_thread; SimpleTimer.elapse; SimpleTimer.run_thread; SimpleTimer.run_thread;
              SimpleTimer.destroy] in
  exists s s', run (SimpleTimer.timer_step false) ls SimpleTimer.new_timer = Some s /\
    run (SimpleTimer.timer_step false) ls' s = Some s' /\ SimpleTimer.calls s' <= 1 /\
    SimpleTimer.owner s' = SimpleTimer.Joined.
Proof.
  intros ls ls'. eexists _, _. split; [reflexivity|]. split; [reflexivity|].
  split; [|reflexivity]. exact (proj1 (proj2 (timer_stops false ls _ ls' _ eq_refl eq_refl eq_refl))).
Defined.

(** A single-shot [SimpleTimer] calls back at most once in its life. *)
Theorem timer_single_shot ls s :
  run (SimpleTimer.timer_step true) ls SimpleTimer.new_timer = Some s -> SimpleTimer.calls s <= 1.
Proof.
  intros Hr. assert (Hi : SimpleTimer.shot_inv s).
  { eapply run_invariant; [apply SimpleTimer.shot_step| |exact Hr]. by left. }
  destruct Hi as [->|[-> _]]; lia.
Qed.

Lemma timer_single_shot_witness :
  let ls := [SimpleTimer.run_thread; SimpleTimer.run_thread; SimpleTimer.run_thread; SimpleTimer.elapse;
             SimpleTimer.run_thread; SimpleTimer.run_thread; SimpleTimer.run_thread] in
  exists s, run (SimpleTimer.timer_step true) ls SimpleTimer.new_timer = Some s /\ SimpleTimer.calls s = 1 /\
    SimpleTimer.calls s <= 1.
Proof.
  intros ls. eexists. split; [reflexivity|]. split; [reflexivity|].
  exact (timer_single_shot ls _ eq_refl).
Defined.

(** C30. [ThreadWorker] in every reachable state: the tasks inserted so far are
    exactly those pending and those handed to a worker, so that none is lost or
    run twice; and while a task is pending and the object lives, some worker can
    go on: no interleaving of [insertTask], its [notify_one] and the workers'
    tests puts them all to sleep. *)
Theorem tasks_run_once {T} n ls (s : ThreadWorker.pool T) :
  run ThreadWorker.pool_step ls (ThreadWorker.new_worker n) = Some s ->
  ThreadWorker.inserted s ≡ₚ ThreadWorker.m_pendingTasks s ++ ThreadWorker.started s /\
  (ThreadWorker.m_pendingTasks s <> [] -> ThreadWorker.owner s = ThreadWorker.Alive ->
     exists i s', ThreadWorker.worker_step i s = Some s').
Proof.
  intros Hr. assert (Hi : ThreadWorker.inv s).
  { eapply run_invariant; [apply ThreadWorker.pool_step_inv|apply ThreadWorker.new_worker_inv|exact Hr]. }
  split; [apply Hi|]. intros Hp Ho. apply ThreadWorker.live_progress; [done|done|].
  by apply (ThreadWorker.inv_owner s Hi).
Qed.

(** Two workers asleep, then three tasks. *)
Lemma tasks_run_once_witness :
  let sleep i := replicate 4 (ThreadWorker.run_worker i) in
  let ls := sleep 0 ++ sleep 1 ++ [ThreadWorker.insertTask "a"%char 1; ThreadWorker.insertTask "b"%char 0;
              ThreadWorker.insertTask "c"%char 7] ++ replicate 3 (ThreadWorker.run_worker 0) in
  exists s, run ThreadWorker.pool_step ls (ThreadWorker.new_worker 2) = Some s /\
    ThreadWorker.started s = ["c"%char] /\
    ThreadWorker.inserted s ≡ₚ ThreadWorker.m_pendingTasks s ++ ThreadWorker.started s.
Proof.
  intros sleep ls. eexists. split; [vm_compute; reflexivity|]. split; [reflexivity|].
  apply (tasks_run_once 2 ls). vm_compute. reflexivity.
Defined.

(** C31. [~ThreadWorker] returns when no worker is between a false test and its wait
    at the time of [notify_all]: whatever the interleaving afterwards, the number
    of steps is bounded, and nothing can get stuck before every worker has been
    joined. *)
Theorem workers_join {T} n ls (s s1 : ThreadWorker.pool T) ls' s2 :
  run ThreadWorker.pool_step ls (ThreadWorker.new_worker n) = Some s ->
  ThreadWorker.owner s = ThreadWorker.Quit -> ThreadWorker.Park ∉ ThreadWorker.m_workers s ->
  ThreadWorker.pool_step ThreadWorker.destroy s = Some s1 -> run ThreadWorker.pool_step ls' s1 = Some s2 ->
  length ls' <= ThreadWorker.steps_left s1 /\ (stuck ThreadWorker.pool_step s2 -> ThreadWorker.destroyed s2).
Proof.
  intros Hr Ho Hp Hd Hr2. assert (Hi : ThreadWorker.inv s).
  { eapply run_invariant; [apply ThreadWorker.pool_step_inv|apply ThreadWorker.new_worker_inv|exact Hr]. }
  pose proof (ThreadWorker.pool_step_inv _ _ _ Hi Hd) as Hi1.
  pose proof (ThreadWorker.notified_quitting s s1 Hi Ho Hp Hd) as Hq. split.
  - pose proof (run_bounded _ ThreadWorker.quitting ThreadWorker.steps_left ls' s1 s2
      ThreadWorker.quitting_step Hq Hr2). lia.
  - intros Hst. apply ThreadWorker.quitting_progress; [| |exact Hst].
    + by eapply run_invariant; [apply ThreadWorker.pool_step_inv| |].
    + eapply run_invariant; [|exact Hq|exact Hr2]. intros l x x' Hx Hs.
      by destruct (ThreadWorker.quitting_step l x x' Hx Hs).
Qed.

Lemma workers_join_witness :
  let ls := replicate 4 (ThreadWorker.run_worker (T := nat) 0) ++ [ThreadWorker.destroy] in
  let ls' := replicate 4 (ThreadWorker.run_worker (T := nat) 0) ++ [ThreadWorker.destroy] in
  exists s s1 s2, run ThreadWorker.pool_step ls (ThreadWorker.new_worker 1) = Some s /\
    ThreadWorker.pool_step ThreadWorker.destroy s = Some s1 /\ run ThreadWorker.pool_step ls' s1 = Some s2 /\
    length ls' <= ThreadWorker.steps_left s1 /\ ThreadWorker.destroyed s2.
Proof.
  intros ls ls'. eexists _, _, _. split; [vm_compute; reflexivity|]. split; [vm_compute; reflexivity|].
  split; [vm_compute; reflexivity|]. split; [|vm_compute; reflexivity].
  eapply (workers_join 1 ls _ _ ls'); [vm_compute; reflexivity..| |vm_compute; reflexivity|vm_compute; reflexivity].
  intros Hp. by apply list_elem_of_singleton in Hp.
Defined.

(** [~ThreadWorker] can wait forever: [m_quit] is stored and the workers are
    notified without taking [m_lock], so a worker that has just found nothing to
    do and is about to wait misses both; then, unless it happens to wake up
    spuriously, the destructor never returns. *)
Theorem join_can_hang {T} n :
  exists ls (s : ThreadWorker.pool T),
    run ThreadWorker.pool_step ls (ThreadWorker.new_worker n) = Some s /\
    forall ls' s', Forall (fun l => forall i, l <> ThreadWorker.spurious i) ls' ->
      run ThreadWorker.pool_step ls' s = Some s' -> ~ ThreadWorker.destroyed s'.
Proof.
  exists (replicate 3 (ThreadWorker.run_worker 0) ++ replicate 2 ThreadWorker.destroy ++ [ThreadWorker.run_worker 0]).
  eexists. split.
  { unfold ThreadWorker.new_worker. replace (Nat.max 1 n) with (S (n - 1)) by lia. simpl. reflexivity. }
  intros ls' s' Hl Hr Hd.
  assert (Hh : ThreadWorker.hangs s').
  { revert Hl Hr. match goal with |- context [run _ ls' ?x] => assert (Hx : ThreadWorker.hangs x) by done;
      revert Hx; generalize x end. clear Hd.
    induction ls' as [|l ls' IH]; intros x Hx Hl; simpl; [by intros [= <-]|].
    apply Forall_cons in Hl as [Hl Hl']. destruct (ThreadWorker.pool_step l x) as [x1|] eqn:E; [|done].
    apply IH; [|done]. by eapply ThreadWorker.hangs_step. }
  destruct Hh as [Hw Ho]. unfold ThreadWorker.destroyed in Hd. rewrite Ho in Hd.
  apply lookup_lt_Some in Hw. lia.
Qed.
