(* ===== verification/Url.v ===== *)
(** URL helpers of include/dracon/utils.h: [fromHex], [unescapeUrl], [split]. *)

From Stdlib Require Import Ascii String NArith ZArith Lia.
From stdpp Require Import gmap strings list.
From S2P Require Import Prelude.
Local Open Scope getodac_scope.

(** [fromHex]: the value of one hexadecimal digit.  [char] comparisons against
    ASCII constants give the same answer for signed and unsigned [char]. *)
Definition fromHex (ch : ascii) : result std_exception N :=
  let c := N_of_ascii ch in
  if ((48 <=? c) && (c <=? 57))%N then Ok (c - 48)%N
  else if ((97 <=? c) && (c <=? 102))%N then Ok (10 + c - 97)%N
  else if ((65 <=? c) && (c <=? 70))%N then Ok (10 + c - 65)%N
  else Throw (invalid_argument (str "Bad hex value")).

(** One iteration per value of the loop variable [i]; the case analysis is the
    [switch] on [in[i]].  [unescapeUrl] gives one unit of fuel per character
    and [unescapeUrl_decode] shows that this is enough. *)
Fixpoint unescapeUrl_loop (fuel : nat) (input : bytes) (i : nat) (out : bytes)
  : result std_exception bytes :=
  match fuel with
  | O => Ok out
  | S fuel' =>
      match input !! i with
      | None => Ok out
      | Some c =>
          if decide (c = "%"%char) then
            if (i + 2 <? length input)%nat then
              match input !! (i + 1), input !! (i + 2) with
              | Some c1, Some c2 =>
                  let* hi := fromHex c1 in
                  let* lo := fromHex c2 in
                  unescapeUrl_loop fuel' input (i + 3)
                    (out ++ [ascii_of_N (N.lor (N.shiftl hi 4) lo)])
              | _, _ => Ok out
              end
            else Throw (invalid_argument (str "Malformated URL"))
          else if decide (c = "+"%char) then
            unescapeUrl_loop fuel' input (i + 1) (out ++ [" "%char])
          else unescapeUrl_loop fuel' input (i + 1) (out ++ [c])
      end
  end.

Definition unescapeUrl (input : bytes) : result std_exception bytes :=
  unescapeUrl_loop (length input) input 0 [].

(** The loop of [split].  [count] is a [size_type] that the condition
    [count--] tests before it decrements. *)
Fixpoint split_loop (fuel : nat) (s : bytes) (ch : ascii) (count : N) (pos : nat)
    (ret : list bytes) : list bytes :=
  let finish := if (pos <? length s)%nat then ret ++ [drop pos s] else ret in
  match fuel with
  | O => finish
  | S fuel' =>
      match find s ch pos with
      | None => finish
      | Some nextPos =>
          if (count =? 0)%N then finish
          else
            let ret' := if (pos =? nextPos)%nat then ret
                        else ret ++ [take (nextPos - pos) (drop pos s)] in
            split_loop fuel' s ch (count - 1)%N (nextPos + 1) ret'
      end
  end.

Definition npos : N := Z.to_N SIZE_MAX.

Definition split (s : bytes) (ch : ascii) (count : N) : list bytes :=
  match s with
  | [] => []
  | _ => split_loop (length s) s ch count 0 []
  end.

(** * Reference definitions *)

(** Percent-decoding by structural recursion on the input. *)
Definition hex_pair (hi lo : N) : ascii := ascii_of_N (16 * hi + lo).

Fixpoint decode (s : bytes) : result std_exception bytes :=
  match s with
  | [] => Ok []
  | c :: s' =>
      if decide (c = "%"%char) then
        match s' with
        | c1 :: c2 :: r =>
            let* hi := fromHex c1 in
            let* lo := fromHex c2 in
            let* o := decode r in Ok (hex_pair hi lo :: o)
        | _ => Throw (invalid_argument (str "Malformated URL"))
        end
      else let* o := decode s' in Ok ((if decide (c = "+"%char) then " "%char else c) :: o)
  end.

(** [Escaped s o]: [s] is a well-formed escaped text that stands for [o]. *)
Inductive Escaped : bytes -> bytes -> Prop :=
| Escaped_nil : Escaped [] []
| Escaped_hex c1 c2 hi lo s o :
    fromHex c1 = Ok hi -> fromHex c2 = Ok lo -> Escaped s o ->
    Escaped ("%"%char :: c1 :: c2 :: s) (hex_pair hi lo :: o)
| Escaped_plus s o : Escaped s o -> Escaped ("+"%char :: s) (" "%char :: o)
| Escaped_char c s o :
    c <> "%"%char -> c <> "+"%char -> Escaped s o -> Escaped (c :: s) (c :: o).

(** Percent-encoding of every byte that is not a letter or a digit. *)
Definition is_alnum (c : ascii) : bool :=
  let n := N_of_ascii c in
  (((48 <=? n) && (n <=? 57)) || ((97 <=? n) && (n <=? 122)) || ((65 <=? n) && (n <=? 90)))%N.

Fixpoint escapeUrl (s : bytes) : bytes :=
  match s with
  | [] => []
  | c :: s' =>
      if is_alnum c then c :: escapeUrl s'
      else "%"%char :: digit_char (N_of_ascii c / 16)%N ::
           digit_char (N_of_ascii c mod 16)%N :: escapeUrl s'
  end.

(** Splitting at the first [n] separators; [None] splits at all of them. *)
Fixpoint pieces (ch : ascii) (n : N) (cur s : bytes) : list bytes :=
  match s with
  | [] => [cur]
  | c :: s' =>
      if decide (c = ch) then
        if (n =? 0)%N then [cur ++ s] else cur :: pieces ch (n - 1)%N [] s'
      else pieces ch n (cur ++ [c]) s'
  end.

(** * Lemmas *)

Lemma fromHex_lt c n : fromHex c = Ok n -> (n < 16)%N.
Proof.
  unfold fromHex. intros H.
  repeat (case_match; rewrite ?andb_true_iff, ?N.leb_le in *); simplify_eq; lia.
Qed.

Lemma fromHex_error c e : fromHex c = Throw e -> e = invalid_argument (str "Bad hex value").
Proof. unfold fromHex. intros H. repeat case_match; by simplify_eq. Qed.

Lemma lor_shiftl_add hi lo :
  (hi < 16)%N -> (lo < 16)%N -> N.lor (N.shiftl hi 4) lo = (16 * hi + lo)%N.
Proof.
  intros Hh Hl. apply N.bits_inj. intros n.
  assert (H : Forall (fun h => Forall (fun l =>
    N.lor (N.shiftl h 4) l = 16 * h + l)%N (N.of_nat <$> seq 0 16)) (N.of_nat <$> seq 0 16)).
  { vm_compute. repeat constructor. }
  assert (Hin : forall x, (x < 16)%N -> x ∈ N.of_nat <$> seq 0 16).
  { intros x Hx. apply list_elem_of_fmap. exists (N.to_nat x).
    rewrite N2Nat.id, elem_of_seq. lia. }
  rewrite Forall_forall in H. specialize (H hi (Hin hi Hh)).
  rewrite Forall_forall in H. by rewrite (H lo (Hin lo Hl)).
Qed.

Lemma hex_pair_shift c1 c2 hi lo :
  fromHex c1 = Ok hi -> fromHex c2 = Ok lo ->
  ascii_of_N (N.lor (N.shiftl hi 4) lo) = hex_pair hi lo.
Proof.
  intros H1%fromHex_lt H2%fromHex_lt. unfold hex_pair. by rewrite lor_shiftl_add.
Qed.

Lemma unescapeUrl_loop_decode fuel s i out :
  length s - i <= fuel ->
  unescapeUrl_loop fuel s i out = let* o := decode (drop i s) in Ok (out ++ o).
Proof.
  revert i out; induction fuel as [|fuel IH]; intros i out Hf; cbn [unescapeUrl_loop].
  { rewrite drop_ge by lia. simpl. by rewrite app_nil_r. }
  destruct (s !! i) as [c|] eqn:Hi.
  2: { apply lookup_ge_None in Hi. rewrite drop_ge by lia. simpl. by rewrite app_nil_r. }
  pose proof (lookup_lt_Some _ _ _ Hi) as Hlt.
  rewrite (drop_S _ _ _ Hi). cbn [decode].
  case_decide as Hc.
  - destruct (Nat.ltb_spec (i + 2) (length s)) as [H2|H2].
    + destruct (lookup_lt_is_Some_2 s (i + 1)) as [c1 H1]; [lia|].
      destruct (lookup_lt_is_Some_2 s (i + 2)) as [c2 H2']; [lia|].
      rewrite H1, H2'. rewrite Nat.add_1_r in H1.
      rewrite (drop_S _ _ _ H1). replace (i + 2) with (S (S i)) in H2' by lia.
      rewrite (drop_S _ _ _ H2'). cbn.
      destruct (fromHex c1) as [hi|] eqn:E1; [|done]. cbn.
      destruct (fromHex c2) as [lo|] eqn:E2; [|done]. cbn.
      rewrite IH by lia. replace (i + 3) with (S (S (S i))) by lia.
      destruct (decode _); [|done]. cbn.
      by rewrite (hex_pair_shift _ _ _ _ E1 E2), <- app_assoc.
    + assert (Hd : length (drop (S i) s) < 2) by (rewrite length_drop; lia).
      by destruct (drop (S i) s) as [|? [|]]; cbn in Hd; try lia.
  - rewrite Nat.add_1_r.
    case_decide; rewrite IH by lia; destruct (decode (drop (S i) s)); cbn;
      by rewrite <- ?app_assoc.
Qed.

Lemma unescapeUrl_decode s : unescapeUrl s = decode s.
Proof.
  unfold unescapeUrl. rewrite unescapeUrl_loop_decode by lia.
  rewrite drop_0. by destruct (decode s).
Qed.

Lemma decode_Escaped s o : Escaped s o -> decode s = Ok o.
Proof.
  induction 1 as [|c1 c2 hi lo s o H1 H2 H IH|s o H IH|c s o Hp Hq H IH]; simpl.
  - done.
  - by rewrite H1, H2; simpl; rewrite IH.
  - by rewrite IH.
  - by rewrite decide_False, IH by done; simpl; rewrite decide_False.
Qed.

Lemma decode_cases s :
  (exists o, decode s = Ok o /\ Escaped s o) \/
  (exists e s1 s2 o, decode s = Throw e /\ s = s1 ++ "%"%char :: s2 /\ Escaped s1 o /\
    ((length s2 < 2 /\ e = invalid_argument (str "Malformated URL")) \/
     (exists c1 c2 r e', s2 = c1 :: c2 :: r /\ (fromHex c1 = Throw e' \/ fromHex c2 = Throw e') /\
        e = invalid_argument (str "Bad hex value")))).
Proof.
  remember (length s) as n eqn:Hn. revert s Hn.
  induction n as [n IH] using lt_wf_ind; intros s ->.
  destruct s as [|c s]; [left; exists []; split; [done|constructor]|]. cbn [decode].
  case_decide as Hc; [subst c|].
  - destruct s as [|c1 [|c2 r]].
    1,2: right; eexists _, [], _, []; repeat split; [constructor|left; simpl; split; [lia|done]].
    destruct (fromHex c1) as [hi|e1] eqn:E1; cbn.
    2: { pose proof (fromHex_error _ _ E1) as ->.
         right; eexists _, [], _, []; repeat split; [constructor|right; by eauto 10]. }
    destruct (fromHex c2) as [lo|e2] eqn:E2; cbn.
    2: { pose proof (fromHex_error _ _ E2) as ->.
         right; eexists _, [], _, []; repeat split; [constructor|right; by eauto 10]. }
    destruct (IH (length r) ltac:(simpl; lia) r eq_refl)
      as [(o & -> & Ho)|(e & s1 & s2 & o & -> & -> & Ho & Herr)].
    + left. eexists; split; [done|]. by constructor.
    + right. exists e, ("%"%char :: c1 :: c2 :: s1), s2, (hex_pair hi lo :: o).
      repeat split; [by constructor|done].
  - destruct (IH (length s) ltac:(simpl; lia) s eq_refl)
      as [(o & -> & Ho)|(e & s1 & s2 & o & -> & -> & Ho & Herr)]; cbn.
    + left. eexists; split; [done|]. case_decide; subst; by constructor.
    + right. exists e, (c :: s1), s2, ((if decide (c = "+"%char) then " "%char else c) :: o).
      repeat split; [case_decide; subst; by constructor|done].
Qed.

Lemma fromHex_digit_char d : (d < 16)%N -> fromHex (digit_char d) = Ok d.
Proof.
  intros Hd.
  assert (H : Forall (fun d => fromHex (digit_char d) = Ok d) (N.of_nat <$> seq 0 16)).
  { vm_compute. repeat constructor. }
  rewrite Forall_forall in H. apply H, list_elem_of_fmap.
  exists (N.to_nat d). rewrite N2Nat.id, elem_of_seq. lia.
Qed.

Lemma Escaped_escapeUrl s : Escaped (escapeUrl s) s.
Proof.
  induction s as [|c s IH]; simpl; [constructor|].
  destruct (is_alnum c) eqn:Hc.
  - constructor; [by intros ->|by intros ->|done].
  - pose proof (N_ascii_bounded c) as Hb.
    replace c with (hex_pair (N_of_ascii c / 16) (N_of_ascii c mod 16)) at 3.
    + constructor; [| |done]; apply fromHex_digit_char.
      * apply N.Div0.div_lt_upper_bound. lia.
      * by apply N.mod_lt.
    + unfold hex_pair. rewrite <- N.div_mod by done. apply ascii_N_embedding.
Qed.

Abbreviation nonempty := (fun l : bytes => l <> []).

Lemma pieces_no_sep ch n cur s : ch ∉ s -> pieces ch n cur s = [cur ++ s].
Proof.
  revert cur; induction s as [|c s IH]; intros cur Hs; simpl.
  - by rewrite app_nil_r.
  - rewrite decide_False by set_solver. rewrite IH by set_solver. by rewrite <- app_assoc.
Qed.

Lemma pieces_first_sep ch n cur s i :
  index_of ch s = Some i ->
  pieces ch n cur s =
    if (n =? 0)%N then [cur ++ s] else (cur ++ take i s) :: pieces ch (n - 1)%N [] (drop (S i) s).
Proof.
  revert cur i; induction s as [|c s IH]; intros cur i; simpl; [done|].
  case_decide as Hc; [intros [= <-]|intros (j & Hj & ->)%fmap_Some].
  - subst. simpl. by rewrite app_nil_r, drop_0.
  - rewrite (IH _ _ Hj). simpl. destruct (n =? 0)%N; by rewrite <- ?app_assoc.
Qed.

Lemma filter_nonempty_one (l : bytes) :
  filter nonempty [l] = if (0 <? length l)%nat then [l] else [].
Proof. destruct l; reflexivity. Qed.

Lemma split_loop_pieces fuel s ch count pos ret :
  pos <= length s -> length s - pos <= fuel ->
  split_loop fuel s ch count pos ret =
  ret ++ filter nonempty (pieces ch count [] (drop pos s)).
Proof.
  revert count pos ret; induction fuel as [|fuel IH]; intros count pos ret Hp Hf.
  { cbn [split_loop]. rewrite (proj2 (Nat.ltb_ge _ _)) by lia.
    rewrite drop_ge by lia. simpl. by rewrite app_nil_r. }
  cbn [split_loop]. unfold find.
  assert (Hfin : (if (pos <? length s)%nat then ret ++ [drop pos s] else ret) =
    ret ++ filter nonempty [drop pos s]).
  { rewrite filter_nonempty_one, length_drop.
    destruct (Nat.ltb_spec pos (length s)), (Nat.ltb_spec 0 (length s - pos));
      rewrite ?app_nil_r; (done || lia). }
  destruct (index_of ch (drop pos s)) as [i|] eqn:Hi; simpl.
  - rewrite (pieces_first_sep _ _ _ _ _ Hi). simpl.
    destruct (N.eqb_spec count 0); [done|].
    pose proof (index_of_lt _ _ _ Hi) as Hlt. rewrite length_drop in Hlt.
    rewrite IH by lia. rewrite filter_cons. simpl.
    replace (pos + i - pos) with i by lia.
    rewrite drop_drop. replace (pos + i + 1) with (pos + S i) by lia.
    destruct (Nat.eqb_spec pos (pos + i)) as [E|E].
    + assert (i = 0) as -> by lia. rewrite take_0, decide_False; [done|]. intros H; by apply H.
    + rewrite decide_True; [by rewrite <- app_assoc|].
      intros Ht. apply (f_equal length) in Ht. rewrite length_take, length_drop in Ht.
      simpl in Ht. lia.
  - apply index_of_None in Hi. by rewrite pieces_no_sep, Hfin by done.
Qed.

Lemma split_pieces s ch count : split s ch count = filter nonempty (pieces ch count [] s).
Proof.
  destruct s as [|c s]; [done|]. unfold split.
  rewrite split_loop_pieces by (simpl; lia). by rewrite drop_0.
Qed.

Lemma pieces_unlimited ch n cur s :
  ch ∉ cur -> (N.of_nat (length s) < n)%N ->
  Forall (fun p => ch ∉ p) (pieces ch n cur s) /\
  concat (pieces ch n cur s) = cur ++ filter (fun c => c <> ch) s.
Proof.
  revert n cur; induction s as [|c s IH]; intros n cur Hc Hn; simpl in *.
  - split; [by apply Forall_singleton|done].
  - rewrite filter_cons. case_decide as Hd; subst.
    + rewrite decide_False by naive_solver.
      destruct (N.eqb_spec n 0); [lia|]. destruct (IH (n - 1)%N []) as [H1 H2]; [set_solver|lia|].
      split; [by constructor|]. simpl. by rewrite H2.
    + rewrite decide_True by done. destruct (IH n (cur ++ [c])) as [H1 H2]; [set_solver|lia|].
      split; [done|]. by rewrite H2, <- app_assoc.
Qed.

Lemma concat_filter_nonempty (l : list bytes) : concat (filter nonempty l) = concat l.
Proof.
  induction l as [|x l IH]; [done|]. rewrite filter_cons. case_decide as H; simpl.
  - by rewrite IH.
  - by subst.
Qed.

(** * Joining and splitting again *)

(** Pieces after a separator each. *)
Definition join_after (ch : ascii) (ps : list bytes) : bytes := concat ((fun p => ch :: p) <$> ps).

Lemma pieces_join ch n cur p ps :
  ch ∉ p -> Forall (fun q => ch ∉ q) ps -> (N.of_nat (length ps) <= n)%N ->
  pieces ch n cur (p ++ join_after ch ps) = (cur ++ p) :: ps.
Proof.
  revert n cur p; induction ps as [|q ps IH]; intros n cur p Hp Hps Hn.
  - unfold join_after. simpl. by rewrite app_nil_r, pieces_no_sep.
  - apply Forall_cons in Hps as [Hq Hps]. unfold join_after. csimpl. simpl in Hn.
    assert (Hi : index_of ch (p ++ ch :: q ++ join_after ch ps) = Some (length p)).
    { apply index_of_Some. rewrite take_app_length. split; [done|].
      by rewrite lookup_app_r, Nat.sub_diag by lia. }
    fold (join_after ch ps). rewrite (pieces_first_sep _ _ _ _ _ Hi).
    destruct (N.eqb_spec n 0); [lia|].
    rewrite take_app_length. f_equal.
    replace (drop (S (length p)) (p ++ ch :: q ++ join_after ch ps)) with (q ++ join_after ch ps).
    + rewrite IH by (done || lia). done.
    + rewrite drop_app_ge by lia. by replace (S (length p) - length p) with 1 by lia.
Qed.

Lemma filter_nonempty_id (ps : list bytes) : Forall nonempty ps -> filter nonempty ps = ps.
Proof.
  induction 1 as [|p ps Hp _ IH]; [done|]. rewrite filter_cons, decide_True by done. by f_equal.
Qed.

(** [split] undoes joining, for pieces that are not empty and hold no separator. *)
Lemma split_join_after ch ps n :
  Forall (fun p => p <> [] /\ ch ∉ p) ps -> (N.of_nat (length ps) <= n)%N ->
  split (join_after ch ps) ch n = ps.
Proof.
  intros Hps Hn. pose proof (pieces_join ch n [] [] ps) as E. simpl in E.
  rewrite split_pieces, E; [|set_solver| |done].
  - rewrite filter_cons, decide_False by naive_solver. apply filter_nonempty_id.
    eapply Forall_impl; [exact Hps|]. naive_solver.
  - eapply Forall_impl; [exact Hps|]. naive_solver.
Qed.

Lemma split_join ch p ps n :
  ch ∉ p -> Forall (fun q => ch ∉ q) ps -> (N.of_nat (length ps) <= n)%N ->
  split (p ++ join_after ch ps) ch n = filter nonempty (p :: ps).
Proof. intros. rewrite split_pieces. by rewrite pieces_join. Qed.

Lemma escapeUrl_absent c s : is_alnum c = false -> c <> "%"%char -> c ∉ escapeUrl s.
Proof.
  intros Hc Hp. induction s as [|d s IH]; simpl; [set_solver|].
  destruct (is_alnum d) eqn:Hd; [rewrite not_elem_of_cons; split; [congruence|done]|].
  assert (Hdig : forall x, (x < 16)%N -> is_alnum (digit_char x) = true).
  { apply (digit_forall (fun x => is_alnum (digit_char x) = true)).
    vm_compute. repeat constructor. }
  pose proof (N_ascii_bounded d) as Hb.
  pose proof (Hdig (N_of_ascii d / 16)%N ltac:(apply N.Div0.div_lt_upper_bound; lia)).
  pose proof (Hdig (N_of_ascii d mod 16)%N ltac:(by apply N.mod_lt)).
  rewrite !not_elem_of_cons. repeat split; try done; congruence.
Qed.

Lemma escapeUrl_nil s : escapeUrl s = [] <-> s = [].
Proof. destruct s as [|c s]; simpl; [done|]. by destruct (is_alnum c). Qed.

(** * Properties *)

(** C39. [unescapeUrl] decodes exactly the well-formed escaped texts: it returns
    [o] if and only if its argument is an escaped form of [o] ([+] for a space,
    [%XY] for the byte 16*X+Y with digits of either case, any other byte for
    itself). *)
Theorem unescapeUrl_correct s o : unescapeUrl s = Ok o <-> Escaped s o.
Proof.
  rewrite unescapeUrl_decode. split.
  - intros H. destruct (decode_cases s) as [(o' & H' & ?)|(? & ? & ? & ? & H' & _)];
      rewrite H in H'; by simplify_eq.
  - apply decode_Escaped.
Qed.

(** [unescapeUrl] throws exactly when some [%] that the scan reaches is not
    followed by two hexadecimal digits, and the exception tells the two causes
    apart: "Malformated URL" when fewer than two characters follow it, "Bad hex
    value" when one of the two is not a digit. *)
Theorem unescapeUrl_throws s e :
  unescapeUrl s = Throw e <->
  exists s1 s2 o, s = s1 ++ "%"%char :: s2 /\ Escaped s1 o /\
    ((length s2 < 2 /\ e = invalid_argument (str "Malformated URL")) \/
     (exists c1 c2 r e', s2 = c1 :: c2 :: r /\ (fromHex c1 = Throw e' \/ fromHex c2 = Throw e') /\
        e = invalid_argument (str "Bad hex value"))).
Proof.
  rewrite unescapeUrl_decode. split.
  - intros H. destruct (decode_cases s) as [(o & H' & _)|(e' & s1 & s2 & o & H' & Hs)];
      rewrite H in H'; simplify_eq. by exists s1, s2, o.
  - intros (s1 & s2 & o & -> & Ho & He). induction Ho as [|? ? ? ? ? ? H1 H2 _ IH|? ? _ IH|? ? ? Hp Hq _ IH]; simpl.
    + destruct He as [[Hl ->]|(c1 & c2 & r & e' & -> & Hh & ->)].
      * destruct s2 as [|? [|]]; simpl in Hl; (done || lia).
      * destruct (fromHex c1) as [|e1] eqn:E1; simpl.
        -- destruct Hh as [?|Hh]; [done|]. rewrite Hh. by rewrite (fromHex_error _ _ Hh).
        -- by rewrite (fromHex_error _ _ E1).
    + by rewrite H1, H2; simpl; rewrite IH.
    + by rewrite IH.
    + by rewrite decide_False, IH.
Qed.

(** Round trip: percent-encoding any byte string and decoding it with
    [unescapeUrl] gives the string back. *)
Theorem unescapeUrl_roundtrip s : unescapeUrl (escapeUrl s) = Ok s.
Proof. rewrite unescapeUrl_decode. apply decode_Escaped, Escaped_escapeUrl. Qed.

(** The index loop of [split] computes the reference splitting: the text is
    cut at its first [count] separators, the rest is kept whole, and empty
    pieces are dropped. *)
Theorem split_correct s ch count :
  split s ch count = filter nonempty (pieces ch count [] s).
Proof. apply split_pieces. Qed.

(** With the default [count], every piece [split] returns is non-empty and
    free of the separator, and together they are the text without its
    separators, in order. *)
Theorem split_default s ch :
  (N.of_nat (length s) < npos)%N ->
  Forall (fun p => p <> [] /\ ch ∉ p) (split s ch npos) /\
  concat (split s ch npos) = filter (fun c => c <> ch) s.
Proof.
  intros Hs. destruct (pieces_unlimited ch npos [] s) as [H1 H2]; [set_solver|done|].
  rewrite split_pieces. split.
  - rewrite Forall_forall in *. intros p [Hp ?]%list_elem_of_filter. by split; [|apply H1].
  - by rewrite concat_filter_nonempty, H2.
Qed.

Lemma split_default_witness :
  let s := str "///api/v1//parents/" in
  (N.of_nat (length s) < npos)%N /\
  split s "/"%char npos = [str "api"; str "v1"; str "parents"] /\
  concat (split s "/"%char npos) = filter (fun c => c <> "/"%char) s.
Proof.
  intros s. assert (H : (N.of_nat (length s) < npos)%N) by (vm_compute; reflexivity).
  split; [exact H|]. split; [vm_compute; reflexivity|].
  exact (proj2 (split_default s "/"%char H)).
Defined.
