(* ===== verification/LruCache.v ===== *)
(** The least-recently-used cache of include/dracon/utils.h, class [LruCache].

    The implementation keeps a [std::list] of key/value nodes, most recently
    used first, and an [unordered_map] from keys to list iterators.  A list
    iterator is modelled by the identity of the node it points to ([nid]), so
    that stale or dangling iterators can be told apart from valid ones.  The
    abstract cache ([Spec]) is a plain association list with a capacity. *)

From Stdlib Require Import Ascii String NArith ZArith Lia.
From stdpp Require Import gmap strings list fin_maps.
From S2P Require Import Prelude.

(** What the cache promises: the operations on a list of pairs. *)
Module Spec.
Section Spec.
Context {K V : Type} `{EqDecision K}.

Record cache := { items : list (K * V); capacity : nat }.

Definition lookup_key (k : K) (l : list (K * V)) : option V :=
  (fun r : nat * (K * V) => r.2.2) <$> list_find (fun p => p.1 = k) l.

Definition without (k : K) (l : list (K * V)) : list (K * V) := filter (fun p => p.1 <> k) l.

Definition touch (k : K) (c : cache) : cache :=
  match lookup_key k (items c) with
  | Some v => {| items := (k, v) :: without k (items c); capacity := capacity c |}
  | None => c
  end.

Definition store (k : K) (v : V) (c : cache) : cache :=
  {| items := take (capacity c) ((k, v) :: without k (items c)); capacity := capacity c |}.

Definition resize (n : nat) (c : cache) : cache :=
  {| items := take n (items c); capacity := n |}.

Definition remove_nth (i : nat) (c : cache) : cache :=
  {| items := take i (items c) ++ drop (S i) (items c); capacity := capacity c |}.
End Spec.
Arguments cache : clear implicits.
End Spec.

Section LruCache.
Context {K V : Type} `{Countable K}.
(** [V{}], the value-initialised object [value] returns for a missing key. *)
Context (V0 : V).

Record node := Node { nid : nat; nkey : K; nval : V }.

Record LruCache := {
  m_cacheItems : list node;
  m_cacheHash : gmap K nat;
  m_cacheSize : nat;
  (** the next list node the allocator hands out *)
  fresh_node : nat
}.

Definition make (cacheSize : nat) : LruCache :=
  {| m_cacheItems := []; m_cacheHash := ∅; m_cacheSize := cacheSize; fresh_node := 0 |}.

(** [m_cacheItems.erase(it)] *)
Definition list_erase (it : nat) (l : list node) : list node :=
  filter (fun n => nid n <> it) l.

Definition deref (it : nat) (l : list node) : option node :=
  snd <$> list_find (fun n => nid n = it) l.

(** [m_cacheItems.splice(m_cacheItems.begin(), m_cacheItems, it)] *)
Definition splice_front (it : nat) (l : list node) : list node :=
  match deref it l with
  | Some n => n :: list_erase it l
  | None => l
  end.

(** The loop of [cleanCache]; one iteration removes one node, so the length of
    the list is enough fuel. *)
Fixpoint cleanCache_loop (fuel : nat) (c : LruCache) : LruCache :=
  match fuel with
  | O => c
  | S fuel' =>
      if (m_cacheSize c <? size (m_cacheHash c))%nat then
        match last (m_cacheItems c) with
        | None => c
        | Some it =>
            cleanCache_loop fuel'
              {| m_cacheItems := take (length (m_cacheItems c) - 1) (m_cacheItems c);
                 m_cacheHash := delete (nkey it) (m_cacheHash c);
                 m_cacheSize := m_cacheSize c;
                 fresh_node := fresh_node c |}
        end
      else c
  end.

Definition cleanCache (c : LruCache) : LruCache :=
  cleanCache_loop (length (m_cacheItems c)) c.

Definition put (key : K) (value : V) (c : LruCache) : LruCache :=
  let items := match m_cacheHash c !! key with
               | Some it => list_erase it (m_cacheItems c)
               | None => m_cacheItems c
               end in
  let n := Node (fresh_node c) key value in
  cleanCache {| m_cacheItems := n :: items;
                m_cacheHash := <[key := nid n]> (m_cacheHash c);
                m_cacheSize := m_cacheSize c;
                fresh_node := S (fresh_node c) |}.

Definition moved_front (it : nat) (c : LruCache) : LruCache :=
  {| m_cacheItems := splice_front it (m_cacheItems c); m_cacheHash := m_cacheHash c;
     m_cacheSize := m_cacheSize c; fresh_node := fresh_node c |}.

(** [reference]: the returned [V &] is the value of the node [it]; it is
    [None] only for an iterator that is not in the list. *)
Definition reference (key : K) (c : LruCache) : result std_exception (option V) * LruCache :=
  match m_cacheHash c !! key with
  | None => (Throw (range_error (str "Invalid key")), c)
  | Some it =>
      let c' := moved_front it c in
      (Ok (nval <$> deref it (m_cacheItems c')), c')
  end.

Definition value (key : K) (c : LruCache) : option V * LruCache :=
  match m_cacheHash c !! key with
  | None => (Some V0, c)
  | Some it =>
      let c' := moved_front it c in
      (nval <$> deref it (m_cacheItems c'), c')
  end.

Definition exists_ (key : K) (c : LruCache) : bool :=
  match m_cacheHash c !! key with Some _ => true | None => false end.

Definition cacheSize (n : nat) (c : LruCache) : LruCache :=
  cleanCache {| m_cacheItems := m_cacheItems c; m_cacheHash := m_cacheHash c;
                m_cacheSize := n; fresh_node := fresh_node c |}.

Definition clear (c : LruCache) : LruCache :=
  {| m_cacheItems := []; m_cacheHash := ∅; m_cacheSize := m_cacheSize c;
     fresh_node := fresh_node c |}.

(** [begin()]; [None] is [end()]. *)
Definition begin (c : LruCache) : option nat := nid <$> head (m_cacheItems c).

(** [erase(it)]: the iterator after the removed node is returned. *)
Definition erase (it : nat) (c : LruCache) : option nat * LruCache :=
  match list_find (fun n => nid n = it) (m_cacheItems c) with
  | None => (None, c)
  | Some (i, n) =>
      (nid <$> m_cacheItems c !! S i,
       {| m_cacheItems := list_erase it (m_cacheItems c);
          m_cacheHash := delete (nkey n) (m_cacheHash c);
          m_cacheSize := m_cacheSize c; fresh_node := fresh_node c |})
  end.

(** [size()], with its assertion: [None] when it fails. *)
Definition size_ (c : LruCache) : option nat :=
  if decide (length (m_cacheItems c) = size (m_cacheHash c)) then Some (size (m_cacheHash c))
  else None.

(** * Invariant and abstraction *)

Definition key_iter (n : node) : K * nat := (nkey n, nid n).

Record wf (c : LruCache) : Prop := {
  wf_keys : NoDup (nkey <$> m_cacheItems c);
  wf_ids : NoDup (nid <$> m_cacheItems c);
  wf_fresh : Forall (fun n => nid n < fresh_node c) (m_cacheItems c);
  wf_hash : m_cacheHash c = list_to_map (key_iter <$> m_cacheItems c)
}.

Definition bounded (c : LruCache) : Prop := length (m_cacheItems c) <= m_cacheSize c.

Definition pair_of (n : node) : K * V := (nkey n, nval n).

Definition abs (c : LruCache) : Spec.cache K V :=
  {| Spec.items := pair_of <$> m_cacheItems c; Spec.capacity := m_cacheSize c |}.

(** * Lemmas *)

Implicit Types (c : LruCache) (l : list node) (n : node).

Lemma keys_fst l : (key_iter <$> l).*1 = nkey <$> l.
Proof. by rewrite <- list_fmap_compose. Qed.

Lemma hash_lookup c k i :
  wf c -> m_cacheHash c !! k = Some i <->
          exists n, n ∈ m_cacheItems c /\ nkey n = k /\ nid n = i.
Proof.
  intros [Hk _ _ ->]. rewrite <- elem_of_list_to_map by (by rewrite keys_fst).
  rewrite list_elem_of_fmap. unfold key_iter. naive_solver.
Qed.

Lemma hash_lookup_None c k :
  wf c -> m_cacheHash c !! k = None <-> k ∉ nkey <$> m_cacheItems c.
Proof.
  intros [Hk _ _ ->]. rewrite <- keys_fst. symmetry. apply not_elem_of_list_to_map.
Qed.

Lemma hash_size c : wf c -> size (m_cacheHash c) = length (m_cacheItems c).
Proof.
  intros [Hk _ _ ->]. rewrite map_size_list_to_map by (by rewrite keys_fst).
  by rewrite length_fmap.
Qed.

Lemma list_erase_key l n :
  NoDup (nkey <$> l) -> NoDup (nid <$> l) -> n ∈ l ->
  list_erase (nid n) l = filter (fun m => nkey m <> nkey n) l.
Proof.
  intros Hk Hi Hn. apply filter_ext_in. intros x Hx. split; intros Hne Heq; apply Hne.
  - by rewrite (NoDup_fmap_inj nkey l x n).
  - by rewrite (NoDup_fmap_inj nid l x n).
Qed.

Lemma filter_key_absent l k : k ∉ nkey <$> l -> filter (fun m => nkey m <> k) l = l.
Proof.
  induction l as [|m l IH]; intros Hk; [done|]. simpl in Hk.
  rewrite filter_cons, decide_True, IH; set_solver.
Qed.

Lemma list_to_map_without l k :
  (list_to_map (key_iter <$> filter (fun m => nkey m <> k) l) : gmap K nat) =
  delete k (list_to_map (key_iter <$> l)).
Proof.
  induction l as [|n l IH]; csimpl; [by rewrite delete_empty|].
  rewrite filter_cons. case_decide as Hn; csimpl.
  - by rewrite IH, delete_insert_ne.
  - subst k. by rewrite delete_insert_eq.
Qed.

Lemma pair_of_without l k :
  pair_of <$> filter (fun m => nkey m <> k) l = Spec.without k (pair_of <$> l).
Proof.
  unfold Spec.without. induction l as [|n l IH]; [done|]. csimpl.
  rewrite !filter_cons. csimpl. repeat case_decide; try done. csimpl. by rewrite IH.
Qed.

Lemma lookup_key_in l n :
  NoDup (nkey <$> l) -> n ∈ l -> Spec.lookup_key (nkey n) (pair_of <$> l) = Some (nval n).
Proof.
  intros Hk Hn. unfold Spec.lookup_key.
  pose proof (list_find_unique fst (pair_of <$> l) (pair_of n)) as H1.
  rewrite <- list_fmap_compose in H1.
  specialize (H1 Hk (list_elem_of_fmap_2 _ _ _ Hn)). simpl in H1.
  apply fmap_Some in H1 as ([i p] & -> & Hp). simpl in *. by subst.
Qed.

Lemma lookup_key_absent l k :
  k ∉ nkey <$> l -> Spec.lookup_key k (pair_of <$> l) = None.
Proof.
  intros Hk. unfold Spec.lookup_key. apply fmap_None, list_find_None, Forall_forall.
  intros p (n & -> & Hn)%list_elem_of_fmap <-. apply Hk. by apply (list_elem_of_fmap_2 nkey).
Qed.

(** Restricting a well-formed cache to a filtered or shortened list of nodes. *)
Lemma wf_filter c k :
  wf c ->
  wf {| m_cacheItems := filter (fun m => nkey m <> k) (m_cacheItems c);
        m_cacheHash := delete k (m_cacheHash c);
        m_cacheSize := m_cacheSize c; fresh_node := fresh_node c |}.
Proof.
  intros [Hk Hi Hf Hh]. split; simpl.
  - by apply NoDup_fmap_filter.
  - by apply NoDup_fmap_filter.
  - apply Forall_forall. intros x [_ Hx]%list_elem_of_filter.
    rewrite Forall_forall in Hf. by apply Hf.
  - by rewrite Hh, list_to_map_without.
Qed.

Lemma wf_snoc c l n cap :
  wf c -> m_cacheItems c = l ++ [n] ->
  wf {| m_cacheItems := l; m_cacheHash := delete (nkey n) (m_cacheHash c);
        m_cacheSize := cap; fresh_node := fresh_node c |}.
Proof.
  intros [Hk Hi Hf Hh] E. rewrite E in *. rewrite !fmap_app in *. simpl in *.
  apply NoDup_app in Hk as (Hk & Hn & _). apply NoDup_app in Hi as (Hi & _ & _).
  apply Forall_app in Hf as [Hf _].
  assert (Hnin : nkey n ∉ (key_iter <$> l).*1) by (rewrite keys_fst; set_solver).
  split; simpl; try done.
  rewrite Hh. unfold key_iter at 2. rewrite list_to_map_snoc by done.
  by rewrite delete_insert_id by (by apply not_elem_of_list_to_map).
Qed.

Lemma cleanCache_loop_spec fuel c :
  wf c -> length (m_cacheItems c) <= fuel ->
  let c' := cleanCache_loop fuel c in
  wf c' /\ m_cacheItems c' = take (m_cacheSize c) (m_cacheItems c) /\
  m_cacheSize c' = m_cacheSize c.
Proof.
  revert c; induction fuel as [|fuel IH]; intros c Hwf Hf; cbn [cleanCache_loop].
  { destruct (m_cacheItems c) eqn:E; simpl in Hf; [|lia]. by rewrite take_nil. }
  rewrite hash_size by done.
  destruct (Nat.ltb_spec (m_cacheSize c) (length (m_cacheItems c))) as [Hlt|Hge].
  2: { by rewrite take_ge by lia. }
  destruct (last (m_cacheItems c)) as [n|] eqn:Hl.
  2: { apply last_None in Hl. rewrite Hl in Hlt. simpl in Hlt. lia. }
  apply last_Some in Hl as [l E]. rewrite E in Hlt |- *. rewrite length_app in *. simpl in *.
  replace (length l + 1 - 1) with (length l) by lia. rewrite take_app_length.
  destruct (IH _ (wf_snoc c l n (m_cacheSize c) Hwf E)) as (H1 & H2 & H3).
  { simpl. rewrite E, length_app in Hf. simpl in Hf. lia. }
  split; [done|]. split; [|done]. rewrite H2. simpl. by rewrite take_app_le by lia.
Qed.

Lemma cleanCache_spec c :
  wf c ->
  wf (cleanCache c) /\ m_cacheItems (cleanCache c) = take (m_cacheSize c) (m_cacheItems c) /\
  m_cacheSize (cleanCache c) = m_cacheSize c.
Proof. intros Hwf. by apply cleanCache_loop_spec. Qed.

Lemma wf_push c n :
  wf c -> nkey n ∉ nkey <$> m_cacheItems c -> nid n ∉ nid <$> m_cacheItems c ->
  wf {| m_cacheItems := n :: m_cacheItems c;
        m_cacheHash := <[nkey n := nid n]> (m_cacheHash c);
        m_cacheSize := m_cacheSize c;
        fresh_node := S (nid n) `max` fresh_node c |}.
Proof.
  intros [Hk Hi Hf Hh] Hnk Hni. split; simpl.
  - by apply NoDup_cons.
  - by apply NoDup_cons.
  - constructor; [lia|]. eapply Forall_impl; [exact Hf|]. simpl. lia.
  - by rewrite Hh.
Qed.

Lemma items_without c k :
  wf c ->
  match m_cacheHash c !! k with
  | Some it => list_erase it (m_cacheItems c)
  | None => m_cacheItems c
  end = filter (fun m => nkey m <> k) (m_cacheItems c).
Proof.
  intros Hwf. destruct (m_cacheHash c !! k) as [it|] eqn:E.
  - apply hash_lookup in E as (n & Hn & <- & <-); [|done].
    apply list_erase_key; [apply Hwf|apply Hwf|done].
  - apply hash_lookup_None in E; [|done]. by rewrite filter_key_absent.
Qed.

Lemma fresh_not_in c k :
  wf c -> fresh_node c ∉ nid <$> filter (fun m => nkey m <> k) (m_cacheItems c).
Proof.
  intros [_ _ Hf _] (n & Hn & [_ Hin]%list_elem_of_filter)%list_elem_of_fmap.
  rewrite Forall_forall in Hf. specialize (Hf n Hin). lia.
Qed.

Lemma key_not_in_filter c k : k ∉ nkey <$> filter (fun m => nkey m <> k) (m_cacheItems c).
Proof. intros (n & -> & [Hne _]%list_elem_of_filter)%list_elem_of_fmap. by apply Hne. Qed.

Lemma put_spec c k v :
  wf c -> wf (put k v c) /\ abs (put k v c) = Spec.store k v (abs c) /\ bounded (put k v c).
Proof.
  intros Hwf. unfold put. rewrite items_without by done. cbn [nid].
  pose proof (wf_push _ (Node (fresh_node c) k v) (wf_filter c k Hwf)
    (key_not_in_filter c k) (fresh_not_in c k Hwf)) as Hwf1.
  simpl in Hwf1. rewrite insert_delete_eq in Hwf1.
  replace (S (fresh_node c) `max` fresh_node c) with (S (fresh_node c)) in Hwf1 by lia.
  destruct (cleanCache_spec _ Hwf1) as (H1 & H2 & H3). split; [done|].
  unfold abs, bounded, Spec.store. rewrite H2, H3. simpl. split.
  - f_equal. rewrite fmap_take. csimpl. by rewrite pair_of_without.
  - rewrite length_take. lia.
Qed.

Lemma moved_front_spec c n :
  wf c -> n ∈ m_cacheItems c ->
  wf (moved_front (nid n) c) /\
  m_cacheItems (moved_front (nid n) c) = n :: filter (fun m => nkey m <> nkey n) (m_cacheItems c).
Proof.
  intros Hwf Hn. destruct (Hwf) as [Hk Hi Hf Hh].
  unfold moved_front, splice_front, deref.
  rewrite (list_find_unique nid) by done. rewrite list_erase_key by done.
  split; [|done].
  pose proof (wf_filter c (nkey n) Hwf) as Hw1.
  assert (Hni : nid n ∉ nid <$> filter (fun m => nkey m <> nkey n) (m_cacheItems c)).
  { intros (m & E & [Hne Hm]%list_elem_of_filter)%list_elem_of_fmap.
    apply Hne. by rewrite (NoDup_fmap_inj nid _ m n Hi). }
  pose proof (wf_push _ n Hw1 (key_not_in_filter c (nkey n)) Hni) as [Wk Wi Wf Wh].
  simpl in *. split; simpl; [done|done| |].
  - rewrite Forall_forall in Hf. constructor; [by apply Hf|].
    apply Forall_forall. intros x [_ Hx]%list_elem_of_filter. by apply Hf.
  - rewrite insert_delete_eq in Wh. rewrite <- Wh. symmetry. apply insert_id.
    apply hash_lookup; [done|]. by exists n.
Qed.

Lemma abs_moved_front c n :
  wf c -> n ∈ m_cacheItems c ->
  abs (moved_front (nid n) c) = Spec.touch (nkey n) (abs c).
Proof.
  intros Hwf Hn. destruct (moved_front_spec c n Hwf Hn) as [_ Hm].
  unfold Spec.touch, abs. simpl. rewrite lookup_key_in by (apply Hwf || done).
  f_equal. simpl in Hm. rewrite Hm. csimpl. by rewrite pair_of_without.
Qed.

Lemma bounded_moved_front c n :
  wf c -> n ∈ m_cacheItems c -> bounded c -> bounded (moved_front (nid n) c).
Proof.
  intros Hwf Hn Hb. destruct (moved_front_spec c n Hwf Hn) as [Hwf' _].
  unfold bounded in *. rewrite <- hash_size by done. simpl. by rewrite hash_size.
Qed.

Lemma deref_head n l : deref (nid n) (n :: l) = Some n.
Proof. unfold deref. simpl. by rewrite decide_True. Qed.

Lemma list_erase_nth l i n :
  NoDup (nid <$> l) -> l !! i = Some n -> list_erase (nid n) l = take i l ++ drop (S i) l.
Proof.
  unfold list_erase. revert i; induction l as [|m l IH]; intros i Hnd Hi; [done|].
  csimpl in *. apply NoDup_cons in Hnd as [Hm Hnd].
  rewrite filter_cons. destruct i as [|i]; simpl in Hi.
  - simplify_eq. rewrite decide_False by naive_solver. simpl. rewrite drop_0.
    clear IH. induction l as [|x l IH]; [done|].
    rewrite filter_cons, decide_True by (csimpl in *; set_solver). f_equal. apply IH.
    + csimpl in *. set_solver.
    + csimpl in *. by apply NoDup_cons in Hnd as [_ ?].
  - rewrite decide_True.
    + simpl. f_equal. by apply IH.
    + intros E. apply Hm. rewrite E. apply list_elem_of_lookup_2 in Hi.
      by apply list_elem_of_fmap_2.
Qed.

(** * Histories of operations *)

(** A client call.  [OpErase i] erases through an iterator to the [i]-th node. *)
Inductive op : Type :=
| OpPut (k : K) (v : V)
| OpReference (k : K)
| OpValue (k : K)
| OpExists (k : K)
| OpCacheSize (n : nat)
| OpClear
| OpErase (i : nat)
| OpSize.

(** What the client observes.  An iterator is observed through the key of its
    node, [None] for [end()]. *)
Inductive out : Type :=
| RUnit
| RRef (r : result std_exception (option V))
| RVal (v : option V)
| RBool (b : bool)
| RNext (k : option K)
| RSize (n : option nat).

Definition exec (o : op) (c : LruCache) : out * LruCache :=
  match o with
  | OpPut k v => (RUnit, put k v c)
  | OpReference k => let '(r, c') := reference k c in (RRef r, c')
  | OpValue k => let '(v, c') := value k c in (RVal v, c')
  | OpExists k => (RBool (exists_ k c), c)
  | OpCacheSize n => (RUnit, cacheSize n c)
  | OpClear => (RUnit, clear c)
  | OpErase i =>
      match m_cacheItems c !! i with
      | Some n => let '(it, c') := erase (nid n) c in
                  (RNext (nkey <$> (it ≫= fun j => deref j (m_cacheItems c'))), c')
      | None => (RNext None, c)
      end
  | OpSize => (RSize (size_ c), c)
  end.

Definition spec_exec (o : op) (s : Spec.cache K V) : out * Spec.cache K V :=
  match o with
  | OpPut k v => (RUnit, Spec.store k v s)
  | OpReference k =>
      (RRef match Spec.lookup_key k (Spec.items s) with
            | Some v => Ok (Some v)
            | None => Throw (range_error (str "Invalid key"))
            end, Spec.touch k s)
  | OpValue k => (RVal (Some (default V0 (Spec.lookup_key k (Spec.items s)))), Spec.touch k s)
  | OpExists k => (RBool (bool_decide (k ∈ (Spec.items s).*1)), s)
  | OpCacheSize n => (RUnit, Spec.resize n s)
  | OpClear => (RUnit, {| Spec.items := []; Spec.capacity := Spec.capacity s |})
  | OpErase i =>
      if decide (i < length (Spec.items s)) then
        (RNext (fst <$> Spec.items s !! S i), Spec.remove_nth i s)
      else (RNext None, s)
  | OpSize => (RSize (Some (length (Spec.items s))), s)
  end.

Fixpoint run {S : Type} (step : op -> S -> out * S) (ops : list op) (s : S) : list out * S :=
  match ops with
  | [] => ([], s)
  | o :: ops' =>
      let '(r, s1) := step o s in
      let '(rs, s2) := run step ops' s1 in
      (r :: rs, s2)
  end.

(** One operation of a good cache gives a good cache and acts on the abstract
    cache as its specification says. *)
Definition simulates (o : op) (c : LruCache) : Prop :=
  let '(r, c') := exec o c in
  wf c' /\ bounded c' /\ spec_exec o (abs c) = (r, abs c').

Lemma pairs_fst l : (pair_of <$> l).*1 = nkey <$> l.
Proof. by rewrite <- list_fmap_compose. Qed.

Lemma spec_touch_absent k c :
  wf c -> m_cacheHash c !! k = None ->
  Spec.lookup_key k (pair_of <$> m_cacheItems c) = None /\ Spec.touch k (abs c) = abs c.
Proof.
  intros Hwf Hk%hash_lookup_None; [|done]. apply lookup_key_absent in Hk.
  split; [done|]. unfold Spec.touch. simpl. by rewrite Hk.
Qed.

Lemma exec_reference c k : wf c -> bounded c -> simulates (OpReference k) c.
Proof.
  intros Hwf Hb. unfold simulates. simpl. unfold reference.
  destruct (m_cacheHash c !! k) as [it|] eqn:E.
  - apply hash_lookup in E as (n & Hn & <- & <-); [|done].
    destruct (moved_front_spec c n Hwf Hn) as [Hw Hm].
    split; [done|]. split; [by apply bounded_moved_front|].
    rewrite lookup_key_in by (apply Hwf || done).
    by rewrite abs_moved_front, Hm, deref_head.
  - destruct (spec_touch_absent k c Hwf E) as [-> ->]. done.
Qed.

Lemma exec_value c k : wf c -> bounded c -> simulates (OpValue k) c.
Proof.
  intros Hwf Hb. unfold simulates. simpl. unfold value.
  destruct (m_cacheHash c !! k) as [it|] eqn:E.
  - apply hash_lookup in E as (n & Hn & <- & <-); [|done].
    destruct (moved_front_spec c n Hwf Hn) as [Hw Hm].
    split; [done|]. split; [by apply bounded_moved_front|].
    rewrite lookup_key_in by (apply Hwf || done).
    by rewrite abs_moved_front, Hm, deref_head.
  - destruct (spec_touch_absent k c Hwf E) as [-> ->]. done.
Qed.

Lemma exec_exists c k : wf c -> bounded c -> simulates (OpExists k) c.
Proof.
  intros Hwf Hb. split; [done|]. split; [done|]. simpl. f_equal. f_equal.
  unfold exists_. rewrite pairs_fst.
  destruct (m_cacheHash c !! k) as [it|] eqn:E.
  - apply hash_lookup in E as (n & Hn & <- & _); [|done].
    by apply bool_decide_eq_true, list_elem_of_fmap_2.
  - apply hash_lookup_None in E; [|done]. by apply bool_decide_eq_false.
Qed.

Lemma exec_cacheSize c (cap : nat) : wf c -> bounded c -> simulates (OpCacheSize cap) c.
Proof.
  intros [Hk Hi Hf Hh] Hb. unfold simulates. cbn [exec]. unfold cacheSize.
  edestruct (cleanCache_spec {| m_cacheItems := m_cacheItems c; m_cacheHash := m_cacheHash c;
                m_cacheSize := cap; fresh_node := fresh_node c |}) as (H1 & H2 & H3); [done|].
  split; [done|]. unfold bounded. rewrite H2, H3, length_take. split; [simpl; lia|].
  simpl. unfold Spec.resize, abs. rewrite H2, H3. simpl. by rewrite fmap_take.
Qed.

Lemma find_at c i n :
  wf c -> m_cacheItems c !! i = Some n -> list_find (fun m => nid m = nid n) (m_cacheItems c) = Some (i, n).
Proof.
  intros Hwf E. apply list_find_Some. split; [done|]. split; [done|]. intros j y Hj Hji Hy.
  assert (i = j); [|lia]. eapply NoDup_lookup; [apply (wf_ids c Hwf)|..];
    rewrite list_lookup_fmap, ?E, ?Hj; simpl; by rewrite ?Hy.
Qed.

(** Erasing through an iterator to the [i]-th node. *)
Lemma erase_at c i n :
  wf c -> m_cacheItems c !! i = Some n ->
  exists c', erase (nid n) c = (nid <$> m_cacheItems c !! S i, c') /\ wf c' /\
    m_cacheItems c' = take i (m_cacheItems c) ++ drop (S i) (m_cacheItems c) /\
    m_cacheSize c' = m_cacheSize c.
Proof.
  intros Hwf E. destruct Hwf as [Hk Hi Hf Hh] eqn:Ew. pose proof (list_elem_of_lookup_2 _ _ _ E) as Hn.
  unfold erase. rewrite (find_at c i n Hwf E). eexists. split; [reflexivity|]. cbn.
  rewrite list_erase_key by done. split; [by apply (wf_filter c (nkey n))|]. split; [|done].
  by rewrite <- (list_erase_key _ _ Hk Hi Hn), (list_erase_nth _ i).
Qed.

Lemma exec_erase c i : wf c -> bounded c -> simulates (OpErase i) c.
Proof.
  intros Hwf Hb. unfold simulates. simpl. rewrite length_fmap.
  destruct (m_cacheItems c !! i) as [n|] eqn:E.
  2: { rewrite decide_False by (apply lookup_ge_None in E; lia). done. }
  pose proof (lookup_lt_Some _ _ _ E) as Hlt. rewrite decide_True by done.
  destruct (erase_at c i n Hwf E) as (c' & -> & Hwf' & Ei & Es). split; [done|]. split.
  { unfold bounded in *. rewrite Ei, Es, length_app, length_take, length_drop. lia. }
  unfold Spec.remove_nth, abs. rewrite Ei, Es. simpl. rewrite fmap_app, fmap_take, fmap_drop. f_equal. f_equal.
  rewrite list_lookup_fmap. destruct (m_cacheItems c !! S i) as [m|] eqn:Em; [|done]. simpl.
  assert (m ∈ m_cacheItems c').
  { rewrite Ei. apply elem_of_app. right. apply list_elem_of_lookup. exists 0.
    by rewrite lookup_drop, Nat.add_0_r. }
  rewrite <- Ei. unfold deref. rewrite (list_find_unique nid); [done|apply (wf_ids c' Hwf')|done].
Qed.

Lemma exec_simulates o c : wf c -> bounded c -> simulates o c.
Proof.
  intros Hwf Hb. destruct o as [k v|k|k|k|n| |i|].
  - destruct (put_spec c k v Hwf) as (H1 & H2 & H3). unfold simulates. simpl. by rewrite H2.
  - by apply exec_reference.
  - by apply exec_value.
  - by apply exec_exists.
  - by apply exec_cacheSize.
  - split; [|split; [unfold bounded; simpl; lia|done]]. by repeat constructor.
  - by apply exec_erase.
  - split; [done|]. split; [done|]. simpl. unfold size_.
    rewrite hash_size by done. rewrite decide_True by done. by rewrite length_fmap.
Qed.

Lemma run_simulates ops c :
  wf c -> bounded c ->
  wf (run exec ops c).2 /\ bounded (run exec ops c).2 /\
  run spec_exec ops (abs c) = ((run exec ops c).1, abs (run exec ops c).2).
Proof.
  revert c; induction ops as [|o ops IH]; intros c Hwf Hb; [done|].
  pose proof (exec_simulates o c Hwf Hb) as Hs. unfold simulates in Hs.
  cbn [run]. destruct (exec o c) as [r c1]. destruct Hs as (Hw1 & Hb1 & ->).
  destruct (IH c1 Hw1 Hb1) as (H1 & H2 & H3). rewrite H3.
  destruct (run exec ops c1) as [rs c2]. done.
Qed.

Lemma wf_make cap : wf (make cap).
Proof. by repeat constructor. Qed.

Lemma bounded_make cap : bounded (make cap).
Proof. unfold bounded. simpl. lia. Qed.

(** C20. Refinement: for every capacity and every history of client calls, the
    list-and-hash cache returns what the abstract cache returns call by call
    (values, exceptions, iterators and sizes), and the final states
    correspond. *)
Theorem lru_refinement cap ops :
  run spec_exec ops (abs (make cap)) =
  ((run exec ops (make cap)).1, abs (run exec ops (make cap)).2).
Proof. apply run_simulates; [apply wf_make|apply bounded_make]. Qed.

(** C40. Invariant of every reachable cache: keys and nodes are unique, the hash
    holds exactly one valid iterator per node, and the number of nodes never
    exceeds the capacity, so the assertion in [size] holds. *)
Theorem lru_invariant cap ops :
  let c := (run exec ops (make cap)).2 in
  wf c /\ length (m_cacheItems c) <= m_cacheSize c /\ size_ c = Some (length (m_cacheItems c)).
Proof.
  intros c. destruct (run_simulates ops (make cap)) as (H1 & H2 & _);
    [apply wf_make|apply bounded_make|].
  fold c in H1, H2. split; [done|]. split; [done|].
  unfold size_. rewrite hash_size by done. by rewrite decide_True.
Qed.
End LruCache.
Arguments node : clear implicits.
Arguments LruCache K V {_ _}.
