(* ===== verification/CharBuffer.v ===== *)
(** [Buffer<char>] of include/dracon/utils.h, the byte buffer the sessions read
    into and keep unparsed data in.

    Pointers are kept as pointers: [At o] is [m_buffer.get() + o] and [Null o]
    is [nullptr + o], so that the constructor that allocates without resetting
    the two cursors is told apart from the buffer after [reset].  An operation
    that reads or writes memory returns [None] when the access is outside the
    allocated block (undefined behaviour in C++). *)

From Stdlib Require Import Ascii String NArith ZArith Lia.
From stdpp Require Import gmap strings list.
From S2P Require Import Prelude.

Inductive ptr : Type :=
| Null (off : nat)
| At (off : nat).

#[export] Instance ptr_eq_dec : EqDecision ptr.
Proof. solve_decision. Defined.

Definition offset (p : ptr) : nat := match p with Null o | At o => o end.

Definition padd (p : ptr) (n : nat) : ptr :=
  match p with Null o => Null (o + n) | At o => At (o + n) end.

(** The block's bytes with [s] copied to offset [o]. *)
Definition blit (d : bytes) (o : nat) (s : bytes) : option bytes :=
  if decide (o + length s <= length d) then Some (take o d ++ s ++ drop (o + length s) d)
  else None.

(** The [n] bytes from pointer [p] on. *)
Definition load (d : option bytes) (p : ptr) (n : nat) : option bytes :=
  match n, p, d with
  | O, _, _ => Some []
  | _, At o, Some d' => if decide (o + n <= length d') then Some (take n (drop o d')) else None
  | _, _, _ => None
  end.

Record Buffer := {
  m_buffer : option bytes;
  m_size : nat;
  m_current : ptr;
  m_end : ptr
}.

(** [Buffer() = default] *)
Definition empty : Buffer :=
  {| m_buffer := None; m_size := 0; m_current := Null 0; m_end := Null 0 |}.

(** [Buffer(size_t size)]: value-initialised storage, cursors still null. *)
Definition make (size : nat) : Buffer :=
  {| m_buffer := Some (replicate size Ascii.zero); m_size := size;
     m_current := Null 0; m_end := Null 0 |}.

Definition get (b : Buffer) : ptr :=
  match m_buffer b with Some _ => At 0 | None => Null 0 end.

Definition reset (b : Buffer) : Buffer :=
  {| m_buffer := m_buffer b; m_size := m_size b;
     m_current := get b; m_end := padd (get b) (m_size b) |}.

Definition resize (size : nat) (b : Buffer) : Buffer :=
  if decide (size = m_size b) then reset b
  else
    let block := replicate size Ascii.zero in
    let copied :=
      match m_size b, m_buffer b with
      | S _, Some d =>
          let n := Nat.min size (m_size b) in
          take n d ++ drop n block
      | _, _ => block
      end in
    reset {| m_buffer := Some copied; m_size := size;
             m_current := m_current b; m_end := m_end b |}.

Definition advance (size : nat) (b : Buffer) : Buffer :=
  let p := padd (m_current b) size in
  {| m_buffer := m_buffer b; m_size := m_size b;
     m_current := if decide (offset (m_end b) < offset p) then m_end b else p;
     m_end := m_end b |}.

Definition currentSize (b : Buffer) : nat := offset (m_end b) - offset (m_current b).

Definition currentString (b : Buffer) : option bytes :=
  load (m_buffer b) (m_current b) (currentSize b).

Definition commit (b : Buffer) : option Buffer :=
  if decide (m_current b = get b) then Some b
  else
    let size := currentSize b in
    match load (m_buffer b) (m_current b) size, m_buffer b with
    | Some s, Some d =>
        match blit d 0 s with
        | Some d' => Some {| m_buffer := Some d'; m_size := m_size b;
                             m_current := get b; m_end := padd (get b) size |}
        | None => None
        end
    | Some _, None => Some {| m_buffer := None; m_size := m_size b;
                              m_current := get b; m_end := padd (get b) size |}
    | None, _ => None
    end.

Definition setCurrentSize (size : nat) (b : Buffer) : Buffer :=
  {| m_buffer := m_buffer b; m_size := m_size b;
     m_current := m_current b; m_end := padd (m_current b) size |}.

Definition setCurrentData (size : nat) (b : Buffer) : Buffer :=
  {| m_buffer := m_buffer b; m_size := m_size b;
     m_current := padd (get b) size; m_end := m_end b |}.

(** [memcpy(m_buffer.get(), s.data(), s.size())] *)
Definition copy_in (s : bytes) (b : Buffer) : option Buffer :=
  match s, m_buffer b with
  | [], _ => Some b
  | _, None => None
  | _, Some d =>
      match blit d 0 s with
      | Some d' => Some {| m_buffer := Some d'; m_size := m_size b;
                           m_current := m_current b; m_end := m_end b |}
      | None => None
      end
  end.

(** [operator=] *)
Definition assign (s : bytes) (b : Buffer) : option Buffer :=
  setCurrentSize (length s) <$> copy_in s (resize (length s) b).

(** [operator*=] *)
Definition mul_assign (s : bytes) (b : Buffer) : option Buffer :=
  if decide (m_size b <= length s) then assign s b
  else advance (length s) <$> copy_in s (reset b).

(** [clear] *)
Definition clear (b : Buffer) : Buffer :=
  reset {| m_buffer := None; m_size := 0; m_current := m_current b; m_end := m_end b |}.

(** A reader ([::read], [SSL_read]) stores [s] through [currentData()]; the
    caller gives it [currentSize()] as the limit. *)
Definition fill (s : bytes) (b : Buffer) : option Buffer :=
  match s, m_current b, m_buffer b with
  | [], _, _ => Some b
  | _, At o, Some d =>
      match blit d o s with
      | Some d' => Some {| m_buffer := Some d'; m_size := m_size b;
                           m_current := m_current b; m_end := m_end b |}
      | None => None
      end
  | _, _, _ => None
  end.

(** * Invariant *)

(** The block has the recorded size and the two cursors delimit a part of it
    (or are both null). *)
Definition wf (b : Buffer) : Prop :=
  match m_buffer b with
  | Some d => length d = m_size b
  | None => m_size b = 0
  end /\
  match m_current b, m_end b with
  | Null c, Null e => c = 0 /\ e = 0
  | At c, At e => is_Some (m_buffer b) /\ c <= e <= m_size b
  | _, _ => False
  end.

(** * Lemmas *)

Lemma length_blit d o s d' : blit d o s = Some d' -> length d' = length d.
Proof.
  unfold blit. case_decide; intros [= <-]. rewrite !length_app, length_take, length_drop. lia.
Qed.

Lemma blit_0 d s : length s <= length d -> blit d 0 s = Some (s ++ drop (length s) d).
Proof. intros. unfold blit. rewrite decide_True by (simpl; lia). done. Qed.

Lemma load_At d o n : o + n <= length d -> load (Some d) (At o) n = Some (take n (drop o d)).
Proof. intros. unfold load. destruct n; [done|]. by rewrite decide_True. Qed.

Lemma offset_padd p n : offset (padd p n) = offset p + n.
Proof. by destruct p. Qed.

Lemma buf_wf_empty : wf empty.
Proof. by repeat split. Qed.

Lemma buf_wf_make n : wf (make n).
Proof. split; simpl; [by rewrite length_replicate|done]. Qed.

Lemma buf_wf_reset b : wf b -> wf (reset b).
Proof.
  intros [H1 H2]. split; [done|]. unfold reset, get. simpl.
  destruct (m_buffer b) as [d|]; simpl; [split; [by eexists|lia]|lia].
Qed.

Lemma buf_wf_clear b : wf (clear b).
Proof. by repeat split. Qed.

Lemma resize_block size b :
  wf b -> exists d, m_buffer (resize size b) = d /\ m_size (resize size b) = size /\
    match d with Some d' => length d' = size | None => size = 0 end /\
    m_current (resize size b) = match d with Some _ => At 0 | None => Null 0 end /\
    m_end (resize size b) = match d with Some _ => At size | None => Null 0 end.
Proof.
  intros [H1 H2]. unfold resize. case_decide as Hs.
  - subst. exists (m_buffer b). unfold reset, get. simpl.
    destruct (m_buffer b); simpl; [done|]. by rewrite H1.
  - eexists. split; [done|]. unfold reset, get. simpl. split; [done|].
    split; [|done]. destruct (m_size b) as [|k] eqn:Hk; [by rewrite length_replicate|].
    destruct (m_buffer b) as [d|]; [|by rewrite length_replicate].
    rewrite length_app, length_take, length_drop, length_replicate. lia.
Qed.

Lemma buf_wf_resize size b : wf b -> wf (resize size b).
Proof.
  intros H. destruct (resize_block size b H) as (d & E1 & E2 & E3 & E4 & E5).
  unfold wf. rewrite E1, E2, E4, E5. destruct d; (split; [done|]); [split; [by eexists|lia]|done].
Qed.

Lemma buf_wf_advance n b : wf b -> wf (advance n b).
Proof.
  intros [H1 H2]. split; [done|]. unfold advance. simpl.
  destruct (m_current b), (m_end b); simpl in *; try done; case_decide; simpl;
    intuition lia.
Qed.

#[export] Hint Resolve buf_wf_empty buf_wf_make buf_wf_reset buf_wf_clear buf_wf_resize buf_wf_advance
  : getodac.

Lemma buf_wf_setCurrentSize n b :
  wf b -> m_current b = At (offset (m_current b)) -> offset (m_current b) + n <= m_size b ->
  wf (setCurrentSize n b).
Proof.
  intros [H1 H2] Hc Hn. split; [done|]. unfold setCurrentSize. simpl.
  destruct (m_current b); [done|]. simpl in *. destruct (m_end b); [done|].
  split; [tauto|lia].
Qed.

Lemma buf_wf_currentString b :
  wf b -> exists s, currentString b = Some s /\ length s = currentSize b.
Proof.
  intros [H1 H2]. unfold currentString, currentSize.
  destruct (m_current b) as [c|c], (m_end b) as [e|e]; simpl in *; try done.
  - destruct H2 as [-> ->]. by exists [].
  - destruct H2 as [[d E] ?]. rewrite E in *. rewrite load_At by lia.
    eexists; split; [done|]. rewrite length_take, length_drop. lia.
Qed.

Lemma copy_in_spec s b d :
  m_buffer b = Some d -> length s <= length d ->
  copy_in s b = Some {| m_buffer := Some (s ++ drop (length s) d); m_size := m_size b;
                        m_current := m_current b; m_end := m_end b |}.
Proof.
  intros E Hl. unfold copy_in. destruct s as [|c s].
  - f_equal. destruct b; simpl in *. subst. by rewrite drop_0.
  - rewrite E, blit_0 by done. done.
Qed.

Lemma assign_spec s b :
  wf b ->
  exists b', assign s b = Some b' /\ wf b' /\ currentString b' = Some s /\ m_size b' = length s.
Proof.
  intros H. destruct (resize_block (length s) b H) as (d & E1 & E2 & E3 & E4 & E5).
  pose proof (buf_wf_resize (length s) b H) as Hw. unfold assign.
  destruct d as [d|].
  - rewrite (copy_in_spec _ _ _ E1) by lia. eexists; split; [done|].
    rewrite E2, E4, E5. unfold setCurrentSize, wf, currentString, currentSize; simpl.
    rewrite drop_ge, app_nil_r by lia. split; [split; [done|split; [by eexists|lia]]|].
    split; [|done]. rewrite load_At by (simpl; lia).
    by rewrite drop_0, Nat.sub_0_r, take_ge by lia.
  - destruct s as [|c s]; [|done]. simpl in *. eexists; split; [done|].
    unfold setCurrentSize, wf, currentString, currentSize; simpl.
    rewrite E1, E2, E4. done.
Qed.

Lemma mul_assign_fits s b :
  wf b -> length s < m_size b ->
  exists d, m_buffer b = Some d /\
    mul_assign s b =
      Some {| m_buffer := Some (s ++ drop (length s) d); m_size := m_size b;
              m_current := At (length s); m_end := At (m_size b) |}.
Proof.
  intros [H1 H2] Hl. unfold mul_assign. rewrite decide_False by lia.
  destruct (m_buffer b) as [d|] eqn:E; [|lia]. exists d. split; [done|].
  rewrite (copy_in_spec s (reset b) d) by (done || lia).
  unfold advance, reset, get. simpl. rewrite E. simpl. by rewrite decide_False by lia.
Qed.

Lemma wf_mul_assign s b : wf b -> exists b', mul_assign s b = Some b' /\ wf b'.
Proof.
  intros H. destruct (decide (m_size b <= length s)) as [Hle|Hgt].
  - unfold mul_assign. rewrite decide_True by done.
    destruct (assign_spec s b H) as (b' & ? & ? & _). by exists b'.
  - destruct (mul_assign_fits s b H) as (d & E & ->); [lia|].
    destruct H as [H1 _]. rewrite E in H1. eexists; split; [done|]. split; simpl.
    + rewrite length_app, length_drop. lia.
    + split; [by eexists|lia].
Qed.

Lemma fill_spec s b c e d :
  m_current b = At c -> m_end b = At e -> m_buffer b = Some d -> c + length s <= length d ->
  fill s b = Some {| m_buffer := Some (take c d ++ s ++ drop (c + length s) d); m_size := m_size b;
                     m_current := At c; m_end := At e |}.
Proof.
  intros Hc He Hd Hl. unfold fill. rewrite Hc, Hd. destruct s as [|x s].
  - f_equal. destruct b; simpl in *; subst. by rewrite Nat.add_0_r, take_drop.
  - unfold blit. rewrite decide_True by done. by rewrite He.
Qed.

Lemma wf_fill s b : wf b -> length s <= currentSize b -> exists b', fill s b = Some b' /\ wf b'.
Proof.
  intros [H1 H2] Hs. unfold currentSize in Hs.
  destruct (m_current b) as [c|c] eqn:Hc, (m_end b) as [e|e] eqn:He; simpl in *; try done.
  - destruct H2 as [-> ->], s; simpl in Hs; [|lia].
    exists b. split; [done|]. by split; rewrite ?Hc, ?He.
  - destruct H2 as [[d E] ?]. rewrite E in H1.
    rewrite (fill_spec s b c e d) by (done || lia). eexists; split; [done|].
    split; simpl; [|split; [by eexists|lia]].
    rewrite !length_app, length_take, length_drop. lia.
Qed.

(** Reading into the whole buffer, as the sessions do: the bytes read become the
    current string. *)
Lemma fill_reset b got :
  wf b -> length got <= m_size b ->
  exists b2, fill got (reset b) = Some b2 /\ wf b2 /\ m_size b2 = m_size b /\
    let b3 := setCurrentSize (length got) (reset b2) in
    currentString b3 = Some got /\ wf b3 /\ m_size b3 = m_size b.
Proof.
  intros H Hl. destruct got as [|c got].
  { exists (reset b). split; [done|]. split; [eauto with getodac|]. split; [done|].
    pose proof (buf_wf_reset _ (buf_wf_reset b H)) as [H1 H2]. split.
    - unfold currentString, currentSize. simpl. by rewrite offset_padd, Nat.add_0_r, Nat.sub_diag.
    - split; [|done]. split; [done|]. clear H2. simpl in *. unfold get. simpl.
      destruct (m_buffer b) eqn:E; simpl; [split; [by eexists|lia]|done]. }
  destruct H as [H1 H2]. destruct (m_buffer b) as [d|] eqn:E; [|simpl in Hl; lia].
  rewrite (fill_spec _ (reset b) 0 (m_size b) d);
    [|unfold reset, get; simpl; by rewrite E|unfold reset, get; simpl; by rewrite E|done|simpl in *; lia].
  eexists. split; [done|]. set (g := c :: got) in *. clearbody g. simpl.
  assert (Hlen : length (g ++ drop (length g) d) = m_size b) by (rewrite length_app, length_drop; lia).
  split; [split; simpl; [done|split; [by eexists|lia]]|]. split; [done|].
  unfold currentString, currentSize. cbn -[load app drop take Nat.sub]. rewrite Nat.sub_0_r, load_At by lia.
  rewrite drop_0, take_app_length. split; [done|]. split; [|done].
  split; simpl; [done|]. split; [by eexists|lia].
Qed.

Lemma setCurrentData_start b : m_current b = get b -> setCurrentData 0 b = b.
Proof. intros E. destruct b. unfold setCurrentData, get in *. simpl in *. subst. by repeat case_match. Qed.

(** Filling a buffer that was just reset leaves its cursor at the start. *)
Lemma fill_reset_start b got b' : fill got (reset b) = Some b' -> setCurrentData 0 b' = b'.
Proof.
  intros Hf. apply setCurrentData_start. unfold fill in Hf. destruct got as [|c got].
  - by simplify_eq.
  - unfold reset, get in *. simpl in *. destruct (m_buffer b) as [d|]; [|done].
    destruct (blit d 0 (c :: got)) as [d'|]; [|done]. by simplify_eq.
Qed.

Lemma advance_string n b s :
  wf b -> currentString b = Some s -> currentString (advance n b) = Some (drop n s).
Proof.
  intros [H1 H2] Hs. unfold currentString, currentSize, advance in *. cbn -[load Nat.sub].
  destruct (m_current b) as [c|c] eqn:Hc, (m_end b) as [e|e] eqn:He; cbn -[load Nat.sub] in *; try done.
  - destruct H2 as [-> ->]. simpl in *. injection Hs as <-. rewrite drop_nil.
    destruct n; cbn; by repeat case_match.
  - destruct H2 as [[d E] Hb]. rewrite E in *. rewrite load_At in Hs by lia. injection Hs as <-.
    case_decide; cbn -[load Nat.sub].
    + rewrite Nat.sub_diag, drop_ge by (rewrite length_take, length_drop; lia). done.
    + rewrite load_At by lia. rewrite skipn_firstn_comm, drop_drop.
      f_equal. by replace (e - (c + n)) with (e - c - n) by lia.
Qed.

Lemma commit_spec b :
  wf b -> exists b', commit b = Some b' /\ wf b' /\ currentString b' = currentString b.
Proof.
  intros H. unfold commit. case_decide as Hc; [by exists b|].
  destruct (buf_wf_currentString b H) as (s & Hs & Hl).
  fold (currentString b). rewrite Hs. destruct H as [H1 H2].
  destruct (m_buffer b) as [d|] eqn:E.
  - assert (Hsd : length s <= length d).
    { rewrite Hl. unfold currentSize. destruct (m_current b), (m_end b); simpl in *; try done; lia. }
    rewrite blit_0 by done. eexists; split; [done|].
    unfold get, wf, currentString, currentSize. rewrite E. simpl.
    assert (Hlen : length (s ++ drop (length s) d) = length d).
    { rewrite length_app, length_drop. lia. }
    split.
    + split; [by rewrite Hlen|]. split; [by eexists|]. unfold currentSize in Hl. lia.
    + fold (currentSize b). rewrite <- Hl. rewrite Nat.sub_0_r, load_At by (simpl; lia).
      rewrite drop_0. by rewrite take_app_length.
  - exfalso. apply Hc. unfold get. rewrite E.
    destruct (m_current b), (m_end b); simpl in *; try done.
    + by destruct H2 as [-> _].
    + destruct H2 as [[? ?] _]. done.
Qed.

(** * Calls as data *)

Inductive op : Type :=
| OpReset
| OpResize (n : nat)
| OpAdvance (n : nat)
| OpCommit
| OpSetCurrentSize (n : nat)
| OpAssign (s : bytes)
| OpMulAssign (s : bytes)
| OpClear
| OpFill (s : bytes).

Definition exec (o : op) (b : Buffer) : option Buffer :=
  match o with
  | OpReset => Some (reset b)
  | OpResize n => Some (resize n b)
  | OpAdvance n => Some (advance n b)
  | OpCommit => commit b
  | OpSetCurrentSize n => Some (setCurrentSize n b)
  | OpAssign s => assign s b
  | OpMulAssign s => mul_assign s b
  | OpClear => Some (clear b)
  | OpFill s => fill s b
  end.

(** What a caller must respect: a reader stores no more than [currentSize()]
    bytes, and [setCurrentSize] stays inside the block. *)
Definition allowed (o : op) (b : Buffer) : Prop :=
  match o with
  | OpSetCurrentSize n =>
      m_current b = At (offset (m_current b)) /\ offset (m_current b) + n <= m_size b
  | OpFill s => length s <= currentSize b
  | _ => True
  end.

(** A history in which every call is allowed when it is made. *)
Inductive history : list op -> Buffer -> Prop :=
| history_nil b : history [] b
| history_cons o os b :
    allowed o b -> (forall b', exec o b = Some b' -> history os b') -> history (o :: os) b.

Fixpoint run (os : list op) (b : Buffer) : option Buffer :=
  match os with
  | [] => Some b
  | o :: os' => exec o b ≫= run os'
  end.

Lemma exec_safe o b : wf b -> allowed o b -> exists b', exec o b = Some b' /\ wf b'.
Proof.
  intros H Ha. destruct o; simpl in *.
  - eexists; split; [done|]. eauto with getodac.
  - eexists; split; [done|]. eauto with getodac.
  - eexists; split; [done|]. eauto with getodac.
  - destruct (commit_spec b H) as (b' & ? & ? & _). by exists b'.
  - eexists; split; [done|]. destruct Ha. by apply buf_wf_setCurrentSize.
  - destruct (assign_spec s b H) as (b' & ? & ? & _). by exists b'.
  - by apply wf_mul_assign.
  - eexists; split; [done|]. auto with getodac.
  - by apply wf_fill.
Qed.

(** * Properties *)



(** The refill pattern of [readHeaders] and [read] keeps pending input: after
    [reset], [*= pending], a read of [r] into the free part, [reset] and
    [setCurrentSize(|r| + |pending|)], the buffer's current text is [pending]
    followed by [r], provided the pending bytes are fewer than the buffer's
    size. *)
Theorem buffer_refill b pending r :
  wf b -> length pending < m_size b -> length r <= m_size b - length pending ->
  exists b1 b2,
    mul_assign pending (reset b) = Some b1 /\
    currentSize b1 = m_size b - length pending /\
    fill r b1 = Some b2 /\
    currentString (setCurrentSize (length r + length pending) (reset b2)) = Some (pending ++ r).
Proof.
  intros H Hp Hr. pose proof (buf_wf_reset b H) as Hw.
  destruct (mul_assign_fits pending (reset b) Hw Hp) as (d & E & Hm).
  eexists _, _. split; [exact Hm|]. split; [done|].
  destruct Hw as [H1 _]. rewrite E in H1. simpl in H1.
  rewrite (fill_spec r _ (length pending) (m_size b) (pending ++ drop (length pending) d));
    [|done|done|done|rewrite length_app, length_drop; lia].
  split; [done|].
  rewrite take_app_length, (app_assoc pending r).
  unfold setCurrentSize, reset, get, currentString, currentSize. simpl.
  rewrite Nat.sub_0_r, load_At.
  - rewrite drop_0. f_equal. rewrite take_app_le by (rewrite length_app; lia).
    apply take_ge. rewrite length_app. lia.
  - rewrite !length_app, length_drop, length_app, length_drop. lia.
Qed.

Lemma buffer_refill_witness :
  let b := make 8 in
  (wf b /\ length (str "ab") < m_size b /\ length (str "cde") <= m_size b - length (str "ab")) /\
  exists b1 b2, mul_assign (str "ab") (reset b) = Some b1 /\ fill (str "cde") b1 = Some b2 /\
    currentString (setCurrentSize 5 (reset b2)) = Some (str "abcde").
Proof.
  intros b.
  assert (H1 : wf b) by apply buf_wf_make.
  assert (H2 : length (str "ab") < m_size b) by (vm_compute; lia).
  assert (H3 : length (str "cde") <= m_size b - length (str "ab")) by (vm_compute; lia).
  split; [auto|].
  destruct (buffer_refill b (str "ab") (str "cde") H1 H2 H3) as (b1 & b2 & E1 & _ & E2 & E3).
  exists b1, b2. auto.
Defined.

(** Limit of the refill pattern: when the pending bytes fill the buffer,
    [*=] falls back to plain assignment, which leaves the cursor at the start of
    the pending bytes.  The next read overwrites them, and the size set
    afterwards runs past the end of the block. *)
Theorem buffer_refill_overrun b pending r :
  wf b -> m_size b <= length pending -> r <> [] -> length r <= length pending ->
  exists b1 b2,
    mul_assign pending (reset b) = Some b1 /\ currentSize b1 = length pending /\
    fill r b1 = Some b2 /\
    m_buffer b2 = Some (r ++ drop (length r) pending) /\
    currentString (setCurrentSize (length r + length pending) (reset b2)) = None.
Proof.
  intros H Hp Hr Hl. pose proof (buf_wf_reset b H) as Hw.
  unfold mul_assign. rewrite decide_True by done.
  destruct (resize_block (length pending) _ Hw) as (d & E1 & E2 & E3 & E4 & E5).
  destruct d as [d|]; [|destruct r; [done|]; simpl in *; lia].
  unfold assign. rewrite (copy_in_spec _ _ _ E1) by lia.
  rewrite E2, E4, E5, drop_ge, app_nil_r by lia.
  eexists _, _. split; [reflexivity|]. split; [unfold currentSize; simpl; lia|].
  rewrite (fill_spec r _ 0 (length pending) pending) by (done || (simpl; lia)).
  split; [done|]. split; [done|].
  unfold setCurrentSize, reset, get, currentString, currentSize. simpl. unfold load.
  destruct (length r + length pending - 0) as [|n] eqn:En; [destruct r; [done|]; simpl in *; lia|].
  apply decide_False. rewrite length_app, length_drop. destruct r; simpl in *; [done|lia].
Qed.

Lemma buffer_refill_overrun_witness :
  let b := make 4 in
  (wf b /\ m_size b <= length (str "abcd") /\ str "XY" <> [] /\ length (str "XY") <= length (str "abcd")) /\
  exists b1 b2, mul_assign (str "abcd") (reset b) = Some b1 /\ fill (str "XY") b1 = Some b2 /\
    m_buffer b2 = Some (str "XYcd").
Proof.
  intros b.
  assert (H1 : wf b) by apply buf_wf_make.
  assert (H2 : m_size b <= length (str "abcd")) by (vm_compute; lia).
  assert (H3 : str "XY" <> []) by discriminate.
  assert (H4 : length (str "XY") <= length (str "abcd")) by (vm_compute; lia).
  split; [auto|].
  destruct (buffer_refill_overrun b (str "abcd") (str "XY") H1 H2 H3 H4)
    as (b1 & b2 & E1 & _ & E2 & E3 & _).
  exists b1, b2. auto.
Defined.
