(* ===== verification/Http.v ===== *)
(** HTTP messages of include/dracon/http.h: the status table, [Response] and its
    serialisation, [Request] and its declared content length, and the
    exceptions the server throws. *)

From Stdlib Require Import Ascii String NArith ZArith Lia.
From stdpp Require Import gmap strings list fin_maps.
From S2P Require Import Prelude.

(** * Status codes *)

Definition status_text (s : string) : bytes := str s ++ CRLF.
Arguments status_text _%_string.

(** The initialiser of [StatusCodes], entry by entry. *)
Definition StatusCodes_list : list (N * bytes) :=
  ([(100, status_text "100 Continue");
   (101, status_text "101 Switching Protocols");
   (200, status_text "200 OK");
   (201, status_text "201 Created");
   (202, status_text "202 Accepted");
   (203, status_text "203 Non-Authoritative Information");
   (204, status_text "204 No Content");
   (205, status_text "205 Reset Content");
   (206, status_text "206 Partial Content");
   (300, status_text "300 Multiple Choices");
   (301, status_text "301 Moved Permanently");
   (302, status_text "302 Found");
   (303, status_text "303 See Other");
   (304, status_text "304 Not Modified");
   (305, status_text "305 Use Proxy");
   (306, status_text "306 Switch Proxy");
   (307, status_text "307 Temporary Redirect");
   (400, status_text "400 Bad Request");
   (401, status_text "401 Unauthorized");
   (402, status_text "402 Payment Required");
   (403, status_text "403 Forbidden");
   (404, status_text "404 Not Found");
   (405, status_text "405 Method Not Allowed");
   (406, status_text "406 Not Acceptable");
   (407, status_text "407 Proxy Authentication Required");
   (408, status_text "408 Request Timeout");
   (409, status_text "409 Conflict");
   (410, status_text "410 Gone");
   (411, status_text "411 Length Required");
   (412, status_text "412 Precondition Failed");
   (413, status_text "413 Request Entity Too Large");
   (414, status_text "414 Request-URI Too Long");
   (415, status_text "415 Unsupported Media Type");
   (416, status_text "415 Requested Range Not Satisfiable");
   (417, status_text "417 Expectation Failed");
   (500, status_text "500 Internal Server Error");
   (501, status_text "501 Not Implemented");
   (502, status_text "502 Bad Gateway");
   (503, status_text "503 Service Unavailable");
   (504, status_text "504 Gateway Timeout");
   (505, status_text "505 HTTP Version Not Supported")])%N.

Definition StatusCodes : gmap N bytes := list_to_map StatusCodes_list.

(** [statusCodeString]; [StatusCodes.at(500)] is the default. *)
Definition statusCodeString (status : N) : bytes :=
  match StatusCodes !! status with
  | Some s => s
  | None => default [] (StatusCodes !! 500%N)
  end.

Definition ChunkedData : Z := SIZE_MAX.

(** * Fields

    [std::unordered_map<std::string, std::string>].  The standard leaves the
    iteration order open: a loop over the fields goes through [iter], any
    function that lists a map's entries. *)

Abbreviation Fields := (gmap bytes bytes).

Class IterationOrder := {
  iter : Fields -> list (bytes * bytes);
  iter_perm : forall m, iter m ≡ₚ map_to_list m
}.

(** * Response *)

Record Response := {
  fields : Fields;
  m_statusCode : N;
  m_body : bytes;
  m_contentLength : Z;
  (** in seconds; -1 when not set *)
  m_keep_alive : Z
}.

Definition make_response (statusCode : N) (body : bytes) (flds : Fields) : Response :=
  {| fields := flds; m_statusCode := statusCode; m_body := body;
     m_contentLength := Z.of_nat (length body); m_keep_alive := -1 |}.

(** [Response{code}], [Response{code, body}] and [Response{}] *)
Definition response1 (statusCode : N) : Response := make_response statusCode [] ∅.
Definition response2 (statusCode : N) (body : bytes) : Response := make_response statusCode body ∅.
Definition response0 : Response := response1 500.

Definition setStatusCode (status_code : N) (r : Response) : Response :=
  {| fields := fields r; m_statusCode := status_code; m_body := m_body r;
     m_contentLength := m_contentLength r; m_keep_alive := m_keep_alive r |}.

Definition setContentLength (len : Z) (r : Response) : Response :=
  {| fields := fields r; m_statusCode := m_statusCode r; m_body := [];
     m_contentLength := len; m_keep_alive := m_keep_alive r |}.

Definition setKeepAlive (seconds : Z) (r : Response) : Response :=
  {| fields := fields r; m_statusCode := m_statusCode r; m_body := m_body r;
     m_contentLength := m_contentLength r; m_keep_alive := seconds |}.

Definition setBody (body : bytes) (r : Response) : Response :=
  {| fields := fields r; m_statusCode := m_statusCode r; m_body := body;
     m_contentLength := Z.of_nat (length body); m_keep_alive := m_keep_alive r |}.

(** [res[key] = value] *)
Definition setField (key value : bytes) (r : Response) : Response :=
  {| fields := <[key := value]> (fields r); m_statusCode := m_statusCode r; m_body := m_body r;
     m_contentLength := m_contentLength r; m_keep_alive := m_keep_alive r |}.

(** [operator "" _http]: the literal is narrowed to [uint16_t]. *)
Definition http_literal (status : Z) : Response := response1 (Z.to_N (wrap16 status)).

Definition header_line (k v : bytes) : bytes := k ++ str ": " ++ v ++ CRLF.

Definition toString `{IterationOrder} (keepAliveOverride : Z) (r : Response) : bytes :=
  let statusCode := if (m_statusCode r =? 0)%N then 500%N else m_statusCode r in
  let keepAlive := if (keepAliveOverride =? -1)%Z then m_keep_alive r else keepAliveOverride in
  str "HTTP/1.1 " ++ statusCodeString statusCode ++
  concat ((fun kv => header_line kv.1 kv.2) <$> iter (fields r)) ++
  (if (m_contentLength r =? ChunkedData)%Z then str "Transfer-Encoding: chunked" ++ CRLF
   else str "Content-Length: " ++ print_dec (Z.to_N (m_contentLength r)) ++ CRLF) ++
  (if (0 <? keepAlive)%Z then
     str "Keep-Alive: timeout=" ++ print_dec (Z.to_N keepAlive) ++ CRLF ++
     str "Connection: keep-alive" ++ CRLF
   else str "Connection: close" ++ CRLF) ++
  CRLF ++ m_body r.

(** * Exceptions

    What the server's [catch] clauses distinguish: an [int], a [Response], a
    standard exception, an [error_code] (its errno value), anything else. *)

Inductive exn : Type :=
| ex_int (error : Z)
| ex_response (r : Response)
| ex_std (e : std_exception)
| ex_code (ec : Z)
| ex_other.

(** * Request *)

Inductive State : Type :=
| Uninitialized
| ProcessingUrl
| ProcessingHeader
| HeadersCompleted
| ProcessingBody
| Completed.

#[export] Instance State_eq_dec : EqDecision State.
Proof. solve_decision. Defined.

(** [B] is the state a body callback captures: calling it may change that state
    or throw. *)
Definition BodyCallback (B : Type) : Type := bytes -> B -> result exn B.

Record Request (B : Type) := {
  req_fields : Fields;
  req_keep_alive : bool;
  m_url : bytes;
  m_method : bytes;
  m_callback : option (BodyCallback B);
  m_state : State;
  m_maxBodySize : Z
}.
Arguments req_fields {B} _.
Arguments req_keep_alive {B} _.
Arguments m_url {B} _.
Arguments m_method {B} _.
Arguments m_callback {B} _.
Arguments m_state {B} _.
Arguments m_maxBodySize {B} _.

Section Request.
Context {B : Type}.
Implicit Type r : Request B.

Definition make_request : Request B :=
  {| req_fields := ∅; req_keep_alive := false; m_url := []; m_method := [];
     m_callback := None; m_state := Uninitialized; m_maxBodySize := 0 |}.

Definition setState (s : State) r : Request B :=
  {| req_fields := req_fields r; req_keep_alive := req_keep_alive r; m_url := m_url r;
     m_method := m_method r; m_callback := m_callback r; m_state := s;
     m_maxBodySize := m_maxBodySize r |}.

Definition setUrl (url : bytes) r : Request B :=
  {| req_fields := req_fields r; req_keep_alive := req_keep_alive r; m_url := url;
     m_method := m_method r; m_callback := m_callback r; m_state := m_state r;
     m_maxBodySize := m_maxBodySize r |}.

Definition setMethod (method : bytes) r : Request B :=
  {| req_fields := req_fields r; req_keep_alive := req_keep_alive r; m_url := m_url r;
     m_method := method; m_callback := m_callback r; m_state := m_state r;
     m_maxBodySize := m_maxBodySize r |}.

Definition req_setKeepAlive (keep : bool) r : Request B :=
  {| req_fields := req_fields r; req_keep_alive := keep; m_url := m_url r;
     m_method := m_method r; m_callback := m_callback r; m_state := m_state r;
     m_maxBodySize := m_maxBodySize r |}.

(** [req[key] = value] *)
Definition req_setField (key value : bytes) r : Request B :=
  {| req_fields := <[key := value]> (req_fields r); req_keep_alive := req_keep_alive r;
     m_url := m_url r; m_method := m_method r; m_callback := m_callback r;
     m_state := m_state r; m_maxBodySize := m_maxBodySize r |}.

(** [max_size] defaults to [SIZE_MAX - 1]. *)
Definition appendBodyCallback (callback : BodyCallback B) (max_size : Z) r : Request B :=
  {| req_fields := req_fields r; req_keep_alive := req_keep_alive r; m_url := m_url r;
     m_method := m_method r; m_callback := Some callback; m_state := m_state r;
     m_maxBodySize := max_size |}.

Definition appendBody (body : bytes) r (b : B) : result exn B :=
  match m_callback r with
  | None => Throw (ex_response (response2 400 (str "unexpected body")))
  | Some cb => cb body b
  end.
End Request.

(** [isspace] in the C locale. *)
Definition isspace (c : ascii) : bool :=
  let n := N_of_ascii c in ((n =? 32) || ((9 <=? n) && (n <=? 13)))%N.

Definition digit_value (c : ascii) : option N :=
  let n := N_of_ascii c in if ((48 <=? n) && (n <=? 57))%N then Some (n - 48)%N else None.

(** The leading decimal digits of [s]. *)
Fixpoint lead_digits (s : bytes) : list N :=
  match s with
  | [] => []
  | c :: s' => match digit_value c with Some d => d :: lead_digits s' | None => [] end
  end.

Fixpoint lead_spaces (s : bytes) : nat :=
  match s with
  | [] => 0
  | c :: s' => if isspace c then S (lead_spaces s') else 0
  end.

(** Is there a minus sign, and the length of the sign. *)
Definition lead_sign (s : bytes) : bool * nat :=
  match s with
  | c :: _ => if decide (c = "-"%char) then (true, 1)
              else if decide (c = "+"%char) then (false, 1) else (false, 0)
  | [] => (false, 0)
  end.

(** [strtoull(s, &end, 10)]: the value and the offset of [end].  Out-of-range
    values saturate at [ULLONG_MAX]; a minus sign negates modulo 2^64. *)
Definition strtoull (s : bytes) : Z * nat :=
  let sp := lead_spaces s in
  let s1 := drop sp s in
  let '(neg, sg) := lead_sign s1 in
  let ds := lead_digits (drop sg s1) in
  match ds with
  | [] => (0%Z, 0)
  | _ =>
      let n := Z.of_N (of_digits 10 ds) in
      let v := if (SIZE_MAX <? n)%Z then SIZE_MAX else if neg then wrap64 (- n) else n in
      (v, sp + sg + length ds)
  end.

(** [Request::contentLength] *)
Definition contentLength {B : Type} (r : Request B) : Z :=
  match req_fields r !! str "Content-Length" with
  | Some v => let '(len, e) := strtoull v in
              if decide (e = length v) then len else ChunkedData
  | None => ChunkedData
  end.

(** * Reading a response back

    A reader of HTTP/1.1 responses, independent of the writer: the status line,
    the header lines up to the empty line, and what follows. *)

Definition take_line (s : bytes) : option (bytes * bytes) :=
  (fun i => (take i s, drop (i + 2) s)) <$> find_sub s CRLF.

Definition parse_field (line : bytes) : option (bytes * bytes) :=
  (fun i => (take i line, drop (i + 2) line)) <$> find_sub line (str ": ").

Fixpoint parse_headers (fuel : nat) (s : bytes) : option (list (bytes * bytes) * bytes) :=
  match fuel with
  | O => None
  | S fuel' =>
      match take_line s with
      | None => None
      | Some ([], rest) => Some ([], rest)
      | Some (line, rest) =>
          match parse_field line, parse_headers fuel' rest with
          | Some kv, Some (hs, body) => Some (kv :: hs, body)
          | _, _ => None
          end
      end
  end.

Definition parse_response (s : bytes) : option (bytes * list (bytes * bytes) * bytes) :=
  match take_line s with
  | None => None
  | Some (line, rest) =>
      (fun hb : list (bytes * bytes) * bytes => (line, hb.1, hb.2)) <$> parse_headers (length s) rest
  end.

(** A field a header line can carry: no CR in the name or the value, no colon in
    the name. *)
Definition clean_field (kv : bytes * bytes) : Prop :=
  CR ∉ kv.1 /\ CR ∉ kv.2 /\ ":"%char ∉ kv.1.

(** The framing and connection headers [toString] adds. *)
Definition framing (keepAlive : Z) (r : Response) : list (bytes * bytes) :=
  (if (m_contentLength r =? ChunkedData)%Z then (str "Transfer-Encoding", str "chunked")
   else (str "Content-Length", print_dec (Z.to_N (m_contentLength r)))) ::
  (if (0 <? keepAlive)%Z then
     [(str "Keep-Alive", str "timeout=" ++ print_dec (Z.to_N keepAlive));
      (str "Connection", str "keep-alive")]
   else [(str "Connection", str "close")]).

(** * Lemmas *)

Lemma take_line_app (l r : bytes) : CR ∉ l -> take_line (l ++ CRLF ++ r) = Some (l, r).
Proof.
  intros Hl. unfold take_line, CRLF. rewrite (find_sub_app CR [LF] l r) by done. simpl.
  rewrite take_app_length, drop_app_ge by lia.
  replace (length l + 2 - length l) with 2 by lia. done.
Qed.

Lemma parse_field_app k v : ":"%char ∉ k -> parse_field (k ++ str ": " ++ v) = Some (k, v).
Proof.
  intros Hk. unfold parse_field. change (str ": ") with [":"%char; " "%char].
  rewrite find_sub_app by done. simpl. rewrite take_app_length, drop_app_ge by lia.
  replace (length k + 2 - length k) with 2 by lia. done.
Qed.

Lemma header_line_app k v r : header_line k v ++ r = (k ++ str ": " ++ v) ++ CRLF ++ r.
Proof. unfold header_line. by rewrite <- !app_assoc. Qed.

Lemma parse_headers_app fuel hs body :
  Forall clean_field hs -> length hs < fuel ->
  parse_headers fuel (concat ((fun kv => header_line kv.1 kv.2) <$> hs) ++ CRLF ++ body) =
  Some (hs, body).
Proof.
  revert fuel; induction hs as [|[k v] hs IH]; intros fuel Hc Hf;
    (destruct fuel as [|fuel]; [simpl in Hf; lia|]); cbn [parse_headers].
  - reflexivity.
  - apply Forall_cons in Hc as [(H1 & H2 & H3) Hc]. csimpl in *.
    rewrite <- app_assoc, header_line_app, take_line_app by (change (str ": ") with [":"%char; " "%char];
      rewrite !not_elem_of_app; split; [done|split; [by vm_compute; set_solver|done]]).
    rewrite parse_field_app, IH by (done || lia).
    by destruct k.
Qed.

(** Every entry of the table is a CR-free line ended by CR LF that starts with
    its own number; the entry of 416 starts with 415. *)
Definition status_prefix (n : N) : bytes :=
  print_dec (if (n =? 416)%N then 415%N else n) ++ str " ".

Definition status_reason (n : N) (l : bytes) : bytes :=
  take (length l - length (status_prefix n) - 2) (drop (length (status_prefix n)) l).

Definition status_entry_ok (n : N) (l : bytes) : bool :=
  bool_decide (l = status_prefix n ++ status_reason n l ++ CRLF /\ CR ∉ status_reason n l).

Lemma StatusCodes_entries :
  forallb (fun nl => status_entry_ok nl.1 nl.2) StatusCodes_list = true.
Proof. vm_compute. reflexivity. Qed.

Lemma StatusCodes_entry n l :
  StatusCodes !! n = Some l ->
  exists reason, CR ∉ reason /\ l = status_prefix n ++ reason ++ CRLF.
Proof.
  intros H%elem_of_list_to_map_2.
  pose proof (proj1 (List.forallb_forall _ _) StatusCodes_entries) as Hall.
  apply list_elem_of_In in H. specialize (Hall _ H). simpl in Hall.
  apply bool_decide_eq_true in Hall as [E1 E2]. by exists (status_reason n l).
Qed.

Lemma status_prefix_no_CR n : CR ∉ status_prefix n.
Proof.
  unfold status_prefix. rewrite not_elem_of_app. split.
  - by apply digit_chars_absent.
  - decided.
Qed.

Lemma statusCodeString_line n : exists line, CR ∉ line /\ statusCodeString n = line ++ CRLF.
Proof.
  assert (H : forall m l, StatusCodes !! m = Some l -> exists line, CR ∉ line /\ l = line ++ CRLF).
  { intros m l (reason & Hr & ->)%StatusCodes_entry. exists (status_prefix m ++ reason).
    rewrite <- app_assoc. split; [|done]. rewrite not_elem_of_app.
    split; [apply status_prefix_no_CR|done]. }
  unfold statusCodeString. destruct (StatusCodes !! n) eqn:E; [by eapply H|].
  by apply (H 500%N).
Qed.

Lemma framing_clean ka r : Forall clean_field (framing ka r).
Proof.
  assert (Hp : forall n, CR ∉ print_dec n) by (intros n; by apply digit_chars_absent).
  unfold framing. destruct (m_contentLength r =? ChunkedData)%Z, (0 <? ka)%Z;
    rewrite ?Forall_cons, Forall_nil; unfold clean_field; cbn [fst snd];
    rewrite ?not_elem_of_app; repeat split; try apply Hp;
    decided.
Qed.

Lemma iter_clean `{IterationOrder} m :
  (forall k v, m !! k = Some v -> clean_field (k, v)) -> Forall clean_field (iter m).
Proof.
  intros Hm. rewrite iter_perm. apply Forall_forall. intros [k v] Hkv.
  by apply Hm, elem_of_map_to_list.
Qed.

Lemma toString_lines `{IterationOrder} ka r :
  toString ka r =
  (str "HTTP/1.1 " ++ statusCodeString (if (m_statusCode r =? 0)%N then 500%N else m_statusCode r)) ++
  concat ((fun kv => header_line kv.1 kv.2) <$>
     (iter (fields r) ++ framing (if (ka =? -1)%Z then m_keep_alive r else ka) r)) ++
  CRLF ++ m_body r.
Proof.
  unfold toString. rewrite fmap_app, concat_app, <- !app_assoc. do 3 f_equal.
  unfold framing, header_line. csimpl.
  destruct (m_contentLength r =? ChunkedData)%Z, (0 <? _)%Z; simpl;
    rewrite ?app_nil_r, <- ?app_assoc; simpl; by rewrite <- ?app_assoc.
Qed.

Lemma lead_digits_app ds rest :
  Forall (fun d => d < 10)%N ds ->
  lead_digits ((digit_char <$> ds) ++ rest) = ds ++ lead_digits rest.
Proof.
  induction ds as [|d ds IH]; intros Hd; [done|]. apply Forall_cons in Hd as [Hd Hds]. csimpl.
  assert (Hv : forall d, (d < 16)%N -> (d < 10)%N -> digit_value (digit_char d) = Some d).
  { apply (digit_forall (fun d => (d < 10)%N -> digit_value (digit_char d) = Some d)).
    vm_compute. repeat (constructor; [intros; done|]). constructor. }
  rewrite Hv by lia. by rewrite IH.
Qed.

Lemma digit_value_Some c d : digit_value c = Some d -> (d < 10)%N /\ c = digit_char d.
Proof.
  unfold digit_value. intros H. case_match eqn:E; [|done]. simplify_eq.
  rewrite andb_true_iff, !N.leb_le in E. split; [lia|]. unfold digit_char.
  rewrite (proj2 (N.ltb_lt _ _)) by lia.
  replace (48 + (N_of_ascii c - 48))%N with (N_of_ascii c) by lia.
  by rewrite ascii_N_embedding.
Qed.

Lemma lead_digits_prefix s :
  Forall (fun d => d < 10)%N (lead_digits s) /\
  exists rest, s = (digit_char <$> lead_digits s) ++ rest.
Proof.
  induction s as [|c s [IH [r Hr]]]; simpl; [by split; [|exists []]|].
  destruct (digit_value c) as [d|] eqn:E; [|by split; [|exists (c :: s)]].
  apply digit_value_Some in E as [Hd ->]. split; [by constructor|]. exists r. csimpl. by rewrite <- Hr.
Qed.

Lemma lead_spaces_prefix s :
  Forall (fun c => isspace c = true) (take (lead_spaces s) s) /\ lead_spaces s <= length s.
Proof.
  induction s as [|c s [IH Hl]]; simpl; [by split; [constructor|lia]|].
  destruct (isspace c) eqn:E; simpl; [split; [by constructor|lia]|split; [constructor|lia]].
Qed.

Lemma strtoull_digits ds :
  ds <> [] -> Forall (fun d => d < 10)%N ds ->
  strtoull (digit_char <$> ds) = (Z.min (Z.of_N (of_digits 10 ds)) SIZE_MAX, length ds).
Proof.
  intros Hne Hd. unfold strtoull.
  destruct ds as [|d ds]; [done|].
  assert (Hc : isspace (digit_char d) = false /\ digit_char d <> "-"%char /\ digit_char d <> "+"%char).
  { apply Forall_cons in Hd as [Hd _].
    apply (digit_forall (fun d => isspace (digit_char d) = false /\ digit_char d <> "-"%char /\
      digit_char d <> "+"%char)); [|lia]. vm_compute. repeat (constructor; [done|]). constructor. }
  destruct Hc as (Hsp & Hm & Hp).
  pose proof (lead_digits_app (d :: ds) [] Hd) as Hl. rewrite app_nil_r in Hl.
  assert (lead_spaces (digit_char <$> d :: ds) = 0) as -> by (csimpl; by rewrite Hsp).
  rewrite drop_0. unfold lead_sign. rewrite fmap_cons at 1. rewrite !decide_False by done.
  rewrite drop_0, Hl. simpl lead_digits. rewrite app_nil_r.
  f_equal. destruct (Z.ltb_spec SIZE_MAX (Z.of_N (of_digits 10 (d :: ds)))); lia.
Qed.

Lemma contentLength_shape {B} (r : Request B) :
  contentLength r <> ChunkedData ->
  exists v, req_fields r !! str "Content-Length" = Some v /\
    (v = [] \/
     exists sp sg ds, v = sp ++ sg ++ (digit_char <$> ds) /\
       Forall (fun c => isspace c = true) sp /\ (sg = [] \/ sg = str "-" \/ sg = str "+") /\
       ds <> [] /\ Forall (fun d => d < 10)%N ds).
Proof.
  unfold contentLength. intros H.
  destruct (req_fields r !! str "Content-Length") as [v|] eqn:E; [|done].
  exists v. split; [done|]. unfold strtoull in H.
  pose proof (lead_spaces_prefix v) as [Hsp Hspl].
  set (sp := lead_spaces v) in *.
  assert (Hv : v = take sp v ++ drop sp v) by (by rewrite take_drop).
  set (s1 := drop sp v) in *.
  destruct (lead_sign s1) as [neg sg] eqn:Es.
  assert (Hsg : sg <= length s1 /\ (take sg s1 = [] \/ take sg s1 = str "-" \/ take sg s1 = str "+")).
  { unfold lead_sign in Es. destruct s1 as [|c s1]; simplify_eq; [by split; [simpl; lia|left]|].
    repeat case_decide; simplify_eq; simpl; (split; [lia|]); auto. }
  destruct Hsg as [Hsgl Hsg].
  destruct (lead_digits_prefix (drop sg s1)) as [Hds [rest Hrest]].
  destruct (lead_digits (drop sg s1)) as [|d ds] eqn:El.
  - case_decide as Hl; [|done]. left. by destruct v.
  - right. exists (take sp v), (take sg s1), (d :: ds).
    case_decide as Hl; [|done]. split; [|done].
    assert (rest = []) as ->.
    { apply nil_length_inv. apply (f_equal length) in Hrest, Hv.
      rewrite length_app, length_fmap, length_drop in Hrest.
      rewrite length_app, length_take in Hv. lia. }
    rewrite app_nil_r in Hrest. rewrite <- Hrest, take_drop. done.
Qed.

(** Building a response: the constructors and the chained setters. *)
Inductive built : Response -> Prop :=
| built_make code body flds : (Z.of_nat (length body) <= SIZE_MAX)%Z -> built (make_response code body flds)
| built_status code r : built r -> built (setStatusCode code r)
| built_length len r : (0 <= len <= SIZE_MAX)%Z -> built r -> built (setContentLength len r)
| built_keep s r : built r -> built (setKeepAlive s r)
| built_body body r : (Z.of_nat (length body) <= SIZE_MAX)%Z -> built r -> built (setBody body r)
| built_field k v r : built r -> built (setField k v r).

(** Concrete iteration order, used to evaluate examples. *)
Definition listed_order : IterationOrder :=
  {| iter := map_to_list; iter_perm := fun m => reflexivity _ |}.

(** * Properties *)

(** C19. Round trip: serialising a response whose fields can stand in a header
    line, and reading the text back, recovers the status line, every field with
    its value, the framing and connection headers, and the body.  Nothing is
    lost or merged, whatever order the field map is iterated in. *)
Theorem response_roundtrip `{IterationOrder} ka r :
  (forall k v, fields r !! k = Some v -> clean_field (k, v)) ->
  exists line,
    statusCodeString (if (m_statusCode r =? 0)%N then 500%N else m_statusCode r) = line ++ CRLF /\
    parse_response (toString ka r) =
      Some (str "HTTP/1.1 " ++ line,
            iter (fields r) ++ framing (if (ka =? -1)%Z then m_keep_alive r else ka) r,
            m_body r).
Proof.
  intros Hc. rewrite toString_lines.
  destruct (statusCodeString_line (if (m_statusCode r =? 0)%N then 500%N else m_statusCode r))
    as (line & Hl & E).
  exists line. split; [done|]. rewrite E, (app_assoc (str "HTTP/1.1 ")). unfold parse_response.
  rewrite <- (app_assoc _ CRLF), take_line_app.
  2: { rewrite not_elem_of_app. split; [|done]. decided. }
  rewrite parse_headers_app; [done| |].
  - apply Forall_app. split; [by apply iter_clean|apply framing_clean].
  - set (hs := iter (fields r) ++ _).
    assert (Hlen : length hs <= length (concat ((fun kv => header_line kv.1 kv.2) <$> hs))).
    { clear. induction hs as [|kv hs IH]; [done|]. csimpl. rewrite length_app.
      unfold header_line at 1. rewrite !length_app. simpl. lia. }
    rewrite !length_app. simpl. lia.
Qed.

Lemma response_roundtrip_witness :
  let r := setField (str "Refresh") (str "5") (response2 200 (str "hello")) in
  (forall k v, fields r !! k = Some v -> clean_field (k, v)) /\
  @parse_response (@toString listed_order 10 r) =
    Some (str "HTTP/1.1 200 OK",
          [(str "Refresh", str "5"); (str "Content-Length", str "5");
           (str "Keep-Alive", str "timeout=10"); (str "Connection", str "keep-alive")],
          str "hello").
Proof.
  intros r.
  assert (Hc : forall k v, fields r !! k = Some v -> clean_field (k, v)).
  { intros k v Hk. unfold r in Hk. simpl in Hk.
    apply lookup_insert_Some in Hk as [[<- <-]|[_ Hk]]; [|done].
    decided. }
  split; [exact Hc|].
  destruct (@response_roundtrip listed_order 10 r Hc) as (line & E & Hp).
  assert (line = str "200 OK") as ->.
  { apply (app_inv_tail CRLF). rewrite <- E. vm_compute. reflexivity. }
  rewrite Hp.
  vm_compute. reflexivity.
Defined.

(** Whatever sequence of constructors and setters built a response, an
    inline body is never sent with a wrong length: either the body is empty (the
    caller announced a length for data it streams itself) or the announced
    content length is the body's, and it always fits a [size_t]. *)
Theorem response_framing r :
  built r ->
  (m_body r = [] \/ m_contentLength r = Z.of_nat (length (m_body r))) /\
  (0 <= m_contentLength r <= SIZE_MAX)%Z.
Proof.
  assert (Hmax : (0 <= SIZE_MAX)%Z) by (vm_compute; discriminate).
  induction 1 as [code body flds Hl|code r H IH|len r Hl H IH|s r H IH|body r Hl H IH|k v r H IH];
    simpl in *; auto with lia.
Qed.

Lemma response_framing_witness :
  let r := setField (str "k") (str "v") (setBody (str "abc") (setContentLength 7 (response1 200))) in
  built r /\ m_contentLength r = 3%Z /\
  (m_body r = [] \/ m_contentLength r = Z.of_nat (length (m_body r))).
Proof.
  intros r.
  assert (H : built r) by (repeat first [apply built_field | apply built_body; [vm_compute; discriminate|]
    | apply built_length; [vm_compute; split; discriminate|] | apply built_make; vm_compute; discriminate]).
  split; [exact H|]. split; [reflexivity|]. exact (proj1 (response_framing r H)).
Defined.

(** Status lines: every code of the table except 416 gives a line that starts
    with that code and ends in CR LF; a code outside the table gives the line of
    500; the line of 416 carries the number 415. *)
Theorem status_lines :
  (forall n, is_Some (StatusCodes !! n) -> n <> 416%N ->
     exists reason, CR ∉ reason /\ statusCodeString n = print_dec n ++ str " " ++ reason ++ CRLF) /\
  (forall n, StatusCodes !! n = None -> statusCodeString n = statusCodeString 500) /\
  statusCodeString 416 = str "415 Requested Range Not Satisfiable" ++ CRLF.
Proof.
  split; [|split; [|vm_compute; reflexivity]].
  - intros n [l Hl] Hn. unfold statusCodeString. rewrite Hl.
    destruct (StatusCodes_entry n l Hl) as (reason & Hr & ->). exists reason. split; [done|].
    unfold status_prefix. apply N.eqb_neq in Hn. by rewrite Hn, <- app_assoc.
  - intros n Hn. unfold statusCodeString. rewrite Hn. vm_compute. reflexivity.
Qed.

(** A content length written in decimal is read back exactly when it is
    smaller than [SIZE_MAX]; from [SIZE_MAX] on the value saturates and the
    request counts as one without a declared length. *)
Theorem contentLength_decimal {B} (r : Request B) (n : N) :
  req_fields r !! str "Content-Length" = Some (print_dec n) ->
  contentLength r = Z.min (Z.of_N n) ChunkedData /\
  (contentLength r = ChunkedData <-> (SIZE_MAX <= Z.of_N n)%Z).
Proof.
  intros H. assert (E : contentLength r = Z.min (Z.of_N n) ChunkedData).
  { unfold contentLength. rewrite H. unfold print_dec.
    rewrite strtoull_digits; [|apply digits_nonempty|by apply digits_bound].
    rewrite decide_True by (by rewrite length_fmap). by rewrite of_digits_digits by done. }
  rewrite E. unfold ChunkedData. lia.
Qed.

Lemma contentLength_decimal_witness :
  let r := req_setField (B := unit) (str "Content-Length") (print_dec 1048576) make_request in
  req_fields r !! str "Content-Length" = Some (print_dec 1048576) /\
  contentLength r = 1048576%Z.
Proof.
  intros r. assert (H : req_fields r !! str "Content-Length" = Some (print_dec 1048576))
    by (vm_compute; reflexivity).
  split; [exact H|]. rewrite (proj1 (contentLength_decimal r 1048576 H)). vm_compute. reflexivity.
Defined.

(** A request is given a declared length only for a [Content-Length] value
    that is empty or consists of white space, an optional sign and decimal
    digits up to its very end; any other text, or no such field, means that no
    length is declared. *)
Theorem contentLength_accepts {B} (r : Request B) :
  contentLength r <> ChunkedData ->
  exists v, req_fields r !! str "Content-Length" = Some v /\
    (v = [] \/
     exists sp sg ds, v = sp ++ sg ++ (digit_char <$> ds) /\
       Forall (fun c => isspace c = true) sp /\ (sg = [] \/ sg = str "-" \/ sg = str "+") /\
       ds <> [] /\ Forall (fun d => d < 10)%N ds).
Proof. apply contentLength_shape. Qed.

Lemma contentLength_accepts_witness :
  let r := req_setField (B := unit) (str "Content-Length") (str " 42") make_request in
  contentLength r = 42%Z /\ contentLength r <> ChunkedData /\
  is_Some (req_fields r !! str "Content-Length").
Proof.
  intros r. assert (H : contentLength r <> ChunkedData) by (vm_compute; discriminate).
  split; [vm_compute; reflexivity|]. split; [exact H|].
  destruct (contentLength_accepts r H) as (v & Hv & _). exists v. exact Hv.
Defined.
