(* ===== verification/Effects.v ===== *)
(** Stateful, throwing, suspendable code.

    The handlers and streams of the server run inside coroutines: a call returns
    normally, throws, or is still suspended because the peer (or a worker
    thread) has not answered yet; a call that reads or writes outside its memory
    has undefined behaviour.  [M S A] is code over a state [S] with these four
    outcomes; bind and catch are the C++ sequencing and [try]/[catch]. *)

From Stdlib Require Import Ascii String NArith ZArith Lia.
From stdpp Require Import base gmap strings list.
From S2P Require Import Prelude Http.

Inductive outcome (A : Type) : Type :=
| Done (a : A)
| Raise (e : exn)
| Suspended
| Undefined.
Arguments Done {A} _.
Arguments Raise {A} _.
Arguments Suspended {A}.
Arguments Undefined {A}.

Definition M (S A : Type) : Type := S -> outcome A * S.

Definition ret {S A : Type} (a : A) : M S A := fun s => (Done a, s).

Definition bind {S A B : Type} (m : M S A) (k : A -> M S B) : M S B :=
  fun s => match m s with
           | (Done a, s') => k a s'
           | (Raise e, s') => (Raise e, s')
           | (Suspended, s') => (Suspended, s')
           | (Undefined, s') => (Undefined, s')
           end.

Definition throw {S A : Type} (e : exn) : M S A := fun s => (Raise e, s).

(** [try { m } catch (e) { h(e) }]; the handler decides which exceptions it
    takes by rethrowing the others. *)
Definition try_catch {S A : Type} (m : M S A) (h : exn -> M S A) : M S A :=
  fun s => match m s with
           | (Raise e, s') => h e s'
           | r => r
           end.

Definition gets {S A : Type} (f : S -> A) : M S A := fun s => (Done (f s), s).
Definition modify {S : Type} (f : S -> S) : M S unit := fun s => (Done tt, f s).
Definition undefined {S A : Type} : M S A := fun s => (Undefined, s).
Definition lift {S A : Type} (r : result exn A) : M S A :=
  match r with Ok a => ret a | Throw e => throw e end.

Definition skip {S : Type} : M S unit := ret tt.

Definition when {S : Type} (b : bool) (m : M S unit) : M S unit := if b then m else skip.

Fixpoint iterM {S A : Type} (f : A -> M S unit) (l : list A) : M S unit :=
  match l with
  | [] => skip
  | a :: l' => bind (f a) (fun _ => iterM f l')
  end.

Notation "x <-- m ;; k" := (bind m (fun x => k))
  (at level 100, m at next level, right associativity) : getodac_scope.
Notation "m >>> k" := (bind m (fun _ => k))
  (at level 100, right associativity) : getodac_scope.

(** * Lemmas *)

Lemma bind_Done {S A B : Type} (m : M S A) (k : A -> M S B) s b s' :
  bind m k s = (Done b, s') <-> exists a s1, m s = (Done a, s1) /\ k a s1 = (Done b, s').
Proof. unfold bind. destruct (m s) as [[a|e| |] s1]; naive_solver. Qed.

Lemma lift_Done {S A : Type} (r : result exn A) (s s' : S) a : lift r s = (Done a, s') -> r = Ok a /\ s' = s.
Proof. destruct r; intros E; [injection E as -> ->; done|discriminate E]. Qed.

Lemma bind_Raise {S A B : Type} (m : M S A) (k : A -> M S B) s e s' :
  bind m k s = (Raise e, s') <->
  m s = (Raise e, s') \/ exists a s1, m s = (Done a, s1) /\ k a s1 = (Raise e, s').
Proof. unfold bind. destruct (m s) as [[a|e'| |] s1]; naive_solver. Qed.

Lemma bind_assoc {S A B C : Type} (m : M S A) (f : A -> M S B) (g : B -> M S C) s :
  bind (bind m f) g s = bind m (fun a => bind (f a) g) s.
Proof. unfold bind. by destruct (m s) as [[a|e'| |] s1]. Qed.

(** Destructs the runs of bound computations in the context. *)
Ltac inv_done :=
  repeat match goal with
  | H : bind _ _ _ = (Done _, _) |- _ =>
      apply bind_Done in H; destruct H as (? & ? & ? & H)
  | H : ret _ _ = (Done _, _) |- _ => unfold ret in H
  | H : skip _ = (Done _, _) |- _ => unfold skip, ret in H
  | H : gets _ _ = (Done _, _) |- _ => unfold gets in H
  | H : modify _ _ = (Done _, _) |- _ => unfold modify in H
  | H : throw _ _ = (Done _, _) |- _ => unfold throw in H
  | _ => progress simplify_eq
  end.

(** * Code that respects a preorder on states *)

Definition respects {S A : Type} (R : relation S) (m : M S A) : Prop := forall s, R s (m s).2.

Lemma respects_run {S A : Type} (R : relation S) (m : M S A) s o s' :
  respects R m -> m s = (o, s') -> R s s'.
Proof. intros Hm E. specialize (Hm s). by rewrite E in Hm. Qed.

Section Respects.
Context {S : Type} (R : relation S) `{!PreOrder R}.

Lemma respects_ret {A} (a : A) : respects R (ret a).
Proof. intros s. simpl. reflexivity. Qed.

Lemma respects_throw {A} e : respects R (@throw S A e).
Proof. intros s. simpl. reflexivity. Qed.

Lemma respects_undefined {A} : respects R (@undefined S A).
Proof. intros s. simpl. reflexivity. Qed.

Lemma respects_lift {A} (r : result exn A) : respects R (lift r).
Proof. intros s. destruct r; simpl; reflexivity. Qed.

Lemma respects_gets {A} (f : S -> A) : respects R (gets f).
Proof. intros s. simpl. reflexivity. Qed.

Lemma respects_modify (f : S -> S) : (forall s, R s (f s)) -> respects R (modify f).
Proof. intros Hf s. apply Hf. Qed.

Lemma respects_bind {A B} (m : M S A) (k : A -> M S B) :
  respects R m -> (forall a, respects R (k a)) -> respects R (bind m k).
Proof.
  intros Hm Hk s. specialize (Hm s). unfold bind. destruct (m s) as [[a|e| |] s1]; try done.
  etransitivity; [done|]. apply Hk.
Qed.

(** The continuation may rely on what the first part returns. *)
Lemma respects_bind_post {A B} (Q : A -> Prop) (m : M S A) (k : A -> M S B) :
  respects R m -> (forall s a s', m s = (Done a, s') -> Q a) -> (forall a, Q a -> respects R (k a)) ->
  respects R (bind m k).
Proof.
  intros Hm HQ Hk s. specialize (Hm s). unfold bind. destruct (m s) as [[a|e| |] s1] eqn:E; try done.
  etransitivity; [done|]. eapply Hk, HQ, E.
Qed.

Lemma respects_when b (m : M S unit) : respects R m -> respects R (when b m).
Proof. destruct b; [done|]. intros _. apply respects_ret. Qed.

Lemma respects_try {A} (m : M S A) h :
  respects R m -> (forall e, respects R (h e)) -> respects R (try_catch m h).
Proof.
  intros Hm Hh s. specialize (Hm s). unfold try_catch. destruct (m s) as [[a|e| |] s1]; try done.
  etransitivity; [done|]. apply Hh.
Qed.
End Respects.

(** [effects] collects what is known of the components' operations;
    [respecting] decomposes a computation down to them. *)
Create HintDb effects.

Ltac respects_step :=
  match goal with
  | |- respects _ (ret _) => apply respects_ret; apply _
  | |- respects _ skip => apply respects_ret; apply _
  | |- respects _ (throw _) => apply respects_throw; apply _
  | |- respects _ undefined => apply respects_undefined; apply _
  | |- respects _ (lift _) => apply respects_lift; apply _
  | |- respects _ (gets _) => apply respects_gets; apply _
  | |- respects _ _ => solve [eauto with effects]
  | |- respects _ (bind _ _) => apply respects_bind; [apply _| |intros ?]
  | |- respects _ (when _ _) => apply respects_when; [apply _|]
  | |- respects _ (try_catch _ _) => apply respects_try; [apply _| |intros ?]
  | |- respects _ _ => case_match
  end.

Ltac respecting := repeat respects_step.
