(* ===== verification/Stream.v ===== *)
(** Streams of include/dracon/stream.h and the stream operators of
    include/dracon/http.h.

    [AbstractStream] is the interface the plugins write to; [StreamLaws] is what
    a stream promises about the bytes it delivers.  [ChunkedStream] and
    [OStreamBuffer] are clients of the interface: their theorems are proved
    against the laws, for every stream that satisfies them. *)

From Stdlib Require Import Ascii String NArith ZArith Lia.
From stdpp Require Import base gmap strings list.
From S2P Require Import Prelude Url Http Effects.
Local Open Scope getodac_scope.

(** * The interface *)

(** [S] is the state of the stream together with the state [B] that body
    callbacks change. *)
Class AbstractStream (B S : Type) := {
  read : Request B -> M S (Request B);
  write : bytes -> M S unit;
  writev : list bytes -> M S unit;
  (** the error code the coroutine is resumed with, zero for none *)
  yield : M S Z;
  keepAlive : S -> Z;
  setKeepAlive : Z -> S -> S;
  sessionTimeout : S -> Z;
  setSessionTimeout : Z -> S -> S;
  peerAddress : S -> bytes;
  socketWriteSize : S -> nat;
  setSocketWriteSize : Z -> M S unit;
  socketReadSize : S -> nat;
  setSocketReadSize : Z -> M S unit;
  isSecuredConnection : S -> bool
}.

(** What the interface promises: [sent] is everything delivered to the peer. A
    write that returns normally has delivered exactly its bytes, once and in
    order, as long as the transport is [good]; settings deliver nothing. *)
Class StreamLaws {B S : Type} (A : AbstractStream B S) := {
  sent : S -> bytes;
  good : S -> Prop;
  write_sent b s s' :
    good s -> write b s = (Done tt, s') -> sent s' = sent s ++ b /\ good s';
  yield_sent s ec s' : good s -> yield s = (Done ec, s') -> sent s' = sent s /\ good s';
  setSocketWriteSize_sent z s s' :
    good s -> setSocketWriteSize z s = (Done tt, s') -> sent s' = sent s /\ good s';
  setSocketReadSize_sent z s s' :
    good s -> setSocketReadSize z s = (Done tt, s') -> sent s' = sent s /\ good s';
  setKeepAlive_sent z s : sent (setKeepAlive z s) = sent s;
  setKeepAlive_good z s : good s -> good (setKeepAlive z s);
  setKeepAlive_get z s : keepAlive (setKeepAlive z s) = z;
  setSessionTimeout_sent z s : sent (setSessionTimeout z s) = sent s;
  setSessionTimeout_good z s : good s -> good (setSessionTimeout z s);
  setSessionTimeout_get z s : sessionTimeout (setSessionTimeout z s) = z;
  setSessionTimeout_keepAlive z s : keepAlive (setSessionTimeout z s) = keepAlive s
}.

(** Gathered writes are a promise of their own: not every transport keeps it. *)
Class GatherLaws {B S : Type} (A : AbstractStream B S) `{L : !StreamLaws A} : Prop :=
  writev_sent bs s s' :
    good s -> writev bs s = (Done tt, s') -> sent s' = sent s ++ concat bs /\ good s'.

(** * Request bodies *)

(** The parts of a body, given to the request's callback one after the other. *)
Fixpoint accept_parts {B : Type} (r : Request B) (parts : list bytes) (b : B) : result exn B :=
  match parts with
  | [] => Ok b
  | p :: ps => let* b' := appendBody p r b in accept_parts r ps b'
  end.

(** The variables a service's body callback captures, in the state of its stream. *)
Class BodyState (B S : Type) := {
  body_of : S -> B;
  set_body : B -> S -> S
}.

(** What reading promises to a service: the callback is given the parts of the
    body, nothing is sent, and no other operation touches the captured
    variables. *)
Class BodyLaws {B S : Type} (A : AbstractStream B S) `{L : !StreamLaws A} `{V : BodyState B S} := {
  body_of_set b s : body_of (set_body b s) = b;
  set_body_sent b s : sent (set_body b s) = sent s;
  set_body_good b s : good s -> good (set_body b s);
  read_accepts r s r' s' :
    good s -> read r s = (Done r', s') ->
    sent s' = sent s /\ good s' /\
    exists parts, accept_parts r parts (body_of s) = Ok (body_of s');
  write_body b s s' : write b s = (Done tt, s') -> body_of s' = body_of s;
  setKeepAlive_body z s : body_of (setKeepAlive z s) = body_of s;
  setSessionTimeout_body z s : body_of (setSessionTimeout z s) = body_of s
}.

Section Operators.
Context {B S : Type} `{A : AbstractStream B S} `{IterationOrder}.

(** [operator<<(AbstractStream &, const Response &)] *)
Definition write_response (res : Response) : M S unit :=
  when (negb (m_keep_alive res =? -1)%Z) (modify (setKeepAlive (m_keep_alive res))) >>>
  when (negb (m_contentLength res =? ChunkedData)%Z)
    (modify (fun s => setSessionTimeout
       (Z.max (sessionTimeout s) (10 + m_contentLength res / (512 * 1024))) s)) >>>
  ka <-- gets keepAlive ;;
  write (toString ka res).

(** [operator>>(AbstractStream &, Request &)] *)
Definition read_request (req : Request B) : M S (Request B) :=
  (if decide (req_fields req !! str "Expect" = Some (str "100-continue")) then
     if (negb (contentLength req =? ChunkedData)%Z && (m_maxBodySize req <? contentLength req)%Z)%bool
     then throw (ex_int 417)
     else write_response (response1 100)
   else skip) >>>
  read req.
End Operators.

(** * ChunkedStream *)

Definition EndOfChunckedStream : bytes := str "0" ++ CRLF ++ CRLF.

Section Chunked.
Context {B S : Type} `{A : AbstractStream B S}.

(** [ChunkedStream::write(ConstBuffer)] *)
Definition chunked_write (buff : bytes) : M S unit :=
  match length buff with
  | O => skip
  | n => writev [print_hex (N.of_nat n) ++ CRLF; buff; CRLF]
  end.

(** [ChunkedStream::write(std::vector<ConstBuffer>)] *)
Definition chunked_writev (buffers : list bytes) : M S unit :=
  let size := sum_list (length <$> buffers) in
  match size with
  | O => skip
  | n => writev ((print_hex (N.of_nat n) ++ CRLF) :: buffers ++ [CRLF])
  end.

(** [ChunkedStream], a [NextLayerStream]: writes go through the chunk encoder,
    every other call is forwarded. *)
Definition ChunkedStream : AbstractStream B S := {|
  read := read;
  write := chunked_write;
  writev := chunked_writev;
  keepAlive := keepAlive;
  setKeepAlive := setKeepAlive;
  sessionTimeout := sessionTimeout;
  setSessionTimeout := setSessionTimeout;
  yield := yield;
  peerAddress := peerAddress;
  socketWriteSize := socketWriteSize;
  setSocketWriteSize := setSocketWriteSize;
  socketReadSize := socketReadSize;
  setSocketReadSize := setSocketReadSize;
  isSecuredConnection := isSecuredConnection
|}.

(** [~ChunkedStream] *)
Definition chunked_destroy : M S unit :=
  try_catch (write EndOfChunckedStream) (fun _ => skip).
End Chunked.

(** * OStreamBuffer *)

(** How [std::string::reserve] chooses a capacity: at least what is asked for,
    and never zero (the in-object storage).  C++17 lets it shrink. *)
Class StringCapacity := {
  reserved : nat -> nat -> nat;
  reserved_ge cap n : n <= reserved cap n;
  reserved_pos cap n : 0 < reserved cap n
}.

(** The members of an [OStreamBuffer] next to the stream it writes to. *)
Record obuf (S : Type) := OBuf { m_stream : S; ob_buffer : bytes; ob_capacity : nat }.
Arguments OBuf {S} _ _ _.
Arguments m_stream {S} _.
Arguments ob_buffer {S} _.
Arguments ob_capacity {S} _.

Section OStreamBuffer.
Context {B S : Type} `{A : AbstractStream B S} `{StringCapacity}.

(** Running a stream operation of [m_stream]. *)
Definition on_stream {X : Type} (m : M S X) : M (obuf S) X :=
  fun o => let '(r, s') := m (m_stream o) in (r, OBuf s' (ob_buffer o) (ob_capacity o)).

Definition reserveBuffer : M (obuf S) unit :=
  modify (fun o => OBuf (m_stream o) (ob_buffer o)
                     (reserved (ob_capacity o) (socketWriteSize (m_stream o)))).

(** [OStreamBuffer(stream)]; [cap0] is the capacity of an empty [std::string]. *)
Definition ostream_make (cap0 : nat) (s : S) : obuf S := (reserveBuffer (OBuf s [] cap0)).2.

Definition clear_buffer : M (obuf S) unit :=
  modify (fun o => OBuf (m_stream o) [] (ob_capacity o)).

Definition sync : M (obuf S) unit :=
  buf <-- gets ob_buffer ;;
  match buf with
  | [] => skip
  | _ => on_stream (write buf) >>> clear_buffer >>> reserveBuffer
  end.

Definition append_buffer (s : bytes) : M (obuf S) unit :=
  modify (fun o => OBuf (m_stream o) (ob_buffer o ++ s) (ob_capacity o)).

(** [overflow(c)] *)
Definition overflow (c : ascii) : M (obuf S) nat :=
  full <-- gets (fun o => (ob_capacity o <=? length (ob_buffer o))%nat) ;;
  when full sync >>> append_buffer [c] >>> ret 1.

(** The loop of [xsputn]; an iteration that does not return appends at least one
    byte, so the number of bytes is enough fuel.  [n] is the value returned by
    a complete loop. *)
Fixpoint xsputn_loop (fuel : nat) (p : bytes) (n : nat) : M (obuf S) nat :=
  match fuel with
  | O => ret n
  | Datatypes.S fuel' =>
      match p with
      | [] => ret n
      | _ =>
          o <-- gets id ;;
          if (ob_capacity o <? length p)%nat then
            match ob_buffer o with
            | [] => on_stream (write p)
            | b => on_stream (writev [b; p])
            end >>> clear_buffer >>> reserveBuffer >>> ret (length p)
          else
            when (ob_capacity o <=? length (ob_buffer o))%nat sync >>>
            o1 <-- gets id ;;
            let len := Nat.min (length p) (ob_capacity o1 - length (ob_buffer o1)) in
            append_buffer (take len p) >>>
            xsputn_loop fuel' (drop len p) n
      end
  end.

Definition xsputn (p : bytes) : M (obuf S) nat := xsputn_loop (length p) p (length p).

(** How a destructor ends.  It is implicitly [noexcept]: an exception that
    leaves it calls [std::terminate].  [Broken] is undefined behaviour in the
    stream. *)
Inductive destroyed : Type :=
| Finished (s : S)
| Terminated
| Waiting (s : S)
| Broken.

(** [~OStreamBuffer] *)
Definition ostream_destroy (o : obuf S) : destroyed :=
  match sync o with
  | (Done _, o') => Finished (m_stream o')
  | (Raise _, _) => Terminated
  | (Suspended, o') => Waiting (m_stream o')
  | (Undefined, _) => Broken
  end.
End OStreamBuffer.
Arguments destroyed : clear implicits.

(** * The chunked transfer coding, read back *)

(** One chunk: its size in hexadecimal, the data, each ended by CR LF. *)
Definition chunk_of (d : bytes) : bytes :=
  match d with
  | [] => []
  | _ => print_hex (N.of_nat (length d)) ++ CRLF ++ d ++ CRLF
  end.

Fixpoint hex_value (acc : N) (s : bytes) : option N :=
  match s with
  | [] => Some acc
  | c :: s' => match fromHex c with Ok d => hex_value (acc * 16 + d)%N s' | Throw _ => None end
  end.

(** A reader of the coding, independent of the writer: the data and what follows
    the last chunk. *)
Fixpoint decode_chunked (fuel : nat) (s : bytes) : option (bytes * bytes) :=
  match fuel with
  | O => None
  | S fuel' =>
      match take_line s with
      | None | Some ([], _) => None
      | Some (line, rest) =>
          match hex_value 0 line with
          | None => None
          | Some 0%N => if starts_with rest CRLF then Some ([], drop 2 rest) else None
          | Some n =>
              let k := N.to_nat n in
              if bool_decide (take 2 (drop k rest) = CRLF) then
                (fun db : bytes * bytes => (take k rest ++ db.1, db.2)) <$>
                  decode_chunked fuel' (drop (k + 2) rest)
              else None
          end
      end
  end.

(** The calls a client makes on a [ChunkedStream]. *)
Inductive wcall : Type :=
| Write1 (b : bytes)
| WriteV (bs : list bytes).

Definition payload (c : wcall) : bytes :=
  match c with Write1 b => b | WriteV bs => concat bs end.

Definition do_call {B S : Type} (A : AbstractStream B S) (c : wcall) : M S unit :=
  match c with Write1 b => write b | WriteV bs => writev bs end.

(** A [ChunkedStream] used for [calls] and destroyed at the end of its scope. *)
Definition chunked_session {B S : Type} `{A : AbstractStream B S} (calls : list wcall) : M S unit :=
  iterM (do_call ChunkedStream) calls >>> chunked_destroy.

(** * Lemmas *)

Lemma accept_parts_app {B} (r : Request B) ps1 ps2 b b1 b2 :
  accept_parts r ps1 b = Ok b1 -> accept_parts r ps2 b1 = Ok b2 -> accept_parts r (ps1 ++ ps2) b = Ok b2.
Proof.
  revert b; induction ps1 as [|p ps1 IH]; intros b; simpl; [by intros [= ->]|].
  destruct (appendBody p r b); simpl; [apply IH|done].
Qed.

Lemma accept_parts_callback {B} (r r' : Request B) ps b :
  m_callback r = m_callback r' -> accept_parts r ps b = accept_parts r' ps b.
Proof.
  intros E. revert b; induction ps as [|p ps IH]; intros b; simpl; [done|].
  unfold appendBody. rewrite E. destruct (m_callback r') as [cb|]; [|done].
  destruct (cb p b); simpl; [apply IH|done].
Qed.

Lemma sum_length_concat (bs : list bytes) : sum_list (length <$> bs) = length (concat bs).
Proof. induction bs as [|b bs IH]; [done|]. csimpl. by rewrite length_app, IH. Qed.

Lemma hex_value_app acc ds :
  Forall (fun d => d < 16)%N ds ->
  hex_value acc (digit_char <$> ds) = Some (fold_left (fun a d => a * 16 + d)%N ds acc).
Proof.
  revert acc; induction ds as [|d ds IH]; intros acc Hd; [done|].
  apply Forall_cons in Hd as [Hd Hds]. csimpl. rewrite fromHex_digit_char by done. by apply IH.
Qed.

Lemma hex_value_print n : hex_value 0 (print_hex n) = Some n.
Proof.
  unfold print_hex. rewrite hex_value_app by (by apply digits_bound).
  f_equal. apply (of_digits_digits 16 n). lia.
Qed.

Lemma print_hex_nonempty n : print_hex n <> [].
Proof.
  unfold print_hex. pose proof (digits_nonempty 16 n).
  by destruct (digits 16 n).
Qed.

Lemma decode_chunk fuel d rest :
  d <> [] ->
  decode_chunked (S fuel) (chunk_of d ++ rest) =
  (fun db : bytes * bytes => (d ++ db.1, db.2)) <$> decode_chunked fuel rest.
Proof.
  intros Hd. cbn [decode_chunked].
  destruct d as [|c d0]; [done|]. set (d := c :: d0) in *.
  assert (chunk_of d = print_hex (N.of_nat (length d)) ++ CRLF ++ d ++ CRLF) as -> by done.
  rewrite <- !app_assoc, take_line_app by (by apply digit_chars_absent).
  pose proof (print_hex_nonempty (N.of_nat (length d))) as Hne.
  pose proof (hex_value_print (N.of_nat (length d))) as Hv.
  destruct (print_hex (N.of_nat (length d))) as [|x line]; [done|]. rewrite Hv.
  destruct (N.of_nat (length d)) as [|p] eqn:En; [unfold d in En; simpl in En; lia|].
  rewrite <- En, Nat2N.id. rewrite drop_app_length, take_app_length.
  rewrite bool_decide_eq_true_2 by done.
  rewrite drop_app_ge by lia. replace (length d + 2 - length d) with 2 by lia. done.
Qed.

Lemma decode_end fuel rest :
  decode_chunked (S fuel) (EndOfChunckedStream ++ rest) = Some ([], rest).
Proof.
  cbn [decode_chunked]. unfold EndOfChunckedStream. rewrite <- !app_assoc.
  rewrite take_line_app by (decided).
  reflexivity.
Qed.

Lemma decode_chunks fuel ds rest :
  length ds < fuel ->
  decode_chunked fuel (concat (chunk_of <$> ds) ++ EndOfChunckedStream ++ rest) =
  Some (concat ds, rest).
Proof.
  revert fuel; induction ds as [|d ds IH]; intros fuel Hf; simpl in Hf;
    (destruct fuel as [|fuel]; [lia|]).
  - apply decode_end.
  - rewrite fmap_cons. cbn [concat]. destruct (decide (d = [])) as [->|Hd]; [apply IH; lia|].
    rewrite <- app_assoc, decode_chunk by done. rewrite IH by lia. done.
Qed.

Section Laws.
Context {B S : Type} `{A : AbstractStream B S} `{L : !StreamLaws A} `{G : !GatherLaws A}.

Lemma chunked_write_sent b s s' :
  good s -> chunked_write b s = (Done tt, s') -> sent s' = sent s ++ chunk_of b /\ good s'.
Proof.
  intros Hg. unfold chunked_write. destruct b as [|c b]; [simpl|cbn [length]].
  - intros [= <-]. by rewrite app_nil_r.
  - intros Hw%writev_sent; [|done]. destruct Hw as [-> ?]. split; [|done].
    cbn [concat chunk_of length]. by rewrite app_nil_r, <- app_assoc.
Qed.

Lemma chunked_writev_sent bs s s' :
  good s -> chunked_writev bs s = (Done tt, s') ->
  sent s' = sent s ++ chunk_of (concat bs) /\ good s'.
Proof.
  intros Hg. unfold chunked_writev. rewrite sum_length_concat.
  destruct (concat bs) as [|c b] eqn:E; cbn [length].
  - intros [= <-]. by rewrite app_nil_r.
  - intros Hw%writev_sent; [|done]. destruct Hw as [-> ?]. split; [|done].
    rewrite <- E. cbn [concat]. rewrite concat_app, E. cbn [chunk_of concat].
    by rewrite app_nil_r, <- app_assoc.
Qed.

Lemma chunked_calls_sent calls s s' :
  good s -> iterM (do_call ChunkedStream) calls s = (Done tt, s') ->
  sent s' = sent s ++ concat (chunk_of <$> (payload <$> calls)) /\ good s'.
Proof.
  revert s; induction calls as [|c calls IH]; intros s Hg H; cbn [iterM] in H.
  - inv_done. by rewrite app_nil_r.
  - inv_done. destruct x.
    assert (H1 : sent x0 = sent s ++ chunk_of (payload c) /\ good x0).
    { destruct c; [by apply chunked_write_sent|by apply chunked_writev_sent]. }
    destruct H1 as [E1 Hg1]. destruct (IH _ Hg1 H) as [-> ?]. split; [|done].
    csimpl. by rewrite E1, <- app_assoc.
Qed.

(** A [ChunkedStream] over a stream is a stream again: for the peer that has
    received [pre] and decodes what follows, it delivers the bytes it is given. *)
Definition decoded_after (pre w : bytes) : bytes :=
  match decode_chunked (Datatypes.S (length w)) (drop (length pre) w ++ EndOfChunckedStream) with
  | Some (d, _) => d
  | None => []
  end.

Definition chunked_good (pre : bytes) (s : S) : Prop :=
  good s /\ exists ds, sent s = pre ++ concat (chunk_of <$> ds) /\ Forall (fun d => d <> []) ds.

Lemma concat_chunks_length (ds : list bytes) :
  Forall (fun d => d <> []) ds -> length ds <= length (concat (chunk_of <$> ds)).
Proof.
  induction 1 as [|d ds Hd _ IH]; [done|]. csimpl. rewrite length_app.
  destruct d; [done|]. simpl. rewrite !length_app. simpl. lia.
Qed.

Lemma decoded_chunks pre ds :
  Forall (fun d => d <> []) ds -> decoded_after pre (pre ++ concat (chunk_of <$> ds)) = concat ds.
Proof.
  intros Hds. unfold decoded_after. rewrite drop_app_length.
  rewrite <- (app_nil_r EndOfChunckedStream), decode_chunks; [done|].
  rewrite length_app. pose proof (concat_chunks_length ds Hds). lia.
Qed.

Lemma chunk_delivered pre b s s' :
  chunked_good pre s -> sent s' = sent s ++ chunk_of b -> good s' ->
  decoded_after pre (sent s') = decoded_after pre (sent s) ++ b /\ chunked_good pre s'.
Proof.
  intros (Hg & ds & E & Hds) E' Hg'.
  set (ds' := ds ++ match b with [] => [] | _ => [b] end).
  assert (Hds' : Forall (fun d => d <> []) ds').
  { apply Forall_app. split; [done|]. by destruct b; repeat constructor. }
  assert (Es : sent s' = pre ++ concat (chunk_of <$> ds')).
  { rewrite E', E, <- app_assoc. f_equal. unfold ds'. rewrite fmap_app, concat_app. f_equal.
    destruct b; [done|]. cbn [fmap list_fmap concat]. by rewrite app_nil_r. }
  split; [|by split; [|exists ds']].
  rewrite Es, E, !decoded_chunks by done. unfold ds'. rewrite concat_app. f_equal.
  destruct b; [done|]. simpl. by rewrite app_nil_r.
Qed.

(** A call that sends nothing below sends nothing above. *)
Lemma chunked_quiet pre s s' (Q : Prop) :
  (good s -> Q -> sent s' = sent s /\ good s') ->
  chunked_good pre s -> Q -> decoded_after pre (sent s') = decoded_after pre (sent s) /\ chunked_good pre s'.
Proof.
  intros H [Hg Hs] HQ. destruct (H Hg HQ) as [E Hg']. unfold chunked_good. rewrite E. by split; [|split].
Qed.

Definition chunked_laws (pre : bytes) : StreamLaws (ChunkedStream (A := A)).
Proof.
  refine {| sent := fun s => decoded_after pre (sent s); good := chunked_good pre |}.
  - intros b s s' Hg Hw. apply chunked_write_sent in Hw as [E Hg']; [|apply Hg]. by apply chunk_delivered.
  - intros s ec s'. apply (chunked_quiet pre s s' _ (yield_sent s ec s')).
  - intros z s s'. apply (chunked_quiet pre s s' _ (setSocketWriteSize_sent z s s')).
  - intros z s s'. apply (chunked_quiet pre s s' _ (setSocketReadSize_sent z s s')).
  - intros z s. simpl. by rewrite setKeepAlive_sent.
  - intros z s [Hg Hs]. split; [by apply (setKeepAlive_good (A := A))|]. simpl. by rewrite setKeepAlive_sent.
  - intros z s. apply (setKeepAlive_get (A := A)).
  - intros z s. simpl. by rewrite setSessionTimeout_sent.
  - intros z s [Hg Hs]. split; [by apply (setSessionTimeout_good (A := A))|]. simpl. by rewrite setSessionTimeout_sent.
  - intros z s. apply (setSessionTimeout_get (A := A)).
  - intros z s. apply (setSessionTimeout_keepAlive (A := A)).
Defined.

Lemma chunked_gathers (pre : bytes) : GatherLaws (ChunkedStream (A := A)) (L := chunked_laws pre).
Proof.
  intros bs s s' Hg Hw. apply chunked_writev_sent in Hw as [E Hg']; [|apply Hg]. by apply chunk_delivered.
Qed.
End Laws.

(** A stream that stores what it is given, used to evaluate the clients. *)
Record mem_state := Mem { mem_sent : bytes; mem_keepAlive : Z; mem_timeout : Z }.

Definition mem_stream : AbstractStream unit mem_state := {|
  read := fun req => ret (Http.setState Completed req);
  write := fun b => modify (fun s => Mem (mem_sent s ++ b) (mem_keepAlive s) (mem_timeout s));
  writev := fun bs =>
    modify (fun s => Mem (mem_sent s ++ concat bs) (mem_keepAlive s) (mem_timeout s));
  keepAlive := mem_keepAlive;
  setKeepAlive := fun z s => Mem (mem_sent s) z (mem_timeout s);
  sessionTimeout := mem_timeout;
  setSessionTimeout := fun z s => Mem (mem_sent s) (mem_keepAlive s) z;
  yield := ret 0%Z; peerAddress := fun _ => []; setSocketWriteSize := fun _ => skip; socketReadSize := fun _ => 8;
  setSocketReadSize := fun _ => skip; socketWriteSize := fun _ => 8;
  isSecuredConnection := fun _ => false
|}.

Definition mem_laws : StreamLaws mem_stream.
Proof.
  refine {| sent := mem_sent; good := fun _ => True |}; try done.
  - intros b s s' _ [= <-]. done.
  - intros s ec s' _ [= _ <-]. done.
  - intros z s s' _ [= <-]. done.
  - intros z s s' _ [= <-]. done.
Defined.

Definition mem_gathers : GatherLaws mem_stream (L := mem_laws).
Proof. intros bs s s' _ [= <-]. done. Qed.

(** Capacities that never shrink, with 15 bytes of in-object storage. *)
Definition growing_capacity : StringCapacity.
Proof. refine {| reserved := fun cap n => cap `max` n `max` 15 |}; lia. Defined.

Section OStreamLaws.
Context {B S : Type} `{A : AbstractStream B S} `{L : !StreamLaws A} `{G : !GatherLaws A} `{StringCapacity}.
Implicit Type o : obuf S.

(** Everything accepted so far: what the peer has and what is buffered. *)
Definition accepted o : bytes := sent (m_stream o) ++ ob_buffer o.

(** The buffer never outgrows its capacity, which is not zero. *)
Definition ob_ok o : Prop :=
  good (m_stream o) /\ length (ob_buffer o) <= ob_capacity o /\ 0 < ob_capacity o.

Lemma on_stream_Done {X} (m : M S X) o x o' :
  on_stream m o = (Done x, o') <->
  exists s', m (m_stream o) = (Done x, s') /\ o' = OBuf s' (ob_buffer o) (ob_capacity o).
Proof. unfold on_stream. destruct (m (m_stream o)) as [[y|e| |] s1]; naive_solver. Qed.

Lemma flushed o s' :
  good s' -> ob_ok (OBuf s' [] (reserved (ob_capacity o) (socketWriteSize s'))).
Proof. intros Hg. split; [done|]. simpl. pose proof (reserved_pos (ob_capacity o) (socketWriteSize s')). lia. Qed.

Ltac inv_ob :=
  repeat (inv_done; match goal with
  | H : on_stream _ _ = (Done _, _) |- _ => apply on_stream_Done in H as (? & ? & ->)
  | H : clear_buffer _ = (Done _, _) |- _ => unfold clear_buffer in H
  | H : reserveBuffer _ = (Done _, _) |- _ => unfold reserveBuffer in H
  | H : append_buffer _ _ = (Done _, _) |- _ => unfold append_buffer in H
  | x : unit |- _ => destruct x
  end); inv_done; simpl in *.

Lemma sync_spec o o' :
  ob_ok o -> sync o = (Done tt, o') ->
  accepted o' = accepted o /\ ob_buffer o' = [] /\ ob_ok o'.
Proof.
  intros Hok Hs. unfold sync in Hs. inv_ob.
  match type of Hs with context [ob_buffer ?o1] => destruct (ob_buffer o1) as [|c b] eqn:E end; inv_ob; [done|].
  match goal with Hw : write _ _ = _ |- _ => apply write_sent in Hw as [Hws Hg']; [|apply Hok] end.
  unfold accepted. simpl. rewrite Hws, E, app_nil_r. split; [done|]. split; [done|].
  by eapply flushed.
Qed.

Lemma append_ok o p :
  ob_ok o -> length (ob_buffer o) + length p <= ob_capacity o ->
  ob_ok (OBuf (m_stream o) (ob_buffer o ++ p) (ob_capacity o)).
Proof. intros (Hg & _ & Hc) Hl. split; [done|]. simpl. rewrite length_app. lia. Qed.

Lemma append_accepted o p :
  accepted (OBuf (m_stream o) (ob_buffer o ++ p) (ob_capacity o)) = accepted o ++ p.
Proof. unfold accepted. simpl. by rewrite app_assoc. Qed.

(** [sync] when the buffer is full leaves room for at least one byte. *)
Lemma room_spec o o' :
  ob_ok o -> when (ob_capacity o <=? length (ob_buffer o))%nat sync o = (Done tt, o') ->
  accepted o' = accepted o /\ ob_ok o' /\ length (ob_buffer o') < ob_capacity o'.
Proof.
  intros Hok. unfold when. destruct (Nat.leb_spec (ob_capacity o) (length (ob_buffer o))) as [Hle|Hlt].
  - intros (H1 & H2 & H3)%sync_spec; [|done]. split; [done|]. split; [done|].
    rewrite H2. simpl. apply H3.
  - intros [= <-]. done.
Qed.

Lemma overflow_spec c o n o' :
  ob_ok o -> overflow c o = (Done n, o') -> n = 1 /\ accepted o' = accepted o ++ [c] /\ ob_ok o'.
Proof.
  intros Hok Hs. unfold overflow in Hs. inv_ob.
  match goal with Hw : when _ _ _ = _ |- _ => apply room_spec in Hw as (H1 & H2 & H3); [|done] end.
  split; [done|]. rewrite append_accepted, H1. split; [done|]. apply append_ok; [done|]. simpl. lia.
Qed.

Lemma xsputn_loop_spec fuel p n o k o' :
  length p <= fuel -> ob_ok o -> xsputn_loop fuel p n o = (Done k, o') ->
  accepted o' = accepted o ++ p /\ ob_ok o'.
Proof.
  revert p o; induction fuel as [|fuel IH]; intros p o Hf Hok Hs; cbn [xsputn_loop] in Hs.
  { destruct p; [|simpl in Hf; lia]. inv_done. by rewrite app_nil_r. }
  destruct p as [|c p0]; [inv_done; by rewrite app_nil_r|]. set (p := c :: p0) in *.
  inv_done. unfold id in *.
  match type of Hs with context [ob_capacity ?o1 <? _] => rename o1 into o end.
  destruct (ob_capacity o <? length p)%nat.
  - assert (Hw : exists s1, o' = OBuf s1 [] (reserved (ob_capacity o) (socketWriteSize s1)) /\
      sent s1 = accepted o ++ p /\ good s1).
    { unfold accepted. destruct (ob_buffer o) as [|d b] eqn:E; inv_ob; eexists; (split; [done|]).
      - rewrite app_nil_r. match goal with Hw : write _ _ = _ |- _ => by apply write_sent in Hw; [|apply Hok] end.
      - match goal with Hw : writev _ _ = _ |- _ => apply writev_sent in Hw as [-> ?]; [|apply Hok] end.
        split; [|done]. simpl. by rewrite app_nil_r, <- app_assoc. }
    destruct Hw as (s1 & -> & Hw & Hg). split; [|by eapply flushed].
    unfold accepted at 1. simpl. by rewrite app_nil_r.
  - inv_ob. unfold id in *.
    match goal with Hw : when _ _ _ = _ |- _ => apply room_spec in Hw as (H1 & H2 & H3); [|done] end.
    match type of Hs with xsputn_loop _ (drop ?l _) _ _ = _ => set (len := l) in * end.
    assert (Hp : 0 < length p) by (unfold p; simpl; lia).
    assert (Hl : len = Nat.min (length p) (ob_capacity x1 - length (ob_buffer x1))) by reflexivity.
    change (length p <= Datatypes.S fuel) in Hf. clearbody len p.
    apply IH in Hs as [-> ?]; [| |apply append_ok; [done|rewrite length_take; lia]].
    + split; [|done]. rewrite append_accepted, H1, <- app_assoc. by rewrite take_drop.
    + rewrite length_drop. lia.
Qed.

(** The calls [std::ostream] makes on its buffer. *)
Inductive ocall : Type :=
| OChar (c : ascii)
| OString (p : bytes)
| OFlush.

Definition odata (c : ocall) : bytes :=
  match c with OChar c => [c] | OString p => p | OFlush => [] end.

Definition do_ocall (c : ocall) : M (obuf S) unit :=
  match c with
  | OChar c => overflow c >>> skip
  | OString p => xsputn p >>> skip
  | OFlush => sync
  end.

Lemma do_ocall_spec c o o' :
  ob_ok o -> do_ocall c o = (Done tt, o') -> accepted o' = accepted o ++ odata c /\ ob_ok o'.
Proof.
  intros Hok Hs. destruct c as [c|p|]; simpl in *.
  - inv_done. match goal with Hw : overflow _ _ = _ |- _ => by apply overflow_spec in Hw as (_ & ?) end.
  - inv_done. match goal with Hw : xsputn _ _ = _ |- _ => by apply xsputn_loop_spec in Hw end.
  - apply sync_spec in Hs as (? & ? & ?); [|done]. by rewrite app_nil_r.
Qed.

Lemma do_ocalls_spec cs o o' :
  ob_ok o -> iterM do_ocall cs o = (Done tt, o') ->
  accepted o' = accepted o ++ concat (odata <$> cs) /\ ob_ok o'.
Proof.
  revert o; induction cs as [|c cs IH]; intros o Hok Hs; cbn [iterM] in Hs; inv_done.
  - by rewrite app_nil_r.
  - match goal with x : unit |- _ => destruct x end.
    match goal with Hc : do_ocall _ _ = _ |- _ => apply do_ocall_spec in Hc as [E1 H1]; [|done] end.
    apply IH in Hs as [-> ?]; [|done]. split; [|done]. csimpl. by rewrite E1, <- app_assoc.
Qed.

Lemma ostream_make_ok cap0 s : good s -> ob_ok (ostream_make cap0 s).
Proof. intros Hg. by apply (flushed (OBuf s [] cap0)). Qed.
End OStreamLaws.

Lemma write_response_spec {B S} `{A : AbstractStream B S} `{L : !StreamLaws A} `{IterationOrder}
    res s s' :
  good s -> write_response res s = (Done tt, s') ->
  let ka := if (m_keep_alive res =? -1)%Z then keepAlive s else m_keep_alive res in
  sent s' = sent s ++ toString ka res /\ good s' /\
  exists s1, write (toString ka res) s1 = (Done tt, s') /\ keepAlive s1 = ka /\
    (m_contentLength res <> ChunkedData ->
       (10 + m_contentLength res / (512 * 1024) <= sessionTimeout s1)%Z).
Proof.
  intros Hg Hw ka. unfold write_response, when in Hw.
  destruct (Z.eqb_spec (m_keep_alive res) (-1)), (Z.eqb_spec (m_contentLength res) ChunkedData);
    simpl in Hw; inv_done;
    match type of Hw with write ?t ?s1 = _ =>
      assert (Hk : keepAlive s1 = ka) by (by rewrite ?setSessionTimeout_keepAlive, ?setKeepAlive_get);
      rewrite ?Hk in Hw; pose proof Hw as Hw1; apply write_sent in Hw as [Hs ?];
        [|auto using setSessionTimeout_good, setKeepAlive_good];
      rewrite Hs, ?setSessionTimeout_sent, ?setKeepAlive_sent;
      split; [done|]; split; [done|]; exists s1; split; [done|]; split; [done|];
      intros ?; rewrite ?setSessionTimeout_get; (done || lia)
    end.
Qed.

(** A new [ChunkedStream], and the end of its life. *)
Lemma chunked_start {B S} `{A : AbstractStream B S} `{L : !StreamLaws A} s :
  good s -> chunked_good (sent s) s /\ decoded_after (sent s) (sent s) = [].
Proof.
  intros Hg. split; [split; [done|]; exists []; by rewrite app_nil_r|].
  pose proof (decoded_chunks (sent s) [] (Forall_nil_2 _)) as E. simpl in E. by rewrite app_nil_r in E.
Qed.

Lemma chunked_end {B S} `{A : AbstractStream B S} `{L : !StreamLaws A} pre s s' :
  chunked_good pre s -> write EndOfChunckedStream s = (Done tt, s') ->
  exists w, sent s' = pre ++ w /\
    forall rest, decode_chunked (Datatypes.S (length w)) (w ++ rest) = Some (decoded_after pre (sent s), rest).
Proof.
  intros (Hg & ds & E & Hds) Hw. apply write_sent in Hw as [Ew _]; [|done].
  eexists. split; [by rewrite Ew, E, <- app_assoc|]. intros rest.
  rewrite E, decoded_chunks by done. rewrite <- app_assoc, decode_chunks; [done|].
  rewrite length_app. pose proof (concat_chunks_length ds Hds). lia.
Qed.

(** A text put through an [OStreamBuffer] over a [ChunkedStream], both destroyed, is what
    the peer decodes. *)
Lemma chunked_text_sent {B S} `{A : AbstractStream B S} `{L : !StreamLaws A} `{G : !GatherLaws A} `{StringCapacity}
    cap0 text n s o s1 s2 :
  good s ->
  xsputn (A := ChunkedStream) text (ostream_make (A := ChunkedStream) cap0 s) = (Done n, o) ->
  ostream_destroy (A := ChunkedStream) o = Finished s1 ->
  write EndOfChunckedStream s1 = (Done tt, s2) ->
  exists w, sent s2 = sent s ++ w /\
    forall rest, decode_chunked (Datatypes.S (length w)) (w ++ rest) = Some (text, rest).
Proof.
  intros Hg Hx Hd Hw. pose (CL := chunked_laws (sent s)).
  pose proof (chunked_gathers (sent s)) as CG. destruct (chunked_start s Hg) as [Hg0 E0].
  apply (xsputn_loop_spec (L := CL) (G := CG)) in Hx as [Ha Hok]; [|done|by apply (ostream_make_ok (L := CL))].
  unfold ostream_destroy in Hd. destruct (sync o) as [[[]|e| |] o1] eqn:Es; [|done|done|done].
  injection Hd as <-. apply (sync_spec (L := CL)) in Es as (E1 & E2 & Hok1); [|done].
  destruct (chunked_end (sent s) (m_stream o1) s2 (proj1 Hok1) Hw) as (w & Ew & Hw'). exists w. split; [done|].
  unfold accepted in *. rewrite E2, app_nil_r, Ha in E1. simpl in E1. rewrite E0 in E1. simpl in E1.
  by rewrite E1 in Hw'.
Qed.

(** What a service sends before it answers. *)
Definition interim `{IterationOrder} (pre : bytes) : Prop :=
  pre = [] \/ exists ka, pre = toString ka (response1 100).

(** Reading a request: an expected [100-continue] is sent first, and the rest of the
    request goes to its callback. *)
Lemma read_request_spec {B S} `{A : AbstractStream B S} `{L : !StreamLaws A} `{V : BodyState B S}
    `{!BodyLaws A} `{IterationOrder} r s r' s' :
  good s -> read_request r s = (Done r', s') ->
  exists pre, (pre = [] \/ exists ka, pre = toString ka (response1 100)) /\
    sent s' = sent s ++ pre /\ good s' /\
    exists parts, accept_parts r parts (body_of s) = Ok (body_of s').
Proof.
  intros Hg E. unfold read_request in E. apply bind_Done in E as ([] & s1 & E1 & E).
  assert (H1 : exists pre, (pre = [] \/ exists ka, pre = toString ka (response1 100)) /\
    sent s1 = sent s ++ pre /\ good s1 /\ body_of s1 = body_of s).
  { case_decide; [case_match; [done|]|inv_done; exists []; rewrite app_nil_r; by auto].
    pose proof E1 as E2. apply write_response_spec in E1 as (Es & Hg1 & _); [|done].
    eexists. split; [right; by eexists|]. split; [exact Es|]. split; [done|].
    unfold write_response in E2. simpl in E2. inv_done.
    rewrite (write_body _ _ _ E2). apply setSessionTimeout_body. }
  destruct H1 as (pre & Hp & Es & Hg1 & Eb). apply read_accepts in E as (Es' & Hg' & Ha); [|done].
  exists pre. rewrite Es', Eb in *. by auto.
Qed.

(** A connection that stores what it is sent and has the parts of a request's body to
    come, used to evaluate services. *)
Record conn := Conn { c_parts : list bytes; c_body : bytes; c_out : mem_state }.

Definition on_out {X : Type} (m : M mem_state X) : M conn X := fun c =>
  let '(r, out) := m (c_out c) in (r, Conn (c_parts c) (c_body c) out).

#[local] Instance conn_stream : AbstractStream bytes conn := {|
  read := fun req c =>
    match accept_parts req (c_parts c) (c_body c) with
    | Ok b => (Done (setState Completed req), Conn [] b (c_out c))
    | Throw e => (Raise e, Conn [] (c_body c) (c_out c))
    end;
  write := fun b => on_out (@write _ _ mem_stream b);
  writev := fun bs => on_out (@writev _ _ mem_stream bs);
  keepAlive := fun c => mem_keepAlive (c_out c);
  Stream.setKeepAlive := fun z c =>
    Conn (c_parts c) (c_body c) (Mem (mem_sent (c_out c)) z (mem_timeout (c_out c)));
  sessionTimeout := fun c => mem_timeout (c_out c);
  setSessionTimeout := fun z c =>
    Conn (c_parts c) (c_body c) (Mem (mem_sent (c_out c)) (mem_keepAlive (c_out c)) z);
  yield := ret 0%Z; peerAddress := fun _ => []; setSocketWriteSize := fun _ => skip; socketReadSize := fun _ => 8;
  setSocketReadSize := fun _ => skip; socketWriteSize := fun _ => 16; isSecuredConnection := fun _ => false
|}.

#[local] Instance conn_laws : StreamLaws conn_stream.
Proof.
  refine {| sent := fun c => mem_sent (c_out c); good := fun _ => True |}; try done.
  - intros b s s' _ [= <-]. done.
  - intros s ec s' _ [= _ <-]. done.
  - intros z s s' _ [= <-]. done.
  - intros z s s' _ [= <-]. done.
Defined.

#[local] Instance conn_gathers : GatherLaws conn_stream.
Proof. intros bs s s' _ [= <-]. done. Qed.

#[local] Instance conn_body : BodyState bytes conn :=
  {| body_of := c_body; set_body := fun b c => Conn (c_parts c) b (c_out c) |}.

#[local] Instance conn_body_laws : BodyLaws conn_stream.
Proof.
  split; try done.
  - intros r c r' c' _. simpl. destruct (accept_parts r (c_parts c) (c_body c)) eqn:E; [|done].
    intros [= <- <-]. split; [done|]. split; [done|]. by exists (c_parts c).
  - intros b c c' [= <-]. done.
Qed.

Definition new_conn (parts : list bytes) : conn := Conn parts [] (Mem [] 0 10).

(** * Properties *)

(** C15. Round trip of the chunked transfer coding: whatever single and gathered
    writes a client makes on a [ChunkedStream] over a stream that keeps its
    laws, once the destructor has sent the end marker the peer can decode
    exactly the concatenation of the client's data, and finds the following
    bytes of the connection right after it.  Empty writes are skipped, so none
    of them ends the body early. *)
Theorem chunked_roundtrip {B S} `{A : AbstractStream B S} `{L : !StreamLaws A} `{G : !GatherLaws A} calls s s1 s2 :
  good s -> iterM (do_call ChunkedStream) calls s = (Done tt, s1) ->
  write EndOfChunckedStream s1 = (Done tt, s2) ->
  chunked_session calls s = (Done tt, s2) /\
  exists w, sent s2 = sent s ++ w /\
    forall rest, decode_chunked (Datatypes.S (length calls)) (w ++ rest) =
                 Some (concat (payload <$> calls), rest).
Proof.
  intros Hg Hc Hw. split.
  { unfold chunked_session, bind, chunked_destroy, try_catch. by rewrite Hc, Hw. }
  destruct (chunked_calls_sent calls s s1 Hg Hc) as [E1 Hg1].
  apply write_sent in Hw as [E2 _]; [|done].
  eexists. split; [by rewrite E2, E1, <- app_assoc|]. intros rest.
  rewrite <- app_assoc. apply decode_chunks. rewrite length_fmap. lia.
Qed.

Lemma chunked_roundtrip_witness :
  let s := Mem [] 0 0 in
  let calls := [Write1 (str "hello, "); Write1 []; WriteV [str "wor"; []; str "ld"]] in
  exists s2, @chunked_session _ _ mem_stream calls s = (Done tt, s2) /\
    decode_chunked 4 (mem_sent s2 ++ str "NEXT") = Some (str "hello, world", str "NEXT").
Proof.
  intros s calls.
  destruct (@chunked_roundtrip unit mem_state mem_stream mem_laws mem_gathers calls s _ _ I eq_refl eq_refl)
    as (E & w & Hs & Hd).
  eexists. split; [exact E|]. etransitivity; [|exact (Hd (str "NEXT"))].
  do 2 f_equal. exact Hs.
Defined.



(** A failing connection ends the server: when data is still buffered and the
    stream's write throws, the exception leaves [~OStreamBuffer], which is
    [noexcept], so the process is terminated. *)
Theorem ostream_destroy_terminates {B S} `{A : AbstractStream B S} `{StringCapacity} (o : obuf S) e s' :
  ob_buffer o <> [] -> write (ob_buffer o) (m_stream o) = (Raise e, s') ->
  ostream_destroy o = Terminated.
Proof.
  intros Hb Hw. unfold ostream_destroy, sync, bind, gets, on_stream.
  destruct (ob_buffer o) as [|c b] eqn:E; [done|]. by rewrite Hw.
Qed.

(** A connection the peer has closed: writing fails with EPIPE. *)
Definition broken_stream : AbstractStream unit unit := {|
  read := fun req => throw (ex_code 104);
  write := fun _ => throw (ex_code 32);
  writev := fun _ => throw (ex_code 32);
  keepAlive := fun _ => 0%Z; setKeepAlive := fun _ s => s;
  sessionTimeout := fun _ => 0%Z; setSessionTimeout := fun _ s => s;
  yield := ret 0%Z; peerAddress := fun _ => []; setSocketWriteSize := fun _ => skip; socketReadSize := fun _ => 8;
  setSocketReadSize := fun _ => skip; socketWriteSize := fun _ => 8; isSecuredConnection := fun _ => false |}.

Lemma ostream_destroy_terminates_witness :
  @ostream_destroy _ _ broken_stream growing_capacity (OBuf tt (str "Got 1") 15) = Terminated.
Proof.
  apply (@ostream_destroy_terminates unit unit broken_stream growing_capacity
           (OBuf tt (str "Got 1") 15) (ex_code 32) tt); [discriminate|reflexivity].
Defined.

(** Sending a response: the peer receives exactly its serialisation, with the
    connection's keep-alive time (the response's own one when it sets it), and
    the session timeout is never shortened: it is at least ten seconds plus one
    second per 512 KiB announced. *)
Theorem write_response_sent {B S} `{A : AbstractStream B S} `{L : !StreamLaws A} `{IterationOrder}
    res s s' :
  good s -> write_response res s = (Done tt, s') ->
  let ka := if (m_keep_alive res =? -1)%Z then keepAlive s else m_keep_alive res in
  sent s' = sent s ++ toString ka res /\ good s' /\
  exists s1, write (toString ka res) s1 = (Done tt, s') /\ keepAlive s1 = ka /\
    (m_contentLength res <> ChunkedData ->
       (10 + m_contentLength res / (512 * 1024) <= sessionTimeout s1)%Z).
Proof. apply write_response_spec. Qed.

Lemma write_response_sent_witness :
  let res := response2 200 (str "hi") in
  exists s', @write_response _ _ mem_stream listed_order res (Mem [] 10 5) = (Done tt, s') /\
    mem_sent s' = @toString listed_order 10 res.
Proof.
  intros res.
  pose (s' := (@write_response _ _ mem_stream listed_order res (Mem [] 10 5)).2).
  assert (H : @write_response _ _ mem_stream listed_order res (Mem [] 10 5) = (Done tt, s'))
    by (vm_compute; reflexivity).
  exists s'. split; [exact H|].
  exact (proj1 (@write_response_sent unit mem_state mem_stream mem_laws listed_order
                  res (Mem [] 10 5) s' I H)).
Defined.
