(* ===== verification/Restful.v ===== *)
(** The RESTful router of include/dracon/restful.h: [RestfullRoute],
    [RestfulRouter] and the parsing of query strings. *)

From Stdlib Require Import Ascii String NArith ZArith Lia.
From stdpp Require Import base gmap strings list fin_maps.
From S2P Require Import Prelude Url Http.
Local Open Scope getodac_scope.

Abbreviation QueryStrings := (list (bytes * bytes)).
Abbreviation Captures := (gmap bytes bytes).

Record ParsedRoute := {
  capturedResources : Captures;
  queryStrings : QueryStrings;
  allButOPTIONSNodeMethods : bytes
}.

(** [ParsedRoute::operator==] *)
#[export] Instance ParsedRoute_eq_dec : EqDecision ParsedRoute.
Proof. solve_decision. Defined.

Section Router.
(** [R] is the router's [ReturnType], [R0] its value-initialised object [{}]. A
    handler may throw. *)
Context {R : Type} (R0 : R).

Definition MethodHandler : Type := ParsedRoute -> result exn R.

Abbreviation RouteParts := (list (bool * bytes)).

Record RestfullRoute := {
  m_routeParts : RouteParts;
  m_methods : gmap bytes MethodHandler;
  m_allMethods : bytes
}.

Definition addMethodHandler (method : bytes) (creator : MethodHandler) (r : RestfullRoute)
  : RestfullRoute :=
  match m_methods r !! method with
  | None =>
      {| m_routeParts := m_routeParts r;
         m_methods := <[method := creator]> (m_methods r);
         m_allMethods :=
           if decide (method = str "OPTIONS") then m_allMethods r
           else m_allMethods r ++
                (match m_allMethods r with [] => method | _ => str ", " ++ method end) |}
  | Some _ =>
      {| m_routeParts := m_routeParts r; m_methods := <[method := creator]> (m_methods r);
         m_allMethods := m_allMethods r |}
  end.

(** One part of a route: a capture [{name}] or a literal. *)
Definition routePart (part : bytes) : result exn (bool * bytes) :=
  if (length part <? 2)%nat then Throw (ex_response (response2 400 (str "Invalid route")))
  else if bool_decide (head part = Some "{"%char) && bool_decide (last part = Some "}"%char)
       then Ok (true, take (length part - 2) (drop 1 part))
       else Ok (false, part).

Fixpoint collect {X Y : Type} (f : X -> result exn Y) (l : list X) : result exn (list Y) :=
  match l with
  | [] => Ok []
  | x :: l' => let* y := f x in let* ys := collect f l' in Ok (y :: ys)
  end.

Definition routeParts (route : bytes) : result exn RouteParts :=
  collect routePart (split route "/"%char npos).

(** [RestfullRoute::operator==(std::string_view)] *)
Definition route_eq (r : RestfullRoute) (route : bytes) : result exn bool :=
  let* other := routeParts route in Ok (bool_decide (other = m_routeParts r)).

(** [RestfullRoute(std::string_view)] *)
Definition make_route (route : bytes) : result exn RestfullRoute :=
  let* parts := routeParts route in
  Ok {| m_routeParts := parts; m_methods := ∅; m_allMethods := [] |}.

(** The loop over the parts; [None] when a literal differs. *)
Fixpoint match_parts (parts : RouteParts) (urlParts : list bytes) (captures : Captures)
  : option Captures :=
  match parts, urlParts with
  | (true, name) :: ps, u :: us => match_parts ps us (<[name := u]> captures)
  | (false, text) :: ps, u :: us => if decide (text = u) then match_parts ps us captures else None
  | _, _ => Some captures
  end.

(** [RestfullRoute::createHandler] *)
Definition route_createHandler (r : RestfullRoute) (urlParts : list bytes) (method : bytes)
  : result exn (option (Captures * MethodHandler)) :=
  if decide (length urlParts <> length (m_routeParts r)) then Ok None
  else
    match match_parts (m_routeParts r) urlParts ∅ with
    | None => Ok None
    | Some captures =>
        match m_methods r !! method with
        | None =>
            Throw (ex_response (make_response 405 [] {[ str "Allow" := m_allMethods r ]}))
        | Some h => Ok (Some (captures, h))
        end
    end.

(** [m_routes] holds shared pointers: a route is named by its index, and the
    pointer [createRoute] returns stays an alias of the router's element. *)
Record RestfulRouter := {
  m_baseUrl : list bytes;
  m_routes : list RestfullRoute
}.

Definition make_router (baseUrl : bytes) : RestfulRouter :=
  {| m_baseUrl := split baseUrl "/"%char npos; m_routes := [] |}.

(** The search of [createRoute]. *)
Fixpoint find_route (route : bytes) (i : nat) (rs : list RestfullRoute) : result exn (option nat) :=
  match rs with
  | [] => Ok None
  | rt :: rs' =>
      let* eq := route_eq rt route in
      if (eq : bool) then Ok (Some i) else find_route route (S i) rs'
  end.

Definition createRoute (route : bytes) (rr : RestfulRouter) : result exn (nat * RestfulRouter) :=
  let* found := find_route route 0 (m_routes rr) in
  match found with
  | Some i => Ok (i, rr)
  | None =>
      let* r := make_route route in
      Ok (length (m_routes rr),
          {| m_baseUrl := m_baseUrl rr; m_routes := m_routes rr ++ [r] |})
  end.

(** [route->addMethodHandler(method, creator)] through the returned pointer. *)
Definition route_addMethodHandler (i : nat) (method : bytes) (creator : MethodHandler)
    (rr : RestfulRouter) : RestfulRouter :=
  {| m_baseUrl := m_baseUrl rr;
     m_routes := alter (addMethodHandler method creator) i (m_routes rr) |}.

Definition query_pair (kvPair : bytes) : result exn (bytes * bytes) :=
  match split kvPair "="%char npos with
  | [k] => let* k' := rmap_err ex_std (unescapeUrl k) in Ok (k', [])
  | [k; v] =>
      let* k' := rmap_err ex_std (unescapeUrl k) in
      let* v' := rmap_err ex_std (unescapeUrl v) in
      Ok (k', v')
  | _ => Throw (ex_response (response2 400 (str "Invalid query strings")))
  end.

(** The query part of a URL; [None] when it has none. *)
Definition parse_query (url : bytes) (qpos : option nat) : result exn QueryStrings :=
  match qpos with
  | None => Ok []
  | Some q => collect query_pair (split (drop (q + 1) url) "&"%char npos)
  end.

Fixpoint dispatch (rs : list RestfullRoute) (url : bytes) (qpos : option nat)
    (resources : list bytes) (method : bytes) : result exn R :=
  match rs with
  | [] => Ok R0
  | route :: rs' =>
      let* handle := route_createHandler route resources method in
      match handle with
      | None => dispatch rs' url qpos resources method
      | Some (captures, h) =>
          let* qs := parse_query url qpos in
          h {| capturedResources := captures; queryStrings := qs;
               allButOPTIONSNodeMethods := m_allMethods route |}
      end
  end.

(** [RestfulRouter::createHandler] *)
Definition createHandler (rr : RestfulRouter) (url method : bytes) : result exn R :=
  let qpos := find url "?"%char 0 in
  let resources := split (match qpos with Some q => take q url | None => url end) "/"%char npos in
  let n := length (m_baseUrl rr) in
  if (length resources <? n + 1)%nat then Ok R0
  else if decide (take n resources = m_baseUrl rr) then
    dispatch (m_routes rr) url qpos (drop n resources) method
  else Ok R0.
End Router.
Arguments RestfullRoute : clear implicits.
Arguments RestfulRouter : clear implicits.
Arguments MethodHandler : clear implicits.

(** * Reference definitions *)

(** A route's parts with [sigma] giving the value of each capture. *)
Definition instantiate (sigma : bytes -> bytes) (part : bool * bytes) : bytes :=
  if (part.1 : bool) then sigma part.2 else part.2.

(** A query in which names and values are percent-encoded. *)
Definition render_pair (kv : bytes * bytes) : bytes := escapeUrl kv.1 ++ "="%char :: escapeUrl kv.2.

Definition render_query (q : QueryStrings) : bytes :=
  match q with
  | [] => []
  | kv :: q' => "?"%char :: render_pair kv ++ join_after "&"%char (render_pair <$> q')
  end.

Definition render_url (parts : list bytes) (q : QueryStrings) : bytes :=
  join_after "/"%char parts ++ render_query q.

(** The methods an [Allow] header lists: without OPTIONS, each once, in the
    order in which they were first added. *)
Fixpoint listed_methods (seen : list bytes) (ms : list bytes) : list bytes :=
  match ms with
  | [] => []
  | m :: ms' =>
      if decide (m ∈ seen) then listed_methods seen ms'
      else if decide (m = str "OPTIONS") then listed_methods (m :: seen) ms'
      else m :: listed_methods (m :: seen) ms'
  end.

Fixpoint join_comma (ms : list bytes) : bytes :=
  match ms with
  | [] => []
  | [m] => m
  | m :: ms' => m ++ str ", " ++ join_comma ms'
  end.

(** * Lemmas *)

Lemma collect_Ok {X Y : Type} (f : X -> result exn Y) l ys :
  Forall2 (fun x y => f x = Ok y) l ys -> collect f l = Ok ys.
Proof. induction 1 as [|x y l ys H1 _ IH]; [done|]. simpl. by rewrite H1, IH. Qed.

Lemma match_parts_instantiate parts sigma caps0 :
  exists caps, match_parts parts (instantiate sigma <$> parts) caps0 = Some caps /\
    forall name, caps !! name =
      if decide ((true, name) ∈ parts) then Some (sigma name) else caps0 !! name.
Proof.
  revert caps0; induction parts as [|[[] t] parts IH]; intros caps0; csimpl.
  - by exists caps0.
  - change (instantiate sigma (true, t)) with (sigma t).
    destruct (IH (<[t := sigma t]> caps0)) as (caps & -> & Hc). exists caps. split; [done|].
    intros name. rewrite Hc. destruct (decide (name = t)) as [->|Hne].
    + rewrite lookup_insert_eq. rewrite (decide_True (P := (true, t) ∈ _ :: _)) by set_solver.
      by case_decide.
    + rewrite lookup_insert_ne by done. repeat case_decide; set_solver.
  - change (instantiate sigma (false, t)) with t.
    rewrite decide_True by done. destruct (IH caps0) as (caps & -> & Hc). exists caps.
    split; [done|]. intros name. rewrite Hc. repeat case_decide; set_solver.
Qed.

Lemma query_pair_render k v :
  k <> [] -> (N.of_nat (length (render_pair (k, v))) < npos)%N -> query_pair (render_pair (k, v)) = Ok (k, v).
Proof.
  intros Hk Hl. unfold query_pair, render_pair. simpl.
  assert (Hs : split (escapeUrl k ++ "="%char :: escapeUrl v) "="%char npos =
    filter nonempty [escapeUrl k; escapeUrl v]).
  { rewrite <- (split_join "="%char (escapeUrl k) [escapeUrl v] npos).
    - unfold join_after. simpl. by rewrite app_nil_r.
    - by apply escapeUrl_absent.
    - apply Forall_singleton. by apply escapeUrl_absent.
    - vm_compute. done. }
  rewrite Hs, !filter_cons, filter_nil.
  rewrite decide_True by (by rewrite escapeUrl_nil). rewrite unescapeUrl_decode.
  rewrite (decode_Escaped _ _ (Escaped_escapeUrl k)). simpl.
  destruct (decide (escapeUrl v <> [])) as [Hv|Hv].
  - rewrite unescapeUrl_decode. by rewrite (decode_Escaped _ _ (Escaped_escapeUrl v)).
  - apply dec_stable in Hv. apply (proj1 (escapeUrl_nil v)) in Hv. by subst.
Qed.

Lemma render_pair_clean k v c :
  is_alnum c = false -> c <> "%"%char -> c <> "="%char -> c ∉ render_pair (k, v).
Proof.
  intros H1 H2 H3. unfold render_pair. simpl. rewrite not_elem_of_app, not_elem_of_cons.
  split; [by apply escapeUrl_absent|]. split; [done|by apply escapeUrl_absent].
Qed.

Lemma render_pair_nonempty kv : render_pair kv <> [].
Proof. unfold render_pair. by destruct (escapeUrl kv.1). Qed.

Lemma length_join_after ch (ps : list bytes) :
  length ps <= length (join_after ch ps) /\ Forall (fun p => length p <= length (join_after ch ps)) ps.
Proof.
  unfold join_after. induction ps as [|p ps [IH1 IH2]]; [by split|]. csimpl. rewrite length_app.
  split; [lia|]. constructor; [lia|]. eapply Forall_impl; [exact IH2|]. simpl. lia.
Qed.

Lemma collect_render (q : QueryStrings) bound :
  Forall (fun kv => kv.1 <> []) q ->
  Forall (fun kv => length (render_pair kv) <= bound) q -> (N.of_nat bound < npos)%N ->
  collect query_pair (render_pair <$> q) = Ok q.
Proof.
  intros Hk Hb Hn. induction q as [|[k v] q IH]; [done|]. csimpl.
  apply Forall_cons in Hk as [Hk Hks], Hb as [Hb Hbs]. simpl in *.
  rewrite query_pair_render by (done || lia). simpl. by rewrite IH.
Qed.

Lemma parse_query_render path kv q :
  "?"%char ∉ path -> Forall (fun kv => kv.1 <> []) (kv :: q) ->
  (N.of_nat (length (path ++ render_query (kv :: q))) < npos)%N ->
  let url := path ++ render_query (kv :: q) in
  find url "?"%char 0 = Some (length path) /\
  parse_query url (Some (length path)) = Ok (kv :: q).
Proof.
  intros Hp Hk Hl url. cbn [render_query] in *. split.
  - unfold find, url. rewrite drop_0.
    assert (Hi : index_of "?"%char (path ++ "?"%char :: render_pair kv ++ join_after "&"%char (render_pair <$> q))
       = Some (length path)).
    { apply index_of_Some. rewrite take_app_length. split; [done|].
      by rewrite lookup_app_r, Nat.sub_diag by lia. }
    by rewrite Hi.
  - unfold parse_query, url. rewrite drop_app_ge by lia.
    replace (length path + 1 - length path) with 1 by lia. cbn [drop]. rewrite drop_0.
    rewrite length_app in Hl. cbn [length] in Hl. rewrite length_app in Hl.
    destruct (length_join_after "&"%char (render_pair <$> q)) as [L1 L2].
    rewrite length_fmap in L1. rewrite Forall_fmap in L2.
    rewrite split_join.
    + rewrite filter_nonempty_id.
      * apply (collect_render (kv :: q)
          (length (render_pair kv) + length (join_after "&"%char (render_pair <$> q)))); [done| |lia].
        constructor; [lia|]. eapply Forall_impl; [exact L2|]. simpl. lia.
      * constructor; [apply render_pair_nonempty|]. apply Forall_fmap, Forall_true.
        intros x. apply render_pair_nonempty.
    + destruct kv. by apply render_pair_clean.
    + apply Forall_fmap, Forall_true. intros [k v]. by apply render_pair_clean.
    + rewrite length_fmap. lia.
Qed.

Lemma join_after_absent c ch ps :
  c <> ch -> Forall (fun p => c ∉ p) ps -> c ∉ join_after ch ps.
Proof.
  intros Hc Hps. unfold join_after. induction Hps as [|p ps Hp _ IH]; csimpl; set_solver.
Qed.

Lemma find_absent s c : c ∉ s -> find s c 0 = None.
Proof. intros Hc. unfold find. rewrite drop_0. by rewrite (proj2 (index_of_None c s) Hc). Qed.

(** What [createHandler] computes from a rendered URL. *)
Lemma createHandler_render {R} (R0 : R) rr parts q method :
  Forall (fun p => p <> [] /\ "/"%char ∉ p /\ "?"%char ∉ p) (m_baseUrl rr ++ parts) ->
  Forall (fun kv => kv.1 <> []) q -> parts <> [] ->
  (N.of_nat (length (render_url (m_baseUrl rr ++ parts) q)) < npos)%N ->
  exists qpos,
    parse_query (render_url (m_baseUrl rr ++ parts) q) qpos = Ok q /\
    createHandler R0 rr (render_url (m_baseUrl rr ++ parts) q) method =
      dispatch R0 (m_routes rr) (render_url (m_baseUrl rr ++ parts) q) qpos parts method.
Proof.
  intros Hparts Hq Hne Hl. set (all := m_baseUrl rr ++ parts) in *.
  set (path := join_after "/"%char all).
  assert (Hpath : "?"%char ∉ path).
  { apply join_after_absent; [done|]. eapply Forall_impl; [exact Hparts|]. naive_solver. }
  assert (Hsplit : split path "/"%char npos = all).
  { apply split_join_after.
    - eapply Forall_impl; [exact Hparts|]. naive_solver.
    - unfold render_url in Hl. rewrite length_app in Hl.
      destruct (length_join_after "/"%char all) as [H1 _]. lia. }
  assert (Hq' : exists qpos, find (path ++ render_query q) "?"%char 0 = qpos /\
    parse_query (path ++ render_query q) qpos = Ok q /\
    (match qpos with Some n => take n (path ++ render_query q) | None => path ++ render_query q end) = path).
  { destruct q as [|kv q].
    - exists None. simpl. rewrite app_nil_r. by rewrite find_absent.
    - destruct (parse_query_render path kv q Hpath Hq Hl) as [E1 E2].
      exists (Some (length path)). split; [done|]. split; [done|]. apply take_app_length. }
  destruct Hq' as (qpos & E1 & E2 & E3). exists qpos. split; [exact E2|].
  unfold createHandler, render_url. fold path. rewrite E1, E3, Hsplit.
  assert (Hlen : (length all <? length (m_baseUrl rr) + 1)%nat = false).
  { apply Nat.ltb_ge. unfold all. rewrite length_app. destruct parts; [done|simpl; lia]. }
  rewrite Hlen. unfold all. rewrite take_app_length, decide_True by done. by rewrite drop_app_length.
Qed.

Lemma dispatch_skip {R} (R0 : R) rs1 rs2 url qpos resources method :
  Forall (fun r => route_createHandler r resources method = Ok None) rs1 ->
  dispatch R0 (rs1 ++ rs2) url qpos resources method = dispatch R0 rs2 url qpos resources method.
Proof. induction 1 as [|r rs1 H _ IH]; [done|]. simpl. by rewrite H. Qed.

Lemma route_createHandler_instantiate {R} (r : RestfullRoute R) sigma method :
  exists caps,
    (forall name, caps !! name =
       if decide ((true, name) ∈ m_routeParts r) then Some (sigma name) else None) /\
    route_createHandler r (instantiate sigma <$> m_routeParts r) method =
      match m_methods r !! method with
      | Some h => Ok (Some (caps, h))
      | None => Throw (ex_response (make_response 405 [] {[ str "Allow" := m_allMethods r ]}))
      end.
Proof.
  destruct (match_parts_instantiate (m_routeParts r) sigma ∅) as (caps & E & Hc).
  exists caps. split; [intros name; rewrite Hc; by rewrite lookup_empty|].
  unfold route_createHandler. rewrite length_fmap, decide_False by naive_solver. by rewrite E.
Qed.

Lemma addMethodHandler_methods {R} (ms : list (bytes * MethodHandler R)) r :
  Forall (fun mh => mh.1 <> []) ms ->
  let r' := fold_left (fun r mh => addMethodHandler mh.1 mh.2 r) ms r in
  m_routeParts r' = m_routeParts r /\
  (forall m, is_Some (m_methods r' !! m) <-> is_Some (m_methods r !! m) \/ m ∈ ms.*1) /\
  forall seen, (forall m, is_Some (m_methods r !! m) <-> m ∈ seen) ->
    m_allMethods r' =
      match m_allMethods r, listed_methods seen ms.*1 with
      | [], l => join_comma l
      | a, [] => a
      | a, l => a ++ str ", " ++ join_comma l
      end.
Proof.
  revert r; induction ms as [|[m h] ms IH]; intros r Hne; csimpl.
  - split; [done|]. split; [set_solver|]. intros seen _. by destruct (m_allMethods r).
  - apply Forall_cons in Hne as [Hm Hne]. simpl in Hm.
    destruct (IH (addMethodHandler m h r) Hne) as (I1 & I2 & I3).
    set (r' := fold_left _ ms _) in *.
    assert (Hdom : forall m0, is_Some (m_methods (addMethodHandler m h r) !! m0) <->
       m0 = m \/ is_Some (m_methods r !! m0)).
    { intros m0. unfold addMethodHandler. destruct (m_methods r !! m) eqn:E; simpl;
        (destruct (decide (m = m0)) as [->|]; [rewrite lookup_insert_eq|rewrite lookup_insert_ne by done]);
        naive_solver. }
    split; [rewrite I1; unfold addMethodHandler; by destruct (m_methods r !! m)|].
    split; [intros m0; rewrite I2, Hdom; set_solver|].
    intros seen Hseen.
    destruct (m_methods r !! m) as [h0|] eqn:E.
    + assert (m ∈ seen) by (apply Hseen; by eexists).
      rewrite (decide_True (P := m ∈ seen)) by done.
      rewrite (I3 seen).
      * unfold addMethodHandler. by rewrite E.
      * intros m0. rewrite Hdom, Hseen. set_solver.
    + assert (m ∉ seen) by (intros Hin; apply Hseen in Hin as [? ?]; congruence).
      rewrite (decide_False (P := m ∈ seen)) by done.
      rewrite (I3 (m :: seen)) by (intros m0; rewrite Hdom, Hseen; set_solver).
      unfold addMethodHandler. rewrite E. simpl. case_decide; [done|].
      destruct m as [|c m0]; [done|]. set (m := c :: m0) in *.
      destruct (m_allMethods r) as [|c1 a].
      * simpl. unfold m at 1. fold m. destruct (listed_methods (m :: seen) ms.*1); done.
      * cbn [app]. destruct (listed_methods (m :: seen) ms.*1); [done|].
        cbn [join_comma]. by rewrite <- !app_assoc.
Qed.

Lemma find_route_spec {R} route (rs : list (RestfullRoute R)) i parts :
  routeParts route = Ok parts ->
  match find_route route i rs with
  | Ok (Some j) => i <= j /\ exists r, rs !! (j - i) = Some r /\ m_routeParts r = parts
  | Ok None => Forall (fun r => m_routeParts r <> parts) rs
  | Throw _ => False
  end.
Proof.
  intros Hp. revert i; induction rs as [|r rs IH]; intros i; simpl; [done|].
  unfold route_eq. rewrite Hp. simpl. destruct (bool_decide_reflect (parts = m_routeParts r)) as [E|E].
  - split; [done|]. exists r. by rewrite Nat.sub_diag.
  - specialize (IH (S i)). destruct (find_route route (S i) rs) as [[j|]|]; [| |done].
    + destruct IH as [H1 (r0 & H2 & H3)]. split; [lia|]. exists r0.
      replace (j - i) with (S (j - S i)) by lia. done.
    + constructor; [congruence|done].
Qed.

Lemma find_route_found {R} route (rs : list (RestfullRoute R)) i k r parts :
  routeParts route = Ok parts ->
  Forall (fun r => m_routeParts r <> parts) (take k rs) ->
  rs !! k = Some r -> m_routeParts r = parts ->
  find_route route i rs = Ok (Some (i + k)).
Proof.
  intros Hp. revert i k; induction rs as [|r0 rs IH]; intros i k Hf Hk Hr; [done|].
  simpl. unfold route_eq. rewrite Hp. simpl. destruct k as [|k]; simpl in *.
  - simplify_eq. rewrite bool_decide_true by done. f_equal. f_equal. lia.
  - apply Forall_cons in Hf as [Hne Hf]. rewrite bool_decide_false by congruence.
    rewrite (IH (S i) k) by done. f_equal. f_equal. lia.
Qed.

(** * Properties *)

(** C21. Routing round trip: take any route of a router, give every capture a
    value, and render the URL [/base/parts?query] with the query's names and
    values percent-encoded.  If no earlier route takes the URL, [createHandler]
    calls that route's handler for the method with exactly those captures, that
    query in order, and the route's method list. *)
Theorem route_roundtrip {R} (R0 : R) rr rs1 r rs2 sigma q method (h : MethodHandler R) :
  m_routes rr = rs1 ++ r :: rs2 ->
  Forall (fun r' => route_createHandler r' (instantiate sigma <$> m_routeParts r) method = Ok None) rs1 ->
  m_methods r !! method = Some h ->
  m_routeParts r <> [] ->
  Forall (fun p => p <> [] /\ "/"%char ∉ p /\ "?"%char ∉ p)
    (m_baseUrl rr ++ (instantiate sigma <$> m_routeParts r)) ->
  Forall (fun kv => kv.1 <> []) q ->
  (N.of_nat (length (render_url (m_baseUrl rr ++ (instantiate sigma <$> m_routeParts r)) q)) < npos)%N ->
  exists caps,
    (forall name, caps !! name =
       if decide ((true, name) ∈ m_routeParts r) then Some (sigma name) else None) /\
    createHandler R0 rr (render_url (m_baseUrl rr ++ (instantiate sigma <$> m_routeParts r)) q) method =
      h {| capturedResources := caps; queryStrings := q; allButOPTIONSNodeMethods := m_allMethods r |}.
Proof.
  intros Hrs Hskip Hm Hne Hclean Hq Hl.
  destruct (createHandler_render R0 rr (instantiate sigma <$> m_routeParts r) q method)
    as (qpos & E1 & E2); [done|done|by destruct (m_routeParts r)|done|].
  destruct (route_createHandler_instantiate r sigma method) as (caps & Hc & E3).
  exists caps. split; [done|]. rewrite E2, Hrs, dispatch_skip by done.
  rewrite Hm in E3. cbn [dispatch]. rewrite E3. simpl. by rewrite E1.
Qed.

Definition echo_handler : MethodHandler (option ParsedRoute) := fun p => Ok (Some p).

(** The router of the test plugin with its four routes. *)
Definition sample_router : RestfulRouter (option ParsedRoute) :=
  let add route rr := match createRoute (str route) rr with
                      | Ok (i, rr') => route_addMethodHandler i (str "GET") echo_handler rr'
                      | Throw _ => rr
                      end in
  add "customers/{customerId}/licenses/{licenseId}"%string
    (add "customers/{customerId}/licenses"%string
      (add "customers/{customerId}"%string
        (add "customers"%string (make_router (str "/test/rest/v1/"))))).

Lemma route_roundtrip_witness :
  exists caps,
    (forall name, caps !! name = if decide (name = str "customerId") then Some (str "42") else None) /\
    createHandler None sample_router
      (str "/test/rest/v1/customers/42/licenses?lang=en&q=a%20b") (str "GET") =
    Ok (Some {| capturedResources := caps;
                queryStrings := [(str "lang", str "en"); (str "q", str "a b")];
                allButOPTIONSNodeMethods := str "GET" |}).
Proof.
  pose (r := default {| m_routeParts := []; m_methods := ∅; m_allMethods := [] |}
               (m_routes sample_router !! 2)).
  destruct (route_roundtrip None sample_router (take 2 (m_routes sample_router)) r
    (drop 3 (m_routes sample_router)) (fun _ => str "42")
    [(str "lang", str "en"); (str "q", str "a b")] (str "GET") echo_handler) as (caps & Hc & E).
  - vm_compute. reflexivity.
  - repeat (constructor; [vm_compute; reflexivity|]). constructor.
  - vm_compute. reflexivity.
  - vm_compute. discriminate.
  - apply (bool_decide_unpack _). vm_compute. exact I.
  - repeat (constructor; [discriminate|]). constructor.
  - vm_compute. reflexivity.
  - exists caps. split.
    + assert (Hp : m_routeParts r = [(false, str "customers"); (true, str "customerId");
                                     (false, str "licenses")]) by (vm_compute; reflexivity).
      intros name. rewrite Hc, Hp, (decide_ext _ (name = str "customerId")); [done|].
      clear. split; [|intros ->; right; left].
      intros [E|[E|[E|E]%elem_of_cons]%elem_of_cons]%elem_of_cons; by inversion E.
    + exact E.
Defined.

(** Method errors: when a URL matches a route to which handlers were added
    for some methods but not for the requested one, and no earlier route takes
    it, [createHandler] throws the 405 response whose [Allow] field lists the
    added methods except OPTIONS, each once, in the order of their first
    addition. *)
Theorem method_not_allowed {R} (R0 : R) rr rs1 r0 rs2 (ms : list (bytes * MethodHandler R)) sigma q method :
  let r := fold_left (fun r mh => addMethodHandler mh.1 mh.2 r) ms r0 in
  let url := render_url (m_baseUrl rr ++ (instantiate sigma <$> m_routeParts r0)) q in
  m_methods r0 = ∅ -> m_allMethods r0 = [] -> Forall (fun mh => mh.1 <> []) ms ->
  method ∉ ms.*1 ->
  m_routes rr = rs1 ++ r :: rs2 ->
  Forall (fun r' => route_createHandler r' (instantiate sigma <$> m_routeParts r0) method = Ok None) rs1 ->
  m_routeParts r0 <> [] ->
  Forall (fun p => p <> [] /\ "/"%char ∉ p /\ "?"%char ∉ p)
    (m_baseUrl rr ++ (instantiate sigma <$> m_routeParts r0)) ->
  Forall (fun kv => kv.1 <> []) q -> (N.of_nat (length url) < npos)%N ->
  createHandler R0 rr url method =
  Throw (ex_response (make_response 405 []
    {[ str "Allow" := join_comma (listed_methods [] ms.*1) ]})).
Proof.
  intros r url H0 Ha Hms Hm Hrs Hskip Hne Hclean Hq Hl.
  destruct (addMethodHandler_methods ms r0 Hms) as (P1 & P2 & P3). fold r in P1, P2, P3.
  destruct (createHandler_render R0 rr (instantiate sigma <$> m_routeParts r0) q method)
    as (qpos & E1 & E2); [done|done|by destruct (m_routeParts r0)|done|].
  destruct (route_createHandler_instantiate r sigma method) as (caps & _ & E3).
  assert (Hnone : m_methods r !! method = None).
  { apply eq_None_not_Some. rewrite P2, H0, lookup_empty. intros [[? ?]|?]; done. }
  assert (Hall : m_allMethods r = join_comma (listed_methods [] ms.*1)).
  { rewrite (P3 []), Ha; [done|]. intros m. rewrite H0, lookup_empty.
    split; [intros [? ?]; done|set_solver]. }
  rewrite Hnone, P1, Hall in E3. unfold url.
  rewrite E2, Hrs, dispatch_skip by done. cbn [dispatch]. by rewrite E3.
Qed.

Lemma method_not_allowed_witness :
  let ms := [(str "GET", echo_handler); (str "OPTIONS", echo_handler);
             (str "DELETE", echo_handler); (str "GET", echo_handler)] in
  let r0 := {| m_routeParts := [(false, str "parents"); (true, str "parent")];
               m_methods := ∅; m_allMethods := [] |} in
  let rr := {| m_baseUrl := []; m_routes :=
                 [fold_left (fun r mh => addMethodHandler mh.1 mh.2 r) ms r0] |} in
  createHandler None rr (str "/parents/7") (str "PUT") =
  Throw (ex_response (make_response 405 [] {[ str "Allow" := str "GET, DELETE" ]})).
Proof.
  intros ms r0 rr.
  apply (method_not_allowed None rr [] r0 [] ms (fun _ => str "7") [] (str "PUT")).
  - reflexivity.
  - reflexivity.
  - repeat (constructor; [discriminate|]). constructor.
  - apply (bool_decide_unpack _). vm_compute. exact I.
  - reflexivity.
  - constructor.
  - discriminate.
  - apply (bool_decide_unpack _). vm_compute. exact I.
  - constructor.
  - vm_compute. reflexivity.
Defined.

(** [createRoute] keeps routes unique: if the parts of all routes are
    distinct they stay so, existing routes keep their index (and so the handles
    given out earlier), the returned index is that of the route asked for, and
    asking for it again returns the same index and changes nothing. *)
Theorem createRoute_unique {R} route (rr rr1 : RestfulRouter R) i :
  NoDup (m_routeParts <$> m_routes rr) -> createRoute route rr = Ok (i, rr1) ->
  NoDup (m_routeParts <$> m_routes rr1) /\
  (exists r, m_routes rr1 !! i = Some r /\ routeParts route = Ok (m_routeParts r)) /\
  m_routes rr `prefix_of` m_routes rr1 /\
  createRoute route rr1 = Ok (i, rr1).
Proof.
  intros Hnd. unfold createRoute.
  destruct (routeParts route) as [parts|e] eqn:Hp.
  2: { destruct (m_routes rr) as [|r rs]; simpl; unfold route_eq, make_route; rewrite Hp; done. }
  pose proof (find_route_spec route (m_routes rr) 0 parts Hp) as Hf.
  destruct (find_route route 0 (m_routes rr)) as [[j|]|e] eqn:Ef; [| |done]; simpl.
  - intros [= <- <-]. destruct Hf as [_ (r & Hr & Hrp)]. rewrite Nat.sub_0_r in Hr.
    split; [done|]. split; [exists r; by rewrite Hrp|]. split; [done|]. by rewrite Ef.
  - unfold make_route. rewrite Hp. simpl. intros [= <- <-]. simpl.
    set (r := {| m_routeParts := parts; m_methods := ∅; m_allMethods := [] |}).
    split; [|split; [|split]].
    + rewrite fmap_app. apply NoDup_app. split; [done|]. split; [|apply NoDup_singleton].
      intros x (r' & -> & Hr')%list_elem_of_fmap. rewrite Forall_forall in Hf.
      intros Hin. apply list_elem_of_singleton in Hin. by apply (Hf r').
    + exists r. split; [|done]. by apply list_lookup_middle.
    + by apply prefix_app_r.
    + rewrite (find_route_found route (m_routes rr ++ [r]) 0 (length (m_routes rr)) r parts); [done|done| | |done].
      * by rewrite take_app_length.
      * by apply list_lookup_middle.
Qed.

Lemma createRoute_unique_witness :
  let rr := make_router (R := option ParsedRoute) (str "/api/") in
  exists rr1, NoDup (m_routeParts <$> m_routes rr) /\
    createRoute (str "/parents/{parent}") rr = Ok (0, rr1) /\
    createRoute (str "/parents/{parent}") rr1 = Ok (0, rr1).
Proof.
  intros rr.
  pose (rr1 := match createRoute (str "/parents/{parent}") rr with Ok (_, r) => r | Throw _ => rr end).
  assert (H1 : NoDup (m_routeParts <$> m_routes rr)) by constructor.
  assert (H2 : createRoute (str "/parents/{parent}") rr = Ok (0, rr1)) by reflexivity.
  exists rr1. split; [exact H1|]. split; [exact H2|].
  exact (proj2 (proj2 (proj2 (createRoute_unique (str "/parents/{parent}") rr rr1 0 H1 H2)))).
Defined.
