(* ===== verification/Transport.v ===== *)
(** The server's connections: [BasicHttpSession] of src/server/streams.cpp with
    its two transports, [SocketSession] and [SslSocketSession].

    The outside of a session is a script: what each read and write of the socket
    moves, what the event loop passes when it resumes the coroutine, what the
    OpenSSL calls return.  A script that has run out leaves the session waiting.
    Every theorem quantifies over the script, so it covers every schedule of
    short writes, partial reads, would-blocks and errors. *)

From Stdlib Require Import Ascii String NArith ZArith Lia.
From stdpp Require Import base gmap strings list.
From S2P Require Import Prelude CharBuffer Http Effects Stream.
Local Open Scope getodac_scope.

(** * The outside *)

(** [errno] values and [std::errc] conditions (0 is "no error"). *)
Definition EIO : Z := 5.
Definition EAGAIN : Z := 11.
Definition EINVAL : Z := 22.
Definition EBADMSG : Z := 74.
Definition ECONNABORTED : Z := 103.
Definition ETIMEDOUT : Z := 110.
Definition ECANCELED : Z := 125.

(** What a read of the socket finds: bytes ([Arrived []] is the end of the
    stream) or an error.  A read takes no more than its limit and leaves the
    rest for the next one. *)
Inductive raw_read : Type :=
| Arrived (b : bytes)
| ReadError (errno : positive).

(** What a write of the socket does: it moves at most [S n] bytes, moves
    everything, or fails. *)
Inductive raw_write : Type :=
| Accept (n : nat)
| AcceptAll
| WriteError (errno : positive).

(** How the event loop resumes the coroutine: the error code it passes, the time,
    and what the other sessions of the loop left in the shared read buffer. *)
Record resumption := Resume { r_ec : Z; r_clock : Z; r_buffer : Buffer }.

Record sock := {
  yield_value : Z;
  clock : Z;
  sndbuf : nat;
  rcvbuf : nat;
  (** the buffer the kernel makes of a size asked for with [setsockopt]; none when the call fails *)
  sockopt_buffer : Z -> option nat;
  reads : list raw_read;
  writes : list raw_write;
  resumes : list resumption;
  ssl_calls : list (Z * Z);
  received : bytes;
  delivered : bytes;
  closed : bool
}.
Definition set_yield_value (x : Z) (s : sock) : sock :=
  {| yield_value := x; clock := clock s; sndbuf := sndbuf s; rcvbuf := rcvbuf s; sockopt_buffer := sockopt_buffer s; reads := reads s;
     writes := writes s; resumes := resumes s; ssl_calls := ssl_calls s; received := received s;
     delivered := delivered s; closed := closed s |}.
Definition set_clock (x : Z) (s : sock) : sock :=
  {| yield_value := yield_value s; clock := x; sndbuf := sndbuf s; rcvbuf := rcvbuf s; sockopt_buffer := sockopt_buffer s; reads := reads s;
     writes := writes s; resumes := resumes s; ssl_calls := ssl_calls s; received := received s;
     delivered := delivered s; closed := closed s |}.
Definition set_sndbuf (x : nat) (s : sock) : sock :=
  {| yield_value := yield_value s; clock := clock s; sndbuf := x; rcvbuf := rcvbuf s; sockopt_buffer := sockopt_buffer s; reads := reads s;
     writes := writes s; resumes := resumes s; ssl_calls := ssl_calls s; received := received s;
     delivered := delivered s; closed := closed s |}.
Definition set_rcvbuf (x : nat) (s : sock) : sock :=
  {| yield_value := yield_value s; clock := clock s; sndbuf := sndbuf s; rcvbuf := x;
     sockopt_buffer := sockopt_buffer s; reads := reads s;
     writes := writes s; resumes := resumes s; ssl_calls := ssl_calls s; received := received s;
     delivered := delivered s; closed := closed s |}.
Definition set_reads (x : list raw_read) (s : sock) : sock :=
  {| yield_value := yield_value s; clock := clock s; sndbuf := sndbuf s; rcvbuf := rcvbuf s; sockopt_buffer := sockopt_buffer s; reads := x;
     writes := writes s; resumes := resumes s; ssl_calls := ssl_calls s; received := received s;
     delivered := delivered s; closed := closed s |}.
Definition set_writes (x : list raw_write) (s : sock) : sock :=
  {| yield_value := yield_value s; clock := clock s; sndbuf := sndbuf s; rcvbuf := rcvbuf s; sockopt_buffer := sockopt_buffer s; reads := reads s;
     writes := x; resumes := resumes s; ssl_calls := ssl_calls s; received := received s;
     delivered := delivered s; closed := closed s |}.
Definition set_resumes (x : list resumption) (s : sock) : sock :=
  {| yield_value := yield_value s; clock := clock s; sndbuf := sndbuf s; rcvbuf := rcvbuf s; sockopt_buffer := sockopt_buffer s; reads := reads s;
     writes := writes s; resumes := x; ssl_calls := ssl_calls s; received := received s;
     delivered := delivered s; closed := closed s |}.
Definition set_ssl_calls (x : list (Z * Z)) (s : sock) : sock :=
  {| yield_value := yield_value s; clock := clock s; sndbuf := sndbuf s; rcvbuf := rcvbuf s; sockopt_buffer := sockopt_buffer s; reads := reads s;
     writes := writes s; resumes := resumes s; ssl_calls := x; received := received s;
     delivered := delivered s; closed := closed s |}.
Definition set_received (x : bytes) (s : sock) : sock :=
  {| yield_value := yield_value s; clock := clock s; sndbuf := sndbuf s; rcvbuf := rcvbuf s; sockopt_buffer := sockopt_buffer s; reads := reads s;
     writes := writes s; resumes := resumes s; ssl_calls := ssl_calls s; received := x;
     delivered := delivered s; closed := closed s |}.
Definition set_delivered (x : bytes) (s : sock) : sock :=
  {| yield_value := yield_value s; clock := clock s; sndbuf := sndbuf s; rcvbuf := rcvbuf s; sockopt_buffer := sockopt_buffer s; reads := reads s;
     writes := writes s; resumes := resumes s; ssl_calls := ssl_calls s; received := received s;
     delivered := x; closed := closed s |}.
Definition set_closed (x : bool) (s : sock) : sock :=
  {| yield_value := yield_value s; clock := clock s; sndbuf := sndbuf s; rcvbuf := rcvbuf s; sockopt_buffer := sockopt_buffer s; reads := reads s;
     writes := writes s; resumes := resumes s; ssl_calls := ssl_calls s; received := received s;
     delivered := delivered s; closed := x |}.

(** A session: the members of [BasicHttpSession] (and of the event loop and the
    server it reaches), the state its body callbacks change, and its outside. *)
Record session (P B : Type) := {
  m_keepAlive : Z;
  m_sessionTimeout : Z;
  m_sessionTimeoutTimePoint : Z;
  m_parser : P;
  m_can_write_errror : bool;
  m_httpParserBuffer : Buffer;
  sharedReadBuffer : Buffer;
  m_peerAddress : bytes;
  wmem_max : nat;
  on_loop_thread : bool;
  body_state : B;
  served : nat;
  env : sock
}.
Arguments m_keepAlive {P B} _.
Arguments m_sessionTimeout {P B} _.
Arguments m_sessionTimeoutTimePoint {P B} _.
Arguments m_parser {P B} _.
Arguments m_can_write_errror {P B} _.
Arguments m_httpParserBuffer {P B} _.
Arguments sharedReadBuffer {P B} _.
Arguments m_peerAddress {P B} _.
Arguments wmem_max {P B} _.
Arguments on_loop_thread {P B} _.
Arguments body_state {P B} _.
Arguments served {P B} _.
Arguments env {P B} _.

Section SessionSetters.
Context {P B : Type}.
Definition set_m_keepAlive (x : Z) (s : session P B) : session P B :=
  {| m_keepAlive := x; m_sessionTimeout := m_sessionTimeout s;
     m_sessionTimeoutTimePoint := m_sessionTimeoutTimePoint s; m_parser := m_parser s;
     m_can_write_errror := m_can_write_errror s; m_httpParserBuffer := m_httpParserBuffer s;
     sharedReadBuffer := sharedReadBuffer s; m_peerAddress := m_peerAddress s; wmem_max := wmem_max s;
     on_loop_thread := on_loop_thread s; body_state := body_state s; served := served s;
     env := env s |}.
Definition set_m_sessionTimeout (x : Z) (s : session P B) : session P B :=
  {| m_keepAlive := m_keepAlive s; m_sessionTimeout := x;
     m_sessionTimeoutTimePoint := m_sessionTimeoutTimePoint s; m_parser := m_parser s;
     m_can_write_errror := m_can_write_errror s; m_httpParserBuffer := m_httpParserBuffer s;
     sharedReadBuffer := sharedReadBuffer s; m_peerAddress := m_peerAddress s; wmem_max := wmem_max s;
     on_loop_thread := on_loop_thread s; body_state := body_state s; served := served s;
     env := env s |}.
Definition set_m_sessionTimeoutTimePoint (x : Z) (s : session P B) : session P B :=
  {| m_keepAlive := m_keepAlive s; m_sessionTimeout := m_sessionTimeout s;
     m_sessionTimeoutTimePoint := x; m_parser := m_parser s;
     m_can_write_errror := m_can_write_errror s; m_httpParserBuffer := m_httpParserBuffer s;
     sharedReadBuffer := sharedReadBuffer s; m_peerAddress := m_peerAddress s; wmem_max := wmem_max s;
     on_loop_thread := on_loop_thread s; body_state := body_state s; served := served s;
     env := env s |}.
Definition set_m_parser (x : P) (s : session P B) : session P B :=
  {| m_keepAlive := m_keepAlive s; m_sessionTimeout := m_sessionTimeout s;
     m_sessionTimeoutTimePoint := m_sessionTimeoutTimePoint s; m_parser := x;
     m_can_write_errror := m_can_write_errror s; m_httpParserBuffer := m_httpParserBuffer s;
     sharedReadBuffer := sharedReadBuffer s; m_peerAddress := m_peerAddress s; wmem_max := wmem_max s;
     on_loop_thread := on_loop_thread s; body_state := body_state s; served := served s;
     env := env s |}.
Definition set_m_can_write_errror (x : bool) (s : session P B) : session P B :=
  {| m_keepAlive := m_keepAlive s; m_sessionTimeout := m_sessionTimeout s;
     m_sessionTimeoutTimePoint := m_sessionTimeoutTimePoint s; m_parser := m_parser s;
     m_can_write_errror := x; m_httpParserBuffer := m_httpParserBuffer s;
     sharedReadBuffer := sharedReadBuffer s; m_peerAddress := m_peerAddress s; wmem_max := wmem_max s;
     on_loop_thread := on_loop_thread s; body_state := body_state s; served := served s;
     env := env s |}.
Definition set_m_httpParserBuffer (x : Buffer) (s : session P B) : session P B :=
  {| m_keepAlive := m_keepAlive s; m_sessionTimeout := m_sessionTimeout s;
     m_sessionTimeoutTimePoint := m_sessionTimeoutTimePoint s; m_parser := m_parser s;
     m_can_write_errror := m_can_write_errror s; m_httpParserBuffer := x;
     sharedReadBuffer := sharedReadBuffer s; m_peerAddress := m_peerAddress s; wmem_max := wmem_max s;
     on_loop_thread := on_loop_thread s; body_state := body_state s; served := served s;
     env := env s |}.
Definition set_sharedReadBuffer (x : Buffer) (s : session P B) : session P B :=
  {| m_keepAlive := m_keepAlive s; m_sessionTimeout := m_sessionTimeout s;
     m_sessionTimeoutTimePoint := m_sessionTimeoutTimePoint s; m_parser := m_parser s;
     m_can_write_errror := m_can_write_errror s; m_httpParserBuffer := m_httpParserBuffer s;
     sharedReadBuffer := x; m_peerAddress := m_peerAddress s; wmem_max := wmem_max s; on_loop_thread := on_loop_thread s;
     body_state := body_state s; served := served s; env := env s |}.
Definition set_body_state (x : B) (s : session P B) : session P B :=
  {| m_keepAlive := m_keepAlive s; m_sessionTimeout := m_sessionTimeout s;
     m_sessionTimeoutTimePoint := m_sessionTimeoutTimePoint s; m_parser := m_parser s;
     m_can_write_errror := m_can_write_errror s; m_httpParserBuffer := m_httpParserBuffer s;
     sharedReadBuffer := sharedReadBuffer s; m_peerAddress := m_peerAddress s; wmem_max := wmem_max s;
     on_loop_thread := on_loop_thread s; body_state := x; served := served s; env := env s |}.
Definition set_served (x : nat) (s : session P B) : session P B :=
  {| m_keepAlive := m_keepAlive s; m_sessionTimeout := m_sessionTimeout s;
     m_sessionTimeoutTimePoint := m_sessionTimeoutTimePoint s; m_parser := m_parser s;
     m_can_write_errror := m_can_write_errror s; m_httpParserBuffer := m_httpParserBuffer s;
     sharedReadBuffer := sharedReadBuffer s; m_peerAddress := m_peerAddress s; wmem_max := wmem_max s;
     on_loop_thread := on_loop_thread s; body_state := body_state s; served := x; env := env s |}.
Definition set_env (x : sock) (s : session P B) : session P B :=
  {| m_keepAlive := m_keepAlive s; m_sessionTimeout := m_sessionTimeout s;
     m_sessionTimeoutTimePoint := m_sessionTimeoutTimePoint s; m_parser := m_parser s;
     m_can_write_errror := m_can_write_errror s; m_httpParserBuffer := m_httpParserBuffer s;
     sharedReadBuffer := sharedReadBuffer s; m_peerAddress := m_peerAddress s; wmem_max := wmem_max s;
     on_loop_thread := on_loop_thread s; body_state := body_state s; served := served s;
     env := x |}.
End SessionSetters.

Section Env.
Context {P B : Type}.
Implicit Type s : session P B.

Definition on_env (f : sock -> sock) s : session P B := set_env (f (env s)) s.
End Env.

(** Signed 64-bit arithmetic of [std::chrono] durations in nanoseconds. *)
Definition int64 (z : Z) : Z := (z + 2 ^ 63) mod 2 ^ 64 - 2 ^ 63.
Definition nanoseconds (seconds : Z) : Z := int64 (seconds * 1000000000).

(** * System calls *)

Section Syscalls.
Context {P B : Type}.
Abbreviation sess := (session P B).

(** [::write] and [SSL_write]: the bytes moved, or [-1] and the error. *)
Definition sys_write (b : bytes) : M sess (Z * Z) := fun s =>
  let moved n w := (Done (Z.of_nat n, 0%Z),
    on_env (fun k => set_delivered (delivered k ++ take n b) (set_writes w k)) s) in
  match writes (env s) with
  | [] => (Done (-1, EAGAIN)%Z, s)
  | Accept n :: w => moved (Nat.min (S n) (length b)) w
  | AcceptAll :: w => moved (length b) w
  | WriteError e :: w => (Done (-1, Zpos e)%Z, on_env (set_writes w) s)
  end.

(** [::read] and [SSL_read] into [sharedReadBuffer.currentData()] with the given
    limit. *)
Definition sys_read (limit : nat) : M sess (Z * Z) := fun s =>
  match reads (env s) with
  | [] => (Done (-1, EAGAIN)%Z, s)
  | ReadError e :: r => (Done (-1, Zpos e)%Z, on_env (set_reads r) s)
  | Arrived b :: r =>
      let got := take limit b in
      let r' := match drop limit b with [] => r | rest => Arrived rest :: r end in
      match fill got (sharedReadBuffer s) with
      | None => (Undefined, s)
      | Some buf =>
          (Done (Z.of_nat (length got), 0%Z),
           on_env (fun k => set_received (received k ++ got) (set_reads r' k))
             (set_sharedReadBuffer buf s))
      end
  end.

(** One SSL call ([SSL_accept], [SSL_shutdown]): its return value and what
    [SSL_get_error] then says. *)
Definition SSL_ERROR_WANT_READ : Z := 2.
Definition SSL_ERROR_WANT_WRITE : Z := 3.

Definition ssl_call : M sess (Z * Z) := fun s =>
  match ssl_calls (env s) with
  | [] => (Done (-1, SSL_ERROR_WANT_READ)%Z, s)
  | r :: rest => (Done r, on_env (set_ssl_calls rest) s)
  end.

(** [m_yield().get()]: suspends the session until the event loop resumes it. *)
Definition yield : M sess Z := fun s =>
  match resumes (env s) with
  | [] => (Suspended, s)
  | r :: rest =>
      (Done (r_ec r), set_sharedReadBuffer (r_buffer r)
         (on_env (fun k => set_yield_value (r_ec r) (set_clock (r_clock r) (set_resumes rest k))) s))
  end.

(** [if ((ec = m_yield().get())) throw ec;] *)
Definition yield_or_throw : M sess unit :=
  ec <-- yield ;; if (ec =? 0)%Z then skip else throw (ex_code ec).

Definition sys_shutdown : M sess unit := modify (on_env (set_closed true)).

(** * Settings *)

Definition session_setKeepAlive (seconds : Z) : sess -> sess := set_m_keepAlive seconds.

Definition session_setSessionTimeout (seconds : Z) (s : sess) : sess :=
  set_m_sessionTimeoutTimePoint
    (if (seconds =? 0)%Z then 0 else int64 (clock (env s) + nanoseconds seconds))%Z
    (set_m_sessionTimeout seconds s).

Definition nextTimeout (s : sess) : Z := m_sessionTimeoutTimePoint s.

Definition session_socketWriteSize (s : sess) : nat := sndbuf (env s) / 2.

Definition session_setSocketWriteSize (size : Z) : M sess unit := fun s =>
  match sockopt_buffer (env s) size with
  | Some n => (Done tt, on_env (set_sndbuf n) s)
  | None => (Raise (ex_code EINVAL), s)
  end.

Definition session_socketReadSize (s : sess) : nat := rcvbuf (env s) / 2.

Definition session_setSocketReadSize (size : Z) : M sess unit := fun s =>
  match sockopt_buffer (env s) size with
  | Some n => (Done tt, on_env (set_rcvbuf n) s)
  | None => (Raise (ex_code EINVAL), s)
  end.

End Syscalls.

(** * Transports *)

(** The virtual functions of [BasicHttpSession].  A result is the [ssize_t]
    returned and the error code stored in [ec]. *)
Class Transport (P B : Type) := {
  readSome : M (session P B) (Z * Z);
  writeSome : bytes -> M (session P B) (Z * Z);
  writeSomeV : list bytes -> M (session P B) (Z * Z);
  shutdown : M (session P B) unit;
  secured : bool
}.

Section SocketSession.
Context {P B : Type}.
Abbreviation sess := (session P B).

(** The common part of [SocketSession]'s calls: EAGAIN is no error. *)
Definition tcp_result (r : Z * Z) : Z * Z :=
  let '(res, errno) := r in
  if (res <? 0)%Z then (if (errno =? EAGAIN)%Z then (0, 0) else (res, errno))%Z
  else (res, 0%Z).

Definition tcp_readSome : M sess (Z * Z) :=
  limit <-- gets (fun s => currentSize (sharedReadBuffer s)) ;;
  r <-- sys_read limit ;;
  ret (tcp_result r).

Definition tcp_writeSome (b : bytes) : M sess (Z * Z) :=
  r <-- sys_write b ;;
  when (0 <=? r.1)%Z (modify (set_m_can_write_errror false)) >>>
  ret (tcp_result r).

(** The most buffers [::writev] takes in one call. *)
Definition IOV_MAX : nat := Z.to_nat 1024.

(** [::writev]: gathers the buffers into one write. *)
Definition sys_writev (bs : list bytes) : M sess (Z * Z) :=
  if decide (IOV_MAX < length bs) then ret (-1, EINVAL)%Z else sys_write (concat bs).

Definition tcp_writeSomeV (bs : list bytes) : M sess (Z * Z) :=
  r <-- sys_writev bs ;;
  when (0 <=? r.1)%Z (modify (set_m_can_write_errror false)) >>>
  ret (tcp_result r).

Definition SocketSession : Transport P B := {|
  readSome := tcp_readSome;
  writeSome := tcp_writeSome;
  writeSomeV := tcp_writeSomeV;
  shutdown := sys_shutdown;
  secured := false
|}.
End SocketSession.

(** [Server::headersTimeout] and the other settings the sessions read. *)
Record timeouts := {
  headersTimeout : Z;
  keepAliveTimeout : Z;
  sslAcceptTimeout : Z;
  sslShutdownTimeout : Z
}.

Section SslSocketSession.
Context {P B : Type} (conf : timeouts).
Abbreviation sess := (session P B).

Definition INT_MAX : Z := 2 ^ 31 - 1.

(** [length < INT_MAX ? int(length) : INT_MAX] *)
Definition int_limit (n : nat) : nat :=
  if (Z.of_nat n <? INT_MAX)%Z then n else Z.to_nat INT_MAX.

(** WANT_READ and WANT_WRITE (EAGAIN in the script) are no errors, every other
    error is reported as [io_error]. *)
Definition ssl_result (r : Z * Z) : Z * Z :=
  let '(sz, err) := r in
  if (sz <=? 0)%Z then (if (err =? EAGAIN)%Z then (0, 0) else (-1, EIO))%Z
  else (sz, 0%Z).

Definition ssl_readSome : M sess (Z * Z) :=
  limit <-- gets (fun s => int_limit (currentSize (sharedReadBuffer s))) ;;
  r <-- sys_read limit ;;
  ret (ssl_result r).

Definition ssl_writeSome (b : bytes) : M sess (Z * Z) :=
  r <-- sys_write (take (int_limit (length b)) b) ;;
  when (0 <? r.1)%Z (modify (set_m_can_write_errror false)) >>>
  ret (ssl_result r).

(** The copy loop: the buffers one after the other while there is room. *)
Fixpoint flatten (buffers : list bytes) (room : nat) : bytes :=
  match buffers, room with
  | [], _ | _, O => []
  | b :: bs, _ => let size := Nat.min (length b) room in take size b ++ flatten bs (room - size)
  end.

(** [SessionsEventLoop::sharedWriteBuffer(size)->size()] *)
Definition sharedWriteBuffer_size (s : sess) (size : nat) : nat :=
  if (on_loop_thread s && (size <=? wmem_max s)%nat)%bool then wmem_max s else size.

Definition ssl_writeSomeV (buffers : list bytes) : M sess (Z * Z) :=
  s <-- gets id ;;
  let socket_size := session_socketWriteSize s in
  let flat := flatten buffers (Nat.min (sharedWriteBuffer_size s socket_size) socket_size) in
  match buffers with
  | [b] => ssl_writeSome b
  | b :: _ => if (socket_size <=? length b)%nat then ssl_writeSome b else ssl_writeSome flat
  | [] => ssl_writeSome flat
  end.

(** The loop of [shutdown]: [count] tries. *)
Fixpoint ssl_shutdown_loop (count : nat) : M sess unit :=
  match count with
  | O => skip
  | S count' =>
      r <-- ssl_call ;;
      if (r.1 =? 0)%Z then
        ec <-- yield ;; if (ec =? 0)%Z then ssl_shutdown_loop count' else skip
      else skip
  end.

(** [init_finished] is [SSL_is_init_finished(m_SSL) == 1]. *)
Definition ssl_shutdown (init_finished : bool) : M sess unit :=
  modify (session_setSessionTimeout (sslShutdownTimeout conf)) >>>
  when init_finished (ssl_shutdown_loop 5) >>>
  sys_shutdown.

Definition SslSocketSession (init_finished : bool) : Transport P B := {|
  readSome := ssl_readSome;
  writeSome := ssl_writeSome;
  writeSomeV := ssl_writeSomeV;
  shutdown := ssl_shutdown init_finished;
  secured := true
|}.

(** The handshake loop of the constructor; every round that goes on consumes a
    resumption, which bounds it. *)
Fixpoint ssl_accept_loop (fuel : nat) : M sess unit :=
  match fuel with
  | O => undefined
  | S fuel' =>
      r <-- ssl_call ;;
      if (r.1 =? 1)%Z then skip
      else if ((r.2 =? SSL_ERROR_WANT_READ)%Z || (r.2 =? SSL_ERROR_WANT_WRITE)%Z)%bool then
        yield_or_throw >>> ssl_accept_loop fuel'
      else throw (ex_code EIO)
  end.

(** The part of the constructor after [SSL_set_fd]. *)
Definition ssl_accept (init_finished : bool) : M sess unit :=
  modify (session_setSessionTimeout (sslAcceptTimeout conf)) >>>
  n <-- gets (fun s => length (resumes (env s))) ;;
  ssl_accept_loop (S n) >>>
  if init_finished then skip else throw (ex_code ECONNABORTED).
End SslSocketSession.

(** * Writing *)

Section Writing.
Context {P B : Type} `{T : Transport P B}.
Abbreviation sess := (session P B).

(** A bound on the rounds of a write loop: every round that goes on uses up a
    write of the script or a resumption. *)
Definition write_fuel (s : sess) : nat := S (length (writes (env s)) + length (resumes (env s))).

(** [BasicHttpSession::write(ConstBuffer)] *)
Fixpoint write_loop (fuel : nat) (buffer : bytes) : M sess unit :=
  match fuel, buffer with
  | _, [] => skip
  | O, _ => undefined
  | S fuel', _ =>
      r <-- writeSome buffer ;;
      let '(written, ec) := r in
      if (written =? 0)%Z then yield_or_throw >>> write_loop fuel' buffer
      else if (ec =? 0)%Z then write_loop fuel' (drop (Z.to_nat written) buffer)
      else throw (ex_code ec)
  end.

Definition session_write (buffer : bytes) : M sess unit :=
  fun s => write_loop (write_fuel s) buffer s.

(** The [for] loop over the buffers: what is left of them, when a buffer was not
    written completely, and the value of [written] after the loop. *)
Fixpoint consume (buffers : list bytes) (written : nat) : option (list bytes) * nat :=
  match buffers with
  | [] => (None, written)
  | b :: rest =>
      if (length b <=? written)%nat then consume rest (written - length b)
      else (Some (drop written b :: rest), written)
  end.

(** [BasicHttpSession::write(std::vector<ConstBuffer>)] *)
Fixpoint writev_loop (fuel : nat) (buffers : list bytes) : M sess unit :=
  match fuel with
  | O => undefined
  | S fuel' =>
      r <-- writeSomeV buffers ;;
      let '(written, ec) := r in
      if negb (ec =? 0)%Z then throw (ex_code ec)
      else if (written =? 0)%Z then yield_or_throw >>> writev_loop fuel' buffers
      else
        match consume buffers (Z.to_nat written) with
        | (_, O) => skip
        | (Some rest, _) => writev_loop fuel' rest
        | (None, _) => writev_loop fuel' buffers
        end
  end.

Definition session_writev (buffers : list bytes) : M sess unit :=
  fun s => writev_loop (write_fuel s) buffers s.
End Writing.

(** * What a transport promises about writing *)

Section Laws.
Context {P B : Type}.
Abbreviation sess := (session P B).
Implicit Types s : sess.

(** The outcome of one attempt to write [b]: a prefix was moved, or an error. *)
Definition wrote (b : bytes) s (r : Z * Z) s' : Prop :=
  (exists n, r = (Z.of_nat n, 0%Z) /\ n <= length b /\
     delivered (env s') = delivered (env s) ++ take n b /\
     (0 < n -> exists w, writes (env s) = w :: writes (env s'))) \/
  (exists e, r = ((-1)%Z, Zpos e) /\ delivered (env s') = delivered (env s)).

(** It touches nothing else of the outside or of the services' variables, and uses at
    most one write of the script. *)
Definition writes_only s s' : Prop :=
  (body_state s' = body_state s /\ yield_value (env s') = yield_value (env s)) /\ resumes (env s') = resumes (env s) /\ reads (env s') = reads (env s) /\
  received (env s') = received (env s) /\ sndbuf (env s') = sndbuf (env s) /\
  (writes (env s') = writes (env s) \/ exists w, writes (env s) = w :: writes (env s')).

(** Shutting down sends nothing and ends with a closed socket; the closing handshake of
    TLS may wait for the peer.  A write the peer has room for; one that would block
    (EAGAIN). *)
Definition accepts (w : raw_write) : bool :=
  match w with WriteError _ => false | _ => true end.

Definition blocks (w : raw_write) : bool :=
  match w with WriteError e => (Zpos e =? EAGAIN)%Z | _ => false end.

Class TransportLaws (T : Transport P B) := {
  writeSome_law b s :
    exists r s', writeSome b s = (Done r, s') /\ wrote b s r s' /\ writes_only s s';
  writeSomeV_law bs s :
    exists r s', writeSomeV bs s = (Done r, s') /\ wrote (concat bs) s r s' /\ writes_only s s';
  writeSome_progress b s w ws :
    b <> [] -> writes (env s) = w :: ws -> accepts w = true ->
    exists n s', writeSome b s = (Done (Z.of_nat n, 0%Z), s') /\ 0 < n;
  writeSome_blocked b s w ws :
    writes (env s) = w :: ws -> blocks w = true ->
    exists s', writeSome b s = (Done (0, 0)%Z, s') /\ writes (env s') = ws;
  shutdown_law s :
    exists o s', shutdown s = (o, s') /\ delivered (env s') = delivered (env s) /\
      (o = Done tt /\ closed (env s') = true \/ secured = true /\ o = Suspended)
}.

Lemma sys_write_spec b s :
  exists r s', sys_write b s = (Done r, s') /\ writes_only s s' /\
    ((exists n, r = (Z.of_nat n, 0%Z) /\ n <= length b /\
        delivered (env s') = delivered (env s) ++ take n b /\
        exists w, writes (env s) = w :: writes (env s')) \/
     (exists e, r = ((-1)%Z, Zpos e) /\ delivered (env s') = delivered (env s))).
Proof.
  unfold sys_write. destruct (writes (env s)) as [|w ws] eqn:E; [|destruct w as [n| |e]];
    (eexists _, _; split; [reflexivity|]); unfold writes_only; cbn [env on_env set_env]; simpl;
    (split; [rewrite ?E; eauto 10|]).
  - right. by exists 11%positive.
  - left. eexists. split; [done|]. split; [|by eauto]. destruct (length b); lia.
  - left. eexists. split; [done|]. split; [lia|]. eauto.
  - right. eauto.
Qed.

Lemma wrote_prefix b c s r s' : (exists t, c = b ++ t) -> wrote b s r s' -> wrote c s r s'.
Proof.
  intros [t ->] [(n & -> & Hn & Hd & Hw)|He]; [|by right].
  left. exists n. split; [done|]. rewrite length_app, take_app_le by lia. split; [lia|done].
Qed.

Lemma flatten_take bs n : flatten bs n = take n (concat bs).
Proof.
  revert n; induction bs as [|b bs IH]; intros [|n]; try done. cbn [flatten concat].
  rewrite IH, take_app.
  destruct (Nat.min_spec (length b) (S n)) as [[? ->]|[? ->]].
  - by rewrite !(take_ge b) by lia.
  - by replace (S n - S n) with (S n - length b) by lia.
Qed.

Ltac run_attempt :=
  unfold bind, when, modify, skip, ret;
  match goal with |- context [sys_write ?b ?s] =>
    destruct (sys_write_spec b s) as (r & s1 & -> & Hf & [(n & -> & Hn & Hd & Hw)|(e & -> & Hd)])
  end; cbn -[Z.eqb EAGAIN Z.leb Z.ltb].

Lemma tcp_writeSome_spec b s :
  exists r s', tcp_writeSome b s = (Done r, s') /\ wrote b s r s' /\ writes_only s s'.
Proof.
  unfold tcp_writeSome. run_attempt.
  - rewrite (proj2 (Z.leb_le 0 (Z.of_nat n))), (proj2 (Z.ltb_ge (Z.of_nat n) 0)) by lia.
    eexists _, _. split; [done|]. split; [|done]. left. eauto 6.
  - eexists _, _. split; [done|]. split; [|done].
    destruct (Z.eqb_spec (Zpos e) EAGAIN); [left; exists 0|right; by exists e].
    rewrite app_nil_r. repeat split; [lia|done|lia].
Qed.

Lemma tcp_writeSomeV_spec bs s :
  exists r s', tcp_writeSomeV bs s = (Done r, s') /\ wrote (concat bs) s r s' /\ writes_only s s'.
Proof.
  destruct (decide (IOV_MAX < length bs)) as [Hl|Hl].
  - exists ((-1)%Z, EINVAL), s. unfold tcp_writeSomeV, sys_writev. rewrite decide_True by done.
    split; [done|]. split; [right; by exists 22%positive|]. unfold writes_only. eauto 10.
  - replace (tcp_writeSomeV bs s) with (tcp_writeSome (concat bs) s); [apply tcp_writeSome_spec|].
    unfold tcp_writeSomeV, sys_writev. by rewrite decide_False.
Qed.

Lemma ssl_writeSome_spec b s :
  exists r s', ssl_writeSome b s = (Done r, s') /\ wrote b s r s' /\ writes_only s s'.
Proof.
  set (c := take (int_limit (length b)) b).
  assert (Hc : exists t, b = c ++ t) by (exists (drop (int_limit (length b)) b); unfold c; by rewrite take_drop).
  assert (H : exists r s', ssl_writeSome b s = (Done r, s') /\ wrote c s r s' /\ writes_only s s');
    [|destruct H as (r & s' & ? & ? & ?); eauto 6 using wrote_prefix].
  unfold ssl_writeSome. fold c. run_attempt.
  - destruct (Z.leb_spec (Z.of_nat n) 0) as [Hz|Hz].
    + rewrite (proj2 (Z.ltb_ge 0 (Z.of_nat n))) by lia. eexists _, _. split; [done|]. split; [|done].
      right. exists 5%positive. split; [done|]. rewrite Hd.
      replace n with 0 by lia. by rewrite app_nil_r.
    + rewrite (proj2 (Z.ltb_lt 0 (Z.of_nat n))) by lia. eexists _, _. split; [done|]. split; [|done].
      left. eauto 6.
  - eexists _, _. split; [done|]. split; [|done].
    destruct (Z.eqb_spec (Zpos e) EAGAIN); [left; exists 0|right; by exists 5%positive].
    rewrite app_nil_r. repeat split; [lia|done|lia].
Qed.

Lemma ssl_writeSomeV_spec bs s :
  exists r s', ssl_writeSomeV bs s = (Done r, s') /\ wrote (concat bs) s r s' /\ writes_only s s'.
Proof.
  unfold ssl_writeSomeV. unfold bind at 1, gets at 1, id.
  assert (H : exists c, (exists t, concat bs = c ++ t) /\ forall s0,
    match bs with
    | [b] => ssl_writeSome b
    | b :: _ => if (session_socketWriteSize s <=? length b)%nat then ssl_writeSome b
                else ssl_writeSome (flatten bs (Nat.min (sharedWriteBuffer_size s (session_socketWriteSize s)) (session_socketWriteSize s)))
    | [] => ssl_writeSome (flatten bs (Nat.min (sharedWriteBuffer_size s (session_socketWriteSize s)) (session_socketWriteSize s)))
    end s0 = ssl_writeSome c s0).
  { assert (Hf : forall n, exists t, concat bs = flatten bs n ++ t)
      by (intros n; rewrite flatten_take; exists (drop n (concat bs)); by rewrite take_drop).
    destruct bs as [|b [|b' bs]]; [by eexists; split; [apply Hf|]|exists b; split; [by eexists|done]|].
    destruct (session_socketWriteSize s <=? length b)%nat; eexists; (split; [|reflexivity]); [|apply Hf].
    by eexists. }
  destruct H as (c & Hc & ->).
  destruct (ssl_writeSome_spec c s) as (r & s' & ? & ? & ?). eauto 6 using wrote_prefix.
Qed.

Lemma sys_write_progress b s w ws :
  b <> [] -> writes (env s) = w :: ws -> accepts w = true ->
  exists n s', sys_write b s = (Done (Z.of_nat n, 0%Z), s') /\ 0 < n.
Proof.
  intros Hb Hw Ha. unfold sys_write. rewrite Hw.
  destruct b as [|c b]; [done|]. destruct w; [| |done]; eexists _, _; split; try done; simpl; lia.
Qed.

Lemma sys_write_blocked b s w ws :
  writes (env s) = w :: ws -> blocks w = true ->
  sys_write b s = (Done (-1, EAGAIN)%Z, on_env (set_writes ws) s).
Proof.
  intros Hw Hb. unfold sys_write. rewrite Hw. destruct w as [| |e]; try done.
  unfold blocks in Hb. by apply Z.eqb_eq in Hb as ->.
Qed.

Lemma tcp_writeSome_progress b s w ws :
  b <> [] -> writes (env s) = w :: ws -> accepts w = true ->
  exists n s', tcp_writeSome b s = (Done (Z.of_nat n, 0%Z), s') /\ 0 < n.
Proof.
  intros Hb Hw Ha. unfold tcp_writeSome, bind, when, modify, skip, ret.
  destruct (sys_write_progress b s w ws Hb Hw Ha) as (n & s' & -> & Hn). cbn [fst tcp_result].
  rewrite (proj2 (Z.leb_le 0 (Z.of_nat n))), (proj2 (Z.ltb_ge (Z.of_nat n) 0)) by lia. eauto.
Qed.

Lemma ssl_writeSome_progress b s w ws :
  b <> [] -> writes (env s) = w :: ws -> accepts w = true ->
  exists n s', ssl_writeSome b s = (Done (Z.of_nat n, 0%Z), s') /\ 0 < n.
Proof.
  intros Hb Hw Ha. unfold ssl_writeSome, bind, when, modify, skip, ret.
  assert (Hc : take (int_limit (length b)) b <> []).
  { destruct b as [|c b]; [done|]. unfold int_limit.
    case_match; [done|]. unfold INT_MAX. by destruct (Z.to_nat (2 ^ 31 - 1)) eqn:E; [lia|]. }
  destruct (sys_write_progress _ s w ws Hc Hw Ha) as (n & s' & -> & Hn). cbn [fst ssl_result].
  rewrite (proj2 (Z.ltb_lt 0 (Z.of_nat n))), (proj2 (Z.leb_gt (Z.of_nat n) 0)) by lia. eauto.
Qed.
End Laws.

(** The closing handshake. *)
Lemma ssl_shutdown_loop_quiet {P B} count (s : session P B) :
  exists o s', ssl_shutdown_loop count s = (o, s') /\ delivered (env s') = delivered (env s) /\
    (o = Done tt \/ o = Suspended).
Proof.
  revert s; induction count as [|count IH]; intros s; cbn [ssl_shutdown_loop]; [by eauto 6|].
  unfold bind at 1, ssl_call at 1. destruct (ssl_calls (env s)) as [|[sz err] rest]; cbn [fst];
    [by eauto 6|]. set (s1 := on_env _ s). assert (E1 : delivered (env s1) = delivered (env s)) by done.
  destruct (sz =? 0)%Z; [|by eauto 6]. unfold bind, yield. destruct (resumes (env s1)) as [|r rs]; [by eauto 6|].
  destruct (r_ec r =? 0)%Z; [|by eauto 6].
  destruct (IH (set_sharedReadBuffer (r_buffer r) (on_env (fun k =>
    set_yield_value (r_ec r) (set_clock (r_clock r) (set_resumes rs k))) s1))) as (o & s' & -> & E & Ho). eauto 6.
Qed.

Lemma ssl_shutdown_law {P B} conf fin (s : session P B) :
  exists o s', ssl_shutdown conf fin s = (o, s') /\ delivered (env s') = delivered (env s) /\
    (o = Done tt /\ closed (env s') = true \/ true = true /\ o = Suspended).
Proof.
  unfold ssl_shutdown. unfold bind at 1. unfold modify at 1. set (s1 := session_setSessionTimeout _ s).
  change (delivered (env s)) with (delivered (env s1)). unfold bind. destruct fin; cbn [when]; [|by eauto 8].
  destruct (ssl_shutdown_loop_quiet 5 s1) as (o & s2 & -> & E & [-> | ->]); [|by eauto 8].
  eexists _, _. split; [reflexivity|]. split; [exact E|]. by left.
Qed.

#[export] Instance SocketSession_laws {P B} : TransportLaws (@SocketSession P B).
Proof.
  split; [apply tcp_writeSome_spec|apply tcp_writeSomeV_spec|apply tcp_writeSome_progress| |].
  - intros b s w ws Hw Hb. simpl. unfold tcp_writeSome, bind, when, modify, skip, ret.
    rewrite (sys_write_blocked b s w ws Hw Hb). by eexists.
  - intros s. simpl. eexists _, _. split; [reflexivity|]. split; [done|]. by left.
Qed.

#[export] Instance SslSocketSession_laws {P B} conf fin : TransportLaws (@SslSocketSession P B conf fin).
Proof.
  split; [apply ssl_writeSome_spec|apply ssl_writeSomeV_spec|apply ssl_writeSome_progress| |].
  - intros b s w ws Hw Hb. simpl. unfold ssl_writeSome, bind, when, modify, skip, ret.
    rewrite (sys_write_blocked _ s w ws Hw Hb). by eexists.
  - apply ssl_shutdown_law.
Qed.

(** * The write loops *)

Section WriteLoops.
Context {P B : Type} `{T : Transport P B} `{L : !TransportLaws T}.
Abbreviation sess := (session P B).
Implicit Types s : sess.

Definition rounds s : nat := length (writes (env s)) + length (resumes (env s)).

Lemma writes_only_rounds s s' : writes_only s s' -> rounds s' <= rounds s.
Proof. intros (_ & Hr & _ & _ & _ & Hw). unfold rounds. rewrite Hr. destruct Hw as [->|[w ->]]; simpl; lia. Qed.

Lemma wrote_rounds b s n s' :
  wrote b s (Z.of_nat n, 0%Z) s' -> writes_only s s' -> 0 < n -> rounds s' < rounds s.
Proof.
  intros [(m & [= ->%Nat2Z.inj] & _ & _ & Hw)|(e & [=] & _)] (_ & Hr & _) Hn.
  destruct (Hw Hn) as [w E]. unfold rounds. rewrite Hr, E. simpl. lia.
Qed.

Lemma yield_cases s :
  (resumes (env s) = [] /\ yield_or_throw s = (Suspended, s)) \/
  exists r s', resumes (env s) = r :: resumes (env s') /\ writes (env s') = writes (env s) /\
    delivered (env s') = delivered (env s) /\ reads (env s') = reads (env s) /\
    received (env s') = received (env s) /\
    yield_or_throw s = (if (r_ec r =? 0)%Z then Done tt else Raise (ex_code (r_ec r)), s').
Proof.
  unfold yield_or_throw, yield, bind. destruct (resumes (env s)) as [|r rs] eqn:E; [by left|].
  right. exists r, (set_sharedReadBuffer (r_buffer r)
    (on_env (fun k => set_yield_value (r_ec r) (set_clock (r_clock r) (set_resumes rs k))) s)).
  destruct (r_ec r =? 0)%Z; by repeat split.
Qed.

(** How a write of [b] ends: how much of it the peer got. *)
Definition write_outcome (b : bytes) s (o : outcome unit) s' : Prop :=
  exists k, k <= length b /\ delivered (env s') = delivered (env s) ++ take k b /\
    match o with
    | Done _ => k = length b
    | Raise e => exists ec, e = ex_code ec /\ ec <> 0%Z
    | Suspended => k < length b /\ resumes (env s') = []
    | Undefined => False
    end.

Lemma write_outcome_later b s s1 o s' n :
  delivered (env s1) = delivered (env s) ++ take n b -> n <= length b ->
  write_outcome (drop n b) s1 o s' -> write_outcome b s o s'.
Proof.
  intros Hd Hn (k & Hk & E & Ho). rewrite length_drop in Hk, Ho. exists (n + k).
  split; [lia|]. split.
  - rewrite E, Hd, <- app_assoc. f_equal. by rewrite take_take_drop.
  - destruct o; try done; [lia|]. destruct Ho. split; [lia|done].
Qed.

Lemma write_loop_spec fuel b s :
  rounds s < fuel -> exists o s', write_loop fuel b s = (o, s') /\ write_outcome b s o s'.
Proof.
  revert b s; induction fuel as [|fuel IH]; intros b s Hf; [lia|].
  destruct b as [|c b0]; cbn [write_loop].
  { exists (Done tt), s. split; [done|]. exists 0. rewrite app_nil_r. by repeat split. }
  set (b := c :: b0) in *. unfold bind at 1.
  destruct (writeSome_law b s) as (r & s1 & -> & Hw & Ho).
  pose proof Hw as [(n & -> & Hn & Hd & _)|(e & -> & Hd)]; cbn [fst snd]; cycle 1.
  { eexists _, _. split; [reflexivity|]. exists 0. rewrite app_nil_r. repeat split; [lia|done|eauto]. }
  destruct (Z.eqb_spec (Z.of_nat n) 0) as [Hz|Hz].
  - replace n with 0 in * by lia. rewrite app_nil_r in Hd. unfold bind.
    destruct (yield_cases s1) as [(Er & ->)|(r & s2 & Er & Ew & Ed & _ & _ & ->)].
    + eexists _, _. split; [done|]. exists 0. rewrite app_nil_r. repeat split; [lia|done|simpl; lia|done].
    + destruct (Z.eqb_spec (r_ec r) 0) as [He|He].
      * destruct (IH b s2) as (o & s' & -> & k & Hk & E & Hk').
        { apply writes_only_rounds in Ho. unfold rounds in *. rewrite Ew. rewrite Er in Ho. simpl in Ho. lia. }
        eexists _, _. split; [done|]. exists k. by rewrite E, Ed, Hd.
      * eexists _, _. split; [done|]. exists 0. rewrite app_nil_r, Ed. repeat split; [lia|done|eauto].
  - cbn [Z.eqb]. rewrite Nat2Z.id. destruct (IH (drop n b) s1) as (o & s' & -> & Hout).
    { pose proof (wrote_rounds b s n s1 Hw Ho). lia. }
    eexists _, _. split; [done|]. by eapply write_outcome_later.
Qed.

(** [n] is where one of the buffers ends. *)
Definition boundary (bs : list bytes) (n : nat) : Prop :=
  exists k, n = length (concat (take k bs)).

Lemma consume_spec bs n :
  n <= length (concat bs) ->
  match consume bs n with
  | (None, m) => m = 0 /\ n = length (concat bs)
  | (Some rest, m) =>
      exists pre b rest', bs = pre ++ b :: rest' /\ rest = drop m b :: rest' /\
        m < length b /\ n = length (concat pre) + m
  end.
Proof.
  revert n; induction bs as [|b bs IH]; intros n Hn; simpl in *; [lia|]. rewrite length_app in *.
  destruct (Nat.leb_spec (length b) n) as [Hb|Hb].
  - specialize (IH (n - length b) ltac:(lia)). destruct (consume bs (n - length b)) as [[rest|] m].
    + destruct IH as (pre & b' & rest' & -> & -> & Hm & E). exists (b :: pre), b', rest'.
      simpl. rewrite length_app. repeat split; [done|lia].
    + destruct IH. lia.
  - by exists [], b, bs.
Qed.

Lemma boundary_split (pre : list bytes) (b : bytes) (rest : list bytes) m n :
  m < length b -> 0 < n -> boundary (drop m b :: rest) n ->
  boundary (pre ++ b :: rest) (length (concat pre) + m + n).
Proof.
  intros Hm Hn [[|k] E]; [simpl in E; lia|]. exists (length pre + S k).
  rewrite take_app_add. simpl in *. rewrite concat_app, length_app. simpl.
  rewrite length_app in *. rewrite length_drop in E. lia.
Qed.

Lemma concat_split (pre : list bytes) (b : bytes) (rest : list bytes) m :
  m <= length b ->
  concat (drop m b :: rest) = drop (length (concat pre) + m) (concat (pre ++ b :: rest)).
Proof.
  intros Hm. rewrite concat_app. simpl. rewrite drop_app_add, drop_app_le by done. done.
Qed.

(** How a gathered write ends: the peer has a prefix of the buffers' data, and a
    normal return means that the prefix ends where a buffer ends. *)
Definition writev_outcome (bs : list bytes) s (o : outcome unit) s' : Prop :=
  exists k, k <= length (concat bs) /\
    delivered (env s') = delivered (env s) ++ take k (concat bs) /\
    match o with
    | Done _ => 0 < k /\ boundary bs k
    | Raise e => exists ec, e = ex_code ec /\ ec <> 0%Z
    | Suspended => resumes (env s') = []
    | Undefined => False
    end.

Lemma writev_outcome_later (bs : list bytes) s s1 o s' pre (b : bytes) rest m :
  bs = pre ++ b :: rest -> m < length b ->
  delivered (env s1) = delivered (env s) ++ take (length (concat pre) + m) (concat bs) ->
  writev_outcome (drop m b :: rest) s1 o s' -> writev_outcome bs s o s'.
Proof.
  intros -> Hm Hd (k & Hk & E & Ho). rewrite (concat_split pre) in E, Hk by lia.
  rewrite length_drop in Hk. exists (length (concat pre) + m + k).
  split.
  { rewrite concat_app in *. simpl in *. rewrite !length_app in *. lia. }
  split; [by rewrite E, Hd, <- app_assoc, take_take_drop|].
  destruct o; try done. destruct Ho. split; [lia|]. by apply boundary_split.
Qed.

Lemma writev_loop_spec fuel bs s :
  rounds s < fuel -> exists o s', writev_loop fuel bs s = (o, s') /\ writev_outcome bs s o s'.
Proof.
  revert bs s; induction fuel as [|fuel IH]; intros bs s Hf; [lia|]. cbn [writev_loop].
  unfold bind at 1. destruct (writeSomeV_law bs s) as (r & s1 & -> & Hw & Ho).
  pose proof Hw as [(n & -> & Hn & Hd & _)|(e & -> & Hd)]; cbn [fst snd negb Z.eqb]; cycle 1.
  { eexists _, _. split; [reflexivity|]. exists 0. rewrite app_nil_r. repeat split; [lia|done|eauto]. }
  destruct (Z.eqb_spec (Z.of_nat n) 0) as [Hz|Hz].
  - replace n with 0 in * by lia. rewrite app_nil_r in Hd. unfold bind.
    destruct (yield_cases s1) as [(Er & ->)|(r & s2 & Er & Ew & Ed & _ & _ & ->)].
    + eexists _, _. split; [done|]. exists 0. rewrite app_nil_r. repeat split; [lia|done|done].
    + destruct (Z.eqb_spec (r_ec r) 0) as [He|He].
      * destruct (IH bs s2) as (o & s' & -> & k & Hk & E & Hk').
        { apply writes_only_rounds in Ho. unfold rounds in *. rewrite Ew. rewrite Er in Ho. simpl in Ho. lia. }
        eexists _, _. split; [done|]. exists k. by rewrite E, Ed, Hd.
      * eexists _, _. split; [done|]. exists 0. rewrite app_nil_r, Ed. repeat split; [lia|done|eauto].
  - rewrite Nat2Z.id. assert (Hlt : rounds s1 < rounds s) by (apply (wrote_rounds (concat bs) s n); [done|done|lia]).
    pose proof (consume_spec bs n Hn) as Hc. destruct (consume bs n) as [[rest|] m].
    + destruct Hc as (pre & b & rest' & Ebs & -> & Hm & En). destruct m as [|m].
      * eexists _, _. split; [reflexivity|]. exists n. split; [done|]. split; [done|]. split; [lia|].
        exists (length pre). rewrite Ebs, take_app_length. lia.
      * destruct (IH (drop (S m) b :: rest') s1) as (o & s' & -> & Hout); [lia|].
        eexists _, _. split; [done|]. eapply writev_outcome_later; [done|done| |done]. by rewrite <- En.
    + destruct Hc as [-> En]. eexists _, _. split; [reflexivity|]. exists n. split; [done|].
      split; [done|]. split; [lia|]. exists (length bs). by rewrite firstn_all.
Qed.

(** Writing uses up the script from its front. *)
Definition writes_suffix s s' : Prop := writes (env s') `suffix_of` writes (env s).

#[global] Instance writes_suffix_preorder : PreOrder writes_suffix.
Proof. split; unfold writes_suffix; [by intros s|intros s1 s2 s3 H1 H2; by etransitivity]. Qed.

Lemma writes_only_suffix s s' : writes_only s s' -> writes_suffix s s'.
Proof.
  intros (_ & _ & _ & _ & _ & Hw). unfold writes_suffix.
  destruct Hw as [->|[w ->]]; [done|apply suffix_cons_r; done].
Qed.

Lemma writeSome_suffix b : respects writes_suffix (writeSome b).
Proof. intros s. destruct (writeSome_law b s) as (r & s1 & -> & _ & Ho). by apply writes_only_suffix. Qed.

Lemma writeSomeV_suffix bs : respects writes_suffix (writeSomeV bs).
Proof. intros s. destruct (writeSomeV_law bs s) as (r & s1 & -> & _ & Ho). by apply writes_only_suffix. Qed.

Lemma yield_suffix : respects writes_suffix yield_or_throw.
Proof.
  intros s. unfold writes_suffix.
  destruct (yield_cases s) as [(_ & ->)|(r & s2 & _ & E & _ & _ & _ & ->)]; simpl; [done|by rewrite E].
Qed.

#[local] Hint Resolve writeSome_suffix writeSomeV_suffix yield_suffix : effects.

Lemma write_loop_suffix fuel b : respects writes_suffix (write_loop fuel b).
Proof.
  revert b; induction fuel as [|fuel IH]; intros [|c b]; cbn [write_loop]; respecting.
Qed.

Lemma writev_loop_suffix fuel bs : respects writes_suffix (writev_loop fuel bs).
Proof. revert bs; induction fuel as [|fuel IH]; intros bs; cbn [writev_loop]; respecting. Qed.
End WriteLoops.

(** * The handshake *)

Section Handshake.
Context {P B : Type}.
Abbreviation sess := (session P B).
Implicit Types s : sess.

(** A round that goes on uses up a resumption, so that the loop ends. *)
Lemma ssl_accept_loop_ends fuel s :
  length (resumes (env s)) < fuel -> (ssl_accept_loop fuel s).1 <> Undefined.
Proof.
  revert s; induction fuel as [|fuel IH]; intros s Hf; [lia|]. cbn [ssl_accept_loop].
  assert (Hc : exists r s1, ssl_call s = (Done r, s1) /\ resumes (env s1) = resumes (env s))
    by (unfold ssl_call; destruct (ssl_calls (env s)); by eexists _, _).
  destruct Hc as (r & s1 & Ec & Er). unfold bind at 1. rewrite Ec.
  destruct (r.1 =? 1)%Z; [done|]. destruct (_ || _)%bool; [|done].
  unfold bind at 1, yield_or_throw, bind, yield. rewrite Er.
  destruct (resumes (env s)) as [|x rs]; [done|]. destruct (r_ec x =? 0)%Z; [|done].
  apply IH. simpl in *. lia.
Qed.

(** The constructor of [SslSocketSession] returns only with a finished handshake,
    throws, or stays suspended. *)
Lemma ssl_accept_ends conf fin s :
  (ssl_accept conf fin s).1 <> Undefined /\ ((ssl_accept conf fin s).1 = Done tt -> fin = true).
Proof.
  unfold ssl_accept, bind, modify, gets. set (s0 := session_setSessionTimeout _ s).
  pose proof (ssl_accept_loop_ends (S (length (resumes (env s0)))) s0 ltac:(lia)) as He.
  destruct (ssl_accept_loop _ s0) as [[u|e| |] s1]; [by destruct fin|done..].
Qed.
End Handshake.

(** * Sockets without short writes *)

Section Whole.
Context {P B : Type}.
Abbreviation sess := (session P B).
Implicit Types s : sess.

(** Every write that succeeds takes all it is offered. *)
Definition whole s : Prop := Forall (fun w => forall n, w <> Accept n) (writes (env s)).

Lemma whole_suffix s s' : writes_suffix s s' -> whole s -> whole s'.
Proof. unfold whole. intros [k E] H. rewrite E in H. by apply Forall_app in H as [_ ?]. Qed.

Lemma tcp_whole bs s n s' :
  whole s -> tcp_writeSomeV bs s = (Done (Z.of_nat n, 0%Z), s') -> 0 < n -> n = length (concat bs).
Proof.
  intros Hw Hr Hn. unfold tcp_writeSomeV, sys_writev in Hr. inv_done.
  case_decide; inv_done. unfold whole in Hw.
  match goal with Hs : sys_write _ _ = _ |- _ => unfold sys_write in Hs end.
  destruct (writes (env s)) as [|[m| |e] ws]; simplify_eq; cbn [tcp_result Z.ltb Z.compare] in *.
  - case_match; simplify_eq; lia.
  - apply Forall_cons in Hw as [Hw _]. by destruct (Hw m).
  - rewrite (proj2 (Z.ltb_ge (Z.of_nat (length (concat bs))) 0)) in * by lia. simplify_eq. lia.
  - case_match; simplify_eq; lia.
Qed.

#[local] Existing Instance SocketSession.

Lemma tcp_writev_loop_whole fuel bs s s' :
  whole s -> writev_loop fuel bs s = (Done tt, s') ->
  delivered (env s') = delivered (env s) ++ concat bs.
Proof.
  revert bs s; induction fuel as [|fuel IH]; intros bs s Hw Hr; cbn [writev_loop] in Hr; [done|].
  unfold bind at 1 in Hr. destruct (writeSomeV_law bs s) as (r & s1 & E1 & Hwr & Ho).
  rewrite E1 in Hr. pose proof Hwr as [(n & -> & Hn & Hd & _)|(e & -> & Hd)]; cbn [fst snd negb Z.eqb] in Hr; [|done].
  assert (Hw1 : whole s1) by (eapply whole_suffix; [by eapply writes_only_suffix|done]).
  destruct (Z.eqb_spec (Z.of_nat n) 0) as [Hz|Hz].
  - replace n with 0 in * by lia. rewrite app_nil_r in Hd. unfold bind in Hr.
    destruct (yield_cases s1) as [(_ & Ey)|(r & s2 & _ & Ew & Ed & _ & _ & Ey)]; rewrite Ey in Hr; [done|].
    destruct (Z.eqb_spec (r_ec r) 0) as [He|He]; [|done].
    apply IH in Hr; [by rewrite Hr, Ed, Hd|]. unfold whole. by rewrite Ew.
  - assert (En : n = length (concat bs)) by (apply (tcp_whole bs s n s1); [done|exact E1|lia]).
    rewrite Nat2Z.id in Hr. pose proof (consume_spec bs n Hn) as Hc.
    destruct (consume bs n) as [[rest|] m].
    + destruct Hc as (pre & b & rest' & -> & -> & Hm & En'). exfalso.
      rewrite concat_app in En. simpl in En. rewrite !length_app in En. lia.
    + destruct Hc as [-> _]. unfold skip, ret in Hr. simplify_eq. by rewrite Hd, firstn_all.
Qed.
End Whole.

(** * Progress *)

Section Progress.
Context {P B : Type} `{T : Transport P B} `{L : !TransportLaws T}.
Implicit Types s : session P B.

(** The number of writes of the script that [f] selects. *)
Definition count (f : raw_write -> bool) s : nat := length (List.filter f (writes (env s))).

(** The peer keeps reading and the event loop keeps resuming: no write fails,
    every write that would block is followed by a resumption, and there are
    enough accepting writes for [k] bytes, each taking at least one. *)
Definition forthcoming (k : nat) s : Prop :=
  Forall (fun w => accepts w = true \/ blocks w = true) (writes (env s)) /\
  Forall (fun r => r_ec r = 0%Z) (resumes (env s)) /\
  count blocks s <= length (resumes (env s)) /\ k <= count accepts s.

Lemma write_loop_progress fuel b s :
  rounds s < fuel -> forthcoming (length b) s -> exists s', write_loop fuel b s = (Done tt, s').
Proof.
  revert b s; induction fuel as [|fuel IH]; intros b s Hf Hs; [lia|].
  destruct b as [|c b0]; cbn [write_loop]; [by eexists|]. set (b := c :: b0) in *.
  destruct Hs as (Hok & Hre & Hbl & Hac). unfold count, rounds in *.
  destruct (writes (env s)) as [|w ws] eqn:Ew; [simpl in Hac; lia|].
  apply Forall_cons in Hok as [Hw Hok]. unfold bind at 1.
  destruct (writeSome_law b s) as (r & s1 & E1 & Hwr & Ho).
  assert (Hre1 : resumes (env s1) = resumes (env s)) by apply Ho.
  destruct (accepts w) eqn:Ea.
  - destruct (writeSome_progress b s w ws ltac:(done) Ew Ea) as (n & s1' & E2 & Hn).
    rewrite E1 in E2. simplify_eq. rewrite E1.
    destruct Hwr as [(n' & [= Hnn%Nat2Z.inj] & Hle & _ & Hws)|(e & [=] & _)]. subst n'.
    destruct (Hws Hn) as [w' Ew']. rewrite Ew in Ew'. injection Ew' as <- ->.
    rewrite (proj2 (Z.eqb_neq (Z.of_nat n) 0)) by lia. cbn [Z.eqb]. rewrite Nat2Z.id.
    apply IH; unfold rounds, forthcoming, count; rewrite Hre1; [simpl in Hf; lia|].
    rewrite length_drop. simpl in Hbl, Hac. rewrite Ea in Hac. simpl in Hac.
    repeat split; [done|done|destruct (blocks w); simpl in Hbl; lia|change (length b) with (S (length b0)); lia].
  - assert (Eb : blocks w = true) by naive_solver.
    destruct (writeSome_blocked b s w ws Ew Eb) as (s1' & E2 & Ew1).
    rewrite E1 in E2. simplify_eq. rewrite E1. cbn [Z.eqb]. unfold bind.
    simpl in Hbl, Hac. rewrite Eb in Hbl. rewrite Ea in Hac. simpl in Hbl.
    destruct (yield_cases s1') as [(Er & _)|(r & s2 & Er & Ews & _ & _ & _ & ->)];
      rewrite Hre1 in Er; rewrite Er in *; [simpl in Hbl; lia|].
    apply Forall_cons in Hre as [Hr0 Hre]. rewrite Hr0, Z.eqb_refl.
    apply IH; unfold rounds, forthcoming, count; rewrite Ews; simpl in *; [lia|].
    repeat split; [done|done|lia|done].
Qed.
End Progress.

(** * TLS records

    The server enables partial writes, so one [SSL_write] moves one record: at
    most [R] bytes. *)

Section SslWrites.
Context {P B : Type}.
Implicit Types s : session P B.

(** The state after a record of [c]'s bytes was moved. *)
Definition moved_record (c : bytes) (ws : list raw_write) s : session P B :=
  set_m_can_write_errror false (on_env (fun k => set_delivered (delivered k ++ c) (set_writes ws k)) s).

Lemma ssl_writeSome_record R b ws s :
  0 < R <= length b -> (Z.of_nat (length b) < INT_MAX)%Z -> writes (env s) = Accept (R - 1) :: ws ->
  ssl_writeSome b s = (Done (Z.of_nat R, 0%Z), moved_record (take R b) ws s).
Proof.
  intros HR Hl Hw. unfold ssl_writeSome, int_limit, bind, sys_write.
  rewrite (proj2 (Z.ltb_lt _ _) Hl), firstn_all, Hw. unfold when, modify, ret.
  replace (S (R - 1) `min` length b) with R by lia. cbn [fst ssl_result].
  by rewrite (proj2 (Z.ltb_lt 0 (Z.of_nat R))), (proj2 (Z.leb_gt (Z.of_nat R) 0)) by lia.
Qed.

Lemma sharedWriteBuffer_ge s size : size <= sharedWriteBuffer_size s size.
Proof.
  unfold sharedWriteBuffer_size. destruct (on_loop_thread s); simpl; [|done].
  destruct (Nat.leb_spec size (wmem_max s)); lia.
Qed.

(** A gathered write with at least a record's worth of data moves one record. *)
Lemma ssl_writeSomeV_record R b b' rest ws s :
  let c := concat (b :: b' :: rest) in
  0 < R <= session_socketWriteSize s -> R <= length c -> (Z.of_nat (length c) < INT_MAX)%Z ->
  writes (env s) = Accept (R - 1) :: ws ->
  ssl_writeSomeV (b :: b' :: rest) s = (Done (Z.of_nat R, 0%Z), moved_record (take R c) ws s).
Proof.
  intros c HR Hc Hmax Hw. set (k := session_socketWriteSize s) in *.
  unfold ssl_writeSomeV, bind at 1, gets, id. fold k.
  destruct (Nat.leb_spec k (length b)) as [Hk|Hk].
  - rewrite (ssl_writeSome_record R b ws s); [|lia| |done].
    + unfold c. simpl. by rewrite take_app_le by lia.
    + unfold c in Hmax. simpl in Hmax. rewrite length_app in Hmax. lia.
  - rewrite flatten_take, Nat.min_r by apply sharedWriteBuffer_ge. fold c.
    rewrite (ssl_writeSome_record R (take k c) ws s); [|rewrite length_take; lia|rewrite length_take; lia|done].
    by rewrite take_take, Nat.min_l by lia.
Qed.

Lemma take_mid (h p t : bytes) n : length h <= n <= length h + length p ->
  take n (h ++ p ++ t) = h ++ take (n - length h) p.
Proof. intros Hn. rewrite take_app, (take_ge h), take_app_le by lia. done. Qed.
End SslWrites.

Section SslChunk.
Context {P B : Type} (conf : timeouts) (fin : bool).
Implicit Types s : session P B.
#[local] Existing Instance SslSocketSession.

(** One round of the gathered write. *)
Lemma ssl_round R b b' rest ws s fuel :
  0 < R <= session_socketWriteSize s -> R <= length (concat (b :: b' :: rest)) ->
  (Z.of_nat (length (concat (b :: b' :: rest))) < INT_MAX)%Z ->
  writes (env s) = Accept (R - 1) :: ws ->
  writev_loop (T := SslSocketSession conf fin) (S fuel) (b :: b' :: rest) s =
  match consume (b :: b' :: rest) R with
  | (_, O) => skip
  | (Some rest, _) => writev_loop (T := SslSocketSession conf fin) fuel rest
  | (None, _) => writev_loop (T := SslSocketSession conf fin) fuel (b :: b' :: rest)
  end (moved_record (take R (concat (b :: b' :: rest))) ws s).
Proof.
  intros HR Hc Hmax Hw. cbn [writev_loop]. simpl writeSomeV. unfold bind at 1.
  rewrite (ssl_writeSomeV_record R b b' rest ws s HR Hc Hmax Hw). cbn [negb Z.eqb].
  by rewrite (proj2 (Z.eqb_neq (Z.of_nat R) 0)), Nat2Z.id by lia.
Qed.

(** The rest of a chunk's data, a whole number of records: the last record ends
    where the data ends. *)
Lemma ssl_tail R m x ws s fuel :
  0 < R <= session_socketWriteSize s -> 0 < m -> length x = m * R ->
  (Z.of_nat (length x + 2) < INT_MAX)%Z ->
  writes (env s) = replicate m (Accept (R - 1)) ++ ws -> m < S fuel ->
  exists s', writev_loop (T := SslSocketSession conf fin) fuel [x; CRLF] s = (Done tt, s') /\
    delivered (env s') = delivered (env s) ++ x /\ writes (env s') = ws.
Proof.
  revert x s fuel; induction m as [|m IH]; intros x s fuel HR Hm Hx Hmax Hw Hf; [lia|].
  destruct fuel as [|fuel]; [lia|]. simpl in Hw.
  rewrite (ssl_round R x CRLF [] _ s fuel HR) by (done || (simpl; rewrite !length_app; simpl in *; lia)).
  cbn [consume concat app]. rewrite app_nil_r.
  assert (Ht : take R (x ++ CRLF) = take R x) by (rewrite take_app_le; [done|simpl in Hx; lia]).
  rewrite Ht. destruct m as [|m].
  - rewrite (proj2 (Nat.leb_le (length x) R)) by lia. replace (R - length x) with 0 by lia. simpl.
    eexists. split; [reflexivity|]. simpl. by rewrite (take_ge x) by lia.
  - rewrite (proj2 (Nat.leb_gt (length x) R)) by (simpl in Hx; lia).
    destruct R as [|r] eqn:ER; [lia|]. rewrite <- ER in *.
    destruct (IH (drop R x) (moved_record (take R x) (replicate (S m) (Accept (R - 1)) ++ ws) s) fuel)
      as (s' & E & Hd & Hw'); [done|lia|rewrite length_drop; simpl in *; lia|rewrite length_drop; lia|done|lia|].
    exists s'. split; [exact E|]. split; [|done]. rewrite Hd. simpl. rewrite <- app_assoc. f_equal.
    apply take_drop.
Qed.
End SslChunk.

(** A connection on which [w] and [r] happen, for the examples. *)
Definition sample_session (w : list raw_write) (r : list resumption) : session unit unit := {|
  m_keepAlive := 0; m_sessionTimeout := 0; m_sessionTimeoutTimePoint := 0; m_parser := tt;
  m_can_write_errror := false; m_httpParserBuffer := empty; sharedReadBuffer := make 16;
  m_peerAddress := []; wmem_max := 64; on_loop_thread := true; body_state := tt; served := 0;
  env := {| yield_value := 0; clock := 1000; sndbuf := 8; rcvbuf := 8; sockopt_buffer := fun z => if (z <? 0)%Z then None else Some (2 * Z.to_nat z); reads := []; writes := w;
            resumes := r; ssl_calls := []; received := []; delivered := []; closed := false |} |}.

(** * Properties *)

(** C3. [BasicHttpSession::write] over either transport, whatever the socket
    does: the peer always has a prefix of the buffer, each byte once and in
    order; a normal return means it has all of it; an exception carries a
    non-zero error code; and the session only waits while the event loop does
    not resume it.  In particular the loop always ends. *)
Theorem write_delivers {P B} `{T : Transport P B} `{L : !TransportLaws T} b (s : session P B) :
  write_outcome b s (session_write b s).1 (session_write b s).2.
Proof.
  destruct (write_loop_spec (write_fuel s) b s) as (o & s' & E & H); [unfold rounds, write_fuel; lia|].
  unfold session_write. by rewrite E.
Qed.

Lemma write_delivers_witness :
  let s := sample_session [Accept 1; WriteError 11; AcceptAll] [Resume 0 5 empty] in
  exists s', @session_write _ _ SocketSession (str "hello") s = (Done tt, s') /\
    delivered (env s') = str "hello".
Proof.
  intros s. exists (@session_write _ _ SocketSession (str "hello") s).2.
  assert (Eo : (@session_write _ _ SocketSession (str "hello") s).1 = Done tt)
    by (vm_compute; reflexivity).
  split; [rewrite <- Eo; by destruct (session_write _ s)|].
  destruct (@write_delivers unit unit SocketSession _ (str "hello") s) as (k & _ & E & Hk).
  rewrite Eo in Hk. rewrite E, Hk. vm_compute. reflexivity.
Defined.

(** C35. A write completes when the peer keeps reading: with no failing write, a
    resumption for every write that would block, and one accepting write per
    byte, the call returns normally and the peer has exactly the buffer. *)
Theorem write_completes {P B} `{T : Transport P B} `{L : !TransportLaws T} b (s : session P B) :
  forthcoming (length b) s ->
  exists s', session_write b s = (Done tt, s') /\ delivered (env s') = delivered (env s) ++ b.
Proof.
  intros Hs. destruct (write_loop_progress (write_fuel s) b s) as [s' E];
    [unfold rounds, write_fuel; lia|done|].
  destruct (write_loop_spec (write_fuel s) b s) as (o & s2 & E2 & k & _ & Hd & Hk);
    [unfold rounds, write_fuel; lia|].
  rewrite E in E2. simplify_eq. exists s2. split; [exact E|]. by rewrite Hd, firstn_all.
Qed.

Lemma write_completes_witness :
  exists s', @session_write _ _ (SslSocketSession (Build_timeouts 1 1 1 1) true) (str "abc")
    (sample_session [Accept 0; WriteError 11; Accept 0; AcceptAll] [Resume 0 5 empty]) = (Done tt, s') /\
    delivered (env s') = str "abc".
Proof.
  apply (@write_completes unit unit (SslSocketSession (Build_timeouts 1 1 1 1) true) _ (str "abc")).
  split; [|split; [|split]]; simpl; [|by apply Forall_singleton|decided|decided].
  repeat (apply Forall_cons; split; [by (left + right)|]). by apply Forall_nil.
Defined.

(** C34. The gathered [write] over either transport: the peer has a prefix of the
    concatenated buffers, in order; when the call returns normally the prefix is
    not empty and ends where one of the buffers ends (not necessarily the last
    one); exceptions carry an error code; the loop always ends. *)
Theorem writev_delivers {P B} `{T : Transport P B} `{L : !TransportLaws T} bs (s : session P B) :
  writev_outcome bs s (session_writev bs s).1 (session_writev bs s).2.
Proof.
  destruct (writev_loop_spec (write_fuel s) bs s) as (o & s' & E & H); [unfold rounds, write_fuel; lia|].
  unfold session_writev. by rewrite E.
Qed.

Lemma writev_delivers_witness :
  exists k, boundary [str "ab"; str "cd"] k /\
    delivered (env (@session_writev _ _ SocketSession [str "ab"; str "cd"]
                      (sample_session [Accept 2; AcceptAll] [])).2) =
    take k (str "abcd").
Proof.
  destruct (@writev_delivers unit unit SocketSession _ [str "ab"; str "cd"]
              (sample_session [Accept 2; AcceptAll] [])) as (k & _ & E & Hk).
  exists k. split; [exact (proj2 Hk)|exact E].
Defined.

(** The gathered [write] drops data: when a short write of a plain socket ends
    exactly at the end of a buffer, the call returns normally with the remaining
    buffers never sent, because [written] is zero after the loop over the
    buffers and is taken for "everything written". *)
Theorem writev_drops_tail {P B} (pre : list bytes) b rest ws (s : session P B) :
  concat pre <> [] -> b <> [] -> length (pre ++ b :: rest) <= IOV_MAX ->
  writes (env s) = Accept (length (concat pre) - 1) :: ws ->
  exists s', @session_writev _ _ SocketSession (pre ++ b :: rest) s = (Done tt, s') /\
    delivered (env s') = delivered (env s) ++ concat pre /\ writes (env s') = ws.
Proof.
  intros Hp Hb Hl Hw. set (n := length (concat pre)) in *.
  assert (Hn : 0 < n) by (unfold n; destruct (concat pre); simpl; [done|lia]).
  set (bs := pre ++ b :: rest) in *.
  assert (Hbs : concat bs = concat pre ++ b ++ concat rest) by (unfold bs; by rewrite concat_app).
  assert (Hc : consume bs n = (Some (b :: rest), 0)).
  { unfold bs, n. clear -Hb. induction pre as [|p pre IH]; simpl.
    - by destruct b.
    - rewrite length_app, (proj2 (Nat.leb_le _ _)) by lia.
      by replace (length p + length (concat pre) - length p) with (length (concat pre)) by lia. }
  unfold session_writev, write_fuel. cbn [writev_loop]. simpl writeSomeV.
  unfold tcp_writeSomeV, sys_writev. rewrite decide_False by lia.
  unfold bind, sys_write. rewrite Hw. replace (S (n - 1) `min` length (concat bs)) with n
    by (rewrite Hbs, length_app; lia).
  cbn [fst tcp_result]. unfold when, modify, ret.
  rewrite (proj2 (Z.leb_le 0 (Z.of_nat n))), (proj2 (Z.ltb_ge (Z.of_nat n) 0)) by lia.
  cbn [negb Z.eqb]. rewrite (proj2 (Z.eqb_neq (Z.of_nat n) 0)), Nat2Z.id, Hc by lia.
  eexists. split; [reflexivity|]. simpl. rewrite Hbs. unfold n. by rewrite take_app_length.
Qed.

Lemma writev_drops_tail_witness :
  exists s', @session_writev _ _ SocketSession [str "2"; CRLF; str "hi"; CRLF]
               (sample_session [Accept 2; AcceptAll] []) = (Done tt, s') /\
    delivered (env s') = str "2" ++ CRLF.
Proof.
  destruct (@writev_drops_tail unit unit [str "2"; CRLF] (str "hi") [CRLF] [AcceptAll]
    (sample_session [Accept 2; AcceptAll] []) ltac:(discriminate) ltac:(discriminate)
    ltac:(decided) eq_refl) as (s' & E & Hd & _).
  by exists s'.
Defined.

(** Chunks over TLS lose their terminating CR LF: when the size line and the
    data of a chunk together fill a whole number of TLS records (of [R] bytes,
    16384 for full records), a record ends exactly where the data ends, and the
    gathered [write] returns without sending the CR LF.  The next chunk's size
    line then follows the data directly and the peer cannot decode the stream
    any more. *)
Theorem ssl_chunk_loses_crlf {P B} conf fin R m (h p : bytes) ws (s : session P B) :
  0 < R <= session_socketWriteSize s -> length h < R -> 0 < m -> length h + length p = m * R ->
  (Z.of_nat (length h + length p + 2) < INT_MAX)%Z ->
  writes (env s) = replicate m (Accept (R - 1)) ++ ws ->
  exists s', @session_writev _ _ (SslSocketSession conf fin) [h; p; CRLF] s = (Done tt, s') /\
    delivered (env s') = delivered (env s) ++ h ++ p /\ writes (env s') = ws.
Proof.
  intros HR Hh Hm Hlen Hmax Hw.
  destruct m as [|m]; [lia|]. set (fuel := S (length (writes (env s)) + length (resumes (env s)))).
  assert (Hf : S m < fuel) by (unfold fuel; rewrite Hw, length_app, length_replicate; lia).
  unfold session_writev, write_fuel. fold fuel. destruct fuel as [|fuel]; [lia|]. simpl in Hw.
  rewrite (ssl_round conf fin R h p [CRLF] _ s fuel HR) by (done || (simpl; rewrite !length_app; simpl in *; lia)).
  cbn [consume]. rewrite (proj2 (Nat.leb_le (length h) R)) by lia.
  destruct m as [|m].
  - rewrite (proj2 (Nat.leb_le (length p) (R - length h))) by lia.
    replace (R - length h - length p) with 0 by lia. simpl.
    eexists. split; [reflexivity|]. simpl. split; [|done].
    rewrite take_mid by lia. by rewrite (take_ge p) by lia.
  - rewrite (proj2 (Nat.leb_gt (length p) (R - length h))) by (simpl in Hlen; lia).
    destruct (R - length h) as [|r] eqn:Er; [lia|]. rewrite <- Er.
    match goal with |- context [writev_loop fuel _ ?x] => set (s1 := x) end.
    destruct (ssl_tail conf fin R (S m) (drop (R - length h) p) ws s1 fuel) as (s' & E & Hd & Hw');
      [done|lia|rewrite length_drop; simpl in *; lia|rewrite length_drop; lia|done|lia|].
    exists s'. split; [exact E|]. split; [|done]. rewrite Hd. simpl.
    rewrite take_mid by (simpl in Hlen; lia). rewrite <- !app_assoc. do 2 f_equal. apply take_drop.
Qed.

Lemma ssl_chunk_loses_crlf_witness :
  exists s', @session_writev _ _ (SslSocketSession (Build_timeouts 1 1 1 1) true)
      [str "5" ++ CRLF; str "hello"; CRLF] (sample_session [Accept 3; Accept 3] []) = (Done tt, s') /\
    delivered (env s') = str "5" ++ CRLF ++ str "hello".
Proof.
  destruct (@ssl_chunk_loses_crlf unit unit (Build_timeouts 1 1 1 1) true 4 2 (str "5" ++ CRLF) (str "hello")
    [] (sample_session [Accept 3; Accept 3] [])) as (s' & E & Hd & _);
    [decided ..|reflexivity|]. exists s'. split; [exact E|exact Hd].
Defined.
