(* ===== verification/Session.v ===== *)
(** The life of a connection: reading requests with the HTTP parser, running the
    service that handles them, answering errors ([BasicHttpSession] of
    src/server/streams.cpp).

    The HTTP parser is the http_parser library: a parameter [HttpParser], given
    by the callbacks one call of [http_parser_execute] makes.  The server that
    finds the service of a request is a parameter of the loop as well. *)

From Stdlib Require Import Ascii String NArith ZArith Lia.
From stdpp Require Import base gmap strings list.
From S2P Require Import Prelude CharBuffer Http Effects Stream Transport.
Local Open Scope getodac_scope.

(** * The parser *)

(** The callbacks of [http_parser_settings]; [on_url] comes with the method the
    parser has recognised, [on_headers_complete] with
    [http_should_keep_alive]. *)
Inductive event : Type :=
| on_message_begin
| on_url (at_ method : bytes)
| on_header_field (at_ : bytes)
| on_header_value (at_ : bytes)
| on_headers_complete (should_keep_alive : bool)
| on_body (at_ : bytes)
| on_message_complete.

Record execution (P : Type) := Execution {
  events : list event;
  parsed_bytes : nat;
  http_errno : Z;
  next_parser : P
}.
Arguments Execution {P} _ _ _ _.
Arguments events {P} _.
Arguments parsed_bytes {P} _.
Arguments http_errno {P} _.
Arguments next_parser {P} _.

Class HttpParser (P : Type) := {
  http_parser_init : P;
  http_parser_execute : P -> bytes -> execution P
}.

(** * Callbacks *)

Record http_parser_data (B : Type) := Data { req : Request B; header_field : bytes }.
Arguments Data {B} _ _.
Arguments req {B} _.
Arguments header_field {B} _.

Section Callbacks.
Context {B : Type}.
Implicit Type d : http_parser_data B.

Definition messageBegin d : http_parser_data B :=
  Data (setState ProcessingUrl (req d)) (header_field d).

Definition url (at_ method : bytes) d : http_parser_data B :=
  Data (setState ProcessingHeader (setMethod method (setUrl at_ (req d)))) (header_field d).

Definition headerField (at_ : bytes) d : http_parser_data B := Data (req d) at_.

(** [data->req[std::move(data->header_field)] = value]: the key is moved from,
    and left empty, only when it is inserted. *)
Definition headerValue (at_ : bytes) d : http_parser_data B :=
  Data (req_setField (header_field d) at_ (req d))
    (match req_fields (req d) !! header_field d with Some _ => header_field d | None => [] end).

Definition headersComplete (should_keep_alive : bool) d : http_parser_data B :=
  Data (req_setKeepAlive should_keep_alive (setState HeadersCompleted (req d))) (header_field d).

(** May throw. *)
Definition body (at_ : bytes) d (b : B) : result exn B := appendBody at_ (req d) b.

Definition messageComplete d : http_parser_data B :=
  Data (setState Completed (req d)) (header_field d).

Definition callback (e : event) (db : http_parser_data B * B) : result exn (http_parser_data B * B) :=
  let '(d, b) := db in
  match e with
  | on_message_begin => Ok (messageBegin d, b)
  | on_url a m => Ok (url a m d, b)
  | on_header_field a => Ok (headerField a d, b)
  | on_header_value a => Ok (headerValue a d, b)
  | on_headers_complete k => Ok (headersComplete k d, b)
  | on_body a => let* b' := body a d b in Ok (d, b')
  | on_message_complete => Ok (messageComplete d, b)
  end.

Fixpoint callbacks (es : list event) (db : http_parser_data B * B)
    : result exn (http_parser_data B * B) :=
  match es with
  | [] => Ok db
  | e :: es' => let* db' := callback e db in callbacks es' db'
  end.

(** The state the body callbacks have reached when one of the callbacks throws. *)
Fixpoint body_reached (es : list event) (db : http_parser_data B * B) : B :=
  match es with
  | [] => db.2
  | e :: es' => match callback e db with Ok db' => body_reached es' db' | Throw _ => db.2 end
  end.

Definition is_completed (r : Request B) : bool :=
  match m_state r with Completed => true | _ => false end.

Definition headers_done (r : Request B) : bool :=
  match m_state r with HeadersCompleted | Completed => true | _ => false end.
End Callbacks.

(** * Reading *)

(** A [std::string_view] made of a [char] pointer: the bytes up to the terminating zero; none
    in the block is a read past its end. *)
Fixpoint c_string (l : bytes) : option bytes :=
  match l with
  | [] => None
  | c :: l' => if decide (c = Ascii.zero) then Some [] else cons c <$> c_string l'
  end.

Definition c_str (b : Buffer) : option bytes :=
  match m_current b, m_buffer b with
  | At o, Some d => c_string (drop o d)
  | _, _ => None
  end.

Section Reading.
Context {P B : Type} `{H : HttpParser P} `{T : Transport P B}.
Abbreviation sess := (session P B).

(** Runs the parser on [b]; its callbacks change the request in [d]. *)
Definition execute (d : http_parser_data B) (b : bytes) : M sess (http_parser_data B * nat * Z) :=
  fun s =>
    let x := http_parser_execute (m_parser s) b in
    let s1 := set_m_parser (next_parser x) s in
    match callbacks (events x) (d, body_state s) with
    | Ok (d', b') => (Done (d', parsed_bytes x, http_errno x), set_body_state b' s1)
    | Throw e => (Raise e, set_body_state (body_reached (events x) (d, body_state s)) s1)
    end.

(** A buffer operation on [m_eventLoop->sharedReadBuffer]; [None] is an access
    outside the buffer. *)
Definition shared (f : Buffer -> option Buffer) : M sess unit := fun s =>
  match f (sharedReadBuffer s) with
  | Some b => (Done tt, set_sharedReadBuffer b s)
  | None => (Undefined, s)
  end.

Definition sharedReset : M sess unit := shared (fun b => Some (reset b)).

(** [buffer *= data], given as what reading the source yields. *)
Definition shared_append (data : option bytes) : M sess unit :=
  match data with
  | None => undefined
  | Some b => shared (mul_assign b)
  end.

(** [if (buffer.currentSize()) m_httpParserBuffer = buffer.currentString();
    else m_httpParserBuffer.clear();] *)
Definition keep_rest : M sess unit := fun s =>
  let rest :=
    if (currentSize (sharedReadBuffer s) =? 0)%nat then Some (clear (m_httpParserBuffer s))
    else currentString (sharedReadBuffer s) ≫= fun b => assign b (m_httpParserBuffer s) in
  match rest with
  | Some b => (Done tt, set_m_httpParserBuffer b s)
  | None => (Undefined, s)
  end.

(** Every round of a reading loop that goes on uses up input or a resumption. *)
Definition input (r : raw_read) : nat := match r with Arrived b => S (length b) | ReadError _ => 1 end.

Definition input_left (s : sess) : nat := sum_list (input <$> reads (env s)).

Definition read_fuel (s : sess) : nat := S (input_left s + length (resumes (env s))).

(** The inner loop of [readHeaders]: one line at a time.  A round consumes at
    least one byte of the buffer. *)
Fixpoint headers_lines (fuel : nat) (d : http_parser_data B) : M sess (http_parser_data B) :=
  match fuel with
  | O => undefined
  | S fuel' =>
      buffer <-- gets sharedReadBuffer ;;
      if (headers_done (req d) || (currentSize buffer =? 0)%nat)%bool then ret d
      else
        match currentString buffer with
        | None => undefined
        | Some cur =>
            let next := match find_sub cur CRLF with
                        | None => currentSize buffer
                        | Some i => i + 2
                        end in
            r <-- execute d (take next cur) ;;
            let '(d', parsed_bytes, http_errno) := r in
            if negb (http_errno =? 0)%Z then throw (ex_code EBADMSG)
            else
              shared (fun b => Some (advance next b)) >>>
              if (next =? parsed_bytes)%nat then headers_lines fuel' d' else ret d'
        end
  end.

(** The rest of a round of [readHeaders], after an attempt to read; [again] is the
    next round. *)
Definition headers_received (again : http_parser_data B -> M sess (http_parser_data B))
    (d : http_parser_data B) (temp_size : nat) (sz ec : Z) : M sess (http_parser_data B) :=
  if negb (ec =? 0)%Z then throw (ex_code ec)
  else if (sz =? 0)%Z then yield_or_throw >>> again d
  else
    modify (set_m_can_write_errror true) >>>
    sharedReset >>>
    shared (fun b => Some (setCurrentSize (Z.to_nat sz + temp_size) b)) >>>
    n <-- gets (fun s => currentSize (sharedReadBuffer s)) ;;
    d' <-- headers_lines (S n) d ;;
    keep_rest >>>
    again d'.

Fixpoint readHeaders_loop (fuel : nat) (d : http_parser_data B) : M sess (http_parser_data B) :=
  match fuel with
  | O => undefined
  | S fuel' =>
      if headers_done (req d) then ret d
      else
        sharedReset >>>
        pending <-- gets m_httpParserBuffer ;;
        let temp_size := currentSize pending in
        when (negb (temp_size =? 0)%nat) (shared_append (c_str pending)) >>>
        r <-- readSome ;;
        let '(sz, ec) := r in
        shared (fun b => Some (setCurrentData 0 b)) >>>
        headers_received (readHeaders_loop fuel') d temp_size sz ec
  end.

(** [BasicHttpSession::readHeaders] *)
Definition readHeaders : M sess (Request B) :=
  modify (set_m_parser http_parser_init) >>>
  fuel <-- gets read_fuel ;;
  d <-- readHeaders_loop fuel (Data make_request []) ;;
  ret (req d).

(** The rest of a round of [read], after an attempt to read. *)
Definition read_received (again : http_parser_data B -> M sess (http_parser_data B))
    (d : http_parser_data B) (temp_size : nat) (sz ec : Z) : M sess (http_parser_data B) :=
  if negb (ec =? 0)%Z then throw (ex_code ec)
  else if (sz =? 0)%Z then yield_or_throw >>> again d
  else
    sharedReset >>>
    shared (fun b => Some (setCurrentSize (Z.to_nat sz + temp_size) b)) >>>
    cur <-- gets (fun s => currentString (sharedReadBuffer s)) ;;
    match cur with
    | None => undefined
    | Some b =>
        r1 <-- execute d b ;;
        let '(d', parsed_bytes, http_errno) := r1 in
        if negb (http_errno =? 0)%Z then throw (ex_code EBADMSG)
        else if is_completed (req d') then ret d'
        else
          shared (fun b => Some (advance parsed_bytes b)) >>>
          keep_rest >>>
          again d'
    end.

Fixpoint read_loop (fuel : nat) (d : http_parser_data B) : M sess (http_parser_data B) :=
  match fuel with
  | O => undefined
  | S fuel' =>
      if is_completed (req d) then ret d
      else
        sharedReset >>>
        pending <-- gets m_httpParserBuffer ;;
        let temp_size := currentSize pending in
        when (negb (temp_size =? 0)%nat) (shared_append (currentString pending)) >>>
        r <-- readSome ;;
        let '(sz, ec) := r in
        read_received (read_loop fuel') d temp_size sz ec
  end.

(** The part of [read] before the loop: the bytes kept by [readHeaders]. *)
Definition read_pending (d : http_parser_data B) : M sess (http_parser_data B) :=
  pending <-- gets m_httpParserBuffer ;;
  if (currentSize pending =? 0)%nat then ret d
  else
    match currentString pending with
    | None => undefined
    | Some b =>
        r <-- execute d b ;;
        let '(d', parsed_bytes, http_errno) := r in
        if negb (http_errno =? 0)%Z then throw (ex_code EBADMSG)
        else modify (fun s => set_m_httpParserBuffer (advance parsed_bytes (m_httpParserBuffer s)) s) >>>
             ret d'
    end.

(** [BasicHttpSession::read] *)
Definition session_read (r : Request B) : M sess (Request B) :=
  if is_completed r then ret r
  else
    modify (set_m_can_write_errror true) >>>
    d <-- read_pending (Data r []) ;;
    fuel <-- gets read_fuel ;;
    d' <-- read_loop fuel d ;;
    modify (fun s => set_m_httpParserBuffer (clear (m_httpParserBuffer s)) s) >>>
    ret (req d').

(** The session as the stream its services see. *)
Definition session_stream : AbstractStream B sess := {|
  read := session_read;
  write := session_write;
  writev := session_writev;
  keepAlive := m_keepAlive;
  Stream.setKeepAlive := session_setKeepAlive;
  sessionTimeout := m_sessionTimeout;
  setSessionTimeout := session_setSessionTimeout;
  Stream.yield := Transport.yield;
  peerAddress := m_peerAddress;
  socketWriteSize := session_socketWriteSize;
  setSocketWriteSize := session_setSocketWriteSize;
  socketReadSize := session_socketReadSize;
  setSocketReadSize := session_setSocketReadSize;
  isSecuredConnection := fun _ => secured
|}.

(** * The loop of a connection *)

Context `{IterationOrder} (conf : timeouts) (strerror : Z -> bytes).
Context (create_session : Request B -> result exn (option (Request B -> M sess unit))).

(** The answer the [catch] clauses send. *)
Definition error_response (e : exn) : Response :=
  match e with
  | ex_int error =>
      response1 (if ((0 <? error) && (error <? 65535))%Z then Z.to_N error else 500%N)
  | ex_response res => res
  | ex_std e => response2 500 (what e)
  | ex_code ec => response2 500 (strerror ec)
  | ex_other => response0
  end.

(** The time a service is given, in seconds. *)
Definition service_timeout (content_length : Z) : Z :=
  (if content_length =? ChunkedData then 5 * 60
   else keepAliveTimeout conf + content_length / (512 * 1024))%Z.

(** One round of the [do] loop: does the condition ask for another one? *)
Definition serve_request : M sess bool :=
  r <-- readHeaders ;;
  modify (session_setKeepAlive (if req_keep_alive r then keepAliveTimeout conf else 0%Z)) >>>
  service <-- lift (create_session r) ;;
  match service with
  | None => session_write (toString (-1) (response1 503)) >>> ret false
  | Some service =>
      modify (session_setSessionTimeout (service_timeout (contentLength r))) >>>
      service r >>>
      modify (fun s => session_setSessionTimeout (m_keepAlive s) s) >>>
      modify (fun s => set_served (S (served s)) s) >>>
      gets (fun s => ((yield_value (env s) =? 0) && negb (m_keepAlive s =? 0))%Z)
  end.

(** At most [rounds] requests. *)
Fixpoint serve_loop (rounds : nat) : M sess unit :=
  match rounds with
  | O => undefined
  | S rounds' => again <-- serve_request ;; if again then serve_loop rounds' else skip
  end.

(** The [do] loop: every request uses up input. *)
Definition serve : M sess unit := n <-- gets input_left ;; serve_loop (S n).

(** [BasicHttpSession::ioLoop] *)
Definition ioLoop : M sess unit :=
  try_catch
    (modify (session_setSessionTimeout (headersTimeout conf)) >>> serve)
    (fun e => can_write <-- gets m_can_write_errror ;;
              when can_write (session_write (toString (-1) (error_response e)))) >>>
  shutdown.
End Reading.

(** * What a transport promises about reading *)

Section ReadLaws.
Context {P B : Type}.
Abbreviation sess := (session P B).
Implicit Types s : sess.

(** The outcome of one attempt to read into the shared buffer. *)
Definition fetched s (r : Z * Z) s' : Prop :=
  (exists got, r = (Z.of_nat (length got), 0%Z) /\ length got <= currentSize (sharedReadBuffer s) /\
     fill got (sharedReadBuffer s) = Some (sharedReadBuffer s') /\
     received (env s') = received (env s) ++ got /\
     (got <> [] -> input_left s' < input_left s)) \/
  (exists e, r = ((-1)%Z, Zpos e) /\ sharedReadBuffer s' = sharedReadBuffer s /\
     received (env s') = received (env s)).

(** It touches nothing else. *)
Definition reads_only s s' : Prop :=
  m_httpParserBuffer s' = m_httpParserBuffer s /\ m_parser s' = m_parser s /\
  body_state s' = body_state s /\ resumes (env s') = resumes (env s) /\
  delivered (env s') = delivered (env s) /\ writes (env s') = writes (env s) /\
  input_left s' <= input_left s.

(** Input is used up, never made. *)
Definition shrinks s s' : Prop := input_left s' <= input_left s.

#[global] Instance shrinks_preorder : PreOrder shrinks.
Proof. split; unfold shrinks; [intros s; lia|intros s1 s2 s3; lia]. Qed.

(** Nothing is sent and no service's variable changed. *)
Definition silent s s' : Prop :=
  delivered (env s') = delivered (env s) /\ writes (env s') = writes (env s) /\ body_state s' = body_state s /\
  resumes (env s') = resumes (env s) /\ yield_value (env s') = yield_value (env s).

Class ReadLaws (T : Transport P B) := {
  readSome_law s : wf (sharedReadBuffer s) ->
    exists r s', readSome s = (Done r, s') /\ fetched s r s' /\ reads_only s s';
  readSome_shrinks : respects shrinks readSome;
  readSome_silent : respects silent readSome;
  readSome_progress s sz s' :
    readSome s = (Done (sz, 0%Z), s') -> sz <> 0%Z -> input_left s' < input_left s
}.

Lemma sys_read_spec n s :
  wf (sharedReadBuffer s) -> n <= currentSize (sharedReadBuffer s) ->
  exists r s', sys_read n s = (Done r, s') /\ fetched s r s' /\ reads_only s s'.
Proof.
  intros Hw Hn. unfold sys_read, reads_only, fetched, input_left.
  destruct (reads (env s)) as [|[b|e] rs] eqn:E.
  - eexists _, _. split; [done|]. split; [right; by exists 11%positive|]. by rewrite E.
  - destruct (wf_fill (take n b) (sharedReadBuffer s)) as (buf & Hf & _);
      [done|rewrite length_take; lia|].
    rewrite Hf. eexists _, _. split; [done|]. cbn [env on_env set_env reads set_reads set_received].
    set (rs' := match drop n b with [] => rs | rest => Arrived rest :: rs end).
    assert (Hin : (take n b <> [] -> sum_list (input <$> rs') < sum_list (input <$> Arrived b :: rs)) /\
      sum_list (input <$> rs') <= sum_list (input <$> Arrived b :: rs)).
    { unfold rs'. destruct (drop n b) eqn:Ed; csimpl; [lia|].
      apply (f_equal length) in Ed. rewrite length_drop in Ed. simpl in Ed.
      split; [|lia]. intros Hg. assert (n <> 0) by (intros ->; done). lia. }
    split; [|by repeat split; try apply Hin]. left. exists (take n b). split; [done|].
    split; [rewrite length_take; lia|]. split; [done|]. split; [done|]. apply Hin.
  - eexists _, _. split; [done|]. split; [right; by exists e|]. csimpl. repeat split; try done. lia.
Qed.

(** Whatever the state of the buffer. *)
Lemma sys_read_input n s r s' :
  sys_read n s = (r, s') ->
  input_left s' <= input_left s /\
  (forall sz ec, r = Done (sz, ec) -> (0 < sz)%Z -> input_left s' < input_left s).
Proof.
  unfold sys_read, input_left. destruct (reads (env s)) as [|[b|e] rs] eqn:E.
  - intros [= <- <-]. rewrite E. split; [done|]. intros sz ec [= <- _]. lia.
  - destruct (fill _ _) as [buf|]; intros [= <- <-]; rewrite ?E; [|done].
    cbn [env on_env set_env reads set_reads set_received].
    destruct (drop n b) eqn:Ed; csimpl; (split; [|intros sz ec [= <- _]; rewrite length_take]);
      apply (f_equal length) in Ed; rewrite length_drop in Ed; simpl in Ed; lia.
  - intros [= <- <-]. csimpl. split; [lia|]. intros sz ec [= <- _]. lia.
Qed.

Lemma sys_read_errno n s res errno s' :
  sys_read n s = (Done (res, errno), s') -> (res < 0 -> 0 < errno)%Z.
Proof.
  unfold sys_read. destruct (reads (env s)) as [|[b|e] rs]; [|destruct (fill _ _); [|done]|];
    intros [= <- <- _]; unfold EAGAIN; lia.
Qed.

Lemma sys_read_silent n : respects silent (sys_read n).
Proof. intros s. unfold silent, sys_read. repeat case_match; done. Qed.

Lemma int_limit_le n : int_limit n <= n.
Proof.
  unfold int_limit. destruct (Z.ltb_spec (Z.of_nat n) INT_MAX); [lia|].
  apply Nat2Z.inj_le. rewrite Z2Nat.id; [lia|]. unfold INT_MAX. lia.
Qed.
End ReadLaws.

#[export] Instance SocketSession_read_laws {P B} : ReadLaws (@SocketSession P B).
Proof.
  split; [intros s Hw; simpl; unfold tcp_readSome, bind, gets, ret|..].
  - destruct (sys_read_spec (currentSize (sharedReadBuffer s)) s) as (r & s' & -> & Hf & Ho); [done|lia|].
    eexists _, _. split; [done|]. split; [|done].
    destruct Hf as [(got & -> & H1 & H2 & H3 & H4)|(e & -> & H1 & H2)]; cbn [tcp_result].
    + rewrite (proj2 (Z.ltb_ge (Z.of_nat (length got)) 0)) by lia. left. eauto 10.
    + cbn [Z.ltb Z.compare]. destruct (Z.eqb_spec (Zpos e) EAGAIN) as [?|?]; [|right; eauto].
      left. exists []. rewrite app_nil_r, H1. split; [done|]. split; [simpl; lia|]. by repeat split.
  - intros s. simpl. unfold tcp_readSome, bind, gets, ret.
    destruct (sys_read _ s) as [r s'] eqn:E. apply sys_read_input in E as [E _]. by destruct r.
  - intros s. simpl. unfold tcp_readSome, bind, gets, ret.
    pose proof (sys_read_silent (currentSize (sharedReadBuffer s)) s) as Hs. by destruct (sys_read _ s) as [[] s'].
  - intros s sz s'. simpl. unfold tcp_readSome. intros Hr Hz. inv_done.
    match goal with H : sys_read _ _ = (Done ?r, _) |- _ => destruct r as [res errno];
      pose proof (sys_read_errno _ _ _ _ _ H) as He; apply sys_read_input in H as [_ H]; rename H into Hlt end.
    apply (Hlt res errno eq_refl). unfold tcp_result in *.
    destruct (Z.ltb_spec res 0); [case_match; simplify_eq; lia|simplify_eq; lia].
Qed.

#[export] Instance SslSocketSession_read_laws {P B} conf fin :
  ReadLaws (@SslSocketSession P B conf fin).
Proof.
  split; [intros s Hw; simpl; unfold ssl_readSome, bind, gets, ret|..].
  - destruct (sys_read_spec (int_limit (currentSize (sharedReadBuffer s))) s) as (r & s' & -> & Hf & Ho);
      [done|apply int_limit_le|].
    eexists _, _. split; [done|]. split; [|done].
    destruct Hf as [(got & -> & H1 & H2 & H3 & H4)|(e & -> & H1 & H2)]; cbn [ssl_result].
    + destruct (Z.leb_spec (Z.of_nat (length got)) 0) as [Hz|Hz]; [|left; by eauto 10].
      destruct got as [|c got]; [|simpl in Hz; lia]. right. exists 5%positive. rewrite app_nil_r in H3.
      simpl in H2. by simplify_eq.
    + cbn [Z.leb Z.compare]. destruct (Z.eqb_spec (Zpos e) EAGAIN) as [?|?]; [|right; by exists 5%positive].
      left. exists []. rewrite app_nil_r, H1. split; [done|]. split; [simpl; lia|]. by repeat split.
  - intros s. simpl. unfold ssl_readSome, bind, gets, ret.
    destruct (sys_read _ s) as [r s'] eqn:E. apply sys_read_input in E as [E _]. by destruct r.
  - intros s. simpl. unfold ssl_readSome, bind, gets, ret.
    pose proof (sys_read_silent (int_limit (currentSize (sharedReadBuffer s))) s) as Hs.
    by destruct (sys_read _ s) as [[] s'].
  - intros s sz s'. simpl. unfold ssl_readSome. intros Hr Hz. inv_done.
    match goal with H : sys_read _ _ = (Done ?r, _) |- _ => destruct r as [res errno];
      apply sys_read_input in H as [_ H]; rename H into Hlt end.
    apply (Hlt res errno eq_refl). unfold ssl_result in *.
    destruct (Z.leb_spec res 0); [case_match; by simplify_eq|lia].
Qed.

(** * The parser fed piece by piece *)

Section Feed.
Context {P B : Type} `{H : HttpParser P}.

(** [http_parser_execute] on each piece in turn, without errors or exceptions:
    the final parser, request and callback state. *)
Fixpoint feed (p : P) (db : http_parser_data B * B) (pieces : list bytes)
    : option (P * (http_parser_data B * B)) :=
  match pieces with
  | [] => Some (p, db)
  | b :: pieces' =>
      let x := http_parser_execute p b in
      match callbacks (events x) db with
      | Ok db' => if (http_errno x =? 0)%Z then feed (next_parser x) db' pieces' else None
      | Throw _ => None
      end
  end.

Lemma feed_app p db l1 l2 :
  feed p db (l1 ++ l2) = feed p db l1 ≫= fun pd => feed pd.1 pd.2 l2.
Proof.
  revert p db; induction l1 as [|b l1 IH]; intros p db; [done|]. simpl.
  destruct (callbacks _ db) as [db'|]; [|done]. destruct (_ =? 0)%Z; [apply IH|done].
Qed.

(** Documented behaviour of the parser: without an error it stops before the end
    of its input only after a complete message (the rest belongs to another
    protocol, after an upgrade or a [CONNECT] request). *)
Class ParserLaws := {
  execute_stops p b :
    http_errno (http_parser_execute p b) = 0%Z ->
    parsed_bytes (http_parser_execute p b) = length b \/
    exists es, events (http_parser_execute p b) = es ++ [on_message_complete]
}.

Lemma callbacks_app es1 es2 (db : http_parser_data B * B) :
  callbacks (es1 ++ es2) db = rbind (callbacks es1 db) (callbacks es2).
Proof.
  revert db; induction es1 as [|e es1 IH]; intros db; [done|]. simpl.
  destruct (callback e db); [apply IH|done].
Qed.

Lemma stops_done `{!ParserLaws} p b (db : http_parser_data B * B) d' b' :
  http_errno (http_parser_execute p b) = 0%Z ->
  parsed_bytes (http_parser_execute p b) <> length b ->
  callbacks (events (http_parser_execute p b)) db = Ok (d', b') -> is_completed (req d') = true.
Proof.
  intros He Hp Hc. destruct (execute_stops p b He) as [?|(es & E)]; [done|].
  rewrite E, callbacks_app in Hc. destruct (callbacks es db) as [[d1 b1]|]; [|done].
  simpl in Hc. by simplify_eq.
Qed.

Lemma completed_headers (r : Request B) : is_completed r = true -> headers_done r = true.
Proof. unfold is_completed, headers_done. by destruct (m_state r). Qed.

Lemma feed_one p db b db' :
  callbacks (events (http_parser_execute p b)) db = Ok db' ->
  http_errno (http_parser_execute p b) = 0%Z ->
  feed p db [b] = Some (next_parser (http_parser_execute p b), db').
Proof. intros Hc He. simpl. by rewrite Hc, He. Qed.
End Feed.
Arguments ParserLaws P {H}.

Lemma find_sub_bound s p i : find_sub s p = Some i -> i + length p <= length s.
Proof.
  revert i; induction s as [|c s IH]; intros i; simpl.
  - destruct p; simpl; intros; simplify_eq; simpl; lia.
  - destruct (starts_with (c :: s) p) eqn:E.
    + intros [= <-]. apply starts_with_spec in E as [r E].
      apply (f_equal length) in E. rewrite length_app in E. simpl in *. lia.
    + destruct (find_sub s p) as [j|]; simpl; intros [= <-]. specialize (IH j eq_refl). lia.
Qed.

Section ReadHeaders.
Context {P B : Type} `{H : HttpParser P} `{PL : !ParserLaws P}.
Context `{T : Transport P B} `{RL : !ReadLaws T}.
Abbreviation sess := (session P B).
Implicit Types s : sess.

Lemma execute_cases d b s :
  let x := http_parser_execute (m_parser s) b in
  (exists d' b', callbacks (events x) (d, body_state s) = Ok (d', b') /\
     execute d b s = (Done (d', parsed_bytes x, http_errno x),
                      set_body_state b' (set_m_parser (next_parser x) s))) \/
  (exists e b', execute d b s = (Raise e, set_body_state b' (set_m_parser (next_parser x) s))).
Proof.
  intros x. unfold execute. fold x. destruct (callbacks (events x) _) as [[d' b']|e]; eauto 6.
Qed.

(** What the inner loop leaves alone. *)
Definition lines_frame s s' : Prop :=
  env s' = env s /\ m_httpParserBuffer s' = m_httpParserBuffer s /\
  m_size (sharedReadBuffer s') = m_size (sharedReadBuffer s) /\ wf (sharedReadBuffer s').

Definition lines_outcome d s cur (o : outcome (http_parser_data B)) s' : Prop :=
  match o with
  | Done d' => exists pieces rest,
      cur = concat pieces ++ rest /\ currentString (sharedReadBuffer s') = Some rest /\
      feed (m_parser s) (d, body_state s) pieces = Some (m_parser s', (d', body_state s')) /\
      (rest = [] \/ headers_done (req d') = true)
  | Raise _ => True
  | _ => False
  end.

Lemma headers_lines_spec fuel d s cur :
  wf (sharedReadBuffer s) -> currentString (sharedReadBuffer s) = Some cur -> length cur < fuel ->
  exists o s', headers_lines fuel d s = (o, s') /\ lines_frame s s' /\ lines_outcome d s cur o s'.
Proof.
  revert d s cur; induction fuel as [|fuel IH]; intros d s cur Hw Hc Hf; [lia|].
  cbn [headers_lines]. unfold bind at 1, gets at 1.
  assert (Hsz : currentSize (sharedReadBuffer s) = length cur).
  { destruct (buf_wf_currentString _ Hw) as (c & E & <-). rewrite Hc in E. by simplify_eq. }
  rewrite Hsz. destruct (headers_done (req d) || (length cur =? 0)%nat)%bool eqn:Ed.
  { eexists _, _. split; [done|]. split; [done|]. exists [], cur. split; [done|]. split; [done|].
    split; [done|]. apply orb_true_iff in Ed as [?|Ez%Nat.eqb_eq]; [by right|left].
    by apply nil_length_inv. }
  apply orb_false_iff in Ed as [_ Hne%Nat.eqb_neq]. rewrite Hc.
  set (next := match find_sub cur CRLF with None => length cur | Some i => i + 2 end).
  assert (Hnext : 0 < next <= length cur).
  { unfold next. destruct (find_sub cur CRLF) as [i|] eqn:E; [|lia].
    apply find_sub_bound in E. change (length CRLF) with 2 in E. lia. }
  unfold bind at 1. set (piece := take next cur).
  destruct (execute_cases d piece s) as [(d' & b' & Ecb & ->)|(e & b' & ->)]; [|by eexists _, _].
  set (x := http_parser_execute (m_parser s) piece) in *.
  set (s1 := set_body_state b' (set_m_parser (next_parser x) s)).
  destruct (Z.eqb_spec (http_errno x) 0) as [Hx|Hx]; cbn [negb]; [|by eexists _, _].
  unfold bind, shared. set (s2 := set_sharedReadBuffer (advance next (sharedReadBuffer s1)) s1).
  assert (Hw2 : wf (sharedReadBuffer s2)) by (apply buf_wf_advance; auto).
  assert (Hc2 : currentString (sharedReadBuffer s2) = Some (drop next cur)) by (by apply advance_string).
  assert (Hpl : length piece = next) by (unfold piece; rewrite length_take; lia).
  assert (Hcut : forall l rest, drop next cur = concat l ++ rest -> cur = concat (piece :: l) ++ rest).
  { intros l rest E. simpl. rewrite <- app_assoc, <- E. symmetry. apply take_drop. }
  assert (Hfeed : forall l, feed (m_parser s) (d, body_state s) (piece :: l) =
                            feed (m_parser s2) (d', body_state s2) l).
  { intros l. simpl. fold x. by rewrite Ecb, Hx. }
  destruct (Nat.eqb_spec next (parsed_bytes x)) as [Hp|Hp].
  - destruct (IH d' s2 (drop next cur) Hw2 Hc2) as (o & s' & E & (Fe & Fm & Fs & Fw) & Ho);
      [rewrite length_drop; lia|].
    exists o, s'. split; [exact E|]. split; [by split_and!|].
    destruct o as [d2|e| |]; try done. destruct Ho as (pieces & rest & E1 & E2 & E3 & E4).
    exists (piece :: pieces), rest. rewrite Hfeed. auto.
  - eexists _, _. split; [reflexivity|]. split; [done|].
    exists [piece], (drop next cur). split; [by apply Hcut|]. split; [done|].
    split; [by rewrite Hfeed|]. right. eapply completed_headers, (stops_done (m_parser s) piece); [done| |done].
    fold x. lia.
Qed.

(** The buffers are well formed, also those other sessions leave behind. *)
Definition ready s : Prop :=
  wf (sharedReadBuffer s) /\ wf (m_httpParserBuffer s) /\
  Forall (fun r => wf (r_buffer r)) (resumes (env s)).

Lemma yield_ready s :
  ready s ->
  (resumes (env s) = [] /\ yield_or_throw s = (Suspended, s)) \/
  exists o s', yield_or_throw s = (o, s') /\ ready s' /\
    m_httpParserBuffer s' = m_httpParserBuffer s /\ m_parser s' = m_parser s /\
    body_state s' = body_state s /\ received (env s') = received (env s) /\
    input_left s' = input_left s /\ length (resumes (env s')) < length (resumes (env s)) /\
    (o = Done tt \/ exists ec, o = Raise (ex_code ec)).
Proof.
  intros (H1 & H2 & H3). unfold yield_or_throw, yield, bind.
  destruct (resumes (env s)) as [|r rs] eqn:E; [by left|]. right.
  apply Forall_cons in H3 as [H3 H4].
  exists (if (r_ec r =? 0)%Z then Done tt else Raise (ex_code (r_ec r))), (set_sharedReadBuffer (r_buffer r)
    (on_env (fun k => set_yield_value (r_ec r) (set_clock (r_clock r) (set_resumes rs k))) s)).
  destruct (r_ec r =? 0)%Z; simpl; split_and!; try done; eauto.
Qed.

Lemma keep_rest_spec s rest :
  wf (sharedReadBuffer s) -> wf (m_httpParserBuffer s) ->
  currentString (sharedReadBuffer s) = Some rest ->
  exists b, keep_rest s = (Done tt, set_m_httpParserBuffer b s) /\ wf b /\
    currentString b = Some rest /\ m_size b = length rest.
Proof.
  intros Hs Hw Hc. unfold keep_rest. destruct (buf_wf_currentString _ Hs) as (c & E & <-).
  rewrite Hc in E. simplify_eq. rewrite Hc.
  destruct (Nat.eqb_spec (length c) 0) as [Hz|Hz].
  - apply nil_length_inv in Hz as ->. eexists. split; [done|]. auto with getodac.
  - destruct (assign_spec c (m_httpParserBuffer s) Hw) as (b & E & Hwb & Hcb & Hsb).
    simpl. rewrite E. by exists b.
Qed.

Lemma currentString_size b c : wf b -> currentString b = Some c -> currentSize b = length c.
Proof. intros Hw Hc. destruct (buf_wf_currentString b Hw) as (c' & E & <-). by simplify_eq. Qed.

Lemma currentSize_0 b : wf b -> m_size b = 0 -> currentSize b = 0.
Proof.
  intros [_ H2] Hs. unfold currentSize. destruct (m_current b), (m_end b); simpl in *; try done; lia.
Qed.

Lemma currentString_0 b : wf b -> m_size b = 0 -> currentString b = Some [].
Proof. intros Hw Hs. unfold currentString. by rewrite currentSize_0. Qed.

(** How reading the headers ends; [w] is what was read meanwhile. *)
Definition headers_outcome d s (o : outcome (http_parser_data B)) s' : Prop :=
  match o with
  | Done d' => headers_done (req d') = true /\ exists pieces rest,
      received (env s') = received (env s) ++ concat pieces ++ rest /\
      currentString (m_httpParserBuffer s') = Some rest /\ m_size (m_httpParserBuffer s') = length rest /\
      feed (m_parser s) (d, body_state s) pieces = Some (m_parser s', (d', body_state s'))
  | Raise _ => True
  | Suspended => resumes (env s') = []
  | Undefined => False
  end.

(** One attempt that got some bytes. *)
Lemma set_shared_id s : set_sharedReadBuffer (sharedReadBuffer s) s = s.
Proof. by destruct s. Qed.

Lemma headers_round s got s1 :
  ready s -> currentSize (m_httpParserBuffer s) = 0 -> got <> [] ->
  length got <= currentSize (reset (sharedReadBuffer s)) ->
  fill got (reset (sharedReadBuffer s)) = Some (sharedReadBuffer s1) -> ready s1 ->
  let s2 := set_sharedReadBuffer
    (setCurrentSize (length got + 0) (reset (sharedReadBuffer s1))) (set_m_can_write_errror true s1) in
  wf (sharedReadBuffer s2) /\ currentString (sharedReadBuffer s2) = Some got.
Proof.
  intros Hr Hp Hg Hl Hf Hr1 s2. subst s2. cbn [sharedReadBuffer set_sharedReadBuffer].
  rewrite Nat.add_0_r.
  assert (Hsz : currentSize (reset (sharedReadBuffer s)) = m_size (sharedReadBuffer s)).
  { unfold currentSize. simpl. rewrite offset_padd. lia. }
  destruct (fill_reset (sharedReadBuffer s) got) as (b2 & E & Hb2 & _ & Hc & Hw & _);
    [apply Hr|lia|]. rewrite Hf in E. simplify_eq. done.
Qed.

(** The bytes that arrived are given to the parser line by line, and the rest
    kept; then the loop goes on with [k]. *)
Lemma headers_feed d s got (k : http_parser_data B -> M sess (http_parser_data B)) :
  ready s -> currentString (sharedReadBuffer s) = Some got ->
  exists o s', ready s' /\ env s' = env s /\
    (n <-- gets (fun s => currentSize (sharedReadBuffer s)) ;;
     d' <-- headers_lines (S n) d ;; keep_rest >>> k d') s =
      match o with Done d' => k d' s' | Raise e => (Raise e, s') | _ => (Undefined, s') end /\
    match o with
    | Done d' => exists pieces rest,
        got = concat pieces ++ rest /\ currentString (m_httpParserBuffer s') = Some rest /\
        m_size (m_httpParserBuffer s') = length rest /\
        feed (m_parser s) (d, body_state s) pieces = Some (m_parser s', (d', body_state s')) /\
        (rest = [] \/ headers_done (req d') = true)
    | Raise _ => True
    | _ => False
    end.
Proof.
  intros (Hw & Hp & Hr) Hc. unfold bind at 1, gets at 1.
  rewrite (currentString_size _ got Hw Hc).
  destruct (headers_lines_spec (S (length got)) d s got Hw Hc) as (o & s1 & E & (Fe & Fm & _ & Fw) & Ho);
    [lia|]. unfold bind at 1. rewrite E.
  destruct o as [d'|e| |]; [|exists (Raise e), s1|done|done].
  - destruct Ho as (pieces & rest & E1 & E2 & E3 & E4).
    destruct (keep_rest_spec s1 rest) as (b & Ek & Hwb & Hcb & Hsb); [done|by rewrite Fm|done|].
    exists (Done d'), (set_m_httpParserBuffer b s1). unfold bind. rewrite Ek.
    split; [|by eauto 10]. split_and!; simpl; [done|done|by rewrite Fe].
  - split; [|done]. split_and!; [done|by rewrite Fm|by rewrite Fe].
Qed.

(** The state after an attempt to read into the whole shared buffer. *)
Definition attempted s (r : Z * Z) s1 : Prop :=
  fetched (set_sharedReadBuffer (reset (sharedReadBuffer s)) s) r s1 /\ reads_only s s1 /\ ready s1.

Lemma attempt_spec s :
  ready s -> exists sz ec s1,
    readSome (set_sharedReadBuffer (reset (sharedReadBuffer s)) s) = (Done (sz, ec), s1) /\
    attempted s (sz, ec) s1 /\ setCurrentData 0 (sharedReadBuffer s1) = sharedReadBuffer s1.
Proof.
  intros Hr. set (s0 := set_sharedReadBuffer (reset (sharedReadBuffer s)) s).
  assert (Hw0 : wf (sharedReadBuffer s0)) by (apply buf_wf_reset, Hr).
  destruct (readSome_law s0 Hw0) as ([sz ec] & s1 & E0 & Hfe & Fro).
  exists sz, ec, s1. split; [done|]. split.
  - split; [exact Hfe|]. split; [exact Fro|]. destruct Fro as (Fp & _ & _ & Fr & _).
    split_and!; [|rewrite Fp; apply Hr|rewrite Fr; apply Hr].
    destruct Hfe as [(got & _ & Hl & E & _)|(e & _ & -> & _)]; [|done].
    destruct (wf_fill got _ Hw0 Hl) as (b' & E' & ?). rewrite E in E'. by simplify_eq.
  - destruct Hfe as [(got & _ & _ & E & _)|(e & _ & -> & _)]; [|by apply setCurrentData_start].
    exact (fill_reset_start (sharedReadBuffer s) got _ E).
Qed.

Lemma headers_attempt fuel d s :
  ready s -> m_size (m_httpParserBuffer s) = 0 -> headers_done (req d) = false ->
  exists sz ec s1, attempted s (sz, ec) s1 /\
    readHeaders_loop (S fuel) d s = headers_received (readHeaders_loop fuel) d 0 sz ec s1.
Proof.
  intros Hr Hp Ed. cbn [readHeaders_loop]. rewrite Ed.
  unfold bind at 1, sharedReset at 1, shared at 1. unfold bind at 1, gets at 1.
  cbn [m_httpParserBuffer set_sharedReadBuffer].
  rewrite (currentSize_0 (m_httpParserBuffer s) ltac:(apply Hr) Hp). cbn [Nat.eqb negb when].
  unfold bind at 1, skip at 1, ret at 1. unfold bind at 1.
  destruct (attempt_spec s Hr) as (sz & ec & s1 & -> & Ha & Hd0).
  unfold bind at 1, shared at 1. rewrite Hd0, set_shared_id. eauto.
Qed.

(** What is known of the next rounds, when there is fuel for [fuel] of them. *)
Definition rounds_ok fuel (again : http_parser_data B -> M sess (http_parser_data B)) : Prop :=
  (forall d s, ready s -> m_size (m_httpParserBuffer s) = 0 ->
     input_left s + length (resumes (env s)) < fuel ->
     exists o s', again d s = (o, s') /\ ready s' /\ headers_outcome d s o s') /\
  (forall d s, 0 < fuel -> headers_done (req d) = true -> again d s = (Done d, s)).

(** Nothing to read yet: the session is suspended for good, resumed with an
    error, or goes on with [k]. *)
Lemma wait_cases {X} (k : M sess X) s s1 :
  reads_only s s1 -> ready s1 ->
  (resumes (env s1) = [] /\ (yield_or_throw >>> k) s1 = (Suspended, s1)) \/
  (exists ec s2, (yield_or_throw >>> k) s1 = (Raise (ex_code ec), s2) /\ ready s2) \/
  (exists s2, (yield_or_throw >>> k) s1 = k s2 /\ ready s2 /\
     m_httpParserBuffer s2 = m_httpParserBuffer s /\ m_parser s2 = m_parser s /\
     body_state s2 = body_state s /\ received (env s2) = received (env s1) /\
     input_left s2 + length (resumes (env s2)) < input_left s + length (resumes (env s))).
Proof.
  intros (Fp & Fm & Fb & Fr & _ & _ & Fi) Hr1. unfold bind.
  destruct (yield_ready s1 Hr1) as [(Er & ->)|(o & s2 & -> & Hr2 & Y1 & Y2 & Y3 & Y4 & Y5 & Y6 & Ho)];
    [by left|right].
  destruct Ho as [->|[ec ->]]; [right|left; by eexists _, _].
  exists s2. split; [done|]. rewrite Y1, Y2, Y3, Y4, Y5, <- Fr, Fp, Fm, Fb. split_and!; try done. lia.
Qed.

Lemma headers_wait fuel again d s s1 :
  rounds_ok fuel again -> m_size (m_httpParserBuffer s) = 0 -> reads_only s s1 -> ready s1 ->
  received (env s1) = received (env s) ->
  input_left s + length (resumes (env s)) < S fuel ->
  exists o s', headers_received again d 0 0 0 s1 = (o, s') /\ ready s' /\ headers_outcome d s o s'.
Proof.
  intros [IH _] Hp Ho Hr1 Erec Hf. unfold headers_received. cbn [negb Z.eqb].
  destruct (wait_cases (again d) s s1 Ho Hr1)
    as [(Er & ->)|[(ec & s2 & -> & Hr2)|(s2 & -> & Hr2 & Y1 & Y2 & Y3 & Y4 & Y5)]]; [by eexists _, _..|].
  destruct (IH d s2) as (o & s' & -> & Hr' & Hx); [done|by rewrite Y1|lia|].
  eexists _, _. split; [done|]. split; [done|]. unfold headers_outcome in *.
  rewrite Y4, Erec, Y2, Y3 in Hx. exact Hx.
Qed.

(** Some bytes arrived: the loop ends with the headers, or has used up all of
    them and goes on. *)
Lemma headers_got fuel again d s s1 got :
  rounds_ok fuel again -> ready s -> m_size (m_httpParserBuffer s) = 0 -> got <> [] ->
  attempted s (Z.of_nat (length got), 0%Z) s1 ->
  length got <= currentSize (reset (sharedReadBuffer s)) ->
  fill got (reset (sharedReadBuffer s)) = Some (sharedReadBuffer s1) ->
  received (env s1) = received (env s) ++ got -> input_left s1 < input_left s ->
  input_left s + length (resumes (env s)) < S fuel ->
  exists o s', headers_received again d 0 (Z.of_nat (length got)) 0 s1 = (o, s') /\ ready s' /\
    headers_outcome d s o s'.
Proof.
  intros [IH Hend] Hr Hp Hg (_ & (Fp & Fm & Fb & Fr & _) & Hr1) Hl Efill Erec Hdec Hf.
  unfold headers_received. cbn [negb Z.eqb].
  rewrite (proj2 (Z.eqb_neq (Z.of_nat (length got)) 0)) by (destruct got; simpl; [done|lia]).
  rewrite Nat2Z.id.
  unfold bind at 1, modify at 1, bind at 1, sharedReset at 1, shared at 1, bind at 1, shared at 1.
  destruct (headers_round s got s1) as [Hw2 Hc2]; try done; [by apply currentSize_0; [apply Hr|]|].
  match type of Hc2 with currentString (sharedReadBuffer ?x) = _ => set (s2 := x) in * end.
  assert (Hr2 : ready s2) by (split; [exact Hw2|]; apply Hr1).
  destruct (headers_feed d s2 got again Hr2 Hc2) as (o & s3 & Hr3 & Fe & Eq & Ho).
  change (env s2) with (env s1) in Fe. change (m_parser s2) with (m_parser s1) in Ho.
  change (body_state s2) with (body_state s1) in Ho. rewrite Fm, Fb in Ho.
  cut (exists o' s', match o with Done d' => again d' s3 | Raise e => (Raise e, s3)
      | _ => (Undefined, s3) end = (o', s') /\ ready s' /\ headers_outcome d s o' s').
  { intros (o' & s' & Eo & Hr'). exists o', s'. split; [by rewrite <- Eo, <- Eq|done]. }
  destruct o as [d'|e| |]; [|by eexists _, _|done|done].
  destruct Ho as (pieces & rest & E1 & E2 & E2' & E3 & E4).
  destruct (headers_done (req d')) eqn:Ed'.
  - rewrite Hend by (done || lia). eexists _, _. split; [done|]. split; [done|]. split; [done|].
    exists pieces, rest. by rewrite Fe, Erec, E1.
  - destruct E4 as [->|?]; [|done]. rewrite app_nil_r in E1.
    destruct (IH d' s3) as (o & s' & E & Hr' & Ho); [done|done| |].
    { unfold input_left in *. rewrite Fe, Fr. lia. }
    eexists _, _. split; [done|]. split; [done|]. destruct o as [d2|e| |]; try done.
    destruct Ho as (Hd2 & pieces2 & rest2 & G1 & G2 & G2' & G3). split; [done|].
    exists (pieces ++ pieces2), rest2. rewrite G1, Fe, Erec, E1, concat_app, <- !app_assoc.
    split; [done|]. split; [done|]. split; [done|]. rewrite feed_app, E3. exact G3.
Qed.

Lemma readHeaders_loop_spec fuel d s :
  ready s -> m_size (m_httpParserBuffer s) = 0 ->
  input_left s + length (resumes (env s)) < fuel ->
  exists o s', readHeaders_loop fuel d s = (o, s') /\ ready s' /\ headers_outcome d s o s'.
Proof.
  revert d s; induction fuel as [|fuel IH]; intros d s Hr Hp Hf; [lia|].
  destruct (headers_done (req d)) eqn:Ed.
  { cbn [readHeaders_loop]. rewrite Ed. eexists _, _. split; [done|]. split; [done|]. split; [done|].
    exists [], []. rewrite !app_nil_r. split; [done|]. split; [|done]. by apply currentString_0; [apply Hr|]. }
  assert (Hok : rounds_ok fuel (readHeaders_loop fuel)).
  { split; [exact IH|]. intros d' s' H0 Hd'. destruct fuel; [lia|]. cbn [readHeaders_loop]. by rewrite Hd'. }
  destruct (headers_attempt fuel d s Hr Hp Ed) as (sz & ec & s1 & Ha & ->).
  pose proof Ha as ([(got & Eq & Hl & Efill & Erec & Hdec)|(e & [= -> ->] & _)] & Fro & Hr1);
    [|by eexists _, _].
  injection Eq as -> ->. destruct got as [|c got].
  - apply (headers_wait fuel); try done. by rewrite app_nil_r in Erec.
  - apply (headers_got fuel); try done. by apply Hdec.
Qed.

(** Reading the body: the kept bytes have been given to the parser. *)
Lemma read_attempt fuel d s :
  ready s -> currentSize (m_httpParserBuffer s) = 0 -> is_completed (req d) = false ->
  exists sz ec s1, attempted s (sz, ec) s1 /\
    read_loop (S fuel) d s = read_received (read_loop fuel) d 0 sz ec s1.
Proof.
  intros Hr Hp Ed. cbn [read_loop]. rewrite Ed.
  unfold bind at 1, sharedReset at 1, shared at 1. unfold bind at 1, gets at 1.
  cbn [m_httpParserBuffer set_sharedReadBuffer]. rewrite Hp. cbn [Nat.eqb negb when].
  unfold bind at 1, skip at 1, ret at 1. unfold bind at 1.
  destruct (attempt_spec s Hr) as (sz & ec & s1 & -> & Ha & _). eauto.
Qed.

(** How reading the body ends. *)
Definition body_outcome d s (o : outcome (http_parser_data B)) s' : Prop :=
  match o with
  | Done d' => is_completed (req d') = true /\ exists pieces,
      received (env s') = received (env s) ++ concat pieces /\
      feed (m_parser s) (d, body_state s) pieces = Some (m_parser s', (d', body_state s'))
  | Raise _ => True
  | Suspended => resumes (env s') = []
  | Undefined => False
  end.

Lemma body_outcome_after d s d1 s1 got o s' :
  body_outcome d1 s1 o s' -> received (env s1) = received (env s) ++ got ->
  feed (m_parser s) (d, body_state s) [got] = Some (m_parser s1, (d1, body_state s1)) ->
  body_outcome d s o s'.
Proof.
  destruct o as [d'|e| |]; try done. intros (Hd & pieces & E1 & E2) Er Ef. split; [done|].
  exists (got :: pieces). rewrite E1, Er, <- app_assoc. split; [done|].
  by rewrite (feed_app _ _ [got] pieces), Ef.
Qed.

Definition body_rounds_ok fuel (again : http_parser_data B -> M sess (http_parser_data B)) : Prop :=
  forall d s, ready s -> currentSize (m_httpParserBuffer s) = 0 ->
    input_left s + length (resumes (env s)) < fuel ->
    exists o s', again d s = (o, s') /\ ready s' /\ body_outcome d s o s'.

Lemma body_got fuel again d s s1 got :
  body_rounds_ok fuel again -> ready s -> currentSize (m_httpParserBuffer s) = 0 -> got <> [] ->
  attempted s (Z.of_nat (length got), 0%Z) s1 ->
  length got <= currentSize (reset (sharedReadBuffer s)) ->
  fill got (reset (sharedReadBuffer s)) = Some (sharedReadBuffer s1) ->
  received (env s1) = received (env s) ++ got -> input_left s1 < input_left s ->
  input_left s + length (resumes (env s)) < S fuel ->
  exists o s', read_received again d 0 (Z.of_nat (length got)) 0 s1 = (o, s') /\ ready s' /\
    body_outcome d s o s'.
Proof.
  intros IH Hr Hp Hg (_ & (Fp & Fm & Fb & Fr & _) & Hr1) Hl Efill Erec Hdec Hf.
  unfold read_received. cbn [negb Z.eqb].
  rewrite (proj2 (Z.eqb_neq (Z.of_nat (length got)) 0)) by (destruct got; simpl; [done|lia]).
  rewrite Nat2Z.id. unfold bind at 1, sharedReset at 1, shared at 1, bind at 1, shared at 1.
  destruct (headers_round s got s1) as [Hw2 Hc2]; try done.
  cbn [sharedReadBuffer set_sharedReadBuffer] in Hw2, Hc2 |- *.
  unfold bind at 1, gets at 1. cbn [sharedReadBuffer set_sharedReadBuffer]. rewrite Hc2.
  match goal with |- context [bind (execute d got) _ ?x] => set (s2 := x) end.
  assert (Hr2 : ready s2) by (split; [exact Hw2|apply Hr1]).
  unfold bind at 1. destruct (execute_cases d got s2) as [(d' & b' & Ecb & ->)|(e & b' & ->)];
    [|by eexists _, _].
  change (m_parser s2) with (m_parser s1) in *. change (body_state s2) with (body_state s1) in *.
  rewrite Fm, Fb in *. set (x := http_parser_execute (m_parser s) got) in *.
  destruct (Z.eqb_spec (http_errno x) 0) as [Hx|Hx]; cbn [negb]; [|by eexists _, _].
  pose proof (feed_one (m_parser s) _ got _ Ecb Hx) as Hone.
  destruct (is_completed (req d')) eqn:Ed'.
  { eexists _, _. split; [done|]. split; [done|]. split; [done|]. exists [got]. rewrite Hone. simpl.
    by rewrite app_nil_r. }
  assert (Hpb : parsed_bytes x = length got).
  { destruct (Nat.eq_dec (parsed_bytes x) (length got)) as [?|Hne]; [done|].
    by rewrite (stops_done (m_parser s) got _ d' b' Hx Hne Ecb) in Ed'. }
  unfold bind at 1, shared at 1. cbn [sharedReadBuffer set_body_state set_m_parser]. rewrite Hpb.
  match goal with |- context [bind keep_rest _ ?y] => set (s3 := y) end.
  destruct (keep_rest_spec s3 []) as (b & Ek & Hwb & Hcb & _);
    [by apply buf_wf_advance|apply Hr1| |].
  { cbn. by rewrite (advance_string _ _ got), drop_all. }
  unfold bind. rewrite Ek.
  destruct (IH d' (set_m_httpParserBuffer b s3)) as (o & s' & -> & Hr' & Ho).
  - split_and!; [by apply buf_wf_advance|done|apply Hr1].
  - cbn. by rewrite (currentString_size b [] Hwb Hcb).
  - cbn. change (input_left s1 + length (resumes (env s1)) < fuel). rewrite Fr. cbn. lia.
  - eexists _, _. split; [done|]. split; [done|]. eapply body_outcome_after; [exact Ho|exact Erec|exact Hone].
Qed.

Lemma read_loop_spec fuel d s :
  ready s -> currentSize (m_httpParserBuffer s) = 0 ->
  input_left s + length (resumes (env s)) < fuel ->
  exists o s', read_loop fuel d s = (o, s') /\ ready s' /\ body_outcome d s o s'.
Proof.
  revert d s; induction fuel as [|fuel IH]; intros d s Hr Hp Hf; [lia|].
  destruct (is_completed (req d)) eqn:Ed.
  { cbn [read_loop]. rewrite Ed. eexists _, _. split; [done|]. split; [done|]. split; [done|].
    exists []. by rewrite app_nil_r. }
  destruct (read_attempt fuel d s Hr Hp Ed) as (sz & ec & s1 & Ha & ->).
  pose proof Ha as ([(got & Eq & Hl & Efill & Erec & Hdec)|(e & [= -> ->] & _)] & Fro & Hr1);
    [|by eexists _, _].
  injection Eq as -> ->. destruct got as [|c got].
  - change (read_received _ d 0 _ 0 s1) with ((yield_or_throw >>> read_loop fuel d) s1).
    rewrite app_nil_r in Erec.
    destruct (wait_cases (read_loop fuel d) s s1 Fro Hr1)
      as [(Er & ->)|[(ec & s2 & -> & Hr2)|(s2 & -> & Hr2 & Y1 & Y2 & Y3 & Y4 & Y5)]];
      [by eexists _, _..|].
    destruct (IH d s2) as (o & s' & -> & Hr' & Hx); [done|by rewrite Y1|lia|].
    eexists _, _. split; [done|]. split; [done|]. unfold body_outcome in *.
    rewrite Y4, Erec, Y2, Y3 in Hx. exact Hx.
  - apply (body_got fuel); try done. by apply Hdec.
Qed.

(** The bytes kept by [readHeaders] are all given to the parser first. *)
Lemma read_pending_spec d s rest :
  ready s -> currentString (m_httpParserBuffer s) = Some rest ->
  exists o s1, read_pending d s = (o, s1) /\ ready s1 /\ env s1 = env s /\
    match o with
    | Done d1 => exists pieces, concat pieces = rest /\
        feed (m_parser s) (d, body_state s) pieces = Some (m_parser s1, (d1, body_state s1)) /\
        (is_completed (req d1) = false -> currentSize (m_httpParserBuffer s1) = 0)
    | Raise _ => True
    | _ => False
    end.
Proof.
  intros Hr Hc. destruct Hr as (Hw & Hp & Hre).
  pose proof (currentString_size _ rest Hp Hc) as Hsz.
  unfold read_pending, bind at 1, gets. rewrite Hsz.
  destruct (Nat.eqb_spec (length rest) 0) as [Hz|Hz].
  { apply nil_length_inv in Hz as ->. eexists _, _. split; [done|]. split; [done|]. split; [done|].
    by exists []. }
  rewrite Hc. unfold bind at 1.
  destruct (execute_cases d rest s) as [(d' & b' & Ecb & ->)|(e & b' & ->)]; [|by eexists _, _].
  set (x := http_parser_execute (m_parser s) rest) in *.
  destruct (Z.eqb_spec (http_errno x) 0) as [Hx|Hx]; cbn [negb]; [|by eexists _, _].
  unfold bind, modify, ret. eexists _, _. split; [done|].
  split; [split_and!; [done|by apply buf_wf_advance|done]|]. split; [done|].
  exists [rest]. split; [apply app_nil_r|]. split; [exact (feed_one (m_parser s) _ rest _ Ecb Hx)|].
  intros Ed. destruct (Nat.eq_dec (parsed_bytes x) (length rest)) as [E|Hne];
    [|by rewrite (stops_done (m_parser s) rest _ d' b' Hx Hne Ecb) in Ed].
  cbn. rewrite E, (currentString_size _ (drop (length rest) rest)), drop_all;
    [done|by apply buf_wf_advance|by apply advance_string].
Qed.

Lemma read_after_pending fuel d s :
  ready s -> (is_completed (req d) = false -> currentSize (m_httpParserBuffer s) = 0) ->
  input_left s + length (resumes (env s)) < fuel ->
  exists o s', read_loop fuel d s = (o, s') /\ ready s' /\ body_outcome d s o s'.
Proof.
  intros Hr Hp Hf. destruct (is_completed (req d)) eqn:Ed; [|apply read_loop_spec; auto].
  destruct fuel as [|fuel]; [lia|]. cbn [read_loop]. rewrite Ed. eexists _, _.
  split; [done|]. split; [done|]. split; [done|]. exists []. by rewrite app_nil_r.
Qed.
End ReadHeaders.

(** * Input used up

    Every operation of a session leaves no more input than it found, and reading
    a request uses some: that bounds the requests of a connection. *)

Section Shrinks.
Context {P B : Type} `{H : HttpParser P}.
Context `{T : Transport P B} `{TL : !TransportLaws T} `{RL : !ReadLaws T}.
Abbreviation sess := (session P B).
Implicit Types s : sess.

Lemma same_input s s' : reads (env s') = reads (env s) -> shrinks s s'.
Proof. unfold shrinks, input_left. by intros ->. Qed.

Lemma yield_shrinks : respects (shrinks (P := P) (B := B)) yield_or_throw.
Proof.
  intros s. apply same_input. unfold yield_or_throw, yield, bind.
  destruct (resumes (env s)); [done|]. simpl. by case_match.
Qed.

Lemma writeSome_shrinks b : respects shrinks (writeSome b).
Proof.
  intros s. destruct (writeSome_law b s) as (r & s1 & -> & _ & _ & _ & Hr & _). by apply same_input.
Qed.

Lemma writeSomeV_shrinks bs : respects shrinks (writeSomeV bs).
Proof.
  intros s. destruct (writeSomeV_law bs s) as (r & s1 & -> & _ & _ & _ & Hr & _). by apply same_input.
Qed.

Lemma shared_shrinks f : respects (shrinks (P := P) (B := B)) (shared f).
Proof. intros s. apply same_input. unfold shared. by case_match. Qed.

Lemma execute_shrinks d b : respects (shrinks (P := P) (B := B)) (execute d b).
Proof. intros s. apply same_input. unfold execute. by repeat case_match. Qed.

Lemma keep_rest_shrinks : respects (shrinks (P := P) (B := B)) keep_rest.
Proof. intros s. apply same_input. unfold keep_rest. by repeat case_match. Qed.

Lemma modify_shrinks (f : sess -> sess) :
  (forall s, env (f s) = env s) -> respects shrinks (modify f).
Proof. intros Hf s. apply same_input. simpl. by rewrite Hf. Qed.

#[local] Hint Resolve readSome_shrinks yield_shrinks writeSome_shrinks writeSomeV_shrinks
  shared_shrinks execute_shrinks keep_rest_shrinks modify_shrinks : effects.

Lemma shared_append_shrinks data : respects (shrinks (P := P) (B := B)) (shared_append data).
Proof. unfold shared_append. respecting. Qed.

Lemma headers_lines_shrinks fuel d : respects (shrinks (P := P) (B := B)) (headers_lines fuel d).
Proof. revert d; induction fuel as [|fuel IH]; intros d; cbn [headers_lines]; respecting. Qed.

#[local] Hint Resolve shared_append_shrinks headers_lines_shrinks : effects.

Lemma write_loop_shrinks fuel b : respects shrinks (write_loop fuel b).
Proof. revert b; induction fuel as [|fuel IH]; intros [|c b]; cbn [write_loop]; respecting. Qed.

Lemma writev_loop_shrinks fuel bs : respects shrinks (writev_loop fuel bs).
Proof. revert bs; induction fuel as [|fuel IH]; intros bs; cbn [writev_loop]; respecting. Qed.

Lemma read_loop_shrinks fuel d : respects shrinks (read_loop fuel d).
Proof.
  revert d; induction fuel as [|fuel IH]; intros d; cbn [read_loop]; unfold sharedReset, read_received;
    respecting.
Qed.

#[local] Hint Resolve write_loop_shrinks writev_loop_shrinks read_loop_shrinks : effects.

(** The operations of the stream a service is given. *)
Lemma session_write_shrinks b : respects shrinks (session_write b).
Proof. intros s. apply write_loop_shrinks. Qed.

Lemma session_writev_shrinks bs : respects shrinks (session_writev bs).
Proof. intros s. apply writev_loop_shrinks. Qed.

Lemma session_read_shrinks r : respects shrinks (session_read r).
Proof. unfold session_read, read_pending. respecting. Qed.

Ltac shrunk E := apply (respects_run shrinks) in E; [|unfold sharedReset; respecting]; unfold shrinks in E.

Ltac shrink_step E :=
  let E1 := fresh in apply bind_Done in E as (? & ? & E1 & E); shrunk E1.

(** A round that got something. *)
Lemma headers_received_uses again d n sz ec s d' s' :
  (forall d s d' s', again d s = (Done d', s') ->
     input_left s' <= input_left s /\ (headers_done (req d) = false -> input_left s' < input_left s)) ->
  headers_done (req d) = false ->
  headers_received again d n sz ec s = (Done d', s') ->
  ec = 0%Z /\ input_left s' <= input_left s /\ (sz = 0%Z -> input_left s' < input_left s).
Proof.
  intros IH Hd. unfold headers_received. destruct (Z.eqb_spec ec 0) as [->|?]; cbn [negb]; [|done].
  destruct (Z.eqb_spec sz 0) as [->|Hz]; intros E.
  - apply bind_Done in E as (u & s1 & E1 & E). shrunk E1. destruct (IH _ _ _ _ E) as [_ Hlt].
    specialize (Hlt Hd). split; [done|]. lia.
  - do 6 shrink_step E.
    apply IH in E as [E _]. split; [done|]. split; [lia|done].
Qed.

Lemma readHeaders_loop_uses fuel d s d' s' :
  readHeaders_loop fuel d s = (Done d', s') ->
  input_left s' <= input_left s /\ (headers_done (req d) = false -> input_left s' < input_left s).
Proof.
  revert d s d' s'; induction fuel as [|fuel IH]; intros d s d' s'; cbn [readHeaders_loop]; [done|].
  destruct (headers_done (req d)) eqn:Ed; [by intros [= <- <-]|]. intros E.
  apply bind_Done in E as (u1 & s1 & E1 & E). apply bind_Done in E as (pending & s2 & [= <- <-] & E).
  apply bind_Done in E as (u3 & s3 & E3 & E). apply bind_Done in E as ([sz ec] & s4 & E4 & E).
  apply bind_Done in E as (u5 & s5 & E5 & E). shrunk E1. shrunk E3. shrunk E5.
  apply headers_received_uses in E as (-> & Hle & Hlt); [|exact IH|done].
  destruct (Z.eq_dec sz 0%Z) as [Hz|Hz].
  - specialize (Hlt Hz). shrunk E4. lia.
  - apply readSome_progress in E4; [lia|done].
Qed.

Lemma readHeaders_uses s r s' : readHeaders s = (Done r, s') -> input_left s' < input_left s.
Proof.
  unfold readHeaders. intros E. apply bind_Done in E as (u1 & s1 & E1 & E). shrunk E1.
  apply bind_Done in E as (fuel & s2 & [= <- <-] & E). apply bind_Done in E as (d & s3 & E3 & [= <- <-]).
  apply readHeaders_loop_uses in E3 as [_ Hlt]. specialize (Hlt eq_refl). lia.
Qed.

Context `{IterationOrder} (conf : timeouts).
Context (create_session : Request B -> result exn (option (Request B -> M sess unit))).
Hypothesis services_shrink :
  forall r service, create_session r = Ok (Some service) -> respects shrinks (service r).

Lemma serve_request_uses s s' :
  serve_request conf create_session s = (Done true, s') -> input_left s' < input_left s.
Proof.
  unfold serve_request. intros E. apply bind_Done in E as (r & s1 & E1 & E). apply readHeaders_uses in E1.
  apply bind_Done in E as (u2 & s2 & E2 & E). shrunk E2.
  apply bind_Done in E as (service & s3 & E3 & E). unfold lift in E3.
  destruct (create_session r) as [o|] eqn:Ec; [|done]. injection E3 as -> ->.
  destruct service as [service|]; [|by apply bind_Done in E as (? & ? & _ & [=])].
  shrink_step E. apply bind_Done in E as (u5 & s5 & E5 & E).
  apply (respects_run _ _ _ _ _ (services_shrink r service Ec)) in E5. unfold shrinks in E5.
  shrunk E. lia.
Qed.

(** [k] requests ask for another one, then the loop ends. *)
Inductive rounds_of : nat -> sess -> outcome unit -> sess -> Prop :=
| last_round s b s' :
    serve_request conf create_session s = (Done b, s') -> b = false -> rounds_of 0 s (Done tt) s'
| failed_round s e s' : serve_request conf create_session s = (Raise e, s') -> rounds_of 0 s (Raise e) s'
| suspended_round s s' : serve_request conf create_session s = (Suspended, s') -> rounds_of 0 s Suspended s'
| undefined_round s s' : serve_request conf create_session s = (Undefined, s') -> rounds_of 0 s Undefined s'
| next_round k s s1 o s' :
    serve_request conf create_session s = (Done true, s1) -> rounds_of k s1 o s' -> rounds_of (S k) s o s'.

Lemma serve_loop_rounds n s :
  input_left s < n ->
  exists k o s', serve_loop conf create_session n s = (o, s') /\ k <= input_left s /\ rounds_of k s o s'.
Proof.
  revert s; induction n as [|n IH]; intros s Hn; [lia|]. cbn [serve_loop]. unfold bind.
  destruct (serve_request conf create_session s) as [[[]|e| |] s1] eqn:E;
    [|eexists 0, _, _; split; [reflexivity|]; split; [lia|econstructor; eauto]..].
  pose proof (serve_request_uses s s1 E) as Hlt. destruct (IH s1) as (k & o & s' & -> & Hk & Hr); [lia|].
  exists (S k), o, s'. split; [done|]. split; [lia|]. by eapply next_round.
Qed.
End Shrinks.

(** * The session keeps the promises of a stream *)

Section StreamInstance.
Context {P B : Type} `{H : HttpParser P}.
Context `{T : Transport P B} `{TL : !TransportLaws T} `{RL : !ReadLaws T}.

(** A single write that returns has delivered its bytes, on every schedule. *)
Lemma session_write_sent b (s s' : session P B) :
  session_write b s = (Done tt, s') ->
  delivered (env s') = delivered (env s) ++ b /\ writes_suffix s s'.
Proof.
  intros Hr. unfold session_write in Hr. split.
  - destruct (write_loop_spec (write_fuel s) b s) as (o & s2 & E & k & _ & Hd & Hk);
      [unfold rounds, write_fuel; lia|]. rewrite Hr in E. simplify_eq. by rewrite Hd, firstn_all.
  - pose proof (write_loop_suffix (write_fuel s) b s) as Hs. by rewrite Hr in Hs.
Qed.

(** What reading a request does to the rest of the session: nothing is sent, and
    the callback's variables change only through the callback [r] has. *)
Definition reads_body_of (r : Request B) (s s' : session P B) : Prop :=
  delivered (env s') = delivered (env s) /\ writes (env s') = writes (env s) /\
  exists parts, accept_parts r parts (body_state s) = Ok (body_state s').

#[export] Instance reads_body_of_preorder r : PreOrder (reads_body_of r).
Proof.
  split.
  - intros s. split_and!; [done..|]. by exists [].
  - intros s1 s2 s3 (E1 & E2 & ps1 & P1) (E3 & E4 & ps2 & P2). split_and!; [congruence..|].
    exists (ps1 ++ ps2). by apply accept_parts_app with (body_state s2).
Qed.

Lemma same_body r s s' :
  delivered (env s') = delivered (env s) -> writes (env s') = writes (env s) ->
  body_state s' = body_state s -> reads_body_of r s s'.
Proof. intros E1 E2 E3. split_and!; [done..|]. exists []. by rewrite E3. Qed.

Lemma callback_keeps e (d : http_parser_data B) b d' b' :
  callback e (d, b) = Ok (d', b') ->
  m_callback (req d') = m_callback (req d) /\
  exists parts, accept_parts (req d) parts b = Ok b'.
Proof.
  destruct e; simpl; try (intros [= <- <-]; split; [done|]; by exists []).
  destruct (body at_ d b) as [b1|] eqn:E; simpl; [|done]. intros [= <- <-].
  split; [done|]. exists [at_]. simpl. unfold body in E. by rewrite E.
Qed.

Lemma callbacks_keep es (d : http_parser_data B) b :
  (exists parts, accept_parts (req d) parts b = Ok (body_reached es (d, b))) /\
  forall d' b', callbacks es (d, b) = Ok (d', b') ->
    m_callback (req d') = m_callback (req d) /\ body_reached es (d, b) = b'.
Proof.
  revert d b; induction es as [|e es IH]; intros d b; cbn [callbacks body_reached].
  - split; [by exists []|]. by intros d' b' [= <- <-].
  - destruct (callback e (d, b)) as [[d1 b1]|x] eqn:E; cbn [rbind].
    + apply callback_keeps in E as (E1 & ps1 & P1). destruct (IH d1 b1) as [[ps2 P2] IH2].
      split.
      * exists (ps1 ++ ps2). apply accept_parts_app with b1; [done|].
        by rewrite (accept_parts_callback (req d1) (req d)) in P2.
      * intros d' b' Hc. destruct (IH2 _ _ Hc) as [E2 E3]. split; [congruence|done].
    + split; [by exists []|done].
Qed.

Lemma execute_reads (d : http_parser_data B) b : respects (reads_body_of (req d)) (execute (P := P) d b).
Proof.
  intros s. unfold execute.
  set (x := http_parser_execute (m_parser s) b).
  destruct (callbacks_keep (events x) d (body_state s)) as [Hp Hk].
  destruct (callbacks (events x) (d, body_state s)) as [[d' b']|e] eqn:E; simpl; split_and!; try done.
  destruct (Hk _ _ eq_refl) as [_ <-]. done.
Qed.

Lemma execute_callback (d : http_parser_data B) b (s : session P B) d' n e s' :
  execute d b s = (Done (d', n, e), s') -> m_callback (req d') = m_callback (req d).
Proof.
  unfold execute. set (x := http_parser_execute (m_parser s) b).
  destruct (callbacks_keep (events x) d (body_state s)) as [_ Hk].
  destruct (callbacks (events x) (d, body_state s)) as [[d1 b1]|e1] eqn:E; [|done].
  intros [= <- <- <- <-]. by destruct (Hk _ _ eq_refl).
Qed.

Lemma readSome_reads r : respects (reads_body_of r) readSome.
Proof. intros s. destruct (readSome_silent s) as (E1 & E2 & E3 & _). by apply same_body. Qed.

Lemma yield_reads r : respects (reads_body_of r) yield_or_throw.
Proof.
  intros s. unfold yield_or_throw, bind. unfold yield at 1.
  destruct (resumes (env s)); [done|]. case_match; by apply same_body.
Qed.

Lemma shared_reads r f : respects (reads_body_of r) (shared f).
Proof. intros s. unfold shared. case_match; by apply same_body. Qed.

Lemma keep_rest_reads r : respects (reads_body_of r) keep_rest.
Proof. intros s. unfold keep_rest. case_match; by apply same_body. Qed.

Lemma modify_reads r (f : session P B -> session P B) :
  (forall s, env (f s) = env s /\ body_state (f s) = body_state s) ->
  respects (reads_body_of r) (modify f).
Proof. intros Hf s. destruct (Hf s) as [E1 E2]. apply same_body; simpl; congruence. Qed.

#[local] Hint Resolve readSome_reads yield_reads shared_reads keep_rest_reads : effects.
#[local] Hint Extern 1 (respects _ (modify _)) => apply modify_reads; done : effects.

(** The request a round goes on with has the callback it started with. *)
Lemma executed_reads {X} (r : Request B) d b (k : http_parser_data B * nat * Z -> M (session P B) X) :
  m_callback (req d) = m_callback r ->
  (forall d' n e, m_callback (req d') = m_callback r -> respects (reads_body_of r) (k (d', n, e))) ->
  respects (reads_body_of r) (bind (execute d b) k).
Proof.
  intros Ed Hk. apply respects_bind_post with (fun x => m_callback (req x.1.1) = m_callback r).
  - apply _.
  - intros s. destruct (execute_reads d b s) as (E1 & E2 & ps & E3). split_and!; [done..|].
    exists ps. by rewrite <- (accept_parts_callback (req d) r).
  - intros s [[d' n] e] s' E. simpl. by rewrite (execute_callback _ _ _ _ _ _ _ E).
  - intros [[d' n] e]. apply Hk.
Qed.

Ltac reading :=
  repeat match goal with
  | |- respects _ (bind (execute _ _) _) => apply executed_reads; [assumption|intros ? ? ? ?]
  | |- _ => respects_step
  end.

Lemma read_loop_reads (r : Request B) fuel d :
  m_callback (req d) = m_callback r ->
  respects (reads_body_of r) (read_loop fuel d).
Proof.
  revert d; induction fuel as [|fuel IH]; intros d Ed; cbn [read_loop];
    unfold sharedReset, read_received, shared_append; reading.
Qed.

Lemma read_pending_reads (r : Request B) :
  respects (reads_body_of r) (read_pending (P := P) (Data r [])).
Proof. unfold read_pending. assert (m_callback (req (Data r [])) = m_callback r) by done. reading. Qed.

Lemma read_pending_callback (d : http_parser_data B) (s : session P B) d' s' :
  read_pending d s = (Done d', s') -> m_callback (req d') = m_callback (req d).
Proof.
  unfold read_pending. intros E. inv_done. case_match; inv_done; [done|].
  case_match; [|done]. apply bind_Done in E as ([[d1 n] e] & s1 & E1 & E).
  apply execute_callback in E1. case_match; [done|]. by inv_done.
Qed.

Lemma session_read_reads (r : Request B) : respects (reads_body_of r) (session_read r).
Proof.
  unfold session_read. case_match; [reading|]. apply respects_bind; [apply _|reading|intros _].
  apply (respects_bind_post _ (fun d => m_callback (req d) = m_callback r)).
  - apply read_pending_reads.
  - intros s d s' E. apply (read_pending_callback _ _ _ _ E).
  - intros d Ed. apply respects_bind; [apply _|reading|intros fuel].
    apply respects_bind; [apply _|by apply read_loop_reads|intros d']. reading.
Qed.

Lemma headers_lines_callback fuel (d : http_parser_data B) (s : session P B) d' s' :
  headers_lines fuel d s = (Done d', s') -> m_callback (req d') = m_callback (req d).
Proof.
  revert d s; induction fuel as [|fuel IH]; intros d s E; cbn [headers_lines] in E; [done|].
  inv_done. case_match; inv_done; [done|]. case_match; [|done].
  apply bind_Done in E as ([[d1 n] e] & s1 & E1 & E). apply execute_callback in E1. rewrite <- E1.
  case_match; [done|]. apply bind_Done in E as (u & s2 & _ & E). case_match; [by eapply IH|by inv_done].
Qed.

Lemma headers_lines_reads (r : Request B) fuel d :
  m_callback (req d) = m_callback r -> respects (reads_body_of r) (headers_lines (P := P) fuel d).
Proof. revert d; induction fuel as [|fuel IH]; intros d Ed; cbn [headers_lines]; reading. Qed.

Lemma readHeaders_loop_reads (r : Request B) fuel d :
  m_callback (req d) = m_callback r ->
  respects (reads_body_of r) (readHeaders_loop fuel d).
Proof.
  revert d; induction fuel as [|fuel IH]; intros d Ed; cbn [readHeaders_loop]; [apply respects_undefined; apply _|].
  assert (Hl : forall n, respects (reads_body_of r)
    (d' <-- headers_lines (S n) d ;; keep_rest >>> readHeaders_loop fuel d')).
  { intros n. apply (respects_bind_post _ (fun d => m_callback (req d) = m_callback r));
      [by apply headers_lines_reads|intros s d' s' ->%headers_lines_callback; done|intros d' Ed'].
    apply respects_bind; [apply _|reading|intros _]. by apply IH. }
  unfold sharedReset, headers_received, shared_append. reading.
Qed.

(** A new request has no body callback: reading its headers sends nothing and
    changes no service's variables. *)
Lemma readHeaders_quiet (s : session P B) :
  let s' := (readHeaders s).2 in
  delivered (env s') = delivered (env s) /\ writes (env s') = writes (env s) /\ body_state s' = body_state s.
Proof.
  assert (Hr : respects (reads_body_of make_request) (readHeaders (P := P) (B := B))).
  { unfold readHeaders. apply respects_bind; [apply _|reading|intros _].
    apply respects_bind; [apply _|reading|intros fuel].
    apply respects_bind; [apply _|by apply readHeaders_loop_reads|intros d]. reading. }
  destruct (Hr s) as (E1 & E2 & parts & E3). split_and!; [done|done|].
  destruct parts as [|p parts]; cbn in E3; [by injection E3 as ->|done].
Qed.

Lemma readHeaders_callback (s : session P B) r s' :
  readHeaders s = (Done r, s') -> m_callback r = None.
Proof.
  assert (Hl : forall fuel (d : http_parser_data B) (s : session P B) d' s',
    readHeaders_loop fuel d s = (Done d', s') -> m_callback (req d') = m_callback (req d)).
  { induction fuel as [|fuel IH]; intros d s0 d' s1 E; cbn [readHeaders_loop] in E; [done|].
    case_match; inv_done; [done|]. case_match. unfold headers_received in E. inv_done.
    case_match; [done|]. case_match; inv_done; [by eapply IH|].
    match goal with Hh : headers_lines _ _ _ = _ |- _ => apply headers_lines_callback in Hh; rewrite <- Hh end.
    by eapply IH. }
  unfold readHeaders. intros E. inv_done.
  match goal with Hh : readHeaders_loop _ _ _ = _ |- _ => exact (Hl _ _ _ _ _ Hh) end.
Qed.

#[export] Instance session_stream_laws : StreamLaws (session_stream (T := T)).
Proof.
  refine {| sent := fun s => delivered (env s); good := fun _ => True |}; try done.
  - intros b s s' _ E. by apply session_write_sent in E as [? _].
  - intros s ec s' _. simpl. unfold Transport.yield. destruct (resumes (env s)); [done|]. intros [= _ <-]. done.
  - intros z s s' _. simpl. unfold session_setSocketWriteSize. case_match; [|done]. intros [= <-]. done.
  - intros z s s' _. simpl. unfold session_setSocketReadSize. case_match; [|done]. intros [= <-]. done.
Defined.

#[export] Instance session_body : BodyState B (session P B) :=
  {| body_of := body_state; set_body := set_body_state |}.

Definition keeps_body (s s' : session P B) : Prop := body_state s' = body_state s.

#[export] Instance keeps_body_preorder : PreOrder keeps_body.
Proof. unfold keeps_body. split; [by intros s|]. intros s1 s2 s3. congruence. Qed.

Lemma writeSome_body b : respects keeps_body (writeSome b).
Proof. intros s. destruct (writeSome_law b s) as (r & s1 & -> & _ & [Hb _] & _). exact Hb. Qed.

Lemma write_loop_body fuel b : respects keeps_body (write_loop fuel b).
Proof.
  assert (Hy : respects keeps_body yield_or_throw).
  { intros s. unfold yield_or_throw, bind. unfold yield at 1. destruct (resumes (env s)); [done|].
    by case_match. }
  pose proof writeSome_body.
  revert b; induction fuel as [|fuel IH]; intros [|c b]; cbn [write_loop]; respecting.
Qed.

Lemma session_write_body b (s s' : session P B) : session_write b s = (Done tt, s') -> body_state s' = body_state s.
Proof. intros E. pose proof (write_loop_body (write_fuel s) b s) as Hb. unfold session_write in E. by rewrite E in Hb. Qed.

#[export] Instance session_body_laws : BodyLaws (session_stream (T := T)).
Proof.
  split; try done.
  - intros r s r' s' _ E. pose proof (session_read_reads r s) as Hr.
    change (session_read r s = (Done r', s')) in E. rewrite E in Hr. simpl in Hr. by destruct Hr as (E1 & E2 & Hp).
  - intros b s s' E. by apply session_write_body in E.
Qed.
End StreamInstance.

(** ** Plain sockets without short writes *)

Section SocketStream.
Context {P B : Type} `{H : HttpParser P}.

#[export] Instance socket_stream : AbstractStream B (session P B) := session_stream (T := SocketSession).

Lemma socket_write_whole b (s s' : session P B) :
  whole s -> session_write (T := SocketSession) b s = (Done tt, s') ->
  delivered (env s') = delivered (env s) ++ b /\ whole s'.
Proof. intros Hw [? Hs]%session_write_sent. split; [done|]. by eapply whole_suffix. Qed.

Lemma socket_writev_whole bs (s s' : session P B) :
  whole s -> session_writev (T := SocketSession) bs s = (Done tt, s') ->
  delivered (env s') = delivered (env s) ++ concat bs /\ whole s'.
Proof.
  intros Hw Hr. split.
  - by eapply tcp_writev_loop_whole.
  - eapply whole_suffix; [|done].
    pose proof (writev_loop_suffix (T := SocketSession) (write_fuel s) bs s) as Hs.
    unfold session_writev in Hr. by rewrite Hr in Hs.
Qed.

(** On such sockets gathered writes keep their promise as well. *)
Definition whole_stream_laws : StreamLaws socket_stream.
Proof.
  refine {| sent := fun s => delivered (env s); good := whole |}; try done.
  - intros b s s'. apply socket_write_whole.
  - intros s ec s' Hg. simpl. unfold Transport.yield. destruct (resumes (env s)); [done|]. intros [= _ <-]. done.
  - intros z s s' Hg. simpl. unfold session_setSocketWriteSize. case_match; [|done]. intros [= <-]. done.
  - intros z s s' Hg. simpl. unfold session_setSocketReadSize. case_match; [|done]. intros [= <-]. done.
Defined.

Lemma whole_gathers : GatherLaws socket_stream (L := whole_stream_laws).
Proof. intros bs s s'. apply socket_writev_whole. Qed.

Lemma whole_body_laws : BodyLaws socket_stream (L := whole_stream_laws).
Proof.
  split; try done.
  - intros r s r' s' Hg E. pose proof (session_read_reads (T := SocketSession) r s) as Hr.
    change (session_read (T := SocketSession) r s = (Done r', s')) in E. rewrite E in Hr. simpl in Hr.
    destruct Hr as (E1 & E2 & Hp). split; [done|]. split; [|done]. simpl in *. unfold whole in *. by rewrite E2.
  - intros b s s' E. by apply (session_write_body (T := SocketSession)) in E.
Qed.
End SocketStream.

(** * A parser for the examples

    It is given whole lines: the request line, header lines, the empty line; what
    follows is the body. *)

Definition line_execute (p : nat) (b : bytes) : execution nat :=
  match p with
  | 0 =>
      match index_of " "%char b with
      | Some i =>
          let rest := drop (S i) b in
          match index_of " "%char rest with
          | Some j => Execution [on_message_begin; on_url (take j rest) (take i b)] (length b) 0 1
          | None => Execution [] 0 1 0
          end
      | None => Execution [] 0 1 0
      end
  | 1 =>
      if decide (b = CRLF) then
        Execution [on_headers_complete true; on_message_complete] (length b) 0 2
      else
        match find_sub b (str ": ") with
        | Some i => Execution [on_header_field (take i b);
                               on_header_value (take (length b - i - 4) (drop (i + 2) b))] (length b) 0 1
        | None => Execution [] 0 1 1
        end
  | _ => Execution [on_body b] (length b) 0 2
  end.

#[export] Instance line_parser : HttpParser nat :=
  {| http_parser_init := 0; http_parser_execute := line_execute |}.

#[export] Instance line_parser_laws : ParserLaws nat.
Proof.
  split. intros p b. simpl. unfold line_execute. destruct p as [|[|p]]; [| |by left].
  - destruct (index_of " "%char b); [|done]. simpl. case_match; [by left|done].
  - case_decide; [by left|]. case_match; [by left|done].
Qed.

(** A new connection on which [rs] can be read and [ws] written. *)
Definition sample_connection (rs : list raw_read) (ws : list raw_write) : session nat unit := {|
  m_keepAlive := 0; m_sessionTimeout := 0; m_sessionTimeoutTimePoint := 0; m_parser := 0;
  m_can_write_errror := false; m_httpParserBuffer := empty; sharedReadBuffer := reset (make 64);
  m_peerAddress := []; wmem_max := 64; on_loop_thread := true; body_state := tt; served := 0;
  env := {| yield_value := 0; clock := 1000; sndbuf := 8; rcvbuf := 8; sockopt_buffer := fun z => Some (2 * Z.to_nat z); reads := rs; writes := ws;
            resumes := []; ssl_calls := []; received := []; delivered := []; closed := false |} |}.

Definition get_request (path : bytes) : bytes :=
  str "GET " ++ path ++ str " HTTP/1.1" ++ CRLF ++ str "Host: x" ++ CRLF ++ CRLF.

Lemma sample_connection_ready rs ws : ready (sample_connection rs ws).
Proof. split_and!; simpl; auto with getodac. Qed.

(** * Lemmas about kept bytes *)

Lemma c_string_none l : Ascii.zero ∉ l -> c_string l = None.
Proof.
  induction l as [|c l IH]; intros Hz; [done|]. simpl. apply not_elem_of_cons in Hz as [Hc Hl].
  rewrite decide_False by done. by rewrite IH.
Qed.

(** A block that holds exactly the kept bytes has no terminating zero. *)
Lemma c_str_exact b l :
  wf b -> currentString b = Some l -> m_size b = length l -> l <> [] -> Ascii.zero ∉ l ->
  c_str b = None.
Proof.
  intros [H1 H2] Hc Hs Hl Hz. unfold c_str, currentString, currentSize in *.
  destruct (m_current b) as [c|c], (m_end b) as [e|e]; try done.
  destruct H2 as [[d E] Hb]. rewrite E in *. cbn [offset] in Hc. rewrite load_At in Hc by lia.
  apply (inj Some) in Hc. assert (Hlen : length l = e - c) by (rewrite <- Hc, length_take, length_drop; lia).
  replace c with 0 in * by lia. replace (e - 0) with (length d) in Hc by lia.
  rewrite drop_0, firstn_all in Hc. subst d. by apply c_string_none.
Qed.

Lemma readHeaders_overread {P B} `{HttpParser P} `{T : Transport P B} (s : session P B) l :
  wf (m_httpParserBuffer s) -> currentString (m_httpParserBuffer s) = Some l ->
  m_size (m_httpParserBuffer s) = length l -> l <> [] -> Ascii.zero ∉ l ->
  (readHeaders s).1 = Undefined.
Proof.
  intros Hw Hc Hs Hl Hz. pose proof (c_str_exact _ l Hw Hc Hs Hl Hz) as Hn.
  pose proof (currentString_size _ l Hw Hc) as Hsz.
  unfold readHeaders, bind, modify, gets, read_fuel. cbn [readHeaders_loop headers_done make_request m_state req].
  unfold bind, sharedReset, shared, gets.
  cbn [m_httpParserBuffer set_sharedReadBuffer set_m_parser]. rewrite Hsz, Hn.
  destruct l; [done|]. reflexivity.
Qed.

(** Once headers have been read, an error can be answered. *)
Lemma headers_lines_flag {P B} `{HttpParser P} fuel (d : http_parser_data B) (s : session P B) o s' :
  headers_lines fuel d s = (o, s') -> m_can_write_errror s' = m_can_write_errror s.
Proof.
  revert d s; induction fuel as [|fuel IH]; intros d s; cbn [headers_lines]; [by intros [= _ <-]|].
  unfold bind at 1, gets at 1. destruct (_ || _)%bool; [by intros [= _ <-]|].
  destruct (currentString _) as [cur|]; [|by intros [= _ <-]]. unfold bind at 1.
  destruct (execute_cases d (take match find_sub cur CRLF with Some i => i + 2 | None => currentSize (sharedReadBuffer s) end cur) s)
    as [(d' & b' & _ & ->)|(e & b' & ->)]; [|by intros [= _ <-]].
  destruct (negb _); [by intros [= _ <-]|]. unfold bind, shared. destruct (_ =? _)%nat; [|by intros [= _ <-]].
  intros E. by apply IH in E.
Qed.

Section Flag.
Context {P B : Type} `{HttpParser P} `{T : Transport P B}.
Abbreviation sess := (session P B).

Definition same_flag (s s' : sess) : Prop := m_can_write_errror s' = m_can_write_errror s.

#[local] Instance same_flag_preorder : PreOrder same_flag.
Proof. split; unfold same_flag; [done|congruence]. Qed.

Lemma shared_flag f : respects same_flag (shared (P := P) (B := B) f).
Proof. intros s. unfold shared, same_flag. by case_match. Qed.

Lemma keep_rest_flag : respects same_flag (keep_rest (P := P) (B := B)).
Proof. intros s. unfold keep_rest, same_flag. by case_match. Qed.

Lemma readHeaders_loop_flag fuel (d : http_parser_data B) (s : sess) d' s' :
  readHeaders_loop fuel d s = (Done d', s') ->
  m_can_write_errror s = true \/ headers_done (req d) = false -> m_can_write_errror s' = true.
Proof.
  revert d s; induction fuel as [|fuel IH]; intros d s E Hor; cbn [readHeaders_loop] in E; [done|].
  destruct (headers_done (req d)) eqn:Ed; [inv_done; by destruct Hor|]. clear Hor.
  apply bind_Done in E as (u1 & s1 & _ & E). apply bind_Done in E as (pending & s2 & _ & E).
  apply bind_Done in E as (u2 & s3 & _ & E). apply bind_Done in E as ([sz ec] & s4 & _ & E).
  apply bind_Done in E as (u3 & s5 & _ & E). unfold headers_received in E.
  destruct (negb (ec =? 0)%Z); [done|]. destruct (sz =? 0)%Z.
  - apply bind_Done in E as (u4 & s6 & _ & E). apply IH in E; [done|by right].
  - apply bind_Done in E as (u4 & s6 & [= <- <-] & E). apply bind_Done in E as (u5 & s7 & E7 & E).
    apply bind_Done in E as (u6 & s8 & E8 & E). apply bind_Done in E as (n & s9 & [= <- <-] & E).
    apply bind_Done in E as (d1 & s10 & E10 & E). apply bind_Done in E as (u7 & s11 & E11 & E).
    apply IH in E; [done|]. left.
    apply (respects_run same_flag) in E7; [|apply shared_flag]. apply (respects_run same_flag) in E8; [|apply shared_flag].
    apply headers_lines_flag in E10. apply (respects_run same_flag) in E11; [|apply keep_rest_flag].
    unfold same_flag in *. by rewrite E11, E10, E8, E7.
Qed.

Lemma readHeaders_can_write (s : sess) r s' :
  readHeaders s = (Done r, s') -> m_can_write_errror s' = true.
Proof.
  unfold readHeaders. intros E. inv_done.
  match goal with Hl : readHeaders_loop _ _ _ = _ |- _ => apply readHeaders_loop_flag in Hl; [done|by right] end.
Qed.
End Flag.

Lemma error_answered {P B} `{HttpParser P} `{T : Transport P B} `{TL : !TransportLaws T} `{IterationOrder}
    conf strerror create_session (s s1 : session P B) e :
  (modify (session_setSessionTimeout (headersTimeout conf)) >>> serve conf create_session) s = (Raise e, s1) ->
  forthcoming (length (toString (-1) (error_response strerror e))) s1 ->
  exists o s', ioLoop conf strerror create_session s = (o, s') /\
    (o = Done tt /\ closed (env s') = true \/ secured = true /\ o = Suspended) /\
    delivered (env s') = delivered (env s1) ++
      (if m_can_write_errror s1 then toString (-1) (error_response strerror e) else []).
Proof.
  intros Hs Hf. unfold ioLoop, try_catch. unfold bind at 1. rewrite Hs.
  unfold bind at 1, gets at 1. destruct (m_can_write_errror s1); cbn [when].
  - destruct (write_loop_progress (write_fuel s1)
      (toString (-1) (error_response strerror e)) s1) as [s2 E]; [unfold rounds, write_fuel; lia|done|].
    destruct (session_write_sent _ _ _ E) as [Hd _]. unfold session_write. rewrite E.
    destruct (shutdown_law s2) as (o & s' & Es & Ed & Ho). exists o, s'. split; [done|]. split; [done|]. congruence.
  - cbn. destruct (shutdown_law s1) as (o & s' & Es & Ed & Ho). exists o, s'. rewrite app_nil_r. by split_and!.
Qed.

(** * Properties *)



(** C2. Reading the body over either transport, after the headers: the buffers are
    never accessed out of bounds and the loop always ends; when it returns, the
    request is complete, nothing is kept, and the parser has been given the bytes
    kept by the headers and then every byte received, exactly once and in order,
    so that the body callbacks have seen the whole body. *)
Theorem read_conserves {P B} `{HttpParser P} `{!ParserLaws P} `{T : Transport P B} `{!ReadLaws T}
    (s : session P B) (r : Request B) rest :
  ready s -> is_completed r = false -> currentString (m_httpParserBuffer s) = Some rest ->
  let '(o, s') := session_read r s in
  ready s' /\ o <> Undefined /\ (o = Suspended -> resumes (env s') = []) /\
  forall r', o = Done r' -> is_completed r' = true /\ currentString (m_httpParserBuffer s') = Some [] /\
    exists pieces d bytes_in,
      received (env s') = received (env s) ++ bytes_in /\ rest ++ bytes_in = concat pieces /\ req d = r' /\
      feed (m_parser s) (Data r [], body_state s) pieces = Some (m_parser s', (d, body_state s')).
Proof.
  intros Hr Hi Hc. unfold session_read. rewrite Hi. unfold bind at 1, modify at 1.
  set (s0 := set_m_can_write_errror true s). unfold bind at 1.
  destruct (read_pending_spec (Data r []) s0 rest Hr Hc) as (o & s1 & -> & Hr1 & Fe & Ho).
  destruct o as [d|e| |]; [|done|done|done]. destruct Ho as (pieces & E1 & E2 & E3).
  unfold bind at 1, gets at 1, bind at 1.
  destruct (read_after_pending (read_fuel s1) d s1 Hr1 E3) as (o & s2 & -> & Hr2 & Ho);
    [unfold read_fuel, input_left; lia|].
  destruct o as [d2|e| |]; [|done|done|done]. destruct Ho as (Hd2 & more & G1 & G2).
  cbn. split; [split_and!; [apply Hr2|apply buf_wf_clear|apply Hr2]|]. split; [done|]. split; [done|].
  intros r' [= <-]. split; [done|]. split; [done|]. exists (pieces ++ more), d2, (concat more).
  split; [by rewrite G1, Fe|]. split; [by rewrite concat_app, E1|]. split; [done|].
  rewrite feed_app. change (feed (m_parser s) _ pieces) with (feed (m_parser s0) (Data r [], body_state s0) pieces).
  by rewrite E2.
Qed.

(** A parser for a message with a body of two bytes. *)
Definition two_byte_body (p : nat) (b : bytes) : execution nat :=
  match length b with
  | 0 => Execution [] 0 0 p
  | 1 => if (p =? 0)%nat then Execution [on_body b] 1 0 1
         else Execution [on_body b; on_message_complete] 1 0 2
  | _ => if (p =? 0)%nat then Execution [on_body (take 2 b); on_message_complete] 2 0 2
         else Execution [on_body (take 1 b); on_message_complete] 1 0 2
  end.

Definition two_byte_parser : HttpParser nat :=
  {| http_parser_init := 0; http_parser_execute := two_byte_body |}.

Lemma two_byte_parser_laws : @ParserLaws nat two_byte_parser.
Proof.
  split. intros p b _. simpl. unfold two_byte_body.
  destruct b as [|c [|c' b]]; simpl; [by left|destruct (p =? 0)%nat; by left|right].
  destruct (p =? 0)%nat; [by exists [on_body (take 2 (c :: c' :: b))]|by exists [on_body [c]]].
Qed.

Definition reads_body : Request unit := appendBodyCallback (fun _ b => Ok b) 100 make_request.

Lemma read_conserves_witness :
  let s := sample_connection [Arrived (str "a"); Arrived (str "bc")] [] in
  exists r s', @session_read nat unit two_byte_parser SocketSession reads_body s = (Done r, s') /\
    is_completed r = true /\ received (env s') = str "abc".
Proof.
  intros s. pose proof (@read_conserves nat unit two_byte_parser two_byte_parser_laws SocketSession _ s
    reads_body [] (sample_connection_ready _ _) eq_refl eq_refl) as Hc.
  assert (E : exists r s', @session_read nat unit two_byte_parser SocketSession reads_body s = (Done r, s') /\
                received (env s') = str "abc").
  { eexists _, _. vm_compute. split; reflexivity. }
  destruct E as (r & s' & E & Hrec). rewrite E in Hc. destruct Hc as (_ & _ & _ & Hc).
  exists r, s'. split; [exact E|]. split; [exact (proj1 (Hc r eq_refl))|exact Hrec].
Defined.

(** Pipelining reads out of bounds: when the bytes received together with a
    request without a body go on with the next request, they are kept in a block
    of exactly their size, and the next [readHeaders] passes that block as a
    C string; without a zero byte in it the read runs past its end. *)
Theorem pipelining_overreads {P B} `{HttpParser P} `{!ParserLaws P} `{T : Transport P B} `{!ReadLaws T}
    (s s' : session P B) r rest :
  ready s -> m_size (m_httpParserBuffer s) = 0 -> readHeaders s = (Done r, s') ->
  currentString (m_httpParserBuffer s') = Some rest -> rest <> [] -> Ascii.zero ∉ rest ->
  (readHeaders s').1 = Undefined.
Proof.
  intros Hr Hp Hh Hc Hne Hz. unfold readHeaders in Hh.
  unfold bind at 1, modify at 1, bind at 1, gets at 1 in Hh.
  set (s0 := set_m_parser http_parser_init s) in Hh.
  destruct (readHeaders_loop_spec (read_fuel s0) (Data make_request []) s0) as (o & s1 & E & Hr' & Ho);
    [exact Hr|exact Hp|unfold read_fuel; change (input_left s0) with (input_left s); unfold input_left; simpl; lia|].
  unfold bind at 1 in Hh. rewrite E in Hh. destruct o as [d|e| |]; try done.
  unfold ret in Hh. simplify_eq. destruct Ho as (_ & pieces & rest' & _ & E2 & E2' & _).
  rewrite Hc in E2. simplify_eq. apply (readHeaders_overread s' rest'); try done. apply Hr'.
Qed.

Lemma pipelining_overreads_witness :
  let s := sample_connection [Arrived (get_request (str "/1") ++ get_request (str "/2"))] [] in
  exists r s', readHeaders (T := SocketSession) s = (Done r, s') /\ m_url r = str "/1" /\
    is_completed r = true /\ (readHeaders (T := SocketSession) s').1 = Undefined.
Proof.
  intros s.
  assert (E : exists r s', readHeaders (T := SocketSession) s = (Done r, s') /\ m_url r = str "/1" /\
            is_completed r = true /\ currentString (m_httpParserBuffer s') = Some (get_request (str "/2"))).
  { eexists _, _. vm_compute. split; [reflexivity|split; [reflexivity|split; reflexivity]]. }
  destruct E as (r & s' & E & Hu & Hd & Hc).
  exists r, s'. split; [exact E|]. split; [exact Hu|]. split; [exact Hd|].
  apply (pipelining_overreads (T := SocketSession) s s' r (get_request (str "/2")));
    [apply sample_connection_ready|reflexivity|exact E|exact Hc|discriminate|].
  decided.
Defined.

(** Only the last fragment survives: the parser reports a URL, a header name
    or a header value in as many pieces as the reads cut it into, and the
    callbacks overwrite instead of appending.  A URL cut by a read is replaced by
    its tail; of a new header's value cut in two, the first part becomes the
    value and the second the value of the header with the empty name. *)
Theorem fragments_overwritten {B} (d : http_parser_data B) (b : B) u1 u2 method f v1 v2 :
  req_fields (req d) !! f = None -> f <> [] ->
  (exists d', callbacks [on_url u1 method; on_url u2 method] (d, b) = Ok (d', b) /\ m_url (req d') = u2) /\
  (exists d', callbacks [on_header_field f; on_header_value v1; on_header_value v2] (d, b) = Ok (d', b) /\
     req_fields (req d') !! f = Some v1 /\ req_fields (req d') !! [] = Some v2).
Proof.
  intros Hf Hne. split; (eexists; split; [reflexivity|]); [done|].
  simpl. rewrite Hf. split; [|by rewrite lookup_insert_eq].
  rewrite lookup_insert_ne by done. by rewrite lookup_insert_eq.
Qed.

Lemma fragments_overwritten_witness :
  let d := Data (make_request (B := unit)) [] in
  exists d', callbacks [on_header_field (str "Content-Length"); on_header_value (str "1");
                        on_header_value (str "2")] (d, tt) = Ok (d', tt) /\
    req_fields (req d') !! str "Content-Length" = Some (str "1").
Proof.
  intros d. destruct (proj2 (fragments_overwritten d tt [] [] [] (str "Content-Length") (str "1") (str "2")
    ltac:(reflexivity) ltac:(discriminate))) as (d' & E & Hv & _). by exists d'.
Defined.




Definition sample_timeouts : timeouts := Build_timeouts 5 10 5 2.

(** A service that refuses the request with [throw 404]. *)
Definition refuse (r : Request unit) : result exn (option (Request unit -> M (session nat unit) unit)) :=
  Ok (Some (fun _ => throw (ex_int 404))).


(** C12. The loop of a connection ends, over either transport: as long as the
    services only use up input, it serves at most one request for each unit of
    input (bytes, errors and ends of stream), then stops, fails or stays suspended, and the number
    of rounds the definition allows is never the reason. *)
Theorem serve_terminates {P B} `{HttpParser P} `{T : Transport P B} `{!TransportLaws T} `{!ReadLaws T}
    `{IterationOrder} conf create_session (s : session P B) :
  (forall r service, create_session r = Ok (Some service) -> respects shrinks (service r)) ->
  exists k o s', serve conf create_session s = (o, s') /\ k <= input_left s /\
    rounds_of conf create_session k s o s'.
Proof. intros Hs. apply serve_loop_rounds; [exact Hs|lia]. Qed.

(** A service that answers every request with an empty 200. *)
Definition answers `{IterationOrder} (r : Request unit)
    : result exn (option (Request unit -> M (session nat unit) unit)) :=
  Ok (Some (fun _ => session_write (T := SocketSession) (toString (-1) (response1 200)))).

Lemma serve_terminates_witness :
  let s := sample_connection [Arrived (get_request (str "/x")); Arrived (get_request (str "/y"))] (replicate 2 AcceptAll) in
  exists k o s', serve (T := SocketSession) (H0 := listed_order) sample_timeouts (answers (H := listed_order)) s = (o, s') /\
    k <= 58 /\ o = Suspended /\ served s' = 2.
Proof.
  intros s.
  destruct (serve_terminates (T := SocketSession) (H0 := listed_order) sample_timeouts
    (answers (H := listed_order)) s) as (k & o & s' & E & Hk & _).
  { intros r service [= <-]. apply session_write_shrinks. }
  exists k, o, s'. split; [exact E|]. split; [exact Hk|].
  assert (F : exists s1, serve (T := SocketSession) (H0 := listed_order) sample_timeouts
    (answers (H := listed_order)) s = (Suspended, s1) /\ served s1 = 2).
  { eexists. vm_compute. split; reflexivity. }
  destruct F as (s1 & F & F2). rewrite E in F. injection F as -> ->. split; [reflexivity|exact F2].
Defined.

(** The deadline of a request with a body: the keep-alive timeout plus
    one second per 512 KiB announced, counted from now, as long as it fits the
    clock's 64 bits; a client that announces some petabytes makes it wrap around
    into the past, so that the next pass of the event loop times the session out
    whatever it is doing. *)
Theorem service_deadline {P B} conf (s : session P B) len :
  (0 <= clock (env s) < 2 ^ 62)%Z -> (0 < keepAliveTimeout conf < 2 ^ 20)%Z -> (0 <= len < ChunkedData)%Z ->
  let deadline n := nextTimeout (session_setSessionTimeout (service_timeout conf n) s) in
  ((keepAliveTimeout conf + len / (512 * 1024) < 2 ^ 32)%Z ->
     deadline len = (clock (env s) + (keepAliveTimeout conf + len / (512 * 1024)) * 1000000000)%Z) /\
  (exists n, 0 <= n < ChunkedData /\ deadline n < 0)%Z.
Proof.
  intros Hc Hk Hl deadline. unfold deadline, nextTimeout, session_setSessionTimeout. simpl.
  change (512 * 1024)%Z with 524288%Z.
  assert (Hq : (0 <= len / 524288)%Z) by (apply Z.div_pos; lia).
  assert (Ha : forall n, (0 <= n < ChunkedData)%Z ->
    service_timeout conf n = (keepAliveTimeout conf + n / 524288)%Z).
  { intros n Hn. unfold service_timeout. rewrite (proj2 (Z.eqb_neq _ _)) by lia. done. }
  assert (Hi : forall z, (- 2 ^ 63 <= z < 2 ^ 63)%Z -> int64 z = z).
  { intros z Hz. unfold int64. rewrite Z.mod_small by lia. lia. }
  split.
  - intros Hs. rewrite Ha by lia. rewrite (proj2 (Z.eqb_neq _ _)) by lia.
    unfold nanoseconds. rewrite (Hi ((keepAliveTimeout conf + len / 524288) * 1000000000)%Z) by lia.
    by rewrite Hi by lia.
  - exists (10000000000 * 524288)%Z. unfold ChunkedData, SIZE_MAX. split; [lia|].
    rewrite Ha by (unfold ChunkedData, SIZE_MAX; lia). rewrite Z.div_mul by lia.
    rewrite (proj2 (Z.eqb_neq _ _)) by lia.
    assert (E : nanoseconds (keepAliveTimeout conf + 10000000000) =
                ((keepAliveTimeout conf + 10000000000) * 1000000000 - 2 ^ 64)%Z).
    { unfold nanoseconds, int64. rewrite <- (Z.mod_unique_pos
        ((keepAliveTimeout conf + 10000000000) * 1000000000 + 2 ^ 63) (2 ^ 64) 1
        ((keepAliveTimeout conf + 10000000000) * 1000000000 + 2 ^ 63 - 2 ^ 64)); lia. }
    rewrite E, Hi by lia. lia.
Qed.

Lemma service_deadline_witness :
  let s := sample_connection [] [] in
  nextTimeout (session_setSessionTimeout (service_timeout sample_timeouts 1048576) s) = 12000001000%Z.
Proof.
  intros s. apply (service_deadline sample_timeouts s 1048576); vm_compute; intuition discriminate.
Defined.
