(* ===== verification/Signals.v ===== *)
(** The server's signal handler and the stack traces it throws
    (src/server/server.cpp, include/dracon/exceptions.h).

    A fault inside a service raises a signal on the thread of its event loop; the
    handler turns it into an exception, which the session's loop catches like any
    other.  What [backtrace], [dladdr] and [__cxa_demangle] find is a parameter. *)

From Stdlib Require Import Ascii String NArith ZArith Lia.
From stdpp Require Import base gmap strings list.
From S2P Require Import Prelude CharBuffer Http Effects Stream Transport Session.
Local Open Scope getodac_scope.

Inductive signal : Type := SIGFPE | SIGILL | SIGINT | SIGSEGV | SIGTERM.
Inductive si_code : Type := FPE_INTDIV | FPE_FLTDIV | si_other.

#[export] Instance signal_eq_dec : EqDecision signal.
Proof. solve_decision. Defined.

#[export] Instance si_code_eq_dec : EqDecision si_code.
Proof. solve_decision. Defined.

(** * Stack traces *)

(** What [dladdr] tells of an address: [dli_fname] and [dli_sname], which may be
    null. *)
Record Dl_info := { dli_fname : bytes; dli_sname : option bytes }.

(** One entry of [backtrace]: the address as it is printed, its line of
    [backtrace_symbols], and the answer of [dladdr]. *)
Record frame := { f_address : bytes; f_symbols : bytes; f_dladdr : option Dl_info }.

Section StackTrace.
(** [abi::__cxa_demangle] when it succeeds. *)
Context (demangle : bytes -> option bytes).

Definition trace_line (f : frame) (i : Dl_info) : bytes :=
  match dli_sname i with
  | Some symbol =>
      dli_fname i ++ str " (" ++ default symbol (demangle symbol) ++ str ")" ++ str " [" ++ f_address f ++ str "]" ++ [LF]
  | None => f_symbols f ++ [LF]
  end.

(** The loop over the entries, until [dladdr] fails. *)
Fixpoint trace_lines (fs : list frame) : list bytes :=
  match fs with
  | [] => []
  | f :: rest => match f_dladdr f with None => [] | Some i => trace_line f i :: trace_lines rest end
  end.

(** [stackTrace]: [backtrace] stores at most a hundred addresses. *)
Definition stackTrace (fs : list frame) (discard : nat) : bytes :=
  concat (trace_lines (drop discard (take 100 fs))).
End StackTrace.

(** * The handler *)

(** The classes of the exceptions it throws; all are [std::runtime_error]s. *)
Inductive signal_error : Type :=
| SegmentationFaultError (arg : bytes)
| FloatingPointError (arg : bytes)
| signal_runtime_error (arg : bytes).

Definition to_exn (e : signal_error) : exn :=
  match e with
  | SegmentationFaultError arg | FloatingPointError arg | signal_runtime_error arg => ex_std (runtime_error arg)
  end.

(** The signals the thread blocks, and the server's [m_shutdown]. *)
Record signals := Signals { blocked : list signal; exit_asked : bool }.

Definition unblockSignal (sig : signal) (s : signals) : signals :=
  Signals (List.filter (fun x => negb (bool_decide (x = sig))) (blocked s)) (exit_asked s).

(** [signalHandler]: [at_null] is [info->si_addr == nullptr]; the exception it throws,
    if any, and what it changes. *)
Definition signalHandler (trace : nat -> bytes) (sig : signal) (at_null : bool) (code : si_code) (s : signals)
    : option signal_error * signals :=
  if (bool_decide (sig = SIGSEGV) && at_null)%bool then
    (Some (SegmentationFaultError (trace 3)), unblockSignal SIGSEGV s)
  else if (bool_decide (sig = SIGFPE) && (bool_decide (code = FPE_INTDIV) || bool_decide (code = FPE_FLTDIV)))%bool then
    (Some (FloatingPointError (trace 3)), unblockSignal SIGFPE s)
  else if (bool_decide (sig = SIGTERM) || bool_decide (sig = SIGINT))%bool then
    (None, Signals (blocked s) true)
  else (Some (signal_runtime_error (trace 3)), s).

(** * Faults in services *)

(** A signal that arrives while a service runs. *)
Definition fault {S : Type} (trace : nat -> bytes) (sig : signal) (at_null : bool) (code : si_code) : M S unit :=
  match (signalHandler trace sig at_null code (Signals [] false)).1 with
  | Some e => throw (to_exn e)
  | None => skip
  end.

(** * Lemmas *)

Lemma trace_lines_length demangle fs : length (trace_lines demangle fs) <= length fs.
Proof. induction fs as [|f fs IH]; cbn; [lia|]. destruct (f_dladdr f); cbn; lia. Qed.

Lemma trace_lines_all demangle fs :
  Forall (fun f => is_Some (f_dladdr f)) fs -> length (trace_lines demangle fs) = length fs.
Proof. induction 1 as [|f fs [i E] _ IH]; cbn; [done|]. rewrite E. cbn. by rewrite IH. Qed.

(** A service that raises [sig] before it has written anything. *)
Lemma fault_serve {P B} `{HttpParser P} `{T : Transport P B} `{IterationOrder} conf create (s s1 : session P B) r trace sig at_null code e :
  readHeaders (session_setSessionTimeout (headersTimeout conf) s) = (Done r, s1) ->
  create r = Ok (Some (fun _ => fault trace sig at_null code)) ->
  (signalHandler trace sig at_null code (Signals [] false)).1 = Some e ->
  exists s2, (modify (session_setSessionTimeout (headersTimeout conf)) >>> serve conf create) s =
      (Raise (to_exn e), s2) /\ env s2 = env s1 /\ m_can_write_errror s2 = true.
Proof.
  intros Hr Hc He. unfold bind at 1. unfold modify at 1. unfold serve. unfold bind at 1, gets at 1.
  cbn [serve_loop]. unfold bind at 1. unfold serve_request. unfold bind at 1. rewrite Hr.
  unfold bind at 1. unfold modify at 1. unfold bind at 1. rewrite Hc. cbn [lift ret].
  unfold bind at 1. unfold modify at 1. unfold bind at 1. unfold fault. rewrite He.
  eexists. split; [reflexivity|]. split; [done|]. by apply (readHeaders_can_write (session_setSessionTimeout (headersTimeout conf) s) r s1).
Qed.

(** * Properties *)


Definition sample_frames : list frame :=
  replicate 3 {| f_address := str "0x1"; f_symbols := []; f_dladdr := Some {| dli_fname := []; dli_sname := None |} |} ++
  [{| f_address := str "0x2a"; f_symbols := []; f_dladdr := Some {| dli_fname := str "libx.so"; dli_sname := Some (str "_Z1fv") |} |};
   {| f_address := str "0x3"; f_symbols := []; f_dladdr := None |}].

Definition sample_demangle (symbol : bytes) : option bytes := if decide (symbol = str "_Z1fv") then Some (str "f()") else None.

Abbreviation sample_faulty :=
  (fun _ : Request unit => @Ok exn _ (Some (fun _ : Request unit =>
     fault (S := session nat unit) (stackTrace sample_demangle sample_frames) SIGSEGV true si_other))).

