(* ===== verification/EventLoop.v ===== *)
(** [SessionsEventLoop] (src/server/sessionseventloop.cpp) and the session
    objects it drives ([BasicServerSession] and [ServerSession] of
    src/server/serversession.h).

    A session object is identified by its address.  What its coroutine does is
    given by the deadlines it leaves at each suspension: the list [co]; the
    coroutine has finished when the list is empty.  Freed objects are not in the
    heap any more: using one is undefined behaviour.  Taking the spin lock twice
    never returns. *)

From Stdlib Require Import Ascii String NArith ZArith Lia.
From stdpp Require Import base gmap strings list sorting.
From S2P Require Import Prelude Http Effects.
Local Open Scope getodac_scope.

Record object := Object {
  order : N;
  (** the deadlines at the coroutine's remaining suspensions *)
  co : list Z;
  (** the coroutine ends by an exception *)
  fails : bool;
  next_timeout : Z
}.

Record eloop := Loop {
  m_sessions : gset N;
  m_activeSessions : Z;
  m_deleteLaterObjects : gset N;
  (** [m_deleteLaterMutex] is held *)
  lock : bool;
  (** the sessions whose socket is registered with epoll *)
  epoll : gset N;
  m_eventFd : N;
  (** the eventfd's counter *)
  counter : Z;
  m_quit : bool;
  objects : gmap N object
}.

Definition set_sessions (x : gset N) (s : eloop) : eloop :=
  Loop x (m_activeSessions s) (m_deleteLaterObjects s) (lock s) (epoll s) (m_eventFd s) (counter s)
    (m_quit s) (objects s).
Definition set_active (x : Z) (s : eloop) : eloop :=
  Loop (m_sessions s) x (m_deleteLaterObjects s) (lock s) (epoll s) (m_eventFd s) (counter s)
    (m_quit s) (objects s).
Definition set_deleteLater (x : gset N) (s : eloop) : eloop :=
  Loop (m_sessions s) (m_activeSessions s) x (lock s) (epoll s) (m_eventFd s) (counter s)
    (m_quit s) (objects s).
Definition set_lock (x : bool) (s : eloop) : eloop :=
  Loop (m_sessions s) (m_activeSessions s) (m_deleteLaterObjects s) x (epoll s) (m_eventFd s) (counter s)
    (m_quit s) (objects s).
Definition set_epoll (x : gset N) (s : eloop) : eloop :=
  Loop (m_sessions s) (m_activeSessions s) (m_deleteLaterObjects s) (lock s) x (m_eventFd s) (counter s)
    (m_quit s) (objects s).
Definition set_counter (x : Z) (s : eloop) : eloop :=
  Loop (m_sessions s) (m_activeSessions s) (m_deleteLaterObjects s) (lock s) (epoll s) (m_eventFd s) x
    (m_quit s) (objects s).
Definition set_quit (x : bool) (s : eloop) : eloop :=
  Loop (m_sessions s) (m_activeSessions s) (m_deleteLaterObjects s) (lock s) (epoll s) (m_eventFd s)
    (counter s) x (objects s).
Definition set_objects (x : gmap N object) (s : eloop) : eloop :=
  Loop (m_sessions s) (m_activeSessions s) (m_deleteLaterObjects s) (lock s) (epoll s) (m_eventFd s)
    (counter s) (m_quit s) x.

(** * Registration *)

(** [epoll_ok] is whether [epoll_ctl(EPOLL_CTL_ADD)] succeeds. *)
Definition registerSession (p : N) (epoll_ok : bool) : M eloop unit :=
  modify (fun s => set_sessions ({[p]} ∪ m_sessions s) s) >>>
  if epoll_ok then
    modify (fun s => set_epoll ({[p]} ∪ epoll s) s) >>>
    modify (fun s => set_active (wrap32 (m_activeSessions s + 1)) s)
  else throw (ex_std (runtime_error (str "Can't register session"))).

(** [EPOLL_CTL_DEL] fails with ENOENT for a socket that is not registered. *)
Definition ENOENT : Z := 2.

Definition unregisterSession (p : N) : M eloop unit :=
  s <-- gets id ;;
  if decide (p ∈ m_sessions s) then
    modify (fun s => set_sessions (m_sessions s ∖ {[p]}) s) >>>
    if decide (p ∈ epoll s) then
      modify (fun s => set_epoll (epoll s ∖ {[p]}) s) >>>
      modify (fun s => set_active (wrap32 (m_activeSessions s - 1)) s)
    else throw (ex_code ENOENT)
  else skip.

(** [SpinLock::lock] by the thread that may hold it already. *)
Definition acquire : M eloop unit := fun s =>
  if lock s then (Suspended, s) else (Done tt, set_lock true s).

Definition release : M eloop unit := modify (set_lock false).

Definition deleteLater (p : N) : M eloop unit :=
  try_catch (unregisterSession p) (fun _ => skip) >>>
  acquire >>>
  modify (fun s => set_deleteLater ({[p]} ∪ m_deleteLaterObjects s) s) >>>
  release.

(** [eventfd_write]: adds to the counter, and does nothing when the counter
    would exceed its maximum. *)
Definition eventfd_write (v : Z) : M eloop unit :=
  modify (fun s => if (counter s + v <=? SIZE_MAX - 1)%Z then set_counter (counter s + v) s else s).

(** [eventfd_read]: the counter, which becomes zero; fails when it is zero. *)
Definition eventfd_read : M eloop (option Z) := fun s =>
  if (counter s =? 0)%Z then (Done None, s) else (Done (Some (counter s)), set_counter 0 s).

Definition shutdown : M eloop unit := modify (set_quit true) >>> eventfd_write 1.

(** [Wakeupper::wakeup] of the session [p], from any thread. *)
Definition wakeupper_wakeup (p : N) : M eloop unit := eventfd_write (Z.of_N p).

(** * Sessions *)

Definition get_object (p : N) : M eloop object := fun s =>
  match objects s !! p with
  | Some o => (Done o, s)
  | None => (Undefined, s)
  end.

(** [static_cast<bool>(m_ioYield)] *)
Definition alive (o : object) : bool := match co o with [] => false | _ => true end.

(** [m_ioYield(ec)]: runs the coroutine to its next suspension or its end; a
    coroutine that ends by an exception calls [deleteLater] ([ioLoop]'s [catch]
    in serversession.h).  Resuming a finished coroutine is undefined. *)
Definition m_ioYield (p : N) : M eloop unit :=
  o <-- get_object p ;;
  match co o with
  | [] => undefined
  | t :: rest =>
      modify (fun s => set_objects (<[p := Object (order o) rest (fails o) t]> (objects s)) s) >>>
      when (fails o && bool_decide (rest = []))%bool (deleteLater p)
  end.

(** [while (m_ioYield) m_ioYield(ec);] *)
Fixpoint quit_loop (fuel : nat) (p : N) : M eloop unit :=
  o <-- get_object p ;;
  if alive o then
    match fuel with
    | O => undefined
    | S fuel' => m_ioYield p >>> quit_loop fuel' p
    end
  else skip.

Definition quitIoLoop (p : N) : M eloop unit :=
  o <-- get_object p ;; quit_loop (length (co o)) p.

Definition EPOLLIN : N := 1.
Definition EPOLLPRI : N := 2.
Definition EPOLLOUT : N := 4.
Definition EPOLLERR : N := 8.
Definition EPOLLHUP : N := 16.
Definition EPOLLRDHUP : N := 8192.

Definition error_events : N := N.lor EPOLLERR (N.lor EPOLLRDHUP EPOLLHUP).
Definition io_events : N := N.lor EPOLLIN (N.lor EPOLLPRI EPOLLOUT).

Definition processEvents (p events : N) : M eloop unit :=
  if negb (N.land events error_events =? 0)%N then quitIoLoop p >>> deleteLater p
  else if negb (N.land events io_events =? 0)%N then
    o <-- get_object p ;; if alive o then m_ioYield p else deleteLater p
  else deleteLater p.

Definition session_timeout (p : N) : M eloop unit := quitIoLoop p >>> deleteLater p.

Definition session_wakeup (p : N) : M eloop unit :=
  o <-- get_object p ;; if alive o then m_ioYield p else deleteLater p.

(** [~ServerSession] and the end of the object's life. *)
Definition destroy (p : N) : M eloop unit :=
  quitIoLoop p >>>
  try_catch (unregisterSession p) (fun _ => skip) >>>
  modify (fun s => set_objects (delete p (objects s)) s).

(** * One pass of the loop *)

(** [sessionEvents.insert(std::upper_bound(...), ev)]: before the first session
    with a greater order. *)
Fixpoint insert_event (ord : N -> N) (ev : N * N) (l : list (N * N)) : list (N * N) :=
  match l with
  | [] => [ev]
  | e :: l' => if (ord ev.1 <? ord e.1)%N then ev :: e :: l' else e :: insert_event ord ev l'
  end.

Definition balance (ord : N -> N) (evs : list (N * N)) : list (N * N) :=
  fold_left (fun l ev => insert_event ord ev l) evs [].

(** [event.data.fd != m_eventFd]: [fd] is the low half of the union with the
    session's address. *)
Definition is_session (s : eloop) (ev : N * N) : bool := negb (ev.1 mod 2 ^ 32 =? m_eventFd s)%N.

Definition object_order (s : eloop) (p : N) : N :=
  match objects s !! p with Some o => order o | None => 0%N end.

Definition dispatch (workloadBalancing : bool) (evs : list (N * N)) : M eloop bool :=
  s <-- gets id ;;
  let sessionEvents := List.filter (is_session s) evs in
  let wokeup := negb (forallb (is_session s) evs) in
  iterM (fun ev => processEvents ev.1 ev.2)
    (if workloadBalancing then balance (object_order s) sessionEvents else sessionEvents) >>>
  ret wokeup.

(** The value an [eventfd_read] loop collects: a second read finds zero. *)
Definition wokeup_sessions (wokeup : bool) : M eloop (option Z) :=
  if wokeup then
    data <-- eventfd_read ;;
    ret (match data with Some d => if (d =? 1)%Z then None else Some d | None => None end)
  else ret None.

(** [max(1000ms, duration_cast<ms>(deadline - now) + 50ms)] *)
Definition wait_for (now deadline : Z) : Z :=
  Z.max 1000 (Z.quot (deadline - now) 1000000 + 50).

Fixpoint check_sessions (woken : option Z) (now : Z) (sessions : list N) (timeout : Z) : M eloop Z :=
  match sessions with
  | [] => ret timeout
  | p :: rest =>
      when (bool_decide (woken = Some (Z.of_N p))) (session_wakeup p) >>>
      o <-- get_object p ;;
      let deadline := next_timeout o in
      if (deadline =? 0)%Z then check_sessions woken now rest timeout
      else if (deadline <=? now)%Z then session_timeout p >>> check_sessions woken now rest timeout
      else
        check_sessions woken now rest
          (if (timeout =? -1)%Z then wait_for now deadline else Z.min timeout (wait_for now deadline))
  end.

Definition delete_all : M eloop unit :=
  acquire >>>
  l <-- gets (fun s => elements (m_deleteLaterObjects s)) ;;
  iterM destroy l >>>
  modify (set_deleteLater ∅) >>>
  release.

(** A [std::set] of pointers is walked in the order of the addresses. *)
Definition addresses (x : gset N) : list N := merge_sort N.le (elements x).

(** One round of [SessionsEventLoop::loop] after [epoll_wait] returned [evs]: the
    timeout of the next wait. *)
Definition loop_pass (workloadBalancing : bool) (evs : list (N * N)) (now : Z) : M eloop Z :=
  wokeup <-- dispatch workloadBalancing evs ;;
  woken <-- wokeup_sessions wokeup ;;
  sessions <-- gets (fun s => addresses (m_sessions s)) ;;
  timeout <-- check_sessions woken now sessions (-1) ;;
  delete_all >>>
  ret timeout.

(** * Invariant *)

(** The counter of active sessions is the number of sockets registered with
    epoll; a session waiting for its deletion is unregistered and its coroutine
    has finished; no list holds a freed object. *)
Definition inv (s : eloop) : Prop :=
  epoll s ⊆ m_sessions s /\
  m_activeSessions s = wrap32 (Z.of_nat (size (epoll s))) /\
  m_sessions s ⊆ dom (objects s) /\ m_deleteLaterObjects s ⊆ dom (objects s) /\
  m_deleteLaterObjects s ## m_sessions s /\
  (forall p o, p ∈ m_deleteLaterObjects s -> objects s !! p = Some o -> co o = []).

(** What an operation on the session [p] may change. *)
Definition frame (p : N) (s s' : eloop) : Prop :=
  inv s' /\ lock s' = lock s /\ dom (objects s') = dom (objects s) /\
  (forall q, q <> p -> objects s' !! q = objects s !! q) /\
  m_sessions s' ⊆ m_sessions s /\ m_sessions s ∖ {[p]} ⊆ m_sessions s' /\
  m_deleteLaterObjects s ⊆ m_deleteLaterObjects s' /\
  m_deleteLaterObjects s' ⊆ {[p]} ∪ m_deleteLaterObjects s /\
  m_eventFd s' = m_eventFd s /\ counter s' = counter s.

Lemma frame_refl p s : inv s -> frame p s s.
Proof. intros H. unfold frame. split_and!; set_solver. Qed.

Lemma frame_trans p s1 s2 s3 : frame p s1 s2 -> frame p s2 s3 -> frame p s1 s3.
Proof.
  intros (A1 & A2 & A3 & A4 & A5 & A6 & A7 & A8 & A9 & A10) (B1 & B2 & B3 & B4 & B5 & B6 & B7 & B8 & B9 & B10).
  unfold frame. split_and!; [done|congruence|congruence| |set_solver..|congruence|congruence].
  intros q Hq. by rewrite B4, A4.
Qed.

(** The effect of a caught [unregisterSession]. *)
Definition evict (p : N) (s : eloop) : eloop :=
  if decide (p ∈ m_sessions s) then
    let s1 := set_sessions (m_sessions s ∖ {[p]}) s in
    if decide (p ∈ epoll s) then
      set_active (wrap32 (m_activeSessions s - 1)) (set_epoll (epoll s ∖ {[p]}) s1)
    else s1
  else s.

Lemma unregister_evict p s :
  try_catch (unregisterSession p) (fun _ => skip) s = (Done tt, evict p s).
Proof.
  unfold try_catch, unregisterSession, evict, bind, gets, modify, id.
  case_decide; [|done]. by case_decide.
Qed.

Lemma wrap32_pred n : wrap32 (wrap32 n - 1) = wrap32 (n - 1).
Proof. unfold wrap32. by rewrite Zminus_mod_idemp_l. Qed.

Lemma wrap32_succ n : wrap32 (wrap32 n + 1) = wrap32 (n + 1).
Proof. unfold wrap32. by rewrite Zplus_mod_idemp_l. Qed.

Lemma evict_inv p s : inv s -> inv (evict p s).
Proof.
  intros (H1 & H2 & H3 & H4 & H5 & H6). unfold evict.
  repeat case_decide; unfold inv; simpl; split_and!; try done; try set_solver.
  rewrite H2, wrap32_pred. f_equal.
  rewrite size_difference, size_singleton by set_solver.
  assert (size (epoll s) <> 0) by (intros ?%size_empty_inv; set_solver). lia.
Qed.

Lemma evict_frame p s : inv s -> frame p s (evict p s).
Proof.
  intros H. pose proof (evict_inv p s H) as H'. unfold frame. split; [done|].
  unfold evict. repeat case_decide; simpl; split_and!; try done; set_solver.
Qed.

Lemma evict_gone p s : inv s -> p ∉ m_sessions (evict p s).
Proof. intros _. unfold evict. repeat case_decide; simpl; set_solver. Qed.

(** Scheduling a finished session for deletion. *)
Lemma deleteLater_spec p s o :
  inv s -> lock s = false -> objects s !! p = Some o -> co o = [] ->
  exists s', deleteLater p s = (Done tt, s') /\ frame p s s' /\ objects s' = objects s /\
    p ∈ m_deleteLaterObjects s'.
Proof.
  intros H Hl Ho Hc. unfold deleteLater, bind. rewrite unregister_evict.
  pose proof (evict_frame p s H) as Hf. pose proof (evict_gone p s H) as Hg.
  assert (Eo : objects (evict p s) = objects s) by (unfold evict; by repeat case_decide).
  assert (Ed : m_deleteLaterObjects (evict p s) = m_deleteLaterObjects s)
    by (unfold evict; by repeat case_decide).
  destruct Hf as (A1 & A2 & A3 & A4 & A5 & A6 & A7 & A8 & A9 & A10).
  unfold acquire. rewrite A2, Hl. unfold modify, release. eexists. split; [reflexivity|].
  destruct A1 as (H1 & H2 & H3 & H4 & H5 & H6). rewrite Eo, Ed in *.
  assert (Hdom : p ∈ dom (objects s)) by (by apply elem_of_dom_2 in Ho).
  unfold frame, inv. simpl. rewrite Eo, Ed.
  split_and!; try done; try set_solver.
Qed.

Definition lookup_ok (p : N) (s : eloop) (P : object -> Prop) : Prop :=
  exists o, objects s !! p = Some o /\ P o.

(** Replacing the object of a session that is not waiting for its deletion. *)
Lemma set_object_frame p s o o' :
  inv s -> objects s !! p = Some o -> co o <> [] ->
  frame p s (set_objects (<[p := o']> (objects s)) s).
Proof.
  intros H Ho Hc. pose proof H as (H1 & H2 & H3 & H4 & H5 & H6).
  assert (Hdom : dom (<[p := o']> (objects s)) = dom (objects s))
    by (apply dom_insert_lookup_L; by eexists).
  assert (Hp : p ∉ m_deleteLaterObjects s) by (intros Hd; by apply (H6 p o) in Hd).
  unfold frame, inv. simpl. rewrite Hdom. split_and!; try done.
  - intros q oq Hq. rewrite lookup_insert_ne by (intros ->; done). by apply H6.
  - intros q Hq. by rewrite lookup_insert_ne.
  - clear. set_solver.
  - clear. set_solver.
Qed.

Lemma ioYield_spec p s o :
  inv s -> lock s = false -> objects s !! p = Some o -> co o <> [] ->
  exists s' o', m_ioYield p s = (Done tt, s') /\ frame p s s' /\
    objects s' !! p = Some o' /\ S (length (co o')) = length (co o) /\
    (next_timeout o' ∈ co o).
Proof.
  intros H Hl Ho Hc. unfold m_ioYield, bind, get_object. rewrite Ho.
  destruct (co o) as [|t rest] eqn:E; [done|]. set (o' := Object (order o) rest (fails o) t).
  pose proof (set_object_frame p s o o' H Ho ltac:(by rewrite E)) as Hf.
  set (s1 := set_objects (<[p := o']> (objects s)) s) in *.
  assert (Ho1 : objects s1 !! p = Some o') by (simpl; by rewrite lookup_insert_eq).
  unfold modify. fold s1. unfold when. destruct (fails o && bool_decide (rest = []))%bool eqn:Ef.
  - apply andb_true_iff in Ef as [_ Hr%bool_decide_eq_true].
    destruct (deleteLater_spec p s1 o') as (s2 & E2 & Hf2 & Eo2 & _); [apply Hf|done|done|done|].
    exists s2, o'. rewrite E2, Eo2. split_and!; [done|by eapply frame_trans|done|done|simpl; set_solver].
  - exists s1, o'. split_and!; [done|done|done|done|simpl; set_solver].
Qed.

Lemma quit_loop_spec n p s o :
  inv s -> lock s = false -> objects s !! p = Some o -> length (co o) <= n ->
  exists s' o', quit_loop n p s = (Done tt, s') /\ frame p s s' /\
    objects s' !! p = Some o' /\ co o' = [].
Proof.
  revert s o; induction n as [|n IH]; intros s o H Hl Ho Hn; cbn [quit_loop]; unfold bind at 1, get_object;
    rewrite Ho; unfold alive; destruct (co o) as [|t rest] eqn:E; simpl in Hn;
    try (exists s, o; split_and!; [done|by apply frame_refl|done|done]); [lia|].
  destruct (ioYield_spec p s o) as (s1 & o1 & E1 & Hf & Ho1 & Hlen & _); [done|done|done|by rewrite E|].
  unfold bind. rewrite E1. destruct (IH s1 o1) as (s2 & o2 & E2 & Hf2 & Ho2 & Hc2);
    [apply Hf| |done|rewrite E in Hlen; simpl in Hlen; lia|].
  { destruct Hf as (_ & -> & _). done. }
  exists s2, o2. split_and!; [done|by eapply frame_trans|done|done].
Qed.

(** The session's coroutine runs to its end, then the session is to be deleted. *)
Lemma quit_delete_spec p s o :
  inv s -> lock s = false -> objects s !! p = Some o ->
  exists s', (quitIoLoop p >>> deleteLater p) s = (Done tt, s') /\ frame p s s' /\
    p ∈ m_deleteLaterObjects s'.
Proof.
  intros H Hl Ho. unfold quitIoLoop, bind at 1, bind at 1, get_object. rewrite Ho.
  destruct (quit_loop_spec (length (co o)) p s o) as (s1 & o1 & E1 & Hf & Ho1 & Hc1); [done..|].
  rewrite E1. destruct (deleteLater_spec p s1 o1) as (s2 & E2 & Hf2 & _ & Hd);
    [apply Hf|by destruct Hf as (_ & -> & _)|done|done|].
  exists s2. split_and!; [done|by eapply frame_trans|done].
Qed.

(** The session gets its turn. *)
Lemma resume_or_delete_spec p s o :
  inv s -> lock s = false -> objects s !! p = Some o ->
  exists s', session_wakeup p s = (Done tt, s') /\ frame p s s'.
Proof.
  intros H Hl Ho. unfold session_wakeup, bind, get_object. rewrite Ho. unfold alive.
  destruct (co o) as [|t rest] eqn:E.
  - destruct (deleteLater_spec p s o) as (s1 & E1 & Hf & _); [done..|]. by exists s1.
  - destruct (ioYield_spec p s o) as (s1 & o1 & E1 & Hf & _); [done|done|done|by rewrite E|]. by exists s1.
Qed.

(** Events epoll can report for the mask the sessions register. *)
Definition handled (events : N) : Prop :=
  (N.land events (N.lor error_events io_events) <> 0)%N.

Lemma processEvents_spec p ev s o :
  inv s -> lock s = false -> objects s !! p = Some o -> handled ev ->
  exists s', processEvents p ev s = (Done tt, s') /\ frame p s s'.
Proof.
  intros H Hl Ho Hh. unfold processEvents.
  destruct (N.eqb_spec (N.land ev error_events) 0) as [He|He]; simpl.
  - destruct (N.eqb_spec (N.land ev io_events) 0) as [Hi|Hi]; simpl.
    + destruct Hh. by rewrite N.land_lor_distr_r, He, Hi.
    + by apply (resume_or_delete_spec p s o).
  - destruct (quit_delete_spec p s o H Hl Ho) as (s' & E & Hf & _). by exists s'.
Qed.

(** * A pass *)

(** What a sequence of operations on sessions keeps. *)
Definition steps (s s' : eloop) : Prop :=
  inv s' /\ lock s' = false /\ dom (objects s') = dom (objects s) /\
  m_sessions s' ⊆ m_sessions s /\ m_eventFd s' = m_eventFd s /\ counter s' = counter s.

Lemma steps_refl s : inv s -> lock s = false -> steps s s.
Proof. intros. by split_and!. Qed.

Lemma steps_trans s1 s2 s3 : steps s1 s2 -> steps s2 s3 -> steps s1 s3.
Proof.
  intros (A1 & A2 & A3 & A4 & A5 & A6) (B1 & B2 & B3 & B4 & B5 & B6).
  unfold steps. split_and!; [done|done|congruence|set_solver|congruence|congruence].
Qed.

Lemma frame_steps p s s' : lock s = false -> frame p s s' -> steps s s'.
Proof. intros Hl (A1 & A2 & A3 & A4 & A5 & A6 & A7 & A8 & A9 & A10). by split_and!; try congruence. Qed.

Lemma insert_event_perm ord ev l : insert_event ord ev l ≡ₚ ev :: l.
Proof.
  induction l as [|e l IH]; simpl; [done|]. case_match; [done|]. rewrite IH. apply Permutation_swap.
Qed.

Lemma balance_app ord l evs :
  fold_left (fun l ev => insert_event ord ev l) evs l ≡ₚ l ++ evs.
Proof.
  revert l; induction evs as [|ev evs IH]; intros l; simpl; [by rewrite app_nil_r|].
  rewrite IH, insert_event_perm. by rewrite <- Permutation_middle.
Qed.

Lemma balance_perm ord evs : balance ord evs ≡ₚ evs.
Proof. apply (balance_app ord []). Qed.

Lemma process_all_spec evs s :
  inv s -> lock s = false ->
  Forall (fun ev => ev.1 ∈ dom (objects s) /\ handled ev.2) evs ->
  exists s', iterM (fun ev => processEvents ev.1 ev.2) evs s = (Done tt, s') /\ steps s s'.
Proof.
  revert s; induction evs as [|[p ev] evs IH]; intros s H Hl Hall.
  { exists s. split; [done|by apply steps_refl]. }
  apply Forall_cons in Hall as [[Hp Hh] Hall]. apply elem_of_dom in Hp as [o Ho].
  destruct (processEvents_spec p ev s o) as (s1 & E1 & Hf); [done..|].
  apply frame_steps in Hf; [|done].
  destruct (IH s1) as (s2 & E2 & H2);
    [apply Hf|apply Hf| |exists s2; split; [|by eapply steps_trans]].
  - destruct Hf as (_ & _ & -> & _). done.
  - cbn [iterM]. unfold bind. cbn [fst snd]. by rewrite E1.
Qed.

Definition checked (now timeout : Z) (s : eloop) (p : N) : Prop :=
  p ∈ m_deleteLaterObjects s \/
  exists o, objects s !! p = Some o /\
    (next_timeout o = 0%Z \/
     (now < next_timeout o /\ timeout <> -1 /\ timeout <= wait_for now (next_timeout o))%Z).

Definition sane (timeout : Z) : Prop := (timeout = -1 \/ 1000 <= timeout)%Z.

Lemma wait_for_ge now d : (1000 <= wait_for now d)%Z.
Proof. unfold wait_for. lia. Qed.

(** One session's turn: woken if asked for, then its deadline is looked at. *)
Lemma check_one woken now p rest timeout s :
  inv s -> lock s = false -> p ∈ dom (objects s) -> sane timeout ->
  exists s' timeout', frame p s s' /\ sane timeout' /\
    (timeout <> -1 -> timeout' <> -1 /\ timeout' <= timeout)%Z /\ checked now timeout' s' p /\
    check_sessions woken now (p :: rest) timeout s = check_sessions woken now rest timeout' s'.
Proof.
  intros H Hl [o Ho]%elem_of_dom Hs. cbn [check_sessions]. unfold bind at 1.
  assert (Hw : exists s1, when (bool_decide (woken = Some (Z.of_N p))) (session_wakeup p) s = (Done tt, s1) /\
    frame p s s1).
  { case_bool_decide; [by apply (resume_or_delete_spec p s o)|]. exists s. split; [done|by apply frame_refl]. }
  destruct Hw as (s1 & -> & Hf). pose proof Hf as (Hi1 & Hl1 & Hd1 & _). rewrite Hl in Hl1.
  assert (Ho1 : p ∈ dom (objects s1)) by (rewrite Hd1; by apply elem_of_dom_2 in Ho).
  apply elem_of_dom in Ho1 as [o1 Ho1]. unfold bind at 1, get_object. rewrite Ho1.
  pose proof (wait_for_ge now (next_timeout o1)) as Hge.
  destruct (Z.eqb_spec (next_timeout o1) 0) as [Hz|Hz].
  { exists s1, timeout. split_and!; try done. right. exists o1. auto. }
  destruct (Z.leb_spec (next_timeout o1) now) as [Hn|Hn].
  - destruct (quit_delete_spec p s1 o1) as (s2 & E2 & Hf2 & Hd2); [done..|].
    exists s2, timeout. split_and!; try done; [by eapply frame_trans|by left|].
    unfold session_timeout. unfold bind at 1. by rewrite E2.
  - eexists s1, _. split; [done|]. split; [|split; [|split; [|reflexivity]]].
    + unfold sane in *. destruct (Z.eqb_spec timeout (-1)); lia.
    + intros Ht. rewrite (proj2 (Z.eqb_neq _ _)) by done. unfold sane in Hs. lia.
    + right. exists o1. split; [done|]. right. destruct (Z.eqb_spec timeout (-1)); [lia|].
      unfold sane in Hs. lia.
Qed.

Lemma checked_frame now t t' p q s s' :
  q <> p -> frame q s s' -> checked now t s p -> (t <> -1 -> t' <> -1 /\ t' <= t)%Z -> checked now t' s' p.
Proof.
  intros Hq (_ & _ & _ & A4 & _ & _ & A7 & _) [Hd|(o & Ho & Hn)] Ht; [left; set_solver|].
  right. exists o. split; [rewrite A4; done|]. destruct Hn as [?|(? & ? & ?)]; [by left|right].
  destruct (Ht ltac:(done)). split_and!; [done|done|lia].
Qed.

Lemma check_sessions_spec woken now l timeout s :
  inv s -> lock s = false -> NoDup l -> Forall (fun p => p ∈ dom (objects s)) l -> sane timeout ->
  exists s' timeout', check_sessions woken now l timeout s = (Done timeout', s') /\ steps s s' /\
    sane timeout' /\ (timeout <> -1 -> timeout' <> -1 /\ timeout' <= timeout)%Z /\
    Forall (checked now timeout' s') l /\
    (forall p, p ∉ l -> forall t, checked now t s p -> (t <> -1 -> timeout' <> -1 /\ timeout' <= t)%Z ->
       checked now timeout' s' p).
Proof.
  revert timeout s; induction l as [|p l IH]; intros timeout s H Hl Hnd Hall Hs.
  { exists s, timeout. split_and!; try done.
    intros p _ t [?|(o & Ho & Hn)] Ht; [by left|right; exists o; split; [done|]].
    destruct Hn as [?|(? & ? & ?)]; [by left|right]. destruct (Ht ltac:(done)). split_and!; [done|done|lia]. }
  apply NoDup_cons in Hnd as [Hp Hnd]. apply Forall_cons in Hall as [Hdp Hall].
  destruct (check_one woken now p l timeout s H Hl Hdp Hs) as (s1 & t1 & Hf & Hs1 & Ht1 & Hc1 & ->).
  pose proof (frame_steps p s s1 Hl Hf) as Hst.
  destruct (IH t1 s1) as (s' & t' & E & Hst' & Hs' & Ht' & Hall' & Hrest);
    [apply Hf|apply Hst|done| |done|].
  { destruct Hst as (_ & _ & -> & _). done. }
  exists s', t'. split_and!; [done|by eapply steps_trans|done| | |].
  - intros Ht. destruct (Ht1 Ht). destruct (Ht' ltac:(done)). split; [done|lia].
  - apply Forall_cons. split; [|done]. by apply (Hrest p Hp t1).
  - intros q [Hqp Hql]%not_elem_of_cons t Hc Ht.
    assert (Hc' : checked now t s1 q) by (apply (checked_frame now t t q p s s1); [done|done|done|intros; split; [done|lia]]).
    by apply (Hrest q Hql t).
Qed.

(** Destroying a finished, unregistered session only frees it. *)
Lemma destroy_spec p s o :
  p ∉ m_sessions s -> objects s !! p = Some o -> co o = [] ->
  destroy p s = (Done tt, set_objects (delete p (objects s)) s).
Proof.
  intros Hp Ho Hc. unfold destroy, quitIoLoop, bind at 1, bind at 1, get_object. rewrite Ho, Hc.
  cbn [length quit_loop]. unfold bind at 1, get_object. rewrite Ho. unfold alive. rewrite Hc.
  unfold bind, skip, ret. rewrite unregister_evict. unfold evict. by rewrite decide_False by done.
Qed.

Definition free_all (l : list N) (m : gmap N object) : gmap N object :=
  fold_left (fun m p => delete p m) l m.

Lemma free_all_lookup l m q :
  free_all l m !! q = if decide (q ∈ l) then None else m !! q.
Proof.
  revert m; induction l as [|p l IH]; intros m; simpl; [done|]. rewrite IH.
  destruct (decide (q ∈ l)) as [Hq|Hq].
  - by rewrite decide_True by set_solver.
  - destruct (decide (q = p)) as [->|Hqp].
    + rewrite decide_True by set_solver. by rewrite lookup_delete_eq.
    + rewrite decide_False by set_solver. by rewrite lookup_delete_ne.
Qed.

Lemma destroy_all_spec l s :
  NoDup l -> Forall (fun p => p ∉ m_sessions s /\ exists o, objects s !! p = Some o /\ co o = []) l ->
  iterM destroy l s = (Done tt, set_objects (free_all l (objects s)) s).
Proof.
  revert s; induction l as [|p l IH]; intros s Hnd Hall; [by destruct s|].
  apply NoDup_cons in Hnd as [Hp Hnd]. apply Forall_cons in Hall as [(Hs & o & Ho & Hc) Hall].
  cbn [iterM]. unfold bind. rewrite (destroy_spec p s o) by done. rewrite IH; [done|done|].
  apply Forall_forall. intros q Hq. apply (proj1 (Forall_forall _ _) Hall) in Hq as Hq'.
  destruct Hq' as (? & oq & Hoq & ?). split; [done|]. exists oq. split; [|done]. simpl.
  rewrite lookup_delete_ne; [done|]. by intros ->.
Qed.

Lemma delete_all_spec s :
  inv s -> lock s = false ->
  exists s', delete_all s = (Done tt, s') /\ inv s' /\ lock s' = false /\
    m_deleteLaterObjects s' = ∅ /\ m_sessions s' = m_sessions s /\
    (forall p, p ∉ m_deleteLaterObjects s -> objects s' !! p = objects s !! p) /\
    (forall p, p ∈ m_deleteLaterObjects s -> objects s' !! p = None).
Proof.
  intros H Hl. pose proof H as (H1 & H2 & H3 & H4 & H5 & H6).
  unfold delete_all, bind, acquire. rewrite Hl. unfold gets, modify, release.
  rewrite destroy_all_spec; [|apply NoDup_elements|].
  2: { apply Forall_forall. intros p Hp%elem_of_elements. simpl. split; [set_solver|].
       assert (Hd : p ∈ dom (objects s)) by set_solver. apply elem_of_dom in Hd as [o Ho].
       exists o. split; [done|]. by eapply H6. }
  set (m' := free_all _ _). eexists. split; [reflexivity|]. simpl.
  assert (Hlk : forall p, m' !! p = if decide (p ∈ m_deleteLaterObjects s) then None else objects s !! p).
  { intros p. unfold m'. rewrite free_all_lookup. cbn [objects set_lock m_deleteLaterObjects].
    destruct (decide (p ∈ elements (m_deleteLaterObjects s))) as [Hp|Hp]; rewrite elem_of_elements in Hp;
      [by rewrite decide_True|by rewrite decide_False]. }
  assert (Hdom : forall p, p ∈ m_sessions s -> p ∈ dom m').
  { intros p Hp. apply elem_of_dom. rewrite Hlk, decide_False by set_solver. apply elem_of_dom. set_solver. }
  split_and!; try done.
  - intros p Hp. by rewrite Hlk, decide_False.
  - intros p Hp. by rewrite Hlk, decide_True.
Qed.

Lemma dispatch_spec balanced evs s :
  inv s -> lock s = false ->
  (forall ev, ev ∈ evs -> is_session s ev = true -> ev.1 ∈ dom (objects s) /\ handled ev.2) ->
  exists s', dispatch balanced evs s = (Done (negb (forallb (is_session s) evs)), s') /\ steps s s'.
Proof.
  intros H Hl Hev. unfold dispatch, bind at 1, gets, id.
  set (l := if balanced then _ else _).
  assert (Hp : l ≡ₚ List.filter (is_session s) evs) by (unfold l; destruct balanced; [apply balance_perm|done]).
  destruct (process_all_spec l s) as (s' & E & Hs); [done|done| |].
  - rewrite Hp. apply Forall_forall. intros ev Hin%list_elem_of_In.
    apply List.filter_In in Hin as [Hin Hi]. apply Hev; [by apply list_elem_of_In|done].
  - exists s'. unfold bind. by rewrite E.
Qed.

Lemma wokeup_sessions_spec w s :
  inv s -> lock s = false ->
  exists r s', wokeup_sessions w s = (Done r, s') /\ inv s' /\ lock s' = false /\
    m_sessions s' = m_sessions s /\ objects s' = objects s.
Proof.
  intros H Hl. unfold wokeup_sessions. destruct w; [|by eexists _, _].
  unfold bind, eventfd_read. by destruct (counter s =? 0)%Z; eexists _, _.
Qed.

Lemma addresses_perm x : addresses x ≡ₚ elements x.
Proof. apply merge_sort_Permutation. Qed.

(** * Order of a balanced pass *)

Definition ord_le (ord : N -> N) (a b : N * N) : Prop := (ord a.1 <= ord b.1)%N.

Lemma insert_event_sorted ord ev l :
  StronglySorted (ord_le ord) l -> StronglySorted (ord_le ord) (insert_event ord ev l).
Proof.
  induction 1 as [|e l Hl IH He]; simpl; [by repeat constructor|].
  destruct (N.ltb_spec (ord ev.1) (ord e.1)) as [Hlt|Hge].
  - constructor; [by constructor|]. constructor; [unfold ord_le; lia|].
    eapply Forall_impl; [exact He|]. unfold ord_le. simpl. lia.
  - constructor; [done|]. rewrite insert_event_perm. constructor; [done|done].
Qed.

Lemma insert_event_stable ord k ev l :
  StronglySorted (ord_le ord) l ->
  List.filter (fun e => ord e.1 =? k)%N (insert_event ord ev l) =
  List.filter (fun e => ord e.1 =? k)%N (l ++ [ev]).
Proof.
  intros Hs. rewrite List.filter_app. induction Hs as [|e l Hl IH He]; [done|]. cbn [insert_event].
  destruct (N.ltb_spec (ord ev.1) (ord e.1)) as [Hlt|Hge].
  - cbn [List.filter]. destruct (N.eqb_spec (ord ev.1) k) as [Hk|Hk]; [|by rewrite app_nil_r].
    assert (Hno : List.filter (fun e => ord e.1 =? k)%N (e :: l) = []).
    { apply List.incl_l_nil. intros x Hx.
      apply List.filter_In in Hx as [Hx Hxk%N.eqb_eq]. exfalso. apply list_elem_of_In in Hx.
      apply elem_of_cons in Hx as [->|Hx]; [lia|]. rewrite Forall_forall in He. specialize (He x Hx).
      unfold ord_le in He. lia. }
    cbn [List.filter] in Hno. by rewrite Hno.
  - cbn [List.filter]. destruct (ord e.1 =? k)%N; [|done]. by rewrite IH.
Qed.

Lemma balance_loop_spec ord evs l :
  StronglySorted (ord_le ord) l ->
  StronglySorted (ord_le ord) (fold_left (fun l ev => insert_event ord ev l) evs l) /\
  forall k, List.filter (fun e => ord e.1 =? k)%N (fold_left (fun l ev => insert_event ord ev l) evs l) =
            List.filter (fun e => ord e.1 =? k)%N (l ++ evs).
Proof.
  revert l; induction evs as [|ev evs IH]; intros l Hl; simpl; [split; [done|by rewrite app_nil_r]|].
  destruct (IH (insert_event ord ev l)) as [H1 H2]; [by apply insert_event_sorted|].
  split; [done|]. intros k. rewrite H2, List.filter_app, insert_event_stable by done.
  by rewrite <- List.filter_app, <- app_assoc.
Qed.

Lemma pass_spec balanced evs now s :
  inv s -> lock s = false ->
  (forall ev, ev ∈ evs -> is_session s ev = true -> ev.1 ∈ dom (objects s) /\ handled ev.2) ->
  exists timeout s', loop_pass balanced evs now s = (Done timeout, s') /\
    inv s' /\ lock s' = false /\ m_deleteLaterObjects s' = ∅ /\ dom (objects s') ⊆ dom (objects s) /\
    sane timeout /\
    forall p, p ∈ m_sessions s' -> exists o, objects s' !! p = Some o /\
      (next_timeout o = 0 \/
       now < next_timeout o /\ timeout <> -1 /\ timeout <= wait_for now (next_timeout o))%Z.
Proof.
  intros H Hl Hev. unfold loop_pass, bind at 1.
  destruct (dispatch_spec balanced evs s H Hl Hev) as (s1 & -> & (I1 & L1 & D1 & S1 & _ & _)).
  unfold bind at 1. destruct (wokeup_sessions_spec (negb (forallb (is_session s) evs)) s1 I1 L1)
    as (woken & s2 & -> & I2 & L2 & S2 & O2).
  unfold bind at 1, gets at 1. unfold bind at 1.
  destruct (check_sessions_spec woken now (addresses (m_sessions s2)) (-1) s2)
    as (s3 & t & -> & (I3 & L3 & D3 & S3 & _ & _) & Ht & _ & Hall & _); [done|done| | |by left|].
  { rewrite addresses_perm. apply NoDup_elements. }
  { rewrite addresses_perm. apply Forall_forall. intros p Hp%elem_of_elements.
    destruct I2 as (_ & _ & I2 & _). set_solver. }
  unfold bind at 1. destruct (delete_all_spec s3 I3 L3) as (s4 & -> & I4 & L4 & E4 & S4 & K4 & F4).
  exists t, s4. split_and!; try done.
  - rewrite <- D1, <- O2, <- D3. intros p [o Ho]%elem_of_dom.
    destruct (decide (p ∈ m_deleteLaterObjects s3)) as [Hd|Hd]; [by rewrite F4 in Ho|].
    rewrite K4 in Ho by done. by apply elem_of_dom_2 in Ho.
  - intros p Hp. rewrite S4 in Hp.
    assert (Hd : p ∉ m_deleteLaterObjects s3) by (destruct I3 as (_ & _ & _ & _ & I3 & _); set_solver).
    assert (Hc : checked now t s3 p).
    { rewrite addresses_perm in Hall. apply (proj1 (Forall_forall _ _) Hall). apply elem_of_elements. set_solver. }
    destruct Hc as [?|(o & Ho & Hn)]; [done|]. exists o. by rewrite K4.
Qed.

(** * The loop's life *)

(** What happens to a loop: the server creates and registers sessions, other
    threads wake sessions up or shut the loop down, and the loop makes a pass on
    events of registered sessions. *)
Inductive lstep : eloop -> eloop -> Prop :=
| l_create s p o :
    objects s !! p = None -> lstep s (set_objects (<[p := o]> (objects s)) s)
| l_register s p ok s' :
    p ∈ dom (objects s) -> p ∉ m_sessions s -> (registerSession p ok s).2 = s' -> lstep s s'
| l_wakeup s p : lstep s (wakeupper_wakeup p s).2
| l_shutdown s : lstep s (shutdown s).2
| l_pass s balanced evs now t s' :
    (forall ev, ev ∈ evs -> is_session s ev = true -> ev.1 ∈ epoll s /\ handled ev.2) ->
    loop_pass balanced evs now s = (Done t, s') -> lstep s s'.

Definition new_loop (fd : N) : eloop := Loop ∅ 0 ∅ false ∅ fd 0 false ∅.

Inductive reachable : eloop -> Prop :=
| r_new fd : reachable (new_loop fd)
| r_step s s' : reachable s -> lstep s s' -> reachable s'.

(** Between passes nothing waits for deletion. *)
Definition quiet (s : eloop) : Prop := inv s /\ lock s = false /\ m_deleteLaterObjects s = ∅.

Lemma register_quiet p ok s :
  quiet s -> p ∈ dom (objects s) -> p ∉ m_sessions s -> quiet (registerSession p ok s).2.
Proof.
  intros ((H1 & H2 & H3 & H4 & H5 & H6) & Hl & Hd) Hp Hs. unfold registerSession, bind, modify, throw.
  destruct ok; unfold quiet, inv; simpl; split_and!; try done;
    lazymatch goal with |- _ = wrap32 _ => idtac | |- _ => clear H2 H6; set_solver end.
  rewrite H2, wrap32_succ. f_equal. rewrite size_union, size_singleton by (clear H2 H6; set_solver). lia.
Qed.

Lemma eventfd_write_quiet v s : quiet s -> quiet (eventfd_write v s).2.
Proof. intros H. unfold eventfd_write, modify. simpl. by case_match. Qed.

Lemma create_quiet p o s : objects s !! p = None -> quiet s -> quiet (set_objects (<[p := o]> (objects s)) s).
Proof.
  intros Ho ((H1 & H2 & H3 & H4 & H5 & H6) & Hl & Hd). unfold quiet, inv. simpl. rewrite dom_insert.
  split_and!; try done; try set_solver.
Qed.

Lemma reachable_quiet s : reachable s -> quiet s.
Proof.
  induction 1 as [fd|s s' _ IH Hs].
  { unfold quiet, inv. simpl. by split_and!. }
  destruct Hs as [s p o Ho|s p ok s' Hp Hn <-|s p|s|s balanced evs now t s' Hev E].
  - by apply create_quiet.
  - by apply register_quiet.
  - by apply eventfd_write_quiet.
  - apply eventfd_write_quiet. exact IH.
  - destruct IH as (Hi & Hl & _). destruct (pass_spec balanced evs now s Hi Hl)
      as (t' & s2 & E2 & Hi2 & Hl2 & Hd2 & _).
    + intros ev Hin Hse. destruct (Hev ev Hin Hse). split; [|done].
      destruct Hi as (H1 & _ & H3 & _). set_solver.
    + rewrite E in E2. simplify_eq. by split_and!.
Qed.

Lemma wakeup_adds p s :
  (counter s + Z.of_N p <= SIZE_MAX - 1)%Z ->
  wakeupper_wakeup p s = (Done tt, set_counter (counter s + Z.of_N p) s).
Proof.
  intros H. unfold wakeupper_wakeup, eventfd_write, modify. by rewrite (proj2 (Z.leb_le _ _)).
Qed.

(** * Properties *)


Definition sample_loop : eloop :=
  Loop {[16; 32; 48]}%N 3 ∅ false {[16; 32; 48]}%N 7 0 false
    (<[16%N := Object 1 [9000%Z] false 5]> (<[32%N := Object 0 [] false 2000]>
      (<[48%N := Object 2 [0%Z; 0%Z] true 100]> ∅))).

Lemma sample_loop_inv : inv sample_loop.
Proof.
  unfold inv. split_and!; [decided|by vm_compute|decided..|].
  set_solver.
Qed.


(** With workload balancing the sessions of a pass are served by increasing
    order (the number of connections their peer had when they were accepted),
    those of equal order in the order epoll reported them, and every reported
    session exactly once. *)
Theorem balance_fair ord evs :
  StronglySorted (ord_le ord) (balance ord evs) /\ balance ord evs ≡ₚ evs /\
  forall k, List.filter (fun e => ord e.1 =? k)%N (balance ord evs) = List.filter (fun e => ord e.1 =? k)%N evs.
Proof.
  destruct (balance_loop_spec ord evs [] (SSorted_nil _)) as [H1 H2].
  split; [exact H1|]. split; [apply balance_perm|exact H2].
Qed.

(** In every state the loop can be in between passes, whatever the order in
    which sessions are created, registered (with or without success), woken up
    and served: the counter the server balances load by is the number of
    registered sockets, every registered session is alive, nothing waits for
    deletion, and a pass on any events of registered sockets runs to its end. *)
Theorem loop_invariant s :
  reachable s ->
  m_activeSessions s = wrap32 (Z.of_nat (size (epoll s))) /\ epoll s ⊆ dom (objects s) /\
  m_deleteLaterObjects s = ∅ /\
  forall balanced evs now,
    (forall ev, ev ∈ evs -> is_session s ev = true -> ev.1 ∈ epoll s /\ handled ev.2) ->
    exists t s', loop_pass balanced evs now s = (Done t, s') /\ reachable s'.
Proof.
  intros Hr. pose proof (reachable_quiet s Hr) as (Hi & Hl & Hd). pose proof Hi as (H1 & H2 & H3 & _).
  split_and!; [done|set_solver|done|]. intros balanced evs now Hev.
  destruct (pass_spec balanced evs now s Hi Hl) as (t & s' & E & _).
  - intros ev Hin Hse. destruct (Hev ev Hin Hse). split; [set_solver|done].
  - exists t, s'. split; [done|]. by eapply r_step, l_pass.
Qed.

Definition two_sessions : eloop :=
  let create p o s := set_objects (<[p := o]> (objects s)) s in
  (registerSession 32 false (create 32%N (Object 1 [0%Z] false 5)
     (registerSession 16 true (create 16%N (Object 0 [0%Z] true 5) (new_loop 7))).2)).2.

Lemma two_sessions_reachable : reachable two_sessions.
Proof.
  eapply r_step; [eapply r_step; [eapply r_step; [eapply r_step; [apply (r_new 7)|]|]|]|].
  - by apply (l_create _ 16%N (Object 0 [0%Z] true 5)).
  - apply (l_register _ 16%N true); [decided|decided|reflexivity].
  - by apply (l_create _ 32%N (Object 1 [0%Z] false 5)).
  - apply (l_register _ 32%N false); [decided|decided|reflexivity].
Qed.

Lemma loop_invariant_witness :
  m_activeSessions two_sessions = 1%Z /\ size (m_sessions two_sessions) = 2 /\
  exists t s', loop_pass false [(16, EPOLLIN)]%N 9 two_sessions = (Done t, s') /\ reachable s'.
Proof.
  destruct (loop_invariant two_sessions two_sessions_reachable) as (Ha & _ & _ & Hp).
  split; [etransitivity; [exact Ha|by vm_compute]|]. split; [by vm_compute|].
  apply Hp. intros ev Hev%list_elem_of_singleton _. subst ev.
  split; [decided|discriminate].
Defined.

(** Wake-ups get lost: an eventfd adds up what is written to it, so when two
    sessions are woken up before the loop reads the counter, the loop sees the
    sum of their addresses and wakes neither of them (nor anyone, unless a
    session happens to live at that address). *)
Theorem wakeups_lost p q s :
  counter s = 0%Z -> (0 < p)%N -> (0 < q)%N -> (Z.of_N p + Z.of_N q <= SIZE_MAX - 1)%Z ->
  exists s', (wakeupper_wakeup p >>> wakeupper_wakeup q >>> wokeup_sessions true) s =
    (Done (Some (Z.of_N p + Z.of_N q)%Z), s') /\ counter s' = 0%Z /\
  forall now l t s1, (p + q)%N ∉ l ->
    check_sessions (Some (Z.of_N p + Z.of_N q)%Z) now l t s1 = check_sessions None now l t s1.
Proof.
  intros Hc Hp Hq Hm. unfold wokeup_sessions, eventfd_read, ret. unfold bind at 1.
  rewrite wakeup_adds by lia. unfold bind at 1. rewrite wakeup_adds by (simpl; lia).
  unfold bind at 1. cbn [counter set_counter]. rewrite Hc, Z.add_0_l.
  rewrite (proj2 (Z.eqb_neq (Z.of_N p + Z.of_N q) 0)), (proj2 (Z.eqb_neq (Z.of_N p + Z.of_N q) 1)) by lia.
  eexists. split; [reflexivity|]. split; [done|].
  intros now l. induction l as [|x l IH]; intros t s1 Hx; [done|]. apply not_elem_of_cons in Hx as [Hx Hl].
  cbn [check_sessions]. unfold bind at 1. unfold bind at 3.
  rewrite !bool_decide_eq_false_2 by (done || (intros [= E]; lia)). cbn [when skip ret].
  unfold skip, ret, bind. destruct (get_object x s1) as [[o|e| |] s2]; try done.
  repeat case_match; try done; by rewrite IH.
Qed.

Lemma wakeups_lost_witness :
  exists s', (wakeupper_wakeup 16 >>> wakeupper_wakeup 48 >>> wokeup_sessions true) sample_loop =
    (Done (Some 64%Z), s') /\ counter s' = 0%Z.
Proof.
  destruct (wakeups_lost 16 48 sample_loop) as (s' & E & Hc & _);
    [reflexivity|reflexivity|reflexivity|decided|].
  exists s'. split; [exact E|exact Hc].
Defined.
