(* ===== verification/LoopLife.v ===== *)
(** The life of an event loop (src/server/sessionseventloop.cpp): its constructor,
    the outer loop of its thread with what other threads do meanwhile, and its
    destructor, which destroys every registered session. *)

From Stdlib Require Import Ascii String NArith ZArith Lia.
From stdpp Require Import base gmap strings list sorting.
From S2P Require Import Prelude Http CharBuffer Effects EventLoop.
Local Open Scope getodac_scope.

(** * Construction *)

(** [readProc]: [content] is the file's text, [None] when it cannot be opened.  A
    text without a number leaves the default of 4 MiB. *)
Definition readProc (content : option bytes) : Z :=
  let value := (4 * 1024 * 1024)%Z in
  match content with
  | None => value
  | Some text => let '(v, e) := strtoull text in if (e =? 0)%nat then value else v
  end.

(** The members that [eloop] leaves out: the buffers every session of the loop
    shares, and the balancing switch. *)
Record SessionsEventLoop := {
  sharedReadBuffer : Buffer;
  m_sharedWriteBuffer : Buffer;
  m_workloadBalancing : bool;
  state : eloop
}.

(** [SessionsEventLoop()]: what [epoll_create1], [eventfd] and [epoll_ctl] return. *)
Definition make_SessionsEventLoop (rmem wmem : option bytes) (epollHandler : option N) (eventFd : N)
    (epoll_ctl_ok : bool) : result exn SessionsEventLoop :=
  let rmem_max := readProc rmem in
  match epollHandler with
  | None => Throw (ex_std (runtime_error (str "Can't create epool handler")))
  | Some _ =>
      if epoll_ctl_ok then
        Ok {| sharedReadBuffer := resize (Z.to_nat rmem_max) empty;
              m_sharedWriteBuffer := make (Z.to_nat (readProc wmem));
              m_workloadBalancing := false;
              state := new_loop eventFd |}
      else Throw (ex_std (runtime_error (str "Can't register the event handler")))
  end.

Definition setWorkloadBalancing (on : bool) (l : SessionsEventLoop) : SessionsEventLoop :=
  {| sharedReadBuffer := sharedReadBuffer l; m_sharedWriteBuffer := m_sharedWriteBuffer l;
     m_workloadBalancing := on; state := state l |}.

(** [EPOLL_CTL_MOD] fails for a socket that is not registered. *)
Definition updateSession (p : N) : M eloop unit :=
  registered <-- gets (fun s => bool_decide (p ∈ epoll s)) ;;
  if registered then skip else throw (ex_std (runtime_error (str "Can't change the session"))).

(** * The loop's thread *)

(** What other threads do to the loop while it waits: the server creates a session
    object and registers it, someone wakes a session up or shuts the loop down. *)
Inductive action : Type :=
| Creates (p : N) (o : object)
| Registers (p : N) (ok : bool)
| Wakes (p : N)
| Shuts.

Definition act (a : action) : M eloop unit :=
  match a with
  | Creates p o => modify (fun s => set_objects (<[p := o]> (objects s)) s)
  | Registers p ok => try_catch (registerSession p ok) (fun _ => skip)
  | Wakes p => wakeupper_wakeup p
  | Shuts => shutdown
  end.

(** One call of [epoll_wait]: what happens until it returns, and what it returns,
    [None] for an error; [now] is the time of the following pass. *)
Record round := Round { meanwhile : list action; waited : option (list (N * N) * Z) }.

(** The rest of a round of the loop. *)
Definition finish_round (workloadBalancing : bool) (r : round) : M eloop unit :=
  iterM act (meanwhile r) >>>
  match waited r with
  | None => skip
  | Some (evs, now) => loop_pass workloadBalancing evs now >>> skip
  end.

(** [SessionsEventLoop::loop]; when the rounds are used up, the thread is still
    waiting. *)
Fixpoint loop (workloadBalancing : bool) (rounds : list round) : M eloop unit :=
  quit <-- gets m_quit ;;
  if (quit : bool) then skip
  else
    match rounds with
    | [] => fun s => (Suspended, s)
    | r :: rest => finish_round workloadBalancing r >>> loop workloadBalancing rest
    end.

(** * Destruction *)

(** The element of [m_sessions] after [p]. *)
Definition successor (p : N) (l : list N) : option N := head (List.filter (fun q => p <? q)%N l).

(** The loop over [m_sessions]; the iterator is advanced before the session it
    pointed to is deleted, which erases that element.  Using an iterator whose
    element was erased is undefined. *)
Fixpoint destroy_from (fuel : nat) (it : option N) : M eloop unit :=
  match it, fuel with
  | None, _ => skip
  | Some _, O => undefined
  | Some p, S fuel' =>
      sessions <-- gets m_sessions ;;
      if decide (p ∈ sessions) then
        destroy p >>> destroy_from fuel' (successor p (addresses sessions))
      else undefined
  end.

(** [~SessionsEventLoop]: the thread is about to wait, or in the given round, when
    it is told to quit and joined.  Every iteration erases a session, so that their
    number is enough fuel. *)
Definition destroy_loop (workloadBalancing : bool) (current : option round) : M eloop unit :=
  shutdown >>>
  match current with Some r => finish_round workloadBalancing r | None => skip end >>>
  loop workloadBalancing [] >>>
  sessions <-- gets m_sessions ;;
  destroy_from (size sessions) (head (addresses sessions)).

(** * What the environment may do *)

(** Objects are created at free addresses and registered once. *)
Definition allowed_action (a : action) (s : eloop) : Prop :=
  match a with
  | Creates p _ => objects s !! p = None
  | Registers p _ => p ∈ dom (objects s) /\ p ∉ m_sessions s
  | Wakes _ | Shuts => True
  end.

Fixpoint allowed_actions (l : list action) (s : eloop) : Prop :=
  match l with
  | [] => True
  | a :: l' => allowed_action a s /\ allowed_actions l' (act a s).2
  end.

(** epoll reports registered sockets. *)
Definition reported (evs : list (N * N)) (s : eloop) : Prop :=
  forall ev, ev ∈ evs -> is_session s ev = true -> ev.1 ∈ epoll s /\ handled ev.2.

Definition allowed_round (r : round) (s : eloop) : Prop :=
  allowed_actions (meanwhile r) s /\
  match waited r with
  | None => True
  | Some (evs, now) => reported evs (iterM act (meanwhile r) s).2
  end.

Fixpoint allowed_rounds (workloadBalancing : bool) (rounds : list round) (s : eloop) : Prop :=
  match rounds with
  | [] => True
  | r :: rest =>
      allowed_round r s /\ allowed_rounds workloadBalancing rest (finish_round workloadBalancing r s).2
  end.

(** * Lemmas *)

(** ** The quit flag *)

Definition keeps_quit (s s' : eloop) : Prop := m_quit s' = m_quit s.

#[local] Instance keeps_quit_preorder : PreOrder keeps_quit.
Proof. unfold keeps_quit. split; [by intros s|]. intros s1 s2 s3. congruence. Qed.

Lemma modify_keeps_quit f : (forall s, m_quit (f s) = m_quit s) -> respects keeps_quit (modify f).
Proof. intros Hf s. apply Hf. Qed.

Lemma acquire_keeps_quit : respects keeps_quit acquire.
Proof. intros s. unfold keeps_quit, acquire. by case_match. Qed.

Lemma get_object_keeps_quit p : respects keeps_quit (get_object p).
Proof. intros s. unfold keeps_quit, get_object. by case_match. Qed.

Lemma eventfd_read_keeps_quit : respects keeps_quit eventfd_read.
Proof. intros s. unfold keeps_quit, eventfd_read. by case_match. Qed.

#[local] Hint Resolve acquire_keeps_quit get_object_keeps_quit eventfd_read_keeps_quit : effects.
#[local] Hint Extern 1 (respects keeps_quit (modify _)) =>
  apply modify_keeps_quit; intros; simpl; by repeat case_match : effects.

Lemma iterM_keeps_quit {X} (f : X -> M eloop unit) l :
  (forall x, respects keeps_quit (f x)) -> respects keeps_quit (iterM f l).
Proof. intros Hf. induction l as [|x l IH]; cbn [iterM]; respecting. Qed.

Lemma unregister_keeps_quit p : respects keeps_quit (unregisterSession p).
Proof. unfold unregisterSession. respecting. Qed.
#[local] Hint Resolve unregister_keeps_quit : effects.

Lemma deleteLater_keeps_quit p : respects keeps_quit (deleteLater p).
Proof. unfold deleteLater, release. respecting. Qed.
#[local] Hint Resolve deleteLater_keeps_quit : effects.

Lemma ioYield_keeps_quit p : respects keeps_quit (m_ioYield p).
Proof. unfold m_ioYield. respecting. Qed.
#[local] Hint Resolve ioYield_keeps_quit : effects.

Lemma quitIoLoop_keeps_quit p : respects keeps_quit (quitIoLoop p).
Proof.
  unfold quitIoLoop. respecting. match goal with |- respects _ (quit_loop ?n _) => induction n end;
    cbn [quit_loop]; respecting.
Qed.
#[local] Hint Resolve quitIoLoop_keeps_quit : effects.

Lemma check_sessions_keeps_quit woken now l t : respects keeps_quit (check_sessions woken now l t).
Proof.
  revert t; induction l as [|p l IH]; intros t; cbn [check_sessions]; unfold session_wakeup, session_timeout;
    respecting.
Qed.
#[local] Hint Resolve check_sessions_keeps_quit : effects.

Lemma loop_pass_keeps_quit b evs now : respects keeps_quit (loop_pass b evs now).
Proof.
  unfold loop_pass, dispatch, wokeup_sessions, delete_all, release. respecting;
    apply iterM_keeps_quit; intros x; unfold processEvents, destroy; respecting.
Qed.

(** ** The thread *)

Lemma act_quiet a s :
  quiet s -> allowed_action a s ->
  exists s', act a s = (Done tt, s') /\ quiet s' /\
    (m_quit s = true \/ a = Shuts -> m_quit s' = true) /\ (m_quit s' = true -> m_quit s = true \/ a = Shuts).
Proof.
  intros Hq Ha. destruct a as [p o|p ok|p|]; simpl in *.
  - eexists. split; [reflexivity|]. split; [by apply create_quiet|]. simpl. naive_solver.
  - exists (registerSession p ok s).2. split; [by destruct ok|].
    split; [by apply register_quiet; destruct Ha|]. destruct ok; simpl; naive_solver.
  - eexists. split; [reflexivity|]. split; [by apply (eventfd_write_quiet (Z.of_N p))|].
    case_match; naive_solver.
  - eexists. split; [reflexivity|].
    split; [apply (eventfd_write_quiet 1 (set_quit true s)), Hq|]. case_match; naive_solver.
Qed.

Lemma acts_quiet l s :
  quiet s -> allowed_actions l s ->
  exists s', iterM act l s = (Done tt, s') /\ quiet s' /\
    (m_quit s' = true <-> m_quit s = true \/ Shuts ∈ l).
Proof.
  revert s; induction l as [|a l IH]; intros s Hq Hl; cbn [iterM allowed_actions] in *.
  - exists s. split; [done|]. split; [done|]. rewrite elem_of_nil. naive_solver.
  - destruct Hl as [Ha Hl]. destruct (act_quiet a s Hq Ha) as (s1 & E1 & Hq1 & H1 & H2).
    rewrite E1 in Hl. destruct (IH s1 Hq1 Hl) as (s2 & E2 & Hq2 & H3).
    exists s2. split; [unfold bind; by rewrite E1|]. split; [done|]. rewrite H3, elem_of_cons. naive_solver.
Qed.

Lemma reported_alive evs s :
  quiet s -> reported evs s ->
  forall ev, ev ∈ evs -> is_session s ev = true -> ev.1 ∈ dom (objects s) /\ handled ev.2.
Proof.
  intros ((H1 & _ & H3 & _) & _) Hr ev Hin Hs. destruct (Hr ev Hin Hs). split; [set_solver|done].
Qed.

(** A shutdown in the given rounds. *)
Definition shut (rounds : list round) : Prop := Exists (fun r => Shuts ∈ meanwhile r) rounds.

(** How the thread can be found: ended because it was told to, or still waiting
    because nobody told it. *)
Definition thread_end (rounds : list round) (s : eloop) (r : outcome unit * eloop) : Prop :=
  let '(o, s') := r in
  quiet s' /\
  match o with
  | Done _ => m_quit s' = true
  | Suspended => m_quit s' = false /\ m_quit s = false /\ ~ shut rounds
  | _ => False
  end.

Lemma finish_round_spec b r s :
  quiet s -> allowed_round r s ->
  exists s', finish_round b r s = (Done tt, s') /\ quiet s' /\
    (m_quit s' = true <-> m_quit s = true \/ Shuts ∈ meanwhile r).
Proof.
  intros Hq [Hl Hr]. destruct (acts_quiet (meanwhile r) s Hq Hl) as (s1 & E1 & Hq1 & H1).
  rewrite E1 in Hr. unfold finish_round, bind at 1. rewrite E1.
  destruct (waited r) as [[evs now]|]; [|by exists s1].
  destruct (pass_spec b evs now s1) as (t & s2 & E2 & I2 & L2 & D2 & _);
    [apply Hq1|apply Hq1|by apply reported_alive|].
  exists s2. unfold bind. rewrite E2. split; [done|]. split; [by split_and!|].
  rewrite (respects_run keeps_quit _ _ _ _ (loop_pass_keeps_quit b evs now) E2). exact H1.
Qed.

Lemma loop_spec b rounds s :
  quiet s -> allowed_rounds b rounds s -> thread_end rounds s (loop b rounds s).
Proof.
  revert s; induction rounds as [|r rounds IH]; intros s Hq Ha; cbn [loop]; unfold bind at 1, gets;
    destruct (m_quit s) eqn:Eq; try done.
  { split; [done|]. split_and!; [done..|]. intros Hs. inversion Hs. }
  destruct Ha as [Hr Ha]. destruct (finish_round_spec b r s Hq Hr) as (s1 & E1 & Hq1 & H1).
  rewrite E1 in Ha. unfold bind. rewrite E1. specialize (IH s1 Hq1 Ha).
  destruct (loop b rounds s1) as [[x|e| |] s2]; cbn [thread_end] in *; [done|done| |done].
  destruct IH as (Hq2 & Hm2 & Hm1 & Hns). split; [done|]. split_and!; [done|done|].
  intros Hs. apply Exists_cons in Hs as [Hs|Hs]; [|done]. rewrite Hm1 in H1. naive_solver.
Qed.

Lemma not_shut_waits b rounds s :
  quiet s -> allowed_rounds b rounds s -> m_quit s = false -> ~ shut rounds ->
  (loop b rounds s).1 = Suspended.
Proof.
  revert s; induction rounds as [|r rounds IH]; intros s Hq Ha Hm Hn; cbn [loop]; unfold bind at 1, gets;
    rewrite Hm; [done|].
  destruct Ha as [Hr Ha]. destruct (finish_round_spec b r s Hq Hr) as (s1 & E1 & Hq1 & H1).
  rewrite E1 in Ha. unfold bind. rewrite E1. apply IH; [done|done| |].
  - destruct (m_quit s1); [|done]. destruct (proj1 H1 eq_refl) as [?|Hs]; [congruence|].
    destruct Hn. by apply Exists_cons_hd.
  - intros Hs. apply Hn. by apply Exists_cons_tl.
Qed.

(** ** The destructor *)

Lemma evict_fields p s :
  objects (evict p s) = objects s /\ lock (evict p s) = lock s /\
  m_deleteLaterObjects (evict p s) = m_deleteLaterObjects s.
Proof. unfold evict. by repeat case_decide. Qed.

(** What a session's registration consists of. *)
Definition registration (s : eloop) : gset N * Z * gset N := (m_sessions s, m_activeSessions s, epoll s).

Lemma evict_registration p s s' :
  registration s' = registration s -> registration (evict p s') = registration (evict p s).
Proof.
  unfold registration, evict. intros [= E1 E2 E3]. rewrite E1, E3.
  repeat case_decide; simpl; congruence.
Qed.

Lemma evict_twice p s : evict p (evict p s) = evict p s.
Proof.
  unfold evict at 1. rewrite decide_False; [done|]. unfold evict. repeat case_decide; simpl; set_solver.
Qed.

Lemma deleteLater_run p s :
  lock s = false ->
  exists s', deleteLater p s = (Done tt, s') /\ registration s' = registration (evict p s) /\
    objects s' = objects s /\ lock s' = false.
Proof.
  intros Hl. unfold deleteLater, bind. rewrite unregister_evict.
  destruct (evict_fields p s) as (E1 & E2 & _). unfold acquire. rewrite E2, Hl.
  eexists. split; [reflexivity|]. by split_and!.
Qed.

(** Running a coroutine to its end may unregister its session, nothing else. *)
Lemma quit_loop_run n p s o :
  lock s = false -> objects s !! p = Some o -> length (co o) <= n ->
  exists s' o', quit_loop n p s = (Done tt, s') /\ lock s' = false /\
    (registration s' = registration s \/ registration s' = registration (evict p s)) /\
    objects s' = <[p := o']> (objects s) /\ co o' = [].
Proof.
  revert s o; induction n as [|n IH]; intros s o Hl Ho Hn; cbn [quit_loop]; unfold bind at 1, get_object;
    rewrite Ho; unfold alive; destruct (co o) as [|t rest] eqn:E; simpl in Hn;
    try (exists s, o; rewrite insert_id by done; by auto 10); [lia|].
  set (o1 := Object (order o) rest (fails o) t).
  set (s1 := set_objects (<[p := o1]> (objects s)) s).
  assert (Hy : exists s2, m_ioYield p s = (Done tt, s2) /\ lock s2 = false /\
    (registration s2 = registration s \/ registration s2 = registration (evict p s)) /\
    objects s2 = <[p := o1]> (objects s)).
  { unfold m_ioYield, bind, get_object. rewrite Ho, E. unfold modify. fold o1 s1. unfold when.
    destruct (fails o && bool_decide (rest = []))%bool; [|exists s1; by auto 10].
    destruct (deleteLater_run p s1 Hl) as (s2 & E2 & R2 & O2 & L2). exists s2. rewrite E2, R2.
    split_and!; [done|done| |done]. right. by apply evict_registration. }
  destruct Hy as (s2 & E2 & L2 & R2 & O2). unfold bind. rewrite E2.
  destruct (IH s2 o1) as (s3 & o3 & E3 & L3 & R3 & O3 & C3);
    [done|by rewrite O2, lookup_insert_eq|simpl; lia|].
  exists s3, o3. split_and!; [done|done| |by rewrite O3, O2, insert_insert_eq|done].
  assert (Rt : registration (evict p (evict p s)) = registration (evict p s)) by (by rewrite evict_twice).
  destruct R2 as [R2|R2], R3 as [R3|R3]; rewrite R3; auto.
  - right. by apply evict_registration.
  - right. etransitivity; [by apply evict_registration|done].
Qed.

Lemma destroy_run p s o :
  lock s = false -> objects s !! p = Some o ->
  exists s', destroy p s = (Done tt, s') /\ lock s' = false /\
    registration s' = registration (evict p s) /\ objects s' = delete p (objects s).
Proof.
  intros Hl Ho. unfold destroy, quitIoLoop, bind at 1, bind at 1, get_object. rewrite Ho.
  destruct (quit_loop_run (length (co o)) p s o) as (s1 & o1 & E1 & L1 & R1 & O1 & _); [done..|].
  rewrite E1. unfold bind at 1. rewrite unregister_evict.
  destruct (evict_fields p s1) as (F1 & F2 & _). eexists. split; [reflexivity|]. simpl.
  split; [congruence|]. split; [|by rewrite F1, O1, delete_insert_eq].
  change (registration (evict p s1) = registration (evict p s)).
  destruct R1 as [R1|R1]; [by apply evict_registration|].
  rewrite <- (evict_twice p s). by apply evict_registration.
Qed.

Lemma addresses_sorted x : StronglySorted N.le (addresses x).
Proof. apply (StronglySorted_merge_sort N.le). Qed.

Lemma addresses_elem p x : p ∈ addresses x <-> p ∈ x.
Proof. by rewrite addresses_perm, elem_of_elements. Qed.

Lemma addresses_NoDup x : NoDup (addresses x).
Proof. rewrite addresses_perm. apply NoDup_elements. Qed.

Lemma addresses_rest p l x : addresses x = p :: l -> addresses (x ∖ {[p]}) = l.
Proof.
  intros E. apply (StronglySorted_unique N.le).
  - apply addresses_sorted.
  - pose proof (addresses_sorted x) as Hs. rewrite E in Hs. by inversion Hs.
  - apply NoDup_Permutation; [apply addresses_NoDup| |].
    + pose proof (addresses_NoDup x) as Hn. rewrite E in Hn. by inversion Hn.
    + intros q. rewrite addresses_elem, elem_of_difference, elem_of_singleton, <- (addresses_elem q x), E.
      pose proof (addresses_NoDup x) as Hn. rewrite E in Hn. apply NoDup_cons in Hn as [Hn _].
      rewrite elem_of_cons. naive_solver.
Qed.

Lemma successor_next p l x : addresses x = p :: l -> successor p (addresses x) = head l.
Proof.
  intros E. pose proof (addresses_sorted x) as Hs. pose proof (addresses_NoDup x) as Hn. rewrite E in *.
  unfold successor. cbn [List.filter]. rewrite N.ltb_irrefl. destruct l as [|q l]; [done|]. cbn [List.filter].
  assert (Hlt : (p < q)%N).
  { inversion Hs as [|? ? _ Hall]; subst. apply Forall_cons in Hall as [Hle _].
    apply NoDup_cons in Hn as [Hn _]. apply not_elem_of_cons in Hn as [Hn _]. lia. }
  by rewrite (proj2 (N.ltb_lt p q) Hlt).
Qed.

(** [n] objects freed one after the other. *)
Lemma destroy_from_run l s :
  lock s = false -> addresses (m_sessions s) = l -> m_sessions s ⊆ dom (objects s) ->
  epoll s ⊆ m_sessions s -> m_activeSessions s = wrap32 (Z.of_nat (size (epoll s))) ->
  exists s', destroy_from (length l) (head l) s = (Done tt, s') /\
    m_sessions s' = ∅ /\ epoll s' = ∅ /\ m_activeSessions s' = 0%Z /\
    forall p, objects s' !! p = if decide (p ∈ m_sessions s) then None else objects s !! p.
Proof.
  revert s; induction l as [|p l IH]; intros s Hl El Hd He Hc; cbn [length destroy_from head].
  - assert (Hm : m_sessions s = ∅).
    { apply set_eq. intros q. rewrite <- addresses_elem, El. set_solver. }
    assert (Hp : epoll s = ∅) by set_solver. exists s. split; [done|]. split_and!; [done|done| |].
    + by rewrite Hc, Hp, size_empty.
    + intros q. by rewrite decide_False by set_solver.
  - assert (Hp : p ∈ m_sessions s) by (rewrite <- addresses_elem, El; set_solver).
    unfold bind at 1, gets. rewrite decide_True by done.
    destruct (proj1 (elem_of_dom (objects s) p) ltac:(set_solver)) as [o Ho].
    destruct (destroy_run p s o Hl Ho) as (s1 & E1 & L1 & R1 & O1). unfold bind. rewrite E1.
    rewrite (successor_next p l) by done.
    assert (Hreg : m_sessions s1 = m_sessions s ∖ {[p]} /\ epoll s1 = epoll s ∖ {[p]} /\
      m_activeSessions s1 = wrap32 (Z.of_nat (size (epoll s ∖ {[p]})))).
    { unfold registration, evict in R1. rewrite decide_True in R1 by done.
      case_decide; simpl in R1; injection R1 as -> -> ->; split_and!; try done; try set_solver.
      - rewrite Hc, wrap32_pred. f_equal. rewrite size_difference, size_singleton by set_solver.
        assert (size (epoll s) <> 0) by (intros ?%size_empty_inv; set_solver). lia.
      - rewrite Hc. do 3 f_equal. set_solver. }
    destruct Hreg as (M1 & P1 & A1).
    destruct (IH s1) as (s2 & E2 & M2 & P2 & A2 & O2).
    + done.
    + rewrite M1. by apply addresses_rest.
    + rewrite M1, O1, dom_delete_L. set_solver.
    + rewrite M1, P1. set_solver.
    + by rewrite P1.
    + exists s2. split; [done|]. split_and!; [done..|]. intros q. rewrite O2, M1, O1.
      destruct (decide (q = p)) as [->|Hq].
      * rewrite lookup_delete_eq. rewrite (decide_True (P := p ∈ m_sessions s)) by done. by case_decide.
      * rewrite lookup_delete_ne by done. repeat case_decide; set_solver.
Qed.

(** Joining the thread, then destroying the sessions it leaves. *)
Lemma destroy_loop_run b current s :
  quiet s -> (forall r, current = Some r -> allowed_round r (shutdown s).2) ->
  exists s1 s', (shutdown >>> match current with Some r => finish_round b r | None => skip end) s = (Done tt, s1) /\
    quiet s1 /\ destroy_loop b current s = (Done tt, s') /\
    m_sessions s' = ∅ /\ epoll s' = ∅ /\ m_activeSessions s' = 0%Z /\
    forall p, objects s' !! p = if decide (p ∈ m_sessions s1) then None else objects s1 !! p.
Proof.
  intros Hq Hr. destruct (act_quiet Shuts s Hq I) as (s0 & E0 & Hq0 & Hm0 & _).
  change (act Shuts s) with (shutdown s) in E0. rewrite E0 in Hr. cbn [snd] in Hr.
  assert (H1 : exists s1, match current with Some r => finish_round b r | None => skip end s0 = (Done tt, s1) /\
    quiet s1 /\ m_quit s1 = true).
  { destruct current as [r|]; [|exists s0; auto].
    destruct (finish_round_spec b r s0 Hq0 (Hr r eq_refl)) as (s1 & E1 & Hq1 & H1).
    exists s1. split; [done|]. split; [done|]. apply H1. auto. }
  destruct H1 as (s1 & E1 & Hq1 & Hm1). pose proof Hq1 as ((I1 & I2 & I3 & _) & L1 & _).
  destruct (destroy_from_run (addresses (m_sessions s1)) s1) as (s' & E' & M' & P' & A' & O'); [done..|].
  exists s1, s'. unfold bind at 1. rewrite E0. split; [done|]. split; [done|]. split; [|done].
  unfold destroy_loop, bind at 1. rewrite E0. unfold bind at 1. rewrite E1.
  unfold bind at 1. cbn [loop]. unfold bind at 1, gets at 1. rewrite Hm1. cbn [skip ret].
  unfold bind, gets. rewrite addresses_perm in E' at 1. exact E'.
Qed.

(** ** Every object is registered or waits for its deletion *)

Definition covered (s : eloop) : Prop := dom (objects s) ⊆ m_sessions s ∪ m_deleteLaterObjects s.

Definition keeps_covered (s s' : eloop) : Prop :=
  lock s = false /\ covered s -> lock s' = false /\ covered s'.

#[local] Instance keeps_covered_preorder : PreOrder keeps_covered.
Proof. unfold keeps_covered. split; [by intros s|]. intros s1 s2 s3. auto. Qed.

Lemma get_object_covered p : respects keeps_covered (get_object p).
Proof. intros s. unfold keeps_covered, get_object. by case_match. Qed.

Lemma eventfd_read_covered : respects keeps_covered eventfd_read.
Proof. intros s. unfold keeps_covered, eventfd_read. by case_match. Qed.

Lemma deleteLater_covered p : respects keeps_covered (deleteLater p).
Proof.
  intros s [Hl Hc]. unfold deleteLater, bind. rewrite unregister_evict.
  destruct (evict_fields p s) as (E1 & E2 & E3). unfold acquire. rewrite E2, Hl. split; [done|].
  assert (Hm : m_sessions s ⊆ {[p]} ∪ m_sessions (evict p s)).
  { unfold evict. repeat case_decide; simpl; intros q; destruct (decide (q = p)); set_solver. }
  unfold covered in *. simpl. rewrite E1, E3. set_solver.
Qed.
#[local] Hint Resolve get_object_covered eventfd_read_covered deleteLater_covered : effects.

Lemma ioYield_covered p : respects keeps_covered (m_ioYield p).
Proof.
  intros s. unfold m_ioYield, bind, get_object. destruct (objects s !! p) as [o|] eqn:Ho; [|done].
  destruct (co o) as [|t rest]; [done|]. unfold modify.
  set (s1 := set_objects _ s).
  assert (H1 : keeps_covered s s1).
  { intros [Hl Hc]. split; [done|]. unfold covered in *. simpl. rewrite dom_insert_lookup_L by eauto. done. }
  unfold when. case_match; [|exact H1]. intros Hs. apply deleteLater_covered. by apply H1.
Qed.
#[local] Hint Resolve ioYield_covered : effects.

Lemma quitIoLoop_covered p : respects keeps_covered (quitIoLoop p).
Proof.
  unfold quitIoLoop. respecting. match goal with |- respects _ (quit_loop ?n _) => induction n end;
    cbn [quit_loop]; respecting.
Qed.
#[local] Hint Resolve quitIoLoop_covered : effects.

Lemma check_sessions_covered woken now l t : respects keeps_covered (check_sessions woken now l t).
Proof.
  revert t; induction l as [|p l IH]; intros t; cbn [check_sessions]; unfold session_wakeup, session_timeout;
    respecting.
Qed.
#[local] Hint Resolve check_sessions_covered : effects.

Lemma processing_covered l : respects keeps_covered (iterM (fun ev : N * N => processEvents ev.1 ev.2) l).
Proof. induction l as [|ev l IH]; cbn [iterM]; unfold processEvents; respecting. Qed.
#[local] Hint Resolve processing_covered : effects.

(** Between passes, the objects are exactly the registered ones. *)
Definition settled (s : eloop) : Prop := quiet s /\ dom (objects s) = m_sessions s.

(** The first part of a pass, before the deletions. *)
Lemma pass_covered b evs now s t s' :
  quiet s -> covered s ->
  (forall ev, ev ∈ evs -> is_session s ev = true -> ev.1 ∈ dom (objects s) /\ handled ev.2) ->
  loop_pass b evs now s = (Done t, s') -> dom (objects s') ⊆ m_sessions s'.
Proof.
  intros (Hi & Hl & Hd) Hc Hev E. unfold loop_pass in E.
  apply bind_Done in E as (w & s1 & E1 & E). apply bind_Done in E as (woken & s2 & E2 & E).
  apply bind_Done in E as (l & s3 & [= <- <-] & E). apply bind_Done in E as (t1 & s3 & E3 & E).
  apply bind_Done in E as (u & s4 & E4 & [= <- <-]).
  destruct (dispatch_spec b evs s Hi Hl Hev) as (s1' & E1' & (I1 & L1 & _)). rewrite E1 in E1'. simplify_eq.
  assert (C1 : lock s1' = false /\ covered s1').
  { eapply (respects_run keeps_covered); [|exact E1|done]. unfold dispatch. respecting. }
  destruct (wokeup_sessions_spec (negb (forallb (is_session s) evs)) s1' I1 L1)
    as (r & s2' & E2' & I2 & L2 & _). rewrite E2 in E2'. simplify_eq.
  assert (C2 : lock s2' = false /\ covered s2').
  { eapply (respects_run keeps_covered); [|exact E2|done]. unfold wokeup_sessions. respecting. }
  destruct (check_sessions_spec r now (addresses (m_sessions s2')) (-1) s2')
    as (s3' & t' & E3' & (I3 & L3 & _) & _); [done|done|apply addresses_NoDup| |by left|].
  { rewrite addresses_perm. apply Forall_forall. intros p Hp%elem_of_elements.
    destruct I2 as (_ & _ & I2 & _). set_solver. }
  rewrite E3 in E3'. simplify_eq.
  assert (C3 : lock s3' = false /\ covered s3').
  { eapply (respects_run keeps_covered); [|exact E3|done]. apply check_sessions_covered. }
  destruct (delete_all_spec s3' I3 L3) as (s4' & E4' & _ & _ & _ & S4 & K4 & F4). rewrite E4 in E4'. simplify_eq.
  intros p [o Ho]%elem_of_dom. rewrite S4. destruct C3 as [_ C3]. unfold covered in C3.
  destruct (decide (p ∈ m_deleteLaterObjects s3')) as [Hp|Hp]; [by rewrite F4 in Ho|].
  rewrite K4 in Ho by done. apply elem_of_dom_2 in Ho. set_solver.
Qed.

Lemma pass_settled b evs now s :
  settled s -> reported evs s ->
  exists t s', loop_pass b evs now s = (Done t, s') /\ settled s' /\ dom (objects s') ⊆ dom (objects s).
Proof.
  intros [Hq Hs] Hr. pose proof (reported_alive evs s Hq Hr) as Hev. pose proof Hq as (Hi & Hl & Hd).
  destruct (pass_spec b evs now s Hi Hl Hev) as (t & s' & E & Hi' & Hl' & Hd' & Hdom & _).
  exists t, s'. split; [done|]. split; [|done]. split; [by split_and!|].
  apply (anti_symm (⊆)); [|apply Hi']. apply (pass_covered b evs now s t s' Hq); [|done|done].
  unfold covered. set_solver.
Qed.

(** * Properties *)


(** A wake-up and an error, an event and a shutdown, and a round too late. *)
Definition sample_rounds : list round :=
  [Round [Wakes 16; Creates 64 (Object 3 [0%Z] false 9)] None;
   Round [Registers 64 true; Shuts] (Some ([(16, EPOLLIN); (7, EPOLLIN)]%N, 50%Z));
   Round [] None].


(** C23. Destroying an event loop frees each of its sessions exactly once: the thread is
    joined (after the round it is in, if any), then the walk over the set of
    sessions deletes every one of them although each deletion erases the element
    just visited; no iterator or freed object is used, the set and epoll are
    empty afterwards, the active counter is zero, and an object is left only if
    it was never registered. *)
Theorem destroy_loop_frees b current s :
  reachable s -> (forall r, current = Some r -> allowed_round r (shutdown s).2) ->
  exists s1 s',
    (shutdown >>> match current with Some r => finish_round b r | None => skip end) s = (Done tt, s1) /\
    destroy_loop b current s = (Done tt, s') /\
    m_sessions s' = ∅ /\ epoll s' = ∅ /\ m_activeSessions s' = 0%Z /\
    forall p, objects s' !! p = if decide (p ∈ m_sessions s1) then None else objects s1 !! p.
Proof.
  intros Hr Hc. destruct (destroy_loop_run b current s (reachable_quiet s Hr) Hc)
    as (s1 & s' & E1 & _ & E' & H'). by exists s1, s'.
Qed.

Lemma destroy_loop_frees_witness :
  exists s', destroy_loop true (Some (Round [Wakes 32] (Some ([(7, EPOLLIN)]%N, 3%Z)))) two_sessions =
    (Done tt, s') /\ m_sessions s' = ∅ /\ m_activeSessions s' = 0%Z.
Proof.
  destruct (destroy_loop_frees true (Some (Round [Wakes 32] (Some ([(7, EPOLLIN)]%N, 3%Z)))) two_sessions
    two_sessions_reachable) as (s1 & s' & _ & E & Hm & _ & Ha & _).
  - intros r [= <-]. split; [split; exact I|]. intros ev Hev Hi.
    apply list_elem_of_singleton in Hev as ->. exfalso. revert Hi. vm_compute. discriminate.
  - exists s'. split; [exact E|]. split; [exact Hm|exact Ha].
Defined.
