(* ===== verification/Interleave.v ===== *)
(** The event loop and the accept thread at the grain of their critical sections
    (src/server/sessionseventloop.cpp).

    EventLoop runs [registerSession] and a pass of [loop] without interruption.
    Here every access to the state the threads share ([m_sessions] under its
    mutex, an [epoll_ctl], [m_activeSessions], the eventfd, the session objects)
    is one atomic step, and between two atomic steps of the loop's thread the
    other threads do what a schedule says: the accept thread moves through the
    creation and the registration of a session, any thread wakes a session up or
    shuts the loop down.  A theorem over all schedules is a theorem over all
    interleavings. *)

From Stdlib Require Import Ascii String NArith ZArith Lia.
From stdpp Require Import base gmap strings list sorting.
From S2P Require Import Prelude Http Effects EventLoop.
Local Open Scope getodac_scope.

(** * The other threads *)

(** Where the accept thread is, between [new ServerSession] and the end of
    [initSession]. *)
Inductive stage : Type :=
| Idle
| Made (p : N)
| Listed (p : N)
| Polled (p : N).

(** What another thread does next: the accept thread creates a session, inserts
    it in [m_sessions], adds its socket to epoll (with or without success) and
    increments the counter; a thread calls [wakeup] or [shutdown]. *)
Inductive move : Type :=
| Mcreate (p : N) (o : object)
| Minsert
| Mpoll (epoll_ok : bool)
| Mcount
| Mwakeup (p : N)
| Mshutdown.

Record shared := Shared {
  loop : eloop;
  accepting : stage;
  (** before each atomic step of the loop's thread, what the others do *)
  schedule : list (list move)
}.

Definition set_loop (l : eloop) (s : shared) : shared := Shared l (accepting s) (schedule s).
Definition set_accepting (x : stage) (s : shared) : shared := Shared (loop s) x (schedule s).
Definition set_schedule (x : list (list move)) (s : shared) : shared := Shared (loop s) (accepting s) x.

Definition on_loop {A : Type} (m : M eloop A) : M shared A :=
  fun s => let r := m (loop s) in (r.1, set_loop r.2 s).

(** The critical sections of [registerSession]. *)
Definition register_insert (p : N) : M eloop unit :=
  modify (fun s => set_sessions ({[p]} ∪ m_sessions s) s).

(** [epoll_ctl(m_epollHandler, EPOLL_CTL_ADD, session->sock(), &event)] *)
Definition register_poll (p : N) (epoll_ok : bool) : M eloop unit :=
  _ <-- get_object p ;;
  if epoll_ok then modify (fun s => set_epoll ({[p]} ∪ epoll s) s)
  else throw (ex_std (runtime_error (str "Can't register session"))).

Definition register_count : M eloop unit :=
  modify (fun s => set_active (wrap32 (m_activeSessions s + 1)) s).

(** A move of a thread that is elsewhere does nothing.  [Server::exec] catches
    what [registerSession] throws and goes on accepting. *)
Definition perform (m : move) : M shared unit :=
  st <-- gets accepting ;;
  match m, st with
  | Mcreate p o, Idle =>
      s <-- gets loop ;;
      match objects s !! p with
      | None =>
          on_loop (modify (fun s => set_objects (<[p := o]> (objects s)) s)) >>>
          modify (set_accepting (Made p))
      | Some _ => skip
      end
  | Minsert, Made p => on_loop (register_insert p) >>> modify (set_accepting (Listed p))
  | Mpoll ok, Listed p =>
      try_catch (on_loop (register_poll p ok) >>> modify (set_accepting (Polled p)))
        (fun _ => modify (set_accepting Idle))
  | Mcount, Polled p => on_loop register_count >>> modify (set_accepting Idle)
  | Mwakeup p, _ => on_loop (wakeupper_wakeup p)
  | Mshutdown, _ => on_loop shutdown
  | _, _ => skip
  end.

Definition interfere : M shared unit :=
  sch <-- gets schedule ;;
  match sch with
  | [] => skip
  | ms :: rest => modify (set_schedule rest) >>> iterM perform ms
  end.

(** * The loop's thread *)

(** One atomic step, after the others did what they do. *)
Definition atomic {A : Type} (m : M eloop A) : M shared A := interfere >>> on_loop m.

(** [m_sessions.erase(session)] under the mutex *)
Definition erase_session (p : N) : M eloop bool := fun s =>
  if decide (p ∈ m_sessions s) then (Done true, set_sessions (m_sessions s ∖ {[p]}) s) else (Done false, s).

(** [epoll_ctl(m_epollHandler, EPOLL_CTL_DEL, session->sock(), nullptr)] *)
Definition unpoll (p : N) : M eloop unit :=
  _ <-- get_object p ;;
  s <-- gets id ;;
  if decide (p ∈ epoll s) then modify (fun s => set_epoll (epoll s ∖ {[p]}) s)
  else throw (ex_code ENOENT).

Definition unregisterSession (p : N) : M shared unit :=
  erased <-- atomic (erase_session p) ;;
  if (erased : bool) then
    atomic (unpoll p) >>>
    atomic (modify (fun s => set_active (wrap32 (m_activeSessions s - 1)) s))
  else skip.

Definition deleteLater (p : N) : M shared unit :=
  try_catch (unregisterSession p) (fun _ => skip) >>>
  atomic acquire >>>
  atomic (modify (fun s => set_deleteLater ({[p]} ∪ m_deleteLaterObjects s) s)) >>>
  atomic release.

(** The coroutine is resumed to its next suspension; whether it ended by an
    exception. *)
Definition resume (p : N) : M eloop bool :=
  o <-- get_object p ;;
  match co o with
  | [] => undefined
  | t :: rest =>
      modify (fun s => set_objects (<[p := Object (order o) rest (fails o) t]> (objects s)) s) >>>
      ret (fails o && bool_decide (rest = []))%bool
  end.

Definition m_ioYield (p : N) : M shared unit :=
  failed <-- atomic (resume p) ;; when failed (deleteLater p).

Fixpoint quit_loop (fuel : nat) (p : N) : M shared unit :=
  o <-- atomic (get_object p) ;;
  if alive o then
    match fuel with
    | O => undefined
    | S fuel' => m_ioYield p >>> quit_loop fuel' p
    end
  else skip.

Definition quitIoLoop (p : N) : M shared unit :=
  o <-- atomic (get_object p) ;; quit_loop (length (co o)) p.

Definition session_wakeup (p : N) : M shared unit :=
  o <-- atomic (get_object p) ;; if alive o then m_ioYield p else deleteLater p.

Definition session_timeout (p : N) : M shared unit := quitIoLoop p >>> deleteLater p.

Definition processEvents (p events : N) : M shared unit :=
  if negb (N.land events error_events =? 0)%N then quitIoLoop p >>> deleteLater p
  else if negb (N.land events io_events =? 0)%N then session_wakeup p
  else deleteLater p.

Definition destroy (p : N) : M shared unit :=
  quitIoLoop p >>>
  try_catch (unregisterSession p) (fun _ => skip) >>>
  atomic (modify (fun s => set_objects (delete p (objects s)) s)).

(** The sessions' [order()] is read while the events are sorted. *)
Definition read_orders (evs : list (N * N)) : M eloop unit :=
  iterM (fun ev => _ <-- get_object ev.1 ;; skip) evs.

Definition dispatch (workloadBalancing : bool) (evs : list (N * N)) : M shared bool :=
  s <-- atomic (gets id) ;;
  let sessionEvents := List.filter (is_session s) evs in
  when workloadBalancing (atomic (read_orders sessionEvents)) >>>
  iterM (fun ev => processEvents ev.1 ev.2)
    (if workloadBalancing then balance (object_order s) sessionEvents else sessionEvents) >>>
  ret (negb (forallb (is_session s) evs)).

(** [while (eventfd_read(m_eventFd, &data) == 0)]: another thread may write
    between two reads. *)
Fixpoint read_wakeups (fuel : nat) : M shared (list Z) :=
  data <-- atomic eventfd_read ;;
  match data with
  | None => ret []
  | Some d =>
      match fuel with
      | O => undefined
      | S fuel' =>
          rest <-- read_wakeups fuel' ;; ret (if (d =? 1)%Z then rest else d :: rest)
      end
  end.

Definition wokeup_sessions (wokeup : bool) : M shared (list Z) :=
  if wokeup then sch <-- gets schedule ;; read_wakeups (S (length sch)) else ret [].

Fixpoint check_sessions (woken : list Z) (now : Z) (sessions : list N) (timeout : Z) : M shared Z :=
  match sessions with
  | [] => ret timeout
  | p :: rest =>
      when (bool_decide (Z.of_N p ∈ woken)) (session_wakeup p) >>>
      o <-- atomic (get_object p) ;;
      let deadline := next_timeout o in
      if (deadline =? 0)%Z then check_sessions woken now rest timeout
      else if (deadline <=? now)%Z then session_timeout p >>> check_sessions woken now rest timeout
      else
        check_sessions woken now rest
          (if (timeout =? -1)%Z then wait_for now deadline else Z.min timeout (wait_for now deadline))
  end.

Definition delete_all : M shared unit :=
  atomic acquire >>>
  l <-- atomic (gets (fun s => elements (m_deleteLaterObjects s))) ;;
  iterM destroy l >>>
  atomic (modify (set_deleteLater ∅)) >>>
  atomic release.

Definition loop_pass (workloadBalancing : bool) (evs : list (N * N)) (now : Z) : M shared Z :=
  wokeup <-- dispatch workloadBalancing evs ;;
  woken <-- wokeup_sessions wokeup ;;
  sessions <-- atomic (gets (fun s => addresses (m_sessions s))) ;;
  timeout <-- check_sessions woken now sessions (-1) ;;
  delete_all >>>
  ret timeout.

(** * Invariant *)

(** The session the accept thread will still use. *)
Definition registering (st : stage) : option N :=
  match st with Made p | Listed p => Some p | Idle | Polled _ => None end.

(** A socket added to epoll but not yet counted. *)
Definition uncounted (st : stage) : Z := match st with Polled _ => 1 | _ => 0 end.

Definition stage_ok (D : gset N) (l : eloop) (st : stage) : Prop :=
  match st with
  | Idle | Polled _ => True
  | Made p => p ∈ dom (objects l) /\ p ∉ m_sessions l /\ p ∉ epoll l /\ p ∉ D
  | Listed p => p ∈ m_sessions l /\ p ∉ epoll l
  end.

(** A session that would survive the pass at [now] even if it was woken up before
    its registration ends: its deadline lies ahead, before and after the
    coroutine's first step, and that step does not end by an exception. *)
Definition later (now deadline : Z) : Prop := (deadline = 0 \/ now < deadline)%Z.

Definition fresh_object (now : Z) (o : object) : Prop :=
  later now (next_timeout o) /\
  match co o with [] => False | t :: rest => later now t /\ (fails o = false \/ rest <> []) end.

Definition fresh_move (now : Z) (m : move) : Prop :=
  match m with Mcreate _ o => fresh_object now o | _ => True end.

(** The invariant when the loop's thread is inside an operation: [D] are the
    objects it is still going to delete, [X] the sessions it took out of
    [m_sessions] but not yet out of epoll, [c] the sockets it took out of epoll
    but not yet out of the count. *)
Record cinv (D X : gset N) (c : Z) (s : shared) : Prop := {
  ci_epoll : epoll (loop s) ∖ X ⊆ m_sessions (loop s);
  ci_polled : epoll (loop s) ⊆ dom (objects (loop s));
  ci_active : m_activeSessions (loop s) =
    wrap32 (Z.of_nat (size (epoll (loop s))) - uncounted (accepting s) + c);
  ci_sessions : m_sessions (loop s) ⊆ dom (objects (loop s));
  ci_deleted : D ⊆ dom (objects (loop s));
  ci_disjoint : D ## m_sessions (loop s);
  ci_finished : forall p o, p ∈ D -> objects (loop s) !! p = Some o -> co o = [];
  ci_stage : stage_ok D (loop s) (accepting s)
}.

(** The session the accept thread still uses is fresh, unless the loop has
    already looked at it (it is in [W]); so are those it is going to create. *)
Definition calm (now : Z) (W : gset N) (s : shared) : Prop :=
  Forall (Forall (fresh_move now)) (schedule s) /\
  forall p o, registering (accepting s) = Some p -> p ∉ W -> objects (loop s) !! p = Some o -> fresh_object now o.

(** What an operation of the loop's thread on the session [p], interleaved with
    the other threads, may change.  The other threads add sessions and objects,
    and never touch one that exists. *)
Record evolve (p : option N) (s s' : shared) : Prop := {
  ev_objects : forall q o, p <> Some q -> objects (loop s) !! q = Some o -> objects (loop s') !! q = Some o;
  ev_dom : dom (objects (loop s)) ⊆ dom (objects (loop s'));
  ev_registering : forall q, registering (accepting s') = Some q ->
    registering (accepting s) = Some q \/ q ∉ dom (objects (loop s));
  ev_sessions : forall q, q ∈ m_sessions (loop s') ->
    q ∈ m_sessions (loop s) \/ registering (accepting s) = Some q \/ q ∉ dom (objects (loop s));
  ev_lock : lock (loop s') = lock (loop s);
  ev_fd : m_eventFd (loop s') = m_eventFd (loop s);
  ev_deleted : forall q, p <> Some q ->
    q ∈ m_deleteLaterObjects (loop s') <-> q ∈ m_deleteLaterObjects (loop s)
}.

Lemma evolve_refl p s : evolve p s s.
Proof. split; auto. Qed.

Lemma evolve_trans p s1 s2 s3 : evolve p s1 s2 -> evolve p s2 s3 -> evolve p s1 s3.
Proof.
  intros [A1 A2 A3 A4 A5 A6 A7] [B1 B2 B3 B4 B5 B6 B7]. split.
  - eauto.
  - set_solver.
  - intros q Hq. destruct (B3 q Hq) as [?|?]; [auto|right; set_solver].
  - intros q Hq. destruct (B4 q Hq) as [?|[?|?]]; [auto| |right; right; set_solver].
    right. by apply A3.
  - congruence.
  - congruence.
  - intros q Hq. by rewrite B7, A7.
Qed.

Lemma evolve_weaken p s s' : evolve None s s' -> evolve (Some p) s s'.
Proof. intros [A1 A2 A3 A4 A5 A6 A7]. split; try done; [intros; by apply A1|intros; by apply A7]. Qed.

(** A session the accept thread does not use any more. *)
Definition settled (p : N) (s : shared) : Prop :=
  p ∈ dom (objects (loop s)) /\ registering (accepting s) <> Some p.

Lemma settled_evolve q p s s' : evolve q s s' -> settled p s -> settled p s'.
Proof.
  intros [A1 A2 A3 A4 A5 A6 A7] [H1 H2]. split; [set_solver|]. intros Hr. destruct (A3 p Hr); [done|set_solver].
Qed.

Lemma unlisted_evolve q p s s' :
  evolve q s s' -> settled p s -> p ∉ m_sessions (loop s) -> p ∉ m_sessions (loop s').
Proof. intros [A1 A2 A3 A4 A5 A6 A7] [H1 H2] H3 Hs. destruct (A4 p Hs) as [?|[?|?]]; done. Qed.

Lemma deleted_settled D X c s p : cinv D X c s -> p ∈ D -> settled p s.
Proof.
  intros [H1 H0 H2 H3 H4 H5 H6 H7] Hp. split; [set_solver|].
  destruct (accepting s); cbn in *; intros [= ->]; set_solver.
Qed.

(** ** The other threads keep it *)

Lemma signal_keeps D X c quit n s :
  cinv D X c s ->
  let s' := Shared (set_counter n (set_quit quit (loop s))) (accepting s) (schedule s) in
  cinv D X c s' /\ evolve None s s'.
Proof. intros [] s'. split; split; try done; by auto. Qed.

Lemma signal_run (quit : option bool) v l :
  exists b n, eventfd_write v (from_option (fun b => set_quit b l) l quit) =
    (Done tt, set_counter n (set_quit b l)).
Proof.
  unfold eventfd_write, modify. destruct l as [x1 x2 x3 x4 x5 x6 n x7 x8], quit as [b|];
    [exists b|exists x7]; cbn -[SIZE_MAX]; case_match; eexists; reflexivity.
Qed.

Lemma create_keeps D X c p o s :
  cinv D X c s -> accepting s = Idle -> objects (loop s) !! p = None ->
  let s' := Shared (set_objects (<[p := o]> (objects (loop s))) (loop s)) (Made p) (schedule s) in
  cinv D X c s' /\ evolve None s s'.
Proof.
  intros [H1 H0 H2 H3 H4 H5 H6 H7] Hi Ho s'. assert (Hp : p ∉ dom (objects (loop s))) by by apply not_elem_of_dom.
  rewrite Hi in *. split; split; cbn; try done.
  - set_solver.
  - set_solver.
  - set_solver.
  - intros q oq Hq. rewrite lookup_insert_ne; [by apply H6|]. set_solver.
  - set_solver.
  - intros q oq _ Hq. rewrite lookup_insert_ne; [done|]. congruence.
  - set_solver.
  - intros q [= ->]. by right.
  - intros q Hq. by left.
Qed.

Lemma insert_keeps D X c p s :
  cinv D X c s -> accepting s = Made p ->
  let s' := Shared (set_sessions ({[p]} ∪ m_sessions (loop s)) (loop s)) (Listed p) (schedule s) in
  cinv D X c s' /\ evolve None s s'.
Proof.
  intros [H1 H0 H2 H3 H4 H5 H6 H7] Hi s'. rewrite Hi in *. destruct H7 as (S1 & S2 & S3 & S4).
  split; split; cbn; try done.
  - set_solver.
  - set_solver.
  - set_solver.
  - set_solver.
  - intros q [= ->]. left. by rewrite Hi.
  - intros q [->%elem_of_singleton|?]%elem_of_union; [right; left; by rewrite Hi|by left].
Qed.

Lemma poll_keeps D X c p s :
  cinv D X c s -> accepting s = Listed p ->
  let s' := Shared (set_epoll ({[p]} ∪ epoll (loop s)) (loop s)) (Polled p) (schedule s) in
  cinv D X c s' /\ evolve None s s'.
Proof.
  intros [H1 H0 H2 H3 H4 H5 H6 H7] Hi s'. rewrite Hi in *. destruct H7 as (S1 & S2).
  split; split; cbn; try done.
  - set_solver.
  - set_solver.
  - rewrite H2. f_equal. rewrite size_union, size_singleton by set_solver. cbn. lia.
  - auto.
Qed.

Lemma leave_keeps D X c p ok s :
  cinv D X c s -> accepting s = (if ok : bool then Polled p else Listed p) ->
  let l := loop s in
  let s' := Shared (if ok then set_active (wrap32 (m_activeSessions l + 1)) l else l) Idle (schedule s) in
  cinv D X c s' /\ evolve None s s'.
Proof.
  intros [H1 H0 H2 H3 H4 H5 H6 H7] Hi l s'. unfold s', l. rewrite Hi in *.
  destruct ok; split; split; cbn; try done.
  - rewrite H2, wrap32_succ. f_equal. cbn. lia.
  - auto.
  - auto.
Qed.

Lemma perform_keeps now W D X c m s :
  cinv D X c s -> calm now W s -> (forall p o, m = Mcreate p o -> p ∉ W -> fresh_object now o) ->
  exists s', perform m s = (Done tt, s') /\ cinv D X c s' /\ calm now W s' /\ evolve None s s' /\
    schedule s' = schedule s.
Proof.
  intros H [C1 C2] Hm.
  assert (Hs : exists s', (Done tt, s) = (Done tt, s') /\ cinv D X c s' /\ calm now W s' /\ evolve None s s' /\
    schedule s' = schedule s) by (exists s; split_and!; [done|done|done|apply evolve_refl|done]).
  assert (Hd : forall l a, cinv D X c (Shared l a (schedule s)) /\ evolve None s (Shared l a (schedule s)) ->
    (forall p o, registering a = Some p -> p ∉ W -> objects l !! p = Some o -> fresh_object now o) ->
    exists s', (Done tt, Shared l a (schedule s)) = (Done tt, s') /\ cinv D X c s' /\ calm now W s' /\
      evolve None s s' /\ schedule s' = schedule s) by (intros l a [? ?] ?; eexists; by split_and!).
  assert (Hw : forall quit v, exists s',
    on_loop (eventfd_write v) (set_loop (from_option (fun b => set_quit b (loop s)) (loop s) quit) s) = (Done tt, s') /\
    cinv D X c s' /\ calm now W s' /\ evolve None s s' /\ schedule s' = schedule s).
  { intros quit v. unfold on_loop. cbn [loop set_loop]. destruct (signal_run quit v (loop s)) as (b & n & ->).
    apply (Hd (set_counter n (set_quit b (loop s))) (accepting s)); [by apply signal_keeps|done]. }
  unfold perform, bind at 1, gets at 1.
  destruct m as [p o| |ok| |p|], (accepting s) as [|q|q|q] eqn:Ea; try exact Hs;
    try (exact (Hw (Some true) 1%Z)); try (destruct s; exact (Hw None (Z.of_N p))).
  - unfold bind, gets. destruct (objects (loop s) !! p) eqn:Eo; [exact Hs|].
    apply Hd; [by apply create_keeps|]. cbn. intros ? o' [= <-] Hnw. rewrite lookup_insert_eq.
    intros [= <-]. by apply (Hm p).
  - apply Hd; [by apply insert_keeps|done].
  - assert (Hq : q ∈ dom (objects (loop s))).
    { destruct H as [H1 H0 H2 H3 H4 H5 H6 H7]. rewrite Ea in H7. destruct H7. set_solver. }
    apply elem_of_dom in Hq as [o Ho].
    unfold try_catch, on_loop, register_poll, bind, get_object. rewrite Ho.
    destruct ok; [apply Hd; [by apply poll_keeps|done]|].
    apply (Hd (loop s) Idle); [by apply (leave_keeps D X c q false)|done].
  - apply Hd; [by apply (leave_keeps D X c q true)|done].
Qed.

(** The loop's thread is between two atomic steps. *)
Definition ok (now : Z) (W D X : gset N) (c : Z) (s : shared) : Prop := cinv D X c s /\ calm now W s.

Lemma performs_keep now W D X c ms s :
  ok now W D X c s -> Forall (fresh_move now) ms ->
  exists s', iterM perform ms s = (Done tt, s') /\ ok now W D X c s' /\ evolve None s s' /\
    schedule s' = schedule s.
Proof.
  intros H Hms. revert s H; induction Hms as [|m ms Hm _ IH]; intros s [H C].
  { exists s. split_and!; [done|done|apply evolve_refl|done]. }
  destruct (perform_keeps now W D X c m s H C) as (s1 & E1 & H1 & C1 & V1 & S1);
    [by intros p o -> _|].
  destruct (IH s1) as (s2 & E2 & H2 & V2 & S2); [done|].
  exists s2. cbn [iterM]. unfold bind. rewrite E1. split_and!; [done|done|by eapply evolve_trans|congruence].
Qed.

Lemma interfere_keeps now W D X c s :
  ok now W D X c s ->
  exists s', interfere s = (Done tt, s') /\ ok now W D X c s' /\ evolve None s s' /\
    schedule s' = tail (schedule s).
Proof.
  intros [H [C1 C2]]. unfold interfere, bind at 1, gets. destruct (schedule s) as [|ms rest] eqn:E.
  - exists s. split_and!; [done|by split; [|split; [rewrite E|]]|apply evolve_refl|by rewrite E].
  - apply Forall_cons in C1 as [Hms Hrest].
    destruct (performs_keep now W D X c ms (set_schedule rest s)) as (s' & E' & H' & V & S');
      [split; [by destruct H|by split]|done|].
    exists s'. unfold bind, modify. rewrite E'. split_and!; [done|done|by destruct V|done].
Qed.

(** An atomic step runs on a state the other threads have left. *)
Lemma atomic_run {A : Type} (m : M eloop A) now W D X c s :
  ok now W D X c s ->
  exists s1, atomic m s = on_loop m s1 /\ ok now W D X c s1 /\ evolve None s s1 /\
    schedule s1 = tail (schedule s).
Proof.
  intros H. destruct (interfere_keeps now W D X c s H) as (s1 & E & H1 & V & S1).
  exists s1. unfold atomic, bind. by rewrite E.
Qed.

(** ** Removing a session *)

Lemma erase_keeps now W D p s :
  ok now W D ∅ 0 s -> settled p s ->
  ok now W D {[p]} 0 (set_loop (set_sessions (m_sessions (loop s) ∖ {[p]}) (loop s)) s).
Proof.
  intros [[H1 H0 H2 H3 H4 H5 H6 H7] C] [Hs1 Hs2]. split; [split|]; cbn; try done.
  - intros q [Hq Hp]%elem_of_difference. apply elem_of_difference. split; [set_solver|done].
  - set_solver.
  - set_solver.
  - destruct (accepting s); cbn in *; try done; set_solver.
Qed.

Lemma unpoll_keeps now W D p s :
  ok now W D {[p]} 0 s -> p ∈ epoll (loop s) -> p ∉ m_sessions (loop s) -> settled p s ->
  ok now W D ∅ 1 (set_loop (set_epoll (epoll (loop s) ∖ {[p]}) (loop s)) s).
Proof.
  intros [[H1 H0 H2 H3 H4 H5 H6 H7] C] Hp Hn [Hs1 Hs2]. split; [split|]; cbn; try done.
  - set_solver.
  - set_solver.
  - rewrite H2. f_equal. rewrite size_difference, size_singleton by set_solver.
    assert (size (epoll (loop s)) <> 0) by (intros ?%size_empty_inv; set_solver). lia.
  - destruct (accepting s); cbn in *; try done; set_solver.
Qed.

Lemma unpolled_keeps now W D p s :
  ok now W D {[p]} 0 s -> p ∉ epoll (loop s) -> ok now W D ∅ 0 s.
Proof. intros [[H1 H0 H2 H3 H4 H5 H6 H7] C] Hp. split; [split|]; try done. set_solver. Qed.

Lemma uncount_keeps now W D s :
  ok now W D ∅ 1 s ->
  ok now W D ∅ 0 (set_loop (set_active (wrap32 (m_activeSessions (loop s) - 1)) (loop s)) s).
Proof.
  intros [[H1 H0 H2 H3 H4 H5 H6 H7] C]. split; [split|]; cbn; try done.
  rewrite H2, wrap32_pred. f_equal. lia.
Qed.

Lemma shrink_evolve s l' :
  objects l' = objects (loop s) -> m_sessions l' ⊆ m_sessions (loop s) -> lock l' = lock (loop s) ->
  m_eventFd l' = m_eventFd (loop s) -> m_deleteLaterObjects l' = m_deleteLaterObjects (loop s) ->
  evolve None s (set_loop l' s).
Proof. intros E1 E2 E3 E4 E5. split; cbn; rewrite ?E1, ?E3, ?E4, ?E5; try done; auto. Qed.

Lemma unpoll_run p l :
  p ∈ dom (objects l) ->
  unpoll p l = if decide (p ∈ epoll l) then (Done tt, set_epoll (epoll l ∖ {[p]}) l)
               else (Raise (ex_code ENOENT), l).
Proof.
  intros [o Ho]%elem_of_dom. unfold unpoll, bind, get_object, gets, id. rewrite Ho. by case_decide.
Qed.

(** The caught [unregisterSession] of a session the accept thread has left. *)
Lemma unregister_ok now W D p s :
  ok now W D ∅ 0 s -> settled p s ->
  exists s', try_catch (unregisterSession p) (fun _ => skip) s = (Done tt, s') /\
    ok now W D ∅ 0 s' /\ evolve None s s' /\ p ∉ m_sessions (loop s').
Proof.
  intros H Hs. unfold try_catch, unregisterSession. unfold bind at 1.
  destruct (atomic_run (erase_session p) now W D ∅ 0 s H) as (s1 & -> & H1 & V1 & _).
  pose proof (settled_evolve _ _ _ _ V1 Hs) as Hs1. unfold on_loop, erase_session.
  case_decide as Hp; cbn [fst snd]; [|by exists s1; destruct s1].
  set (s2 := set_loop _ s1). assert (H2 : ok now W D {[p]} 0 s2) by by apply erase_keeps.
  assert (V2 : evolve None s1 s2) by (apply shrink_evolve; try done; set_solver).
  assert (Hn2 : p ∉ m_sessions (loop s2)) by (cbn; set_solver).
  pose proof (settled_evolve _ _ _ _ V2 Hs1) as Hs2. unfold bind at 1.
  destruct (atomic_run (unpoll p) now W D {[p]} 0 s2 H2) as (s3 & -> & H3 & V3 & _).
  pose proof (settled_evolve _ _ _ _ V3 Hs2) as Hs3.
  pose proof (unlisted_evolve _ _ _ _ V3 Hs2 Hn2) as Hn3.
  pose proof (evolve_trans _ _ _ _ (evolve_trans _ _ _ _ V1 V2) V3) as V.
  unfold on_loop. rewrite unpoll_run by apply Hs3. case_decide as Hq; cbn [fst snd skip ret].
  - set (s4 := set_loop _ s3). assert (H4 : ok now W D ∅ 1 s4) by by apply unpoll_keeps.
    assert (V4 : evolve None s3 s4) by by apply shrink_evolve.
    destruct (atomic_run (modify (fun s => set_active (wrap32 (m_activeSessions s - 1)) s)) now W D ∅ 1 s4 H4)
      as (s5 & -> & H5 & V5 & _).
    eexists. split; [reflexivity|]. cbn [fst snd modify]. split; [by apply uncount_keeps|].
    assert (Hn5 : p ∉ m_sessions (loop s5))
      by (apply (unlisted_evolve _ _ _ _ V5); [by apply (settled_evolve _ _ _ _ V4)|done]).
    split; [|done]. eapply evolve_trans; [exact V|]. eapply evolve_trans; [exact V4|].
    eapply evolve_trans; [exact V5|]. by apply shrink_evolve.
  - exists s3. split_and!; [by destruct s3|by eapply unpolled_keeps|done|done].
Qed.

Definition lok (now : Z) (W : gset N) (s : shared) : Prop :=
  ok now W (m_deleteLaterObjects (loop s)) ∅ 0 s.

Lemma deleted_same s s' :
  evolve None s s' -> m_deleteLaterObjects (loop s') = m_deleteLaterObjects (loop s).
Proof. intros [A1 A2 A3 A4 A5 A6 A7]. apply set_eq. intros q. by apply A7. Qed.

Definition relock (b : bool) (s : shared) : shared := set_loop (set_lock b (loop s)) s.

Lemma relock_ok now W D X c b s : ok now W D X c s -> ok now W D X c (relock b s).
Proof. by intros [[] []]. Qed.

Lemma relock_evolve q b s s' : evolve q (relock b s) s' -> evolve q s (relock (lock (loop s)) s').
Proof. by intros []. Qed.

(** Scheduling the deletion of a finished, unregistered session. *)
Lemma schedule_keeps now W D p o s :
  ok now W D ∅ 0 s -> settled p s -> p ∉ m_sessions (loop s) -> objects (loop s) !! p = Some o -> co o = [] ->
  ok now W ({[p]} ∪ D) ∅ 0 (set_loop (set_deleteLater ({[p]} ∪ m_deleteLaterObjects (loop s)) (loop s)) s).
Proof.
  intros [[H1 H0 H2 H3 H4 H5 H6 H7] C] [Hs1 Hs2] Hn Ho Hc. split; [split|]; cbn; try done.
  - set_solver.
  - set_solver.
  - intros q oq [->%elem_of_singleton|Hq]%elem_of_union Hoq; [congruence|by eapply H6].
  - destruct (accepting s); cbn in *; try done. destruct H7 as (? & ? & ? & ?). split_and!; try done.
    intros [->%elem_of_singleton|?]%elem_of_union; done.
Qed.

Lemma schedule_evolve p s :
  evolve (Some p) s (set_loop (set_deleteLater ({[p]} ∪ m_deleteLaterObjects (loop s)) (loop s)) s).
Proof.
  split; cbn; auto. intros q Hq. rewrite elem_of_union, elem_of_singleton. split; [|by right].
  intros [->|?]; done.
Qed.

Lemma deleteLater_ok now W p o s :
  lok now W s -> lock (loop s) = false -> settled p s -> objects (loop s) !! p = Some o -> co o = [] ->
  exists s', deleteLater p s = (Done tt, s') /\ lok now W s' /\ evolve (Some p) s s' /\
    objects (loop s') !! p = Some o.
Proof.
  intros H Hl Hs Ho Hc. unfold deleteLater, bind at 1.
  destruct (unregister_ok now W _ p s H Hs) as (s1 & -> & H1 & V1 & Hn1).
  set (D := m_deleteLaterObjects (loop s)) in *. unfold bind at 1.
  destruct (atomic_run acquire now W _ _ _ s1 H1) as (s2 & -> & H2 & V2 & _).
  pose proof (evolve_trans _ _ _ _ V1 V2) as V02. pose proof (settled_evolve _ _ _ _ V02 Hs) as Hs2.
  assert (Hn2 : p ∉ m_sessions (loop s2))
    by (eapply unlisted_evolve; [exact V2|by apply (settled_evolve _ _ _ _ V1)|done]).
  assert (L2 : lock (loop s2) = false) by (by rewrite (ev_lock _ _ _ V02)).
  unfold on_loop at 1, acquire. rewrite L2. cbn [fst snd]. fold (relock true s2). unfold bind at 1.
  destruct (atomic_run (modify (fun s => set_deleteLater ({[p]} ∪ m_deleteLaterObjects s) s)) now W _ _ _
    (relock true s2) (relock_ok _ _ _ _ _ true s2 H2)) as (s3 & -> & H3 & V3 & _).
  pose proof (ev_objects _ _ _ V02 p o ltac:(done) Ho) as O2.
  pose proof (ev_objects _ _ _ V3 p o ltac:(done) O2) as O3.
  assert (Hs3 : settled p s3) by (by apply (settled_evolve _ _ _ _ V3)).
  assert (Hn3 : p ∉ m_sessions (loop s3)) by (by apply (unlisted_evolve _ _ _ _ V3)).
  unfold on_loop at 1. cbn [fst snd modify]. set (s4 := set_loop _ s3).
  assert (H4 : ok now W ({[p]} ∪ D) ∅ 0 s4) by by eapply schedule_keeps.
  destruct (atomic_run release now W _ _ _ s4 H4) as (s5 & -> & H5 & V5 & _).
  assert (V : evolve (Some p) s2 (relock false s5)).
  { rewrite <- L2. apply relock_evolve with (b := true). eapply evolve_trans; [by apply evolve_weaken|].
    eapply evolve_trans; [apply schedule_evolve|]. by apply evolve_weaken. }
  exists (relock false s5). split; [done|]. split; [|split].
  - apply relock_ok. replace (m_deleteLaterObjects (loop (relock false s5))) with ({[p]} ∪ D); [done|].
    cbn. rewrite (deleted_same _ _ V5). cbn. rewrite (deleted_same _ _ V3). cbn. by rewrite (deleted_same _ _ V02).
  - eapply evolve_trans; [by apply evolve_weaken|exact V].
  - cbn. by apply (ev_objects _ _ _ V5).
Qed.

(** Resuming a session: one the accept thread has left, or one it has not, that
    the loop has not looked at. *)
Lemma resume_keeps now W D X c p o t rest s :
  ok now W D X c s -> objects (loop s) !! p = Some o -> co o = t :: rest -> settled p s \/ p ∈ W ->
  ok now W D X c (set_loop (set_objects (<[p := Object (order o) rest (fails o) t]> (objects (loop s))) (loop s)) s).
Proof.
  intros [[H1 H0 H2 H3 H4 H5 H6 H7] [C1 C2]] Ho Hc Hor.
  assert (Hdom : dom (<[p := Object (order o) rest (fails o) t]> (objects (loop s))) = dom (objects (loop s)))
    by (apply dom_insert_lookup_L; by eexists).
  assert (Hp : p ∉ D) by (intros Hd; by rewrite (H6 p o Hd Ho) in Hc).
  split; split; cbn; rewrite ?Hdom; try done.
  - intros q oq Hq. rewrite lookup_insert_ne; [by apply H6|]. intros ->. done.
  - destruct (accepting s); cbn in *; by rewrite ?Hdom.
  - intros q oq Hq Hw. rewrite lookup_insert_ne; [by apply C2|]. intros ->. by destruct Hor as [[_ ?]|?].
Qed.

Lemma resume_evolve p o o' s :
  objects (loop s) !! p = Some o ->
  evolve (Some p) s (set_loop (set_objects (<[p := o']> (objects (loop s))) (loop s)) s).
Proof.
  intros Ho. split; cbn; auto.
  - intros q oq Hq. rewrite lookup_insert_ne; [done|]. congruence.
  - rewrite dom_insert. set_solver.
Qed.

Lemma resume_run p o t rest l :
  objects l !! p = Some o -> co o = t :: rest ->
  resume p l = (Done (fails o && bool_decide (rest = []))%bool,
    set_objects (<[p := Object (order o) rest (fails o) t]> (objects l)) l).
Proof. intros Ho Hc. unfold resume, bind, get_object. by rewrite Ho, Hc. Qed.

(** The step of the coroutine, and what is left to do after it. *)
Lemma step_ok now W p o t rest s :
  lok now W s -> objects (loop s) !! p = Some o -> co o = t :: rest -> settled p s \/ p ∈ W ->
  exists s1, lok now W s1 /\ evolve (Some p) s s1 /\
    objects (loop s1) !! p = Some (Object (order o) rest (fails o) t) /\
    m_ioYield p s = when (fails o && bool_decide (rest = []))%bool (deleteLater p) s1.
Proof.
  intros H Ho Hc Hor. unfold m_ioYield, bind.
  destruct (atomic_run (resume p) now W _ _ _ s H) as (s1 & -> & H1 & V1 & _).
  pose proof (ev_objects _ _ _ V1 p o ltac:(done) Ho) as O1.
  unfold on_loop. rewrite (resume_run p o t rest) by done. cbn [fst snd].
  eexists. split; [|split; [|split; [|reflexivity]]].
  - unfold lok. cbn. rewrite (deleted_same _ _ V1). eapply resume_keeps; [done..|].
    destruct Hor; [left; by apply (settled_evolve _ _ _ _ V1)|by right].
  - eapply evolve_trans; [by apply evolve_weaken|]. by eapply resume_evolve.
  - cbn. by rewrite lookup_insert_eq.
Qed.

Lemma ioYield_ok now W p o s :
  lok now W s -> lock (loop s) = false -> settled p s -> objects (loop s) !! p = Some o -> co o <> [] ->
  exists s' o', m_ioYield p s = (Done tt, s') /\ lok now W s' /\ evolve (Some p) s s' /\
    objects (loop s') !! p = Some o' /\ S (length (co o')) = length (co o).
Proof.
  intros H Hl Hs Ho Hc. destruct (co o) as [|t rest] eqn:E; [done|].
  destruct (step_ok now W p o t rest s H Ho E (or_introl Hs)) as (s1 & H1 & V1 & O1 & ->).
  unfold when. destruct (fails o && bool_decide (rest = []))%bool eqn:Ef.
  - apply andb_true_iff in Ef as [_ Hr%bool_decide_eq_true].
    destruct (deleteLater_ok now W p (Object (order o) rest (fails o) t) s1 H1) as (s2 & E2 & H2 & V2 & O2);
      [by rewrite (ev_lock _ _ _ V1)|by apply (settled_evolve _ _ _ _ V1)|exact O1|exact Hr|].
    eexists s2, _. rewrite E2. split_and!; [done|done|by eapply evolve_trans|exact O2|done].
  - eexists s1, _. by split_and!.
Qed.

Lemma get_run now W D X c p o s :
  ok now W D X c s -> objects (loop s) !! p = Some o ->
  exists s1, atomic (get_object p) s = (Done o, s1) /\ ok now W D X c s1 /\ evolve None s s1 /\
    objects (loop s1) !! p = Some o.
Proof.
  intros H Ho. destruct (atomic_run (get_object p) now W D X c s H) as (s1 & -> & H1 & V1 & _).
  pose proof (ev_objects _ _ _ V1 p o ltac:(done) Ho) as O1.
  exists s1. unfold on_loop, get_object. rewrite O1. split_and!; try done. by destruct s1.
Qed.

Lemma get_ok now W p o s :
  lok now W s -> objects (loop s) !! p = Some o ->
  exists s1, atomic (get_object p) s = (Done o, s1) /\ lok now W s1 /\ evolve None s s1 /\
    objects (loop s1) !! p = Some o.
Proof.
  intros H Ho. destruct (get_run _ _ _ _ _ p o s H Ho) as (s1 & E1 & H1 & V1 & O1).
  exists s1. unfold lok. by rewrite (deleted_same _ _ V1).
Qed.

Lemma quit_loop_ok now W n p o s :
  lok now W s -> lock (loop s) = false -> settled p s -> objects (loop s) !! p = Some o -> length (co o) <= n ->
  exists s' o', quit_loop n p s = (Done tt, s') /\ lok now W s' /\ evolve (Some p) s s' /\
    objects (loop s') !! p = Some o' /\ co o' = [].
Proof.
  revert s o; induction n as [|n IH]; intros s o H Hl Hs Ho Hn; cbn [quit_loop]; unfold bind at 1;
    destruct (get_ok now W p o s H Ho) as (s1 & -> & H1 & V1%(evolve_weaken p) & O1); unfold alive;
    destruct (co o) as [|t rest] eqn:E; cbn in Hn; try lia; try (by exists s1, o).
  destruct (ioYield_ok now W p o s1) as (s2 & o2 & E2 & H2 & V2 & O2 & Hlen);
    [done|by rewrite (ev_lock _ _ _ V1)|by apply (settled_evolve _ _ _ _ V1)|done|by rewrite E|].
  pose proof (evolve_trans _ _ _ _ V1 V2) as V. rewrite E in Hlen. cbn in Hlen.
  unfold bind. rewrite E2. destruct (IH s2 o2) as (s3 & o3 & E3 & H3 & V3 & O3 & C3);
    [done|by rewrite (ev_lock _ _ _ V)|by apply (settled_evolve _ _ _ _ V)|done|lia|].
  exists s3, o3. split_and!; [done|done|by eapply evolve_trans|done|done].
Qed.

Lemma quitIoLoop_ok now W p s :
  lok now W s -> lock (loop s) = false -> settled p s ->
  exists s' o', quitIoLoop p s = (Done tt, s') /\ lok now W s' /\ evolve (Some p) s s' /\
    objects (loop s') !! p = Some o' /\ co o' = [].
Proof.
  intros H Hl Hs. pose proof (proj1 Hs) as [o Ho]%elem_of_dom. unfold quitIoLoop, bind.
  destruct (get_ok now W p o s H Ho) as (s1 & -> & H1 & V1%(evolve_weaken p) & O1).
  destruct (quit_loop_ok now W (length (co o)) p o s1) as (s2 & o2 & E2 & H2 & V2 & O2 & C2);
    [done|by rewrite (ev_lock _ _ _ V1)|by apply (settled_evolve _ _ _ _ V1)|done|done|].
  exists s2, o2. split_and!; [done|done|by eapply evolve_trans|done|done].
Qed.

Lemma quit_delete_ok now W p s :
  lok now W s -> lock (loop s) = false -> settled p s ->
  exists s', (quitIoLoop p >>> deleteLater p) s = (Done tt, s') /\ lok now W s' /\ evolve (Some p) s s'.
Proof.
  intros H Hl Hs. unfold bind.
  destruct (quitIoLoop_ok now W p s H Hl Hs) as (s1 & o1 & -> & H1 & V1 & O1 & C1).
  destruct (deleteLater_ok now W p o1 s1) as (s2 & E2 & H2 & V2 & _);
    [done|by rewrite (ev_lock _ _ _ V1)|by apply (settled_evolve _ _ _ _ V1)|done|done|].
  exists s2. split_and!; [done|done|by eapply evolve_trans].
Qed.

Lemma wakeup_ok now W p s :
  lok now W s -> lock (loop s) = false -> settled p s ->
  exists s', session_wakeup p s = (Done tt, s') /\ lok now W s' /\ evolve (Some p) s s'.
Proof.
  intros H Hl Hs. pose proof (proj1 Hs) as [o Ho]%elem_of_dom. unfold session_wakeup, bind.
  destruct (get_ok now W p o s H Ho) as (s1 & -> & H1 & V1%(evolve_weaken p) & O1).
  assert (L1 : lock (loop s1) = false) by by rewrite (ev_lock _ _ _ V1).
  pose proof (settled_evolve _ _ _ _ V1 Hs) as Hs1. unfold alive. destruct (co o) as [|t rest] eqn:E.
  - destruct (deleteLater_ok now W p o s1 H1 L1 Hs1 O1 E) as (s2 & E2 & H2 & V2 & _).
    exists s2. split_and!; [done|done|by eapply evolve_trans].
  - destruct (ioYield_ok now W p o s1 H1 L1 Hs1 O1) as (s2 & o2 & E2 & H2 & V2 & _); [by rewrite E|].
    exists s2. split_and!; [done|done|by eapply evolve_trans].
Qed.

Lemma processEvents_ok now W p ev s :
  lok now W s -> lock (loop s) = false -> settled p s -> handled ev ->
  exists s', processEvents p ev s = (Done tt, s') /\ lok now W s' /\ evolve (Some p) s s'.
Proof.
  intros H Hl Hs Hh. unfold processEvents.
  destruct (N.eqb_spec (N.land ev error_events) 0) as [He|He]; cbn [negb]; [|by apply quit_delete_ok].
  destruct (N.eqb_spec (N.land ev io_events) 0) as [Hi|Hi]; cbn [negb]; [|by apply wakeup_ok].
  destruct Hh. by rewrite N.land_lor_distr_r, He, Hi.
Qed.

(** ** The phases of a pass *)

Lemma process_all_ok now W evs s :
  lok now W s -> lock (loop s) = false -> Forall (fun ev => settled ev.1 s /\ handled ev.2) evs ->
  exists s', iterM (fun ev => processEvents ev.1 ev.2) evs s = (Done tt, s') /\ lok now W s' /\
    lock (loop s') = false.
Proof.
  revert s; induction evs as [|[p ev] evs IH]; intros s H Hl Hall; [by exists s|].
  apply Forall_cons in Hall as [[Hp Hh] Hall].
  destruct (processEvents_ok now W p ev s H Hl Hp Hh) as (s1 & E1 & H1 & V1).
  destruct (IH s1) as (s2 & E2 & H2 & L2); [done|by rewrite (ev_lock _ _ _ V1)| |].
  - eapply Forall_impl; [exact Hall|]. intros q [? ?]. split; [by apply (settled_evolve _ _ _ _ V1)|done].
  - exists s2. cbn [iterM]. unfold bind. cbn [fst snd]. by rewrite E1.
Qed.

Lemma read_orders_run evs l :
  Forall (fun ev => ev.1 ∈ dom (objects l)) evs -> read_orders evs l = (Done tt, l).
Proof.
  induction 1 as [|ev evs [o Ho]%elem_of_dom _ IH]; [done|]. unfold read_orders in *. cbn [iterM].
  assert (E : (_ <-- get_object ev.1 ;; skip) l = (Done tt, l)) by (unfold bind, get_object; by rewrite Ho).
  unfold bind at 1. rewrite E. exact IH.
Qed.

Lemma dispatch_ok now balanced evs s :
  lok now ∅ s -> lock (loop s) = false ->
  (forall ev, ev ∈ evs -> is_session (loop s) ev = true -> settled ev.1 s /\ handled ev.2) ->
  exists w s', dispatch balanced evs s = (Done w, s') /\ lok now ∅ s' /\ lock (loop s') = false.
Proof.
  intros H Hl Hev. unfold dispatch, bind at 1.
  destruct (atomic_run (gets id) now _ _ _ _ s H) as (s1 & -> & H1 & V1 & _).
  unfold on_loop at 1, gets, id. cbn [fst snd]. assert (Es : set_loop (loop s1) s1 = s1) by by destruct s1.
  rewrite Es. rewrite <- (deleted_same _ _ V1) in H1.
  assert (Hf : Forall (fun ev => settled ev.1 s1 /\ handled ev.2) (List.filter (is_session (loop s1)) evs)).
  { apply Forall_forall. intros ev Hin%list_elem_of_In. apply List.filter_In in Hin as [Hin%list_elem_of_In Hi].
    unfold is_session in Hi. rewrite (ev_fd _ _ _ V1) in Hi. destruct (Hev ev Hin Hi).
    split; [by apply (settled_evolve _ _ _ _ V1)|done]. }
  assert (L1 : lock (loop s1) = false) by by rewrite (ev_lock _ _ _ V1).
  destruct balanced; cbn [when]; unfold bind at 1; cbn [skip ret].
  - destruct (atomic_run (read_orders (List.filter (is_session (loop s1)) evs)) now _ _ _ _ s1 H1)
      as (s2 & -> & H2 & V2 & _). rewrite <- (deleted_same _ _ V2) in H2.
    assert (Hf2 : Forall (fun ev => settled ev.1 s2 /\ handled ev.2) (List.filter (is_session (loop s1)) evs)).
    { eapply Forall_impl; [exact Hf|]. intros ev [? ?]. split; [by apply (settled_evolve _ _ _ _ V2)|done]. }
    unfold on_loop. rewrite read_orders_run by (eapply Forall_impl; [exact Hf2|]; intros ? [[? _] _]; done).
    cbn [fst snd]. assert (Es2 : set_loop (loop s2) s2 = s2) by by destruct s2. rewrite Es2.
    destruct (process_all_ok now ∅ (balance (object_order (loop s1)) (List.filter (is_session (loop s1)) evs)) s2)
      as (s3 & E3 & H3 & L3); [done|by rewrite (ev_lock _ _ _ V2)|by rewrite balance_perm|].
    eexists _, s3. unfold bind. rewrite E3. by split_and!.
  - destruct (process_all_ok now ∅ (List.filter (is_session (loop s1)) evs) s1 H1 L1 Hf) as (s3 & E3 & H3 & L3).
    eexists _, s3. unfold bind. rewrite E3. by split_and!.
Qed.

(** The read loop ends: the schedule is finite, and without a write the next read
    fails. *)
Lemma read_wakeups_ok now W fuel s :
  lok now W s -> lock (loop s) = false ->
  length (schedule s) < fuel \/ (schedule s = [] /\ counter (loop s) = 0%Z) ->
  exists r s', read_wakeups fuel s = (Done r, s') /\ lok now W s' /\ lock (loop s') = false.
Proof.
  revert s; induction fuel as [|fuel IH]; intros s H Hl Hf; cbn [read_wakeups]; unfold bind at 1.
  - destruct Hf as [?|[Hs Hc]]; [lia|]. destruct s as [l a sch]. cbn in Hs, Hc, Hl. subst sch.
    cbn -[eventfd_read]. unfold eventfd_read. rewrite Hc. by exists [], (Shared l a []).
  - destruct (atomic_run eventfd_read now W _ _ _ s H) as (s1 & -> & H1 & V1 & S1).
    rewrite <- (deleted_same _ _ V1) in H1. rewrite <- (ev_lock _ _ _ V1) in Hl.
    unfold on_loop, eventfd_read. destruct (Z.eqb_spec (counter (loop s1)) 0) as [Hz|Hz]; cbn [fst snd].
    { exists [], s1. split; [by destruct s1|done]. }
    destruct (IH (set_loop (set_counter 0 (loop s1)) s1)) as (r & s2 & E2 & H2 & L2).
    + destruct H1 as [[] []]. by split; split.
    + done.
    + cbn. rewrite S1. destruct (schedule s) as [|ms rest]; [by right|]. cbn.
      destruct Hf as [Hf|[[=] _]]. cbn in Hf. left. lia.
    + eexists _, s2. unfold bind. rewrite E2. by split_and!.
Qed.

Lemma lok_mono now W W' s : W ⊆ W' -> lok now W s -> lok now W' s.
Proof. intros Hw [H [C1 C2]]. split; [done|]. split; [done|]. intros p o Hr Hp. apply C2; [done|set_solver]. Qed.

(** A session the accept thread still uses, if woken up, is neither deleted nor
    past its deadline. *)
Lemma early_wakeup_ok now W p s :
  lok now W s -> registering (accepting s) = Some p -> p ∉ W -> p ∈ dom (objects (loop s)) -> forall b,
  exists s' o', when b (session_wakeup p) s = (Done tt, s') /\ lok now ({[p]} ∪ W) s' /\
    evolve (Some p) s s' /\ objects (loop s') !! p = Some o' /\ later now (next_timeout o').
Proof.
  intros H Hr Hw [o Ho]%elem_of_dom b. pose proof H as [_ [_ C]].
  destruct (C p o Hr Hw Ho) as [Hn Hc]. destruct (co o) as [|t rest] eqn:E; [done|]. destruct Hc as [Ht Hf].
  apply (lok_mono now W ({[p]} ∪ W)) in H; [|set_solver].
  destruct b; cbn [when]; [|exists s, o; split_and!; [done|done|apply evolve_refl|done|done]].
  unfold session_wakeup, bind. destruct (get_ok _ _ p o s H Ho) as (s1 & -> & H1 & V1%(evolve_weaken p) & O1).
  unfold alive. rewrite E.
  destruct (step_ok now ({[p]} ∪ W) p o t rest s1 H1 O1 E) as (s2 & H2 & V2 & O2 & ->); [right; set_solver|].
  assert (Ef : (fails o && bool_decide (rest = []))%bool = false).
  { destruct Hf as [->|Hf]; [done|]. rewrite bool_decide_eq_false_2 by done. by rewrite andb_false_r. }
  rewrite Ef. eexists s2, _. split_and!; [done|done|by eapply evolve_trans|exact O2|done].
Qed.

(** One session's turn. *)
Lemma check_one_ok woken now W p rest timeout s :
  lok now W s -> lock (loop s) = false -> p ∈ dom (objects (loop s)) -> p ∉ W -> sane timeout ->
  exists s' timeout',
    check_sessions woken now (p :: rest) timeout s = check_sessions woken now rest timeout' s' /\
    lok now ({[p]} ∪ W) s' /\ evolve (Some p) s s' /\ sane timeout'.
Proof.
  intros H Hl Hd Hw Ht. cbn [check_sessions]. set (b := bool_decide _). unfold bind at 1.
  assert (Hmono : forall s, lok now W s -> lok now ({[p]} ∪ W) s) by (intros; eapply lok_mono; [|done]; set_solver).
  assert (Hfirst : exists s1, when b (session_wakeup p) s = (Done tt, s1) /\ lok now ({[p]} ∪ W) s1 /\
    evolve (Some p) s s1 /\ (settled p s1 \/ exists o, objects (loop s1) !! p = Some o /\ later now (next_timeout o))).
  { destruct (decide (registering (accepting s) = Some p)) as [Hr|Hr].
    - destruct (early_wakeup_ok now W p s H Hr Hw Hd b) as (s1 & o1 & ? & ? & ? & ? & ?).
      exists s1. split_and!; [done|done|done|]. right. by exists o1.
    - destruct b; cbn [when].
      + destruct (wakeup_ok now W p s H Hl) as (s1 & E1 & H1 & V1); [done|]. exists s1.
        split_and!; [done|by apply Hmono|done|left; by apply (settled_evolve _ _ _ _ V1)].
      + exists s. split_and!; [done|by apply Hmono|apply evolve_refl|by left]. }
  destruct Hfirst as (s1 & -> & H1 & V1 & Hor).
  assert (Hd1 : p ∈ dom (objects (loop s1))) by (apply (ev_dom _ _ _ V1); done).
  apply elem_of_dom in Hd1 as [o Ho]. unfold bind at 1.
  destruct (get_ok _ _ p o s1 H1 Ho) as (s2 & -> & H2 & V2%(evolve_weaken p) & O2).
  pose proof (evolve_trans _ _ _ _ V1 V2) as V. pose proof (wait_for_ge now (next_timeout o)) as Hge.
  destruct (Z.eqb_spec (next_timeout o) 0) as [Hz|Hz]; [by exists s2, timeout|].
  destruct (Z.leb_spec (next_timeout o) now) as [Hle|Hgt].
  - destruct Hor as [Hset|(o' & Ho' & Hlat)]; [|rewrite Ho in Ho'; simplify_eq; unfold later in Hlat; lia].
    destruct (quit_delete_ok now ({[p]} ∪ W) p s2) as (s3 & E3 & H3 & V3);
      [done|by rewrite (ev_lock _ _ _ V)|by apply (settled_evolve _ _ _ _ V2)|].
    exists s3, timeout. split_and!; [|done|by eapply evolve_trans|done].
    unfold session_timeout. unfold bind at 1. by rewrite E3.
  - eexists s2, _. split; [reflexivity|]. split_and!; [done|done|].
    unfold sane in *. destruct (Z.eqb_spec timeout (-1)); lia.
Qed.

Lemma check_sessions_ok woken now W l timeout s :
  lok now W s -> lock (loop s) = false -> NoDup l -> Forall (fun p => p ∈ dom (objects (loop s)) /\ p ∉ W) l ->
  sane timeout ->
  exists s' timeout' W', check_sessions woken now l timeout s = (Done timeout', s') /\ lok now W' s' /\
    lock (loop s') = false /\ sane timeout'.
Proof.
  revert W timeout s; induction l as [|p l IH]; intros W timeout s H Hl Hnd Hall Ht; [by exists s, timeout, W|].
  apply NoDup_cons in Hnd as [Hp Hnd]. apply Forall_cons in Hall as [[Hd Hw] Hall].
  destruct (check_one_ok woken now W p l timeout s H Hl Hd Hw Ht) as (s1 & t1 & -> & H1 & V1 & Ht1).
  apply (IH ({[p]} ∪ W)); try done; [by rewrite (ev_lock _ _ _ V1)|].
  apply Forall_forall. intros q Hq. destruct (proj1 (Forall_forall _ _) Hall q Hq).
  split; [by apply (ev_dom _ _ _ V1)|]. intros [->%elem_of_singleton|?]%elem_of_union; done.
Qed.

Lemma free_keeps now W D p s :
  ok now W D ∅ 0 s -> p ∈ D ->
  ok now W (D ∖ {[p]}) ∅ 0 (set_loop (set_objects (delete p (objects (loop s))) (loop s)) s).
Proof.
  intros [[H1 H0 H2 H3 H4 H5 H6 H7] [C1 C2]] Hp.
  assert (Hps : p ∉ m_sessions (loop s)) by set_solver. assert (Hpe : p ∉ epoll (loop s)) by set_solver.
  split; split; cbn; rewrite ?dom_delete_L; try done.
  - set_solver.
  - set_solver.
  - set_solver.
  - set_solver.
  - intros q oq [Hq Hqp]%elem_of_difference. rewrite lookup_delete_ne by set_solver. by apply H6.
  - destruct (accepting s); cbn in *; try done. rewrite dom_delete_L. set_solver.
  - intros q oq Hq Hw. rewrite lookup_delete_Some. intros [_ ?]. by apply (C2 q).
Qed.

Lemma destroy_ok now W D p s :
  ok now W D ∅ 0 s -> p ∈ D ->
  exists s', destroy p s = (Done tt, s') /\ ok now W (D ∖ {[p]}) ∅ 0 s' /\ lock (loop s') = lock (loop s).
Proof.
  intros H Hp. pose proof (deleted_settled _ _ _ _ _ (proj1 H) Hp) as Hs.
  pose proof (proj1 Hs) as [o Ho]%elem_of_dom.
  assert (Hc : co o = []) by (destruct H as [[] _]; eauto).
  unfold destroy, quitIoLoop. unfold bind at 1. unfold bind at 1.
  destruct (get_run _ _ _ _ _ p o s H Ho) as (s1 & -> & H1 & V1 & O1). rewrite Hc. cbn [length quit_loop].
  unfold bind at 1. destruct (get_run _ _ _ _ _ p o s1 H1 O1) as (s2 & -> & H2 & V2 & O2).
  pose proof (evolve_trans _ _ _ _ V1 V2) as V02.
  unfold alive. rewrite Hc. cbn [skip ret]. unfold bind at 1.
  destruct (unregister_ok now W D p s2 H2) as (s3 & -> & H3 & V3 & _); [by apply (settled_evolve _ _ _ _ V02)|].
  destruct (atomic_run (modify (fun s => set_objects (delete p (objects s)) s)) _ _ _ _ _ s3 H3)
    as (s4 & -> & H4 & V4 & _).
  eexists. split; [reflexivity|]. cbn [fst snd modify]. split; [by apply free_keeps|].
  cbn. by rewrite (ev_lock _ _ _ V4), (ev_lock _ _ _ V3), (ev_lock _ _ _ V02).
Qed.

Lemma destroy_all_ok now W D l s :
  ok now W D ∅ 0 s -> NoDup l -> (forall p, p ∈ D <-> p ∈ l) ->
  exists s', iterM destroy l s = (Done tt, s') /\ ok now W ∅ ∅ 0 s' /\ lock (loop s') = lock (loop s).
Proof.
  intros H Hnd. revert D s H; induction Hnd as [|p l Hp Hnd IH]; intros D s H Hl.
  - exists s. split_and!; [done| |done]. replace ∅ with D at 1; [done|]. set_solver.
  - destruct (destroy_ok now W D p s H) as (s1 & E1 & H1 & L1); [apply Hl; left|].
    destruct (IH (D ∖ {[p]}) s1 H1) as (s2 & E2 & H2 & L2).
    + intros q. rewrite elem_of_difference, elem_of_singleton, Hl, elem_of_cons. naive_solver.
    + exists s2. cbn [iterM]. unfold bind. rewrite E1, E2. split_and!; [done|done|congruence].
Qed.

Lemma delete_all_ok now W s :
  lok now W s -> lock (loop s) = false ->
  exists s', delete_all s = (Done tt, s') /\ ok now W ∅ ∅ 0 s' /\ lock (loop s') = false /\
    m_deleteLaterObjects (loop s') = ∅.
Proof.
  intros H Hl. unfold delete_all, bind at 1.
  destruct (atomic_run acquire _ _ _ _ _ s H) as (s1 & -> & H1 & V1 & _).
  unfold on_loop at 1, acquire. rewrite (ev_lock _ _ _ V1), Hl. cbn [fst snd]. fold (relock true s1).
  set (D := m_deleteLaterObjects (loop s)) in *. unfold bind at 1.
  destruct (atomic_run (gets (fun s => elements (m_deleteLaterObjects s))) _ _ _ _ _
    (relock true s1) (relock_ok _ _ _ _ _ true s1 H1)) as (s2 & -> & H2 & V2 & _).
  unfold on_loop at 1, gets. cbn [fst snd]. assert (Es : set_loop (loop s2) s2 = s2) by by destruct s2. rewrite Es.
  unfold bind at 1. destruct (destroy_all_ok now W D (elements (m_deleteLaterObjects (loop s2))) s2 H2)
    as (s3 & -> & H3 & L3); [apply NoDup_elements| |].
  { intros p. rewrite elem_of_elements, (deleted_same _ _ V2). cbn. by rewrite (deleted_same _ _ V1). }
  unfold bind at 1.
  destruct (atomic_run (modify (set_deleteLater ∅)) _ _ _ _ _ s3 H3) as (s4 & -> & H4 & V4 & _).
  unfold on_loop at 1. cbn [fst snd modify]. set (s5 := set_loop _ s4).
  assert (H5 : ok now W ∅ ∅ 0 s5) by (destruct H4 as [[] []]; by split; split).
  destruct (atomic_run release _ _ _ _ _ s5 H5) as (s6 & -> & H6 & V6 & _).
  exists (relock false s6). split_and!; [done|by apply relock_ok|done|]. cbn. by rewrite (deleted_same _ _ V6).
Qed.

Lemma pass_ok balanced evs now s :
  lok now ∅ s -> lock (loop s) = false ->
  (forall ev, ev ∈ evs -> is_session (loop s) ev = true -> ev.1 ∈ epoll (loop s) /\ handled ev.2) ->
  exists timeout s', loop_pass balanced evs now s = (Done timeout, s') /\ sane timeout /\
    cinv ∅ ∅ 0 s' /\ lock (loop s') = false /\ m_deleteLaterObjects (loop s') = ∅.
Proof.
  intros H Hl Hev. unfold loop_pass, bind at 1.
  destruct (dispatch_ok now balanced evs s H Hl) as (w & s1 & -> & H1 & L1).
  { intros ev Hin Hi. destruct (Hev ev Hin Hi) as [He ?]. split; [|done].
    destruct H as [[A1 A0 A2 A3 A4 A5 A6 A7] _]. split; [set_solver|].
    destruct (accepting s); cbn in *; intros [= ->]; tauto. }
  unfold bind at 1. assert (Hw : exists r s2, wokeup_sessions w s1 = (Done r, s2) /\ lok now ∅ s2 /\ lock (loop s2) = false).
  { unfold wokeup_sessions. destruct w; [|by exists [], s1]. apply (read_wakeups_ok now ∅ _ s1 H1 L1). left. lia. }
  destruct Hw as (r & s2 & -> & H2 & L2). unfold bind at 1.
  destruct (atomic_run (gets (fun s => addresses (m_sessions s))) _ _ _ _ _ s2 H2) as (s3 & -> & H3 & V3 & _).
  rewrite <- (deleted_same _ _ V3) in H3. rewrite <- (ev_lock _ _ _ V3) in L2.
  unfold on_loop at 1, gets. cbn [fst snd]. assert (Es : set_loop (loop s3) s3 = s3) by by destruct s3. rewrite Es.
  unfold bind at 1. destruct (check_sessions_ok r now ∅ (addresses (m_sessions (loop s3))) (-1) s3)
    as (s4 & t & W & -> & H4 & L4 & Ht); [done|done| | |by left|].
  { rewrite addresses_perm. apply NoDup_elements. }
  { rewrite addresses_perm. apply Forall_forall. intros p Hp%elem_of_elements. split; [|set_solver].
    destruct H3 as [[] _]. set_solver. }
  unfold bind at 1. destruct (delete_all_ok now W s4 H4 L4) as (s5 & -> & [H5 _] & L5 & E5).
  by exists t, s5.
Qed.

(** * Without interference *)

(** [mi] with no one interfering does what [m] does, unless [mi] uses a freed
    object where [m] does not look. *)
Definition solo {A : Type} (mi : M shared A) (m : M eloop A) : Prop := forall l a,
  (mi (Shared l a [])).1 = Undefined \/ mi (Shared l a []) = ((m l).1, Shared (m l).2 a []).

Section Solo.
Context {A B C : Type}.

Lemma solo_ret (a : A) : solo (ret a) (ret a).
Proof. by right. Qed.

Lemma solo_undefined : solo (A := A) undefined undefined.
Proof. by left. Qed.

Lemma solo_atomic (m : M eloop A) : solo (atomic m) m.
Proof. by right. Qed.

Lemma solo_bind_map (f : B -> A) mi (m : M eloop B) ki (k : B -> M eloop C) :
  solo mi (b <-- m ;; ret (f b)) -> (forall b, solo (ki (f b)) (k b)) -> solo (bind mi ki) (bind m k).
Proof.
  intros Hm Hk l a. unfold bind. destruct (Hm l a) as [E|E].
  - left. destruct (mi _) as [[]]; cbn in E; done.
  - rewrite E. unfold bind. destruct (m l) as [[b|e| |] l']; cbn; [apply Hk|by right|by right|by right].
Qed.

Lemma solo_try mi (m : M eloop A) hi h :
  solo mi m -> (forall e, solo (hi e) (h e)) -> solo (try_catch mi hi) (try_catch m h).
Proof.
  intros Hm Hh l a. unfold try_catch. destruct (Hm l a) as [E|E].
  - left. destruct (mi _) as [[]]; cbn in E; done.
  - rewrite E. destruct (m l) as [[b|e| |] l']; cbn; [by right|apply Hh|by right|by right].
Qed.

Lemma solo_when b mi m : solo mi m -> solo (when b mi) (when b m).
Proof. intros H. destruct b; [done|by right]. Qed.

(** The uninterrupted code may leave out looks at objects. *)
Lemma solo_weaken mi (m m' : M eloop A) :
  solo mi m -> (forall l, (m l).1 = Undefined \/ m l = m' l) -> solo mi m'.
Proof.
  intros H Hm l a. destruct (H l a) as [E|E]; [by left|]. destruct (Hm l) as [E'|E'].
  - left. by rewrite E.
  - right. by rewrite E, E'.
Qed.
End Solo.

Lemma solo_bind {A B : Type} mi (m : M eloop A) ki (k : A -> M eloop B) :
  solo mi m -> (forall b, solo (ki b) (k b)) -> solo (bind mi ki) (bind m k).
Proof.
  intros Hm Hk. apply (solo_bind_map id); [|done]. eapply solo_weaken; [exact Hm|].
  intros l. right. unfold bind, ret, id. by destruct (m l) as [[]].
Qed.

Lemma solo_iterM {A : Type} (fi : A -> M shared unit) (f : A -> M eloop unit) l :
  (forall x, solo (fi x) (f x)) -> solo (iterM fi l) (iterM f l).
Proof. intros H. induction l as [|x l IH]; [apply solo_ret|]. by apply solo_bind. Qed.

Create HintDb solo.
#[export] Hint Resolve solo_ret solo_undefined solo_atomic : solo.
#[export] Hint Unfold skip : solo.

Ltac solo_step :=
  match goal with
  | |- solo _ _ => solve [eauto with solo]
  | |- solo (bind _ _) (bind _ _) => apply solo_bind; [|intros ?]
  | |- solo (try_catch _ _) (try_catch _ _) => apply solo_try; [|intros ?]
  | |- solo (when _ _) (when _ _) => apply solo_when
  | |- solo (iterM _ _) (iterM _ _) => apply solo_iterM; intros ?
  | |- solo (if ?b then _ else _) _ => destruct b
  | |- solo (match ?x with _ => _ end) _ => destruct x
  end.
Ltac solo := repeat solo_step.

Lemma solo_unregister p : solo (unregisterSession p) (EventLoop.unregisterSession p).
Proof.
  eapply (solo_weaken _ (b <-- erase_session p ;; if (b : bool) then
    unpoll p >>> modify (fun s => set_active (wrap32 (m_activeSessions s - 1)) s) else skip)).
  { unfold unregisterSession. solo. }
  intros l. unfold bind, erase_session, EventLoop.unregisterSession, unpoll, gets, id, bind, get_object.
  case_decide; [|by right]. cbn. destruct (objects l !! p); [right|by left].
  change (epoll (set_sessions _ l)) with (epoll l). by destruct (decide (p ∈ epoll l)).
Qed.
#[export] Hint Resolve solo_unregister : solo.

Lemma solo_deleteLater p : solo (deleteLater p) (EventLoop.deleteLater p).
Proof. unfold deleteLater, EventLoop.deleteLater. solo. Qed.
#[export] Hint Resolve solo_deleteLater : solo.

Lemma solo_ioYield p : solo (m_ioYield p) (EventLoop.m_ioYield p).
Proof.
  eapply (solo_weaken _ (failed <-- resume p ;; when failed (EventLoop.deleteLater p))).
  { unfold m_ioYield. solo. }
  intros l. right. unfold resume, EventLoop.m_ioYield, bind, modify.
  destruct (get_object p l) as [[o|e| |] l']; try done. by destruct (co o).
Qed.
#[export] Hint Resolve solo_ioYield : solo.

Lemma solo_quitIoLoop p : solo (quitIoLoop p) (EventLoop.quitIoLoop p).
Proof.
  unfold quitIoLoop, EventLoop.quitIoLoop. apply solo_bind; [solo|]. intros o. generalize (length (co o)). clear o.
  intros n; induction n as [|n IH]; cbn [quit_loop EventLoop.quit_loop]; solo.
Qed.
#[export] Hint Resolve solo_quitIoLoop : solo.

Lemma solo_wakeup p : solo (session_wakeup p) (EventLoop.session_wakeup p).
Proof. unfold session_wakeup, EventLoop.session_wakeup. solo. Qed.
#[export] Hint Resolve solo_wakeup : solo.

Lemma solo_timeout p : solo (session_timeout p) (EventLoop.session_timeout p).
Proof. unfold session_timeout, EventLoop.session_timeout. solo. Qed.
#[export] Hint Resolve solo_timeout : solo.

Lemma solo_processEvents p ev : solo (processEvents p ev) (EventLoop.processEvents p ev).
Proof. unfold processEvents, EventLoop.processEvents. solo. Qed.
#[export] Hint Resolve solo_processEvents : solo.

Lemma solo_destroy p : solo (destroy p) (EventLoop.destroy p).
Proof. unfold destroy, EventLoop.destroy. solo. Qed.
#[export] Hint Resolve solo_destroy : solo.

Lemma solo_delete_all : solo delete_all EventLoop.delete_all.
Proof. unfold delete_all, EventLoop.delete_all. solo. Qed.
#[export] Hint Resolve solo_delete_all : solo.

Lemma bind_next {S A B : Type} (m : M S A) (k : A -> M S B) s a s' :
  m s = (Done a, s') -> bind m k s = k a s'.
Proof. intros E. unfold bind. by rewrite E. Qed.

Lemma read_orders_pure evs l : (read_orders evs l).1 = Undefined \/ read_orders evs l = (Done tt, l).
Proof.
  induction evs as [|ev evs IH]; [by right|]. unfold read_orders in *. cbn [iterM].
  assert (E : (_ <-- get_object ev.1 ;; skip) l = (Undefined, l) \/ (_ <-- get_object ev.1 ;; skip) l = (Done tt, l)).
  { unfold bind, get_object. destruct (objects l !! ev.1); [by right|by left]. }
  destruct E as [E|E]; [left; unfold bind at 1; by rewrite E|]. by rewrite (bind_next _ _ _ _ _ E).
Qed.

Lemma solo_dispatch balanced evs : solo (dispatch balanced evs) (EventLoop.dispatch balanced evs).
Proof.
  eapply (solo_weaken _ (s <-- gets id ;; when balanced (read_orders (List.filter (is_session s) evs)) >>>
    iterM (fun ev => EventLoop.processEvents ev.1 ev.2)
      (if balanced then balance (object_order s) (List.filter (is_session s) evs) else List.filter (is_session s) evs) >>>
    ret (negb (forallb (is_session s) evs)))).
  { unfold dispatch. solo. }
  intros l. unfold EventLoop.dispatch. rewrite !(bind_next (gets id) _ l l l eq_refl).
  destruct balanced; cbn [when]; [|by right].
  destruct (read_orders_pure (List.filter (is_session l) evs) l) as [E|E]; [|right; by rewrite (bind_next _ _ _ _ _ E)].
  left. unfold bind at 1. destruct (read_orders _ l) as [[]]; cbn in E; done.
Qed.
#[export] Hint Resolve solo_dispatch : solo.

Lemma solo_wokeup w :
  solo (wokeup_sessions w) (o <-- EventLoop.wokeup_sessions w ;; ret (option_list o)).
Proof.
  intros l a. right. unfold wokeup_sessions, EventLoop.wokeup_sessions. destruct w; [|done].
  unfold bind at 1, gets. cbn -[eventfd_read]. unfold bind, eventfd_read.
  destruct (Z.eqb_spec (counter l) 0) as [Hz|Hz]; cbn; [done|]. by destruct (counter l =? 1)%Z.
Qed.

Lemma solo_check o now l timeout :
  solo (check_sessions (option_list o) now l timeout) (EventLoop.check_sessions o now l timeout).
Proof.
  revert timeout; induction l as [|p l IH]; intros timeout; cbn [check_sessions EventLoop.check_sessions]; [solo|].
  assert (E : bool_decide (Z.of_N p ∈ option_list o) = bool_decide (o = Some (Z.of_N p))).
  { apply bool_decide_ext. destruct o; cbn; set_solver. }
  rewrite E. solo.
Qed.

Lemma solo_pass balanced evs now : solo (loop_pass balanced evs now) (EventLoop.loop_pass balanced evs now).
Proof.
  unfold loop_pass, EventLoop.loop_pass. apply solo_bind; [solo|]. intros w.
  apply (solo_bind_map option_list); [apply solo_wokeup|]. intros o.
  apply solo_bind; [solo|]. intros l. apply solo_bind; [apply solo_check|]. intros t. solo.
Qed.

(** * The threads' lives *)

(** The events [epoll_wait] can return: of sockets registered with epoll. *)
Definition polled_events (evs : list (N * N)) (s : shared) : Prop :=
  forall ev, ev ∈ evs -> is_session (loop s) ev = true -> ev.1 ∈ epoll (loop s) /\ handled ev.2.

(** Between two atomic steps of the loop's thread outside a pass the others move;
    a pass runs under any schedule. *)
Inductive istep : shared -> shared -> Prop :=
| i_move s m s' : perform m s = (Done tt, s') -> istep s s'
| i_pass s balanced evs now sch t s' :
    calm now ∅ (set_schedule sch s) -> polled_events evs s ->
    loop_pass balanced evs now (set_schedule sch s) = (Done t, s') -> istep s (set_schedule [] s').

Inductive ireachable : shared -> Prop :=
| ir_new fd : ireachable (Shared (new_loop fd) Idle [])
| ir_step s s' : ireachable s -> istep s s' -> ireachable s'.

Definition resting (s : shared) : Prop :=
  cinv ∅ ∅ 0 s /\ lock (loop s) = false /\ m_deleteLaterObjects (loop s) = ∅ /\ schedule s = [].

Lemma resting_move m s : resting s -> exists s', perform m s = (Done tt, s') /\ resting s'.
Proof.
  intros (H & Hl & Hd & Hs).
  set (W := dom (objects (loop s)) ∪ match m with Mcreate p _ => {[p]} | _ => ∅ end).
  destruct (perform_keeps 0 W ∅ ∅ 0 m s H) as (s' & E & H' & _ & V & S').
  - split; [by rewrite Hs|]. intros p o Hr Hp Ho.
    destruct Hp. apply elem_of_union_l, elem_of_dom. by eexists.
  - intros p o -> []. unfold W. set_solver.
  - exists s'. split; [done|]. unfold resting. rewrite S'. by rewrite (ev_lock _ _ _ V), (deleted_same _ _ V).
Qed.

Lemma resting_pass balanced evs now sch s :
  resting s -> calm now ∅ (set_schedule sch s) -> polled_events evs s ->
  exists t s', loop_pass balanced evs now (set_schedule sch s) = (Done t, s') /\ sane t /\
    resting (set_schedule [] s').
Proof.
  intros (H & Hl & Hd & _) Hc Hev.
  destruct (pass_ok balanced evs now (set_schedule sch s)) as (t & s' & E & Ht & H' & L' & D');
    [|done|exact Hev|].
  - split; [cbn; rewrite Hd; by destruct H|done].
  - exists t, s'. split_and!; [done|done|]. split_and!; try done. by destruct H'.
Qed.

Lemma ireachable_resting s : ireachable s -> resting s.
Proof.
  induction 1 as [fd|s s' _ IH Hs]; [split_and!; try done; by split|].
  destruct Hs as [s m s' E|s balanced evs now sch t s' Hc Hev E].
  - destruct (resting_move m s IH) as (s2 & E2 & ?). rewrite E in E2. by simplify_eq.
  - destruct (resting_pass balanced evs now sch s IH Hc Hev) as (t2 & s2 & E2 & _ & ?).
    rewrite E in E2. by simplify_eq.
Qed.

Lemma resting_inv s : resting s -> accepting s = Idle -> inv (loop s).
Proof.
  intros ([H1 H0 H2 H3 H4 H5 H6 H7] & Hl & Hd & _) Hi. unfold inv. rewrite Hd, Hi in *. cbn in H2.
  split_and!; try done.
  - clear -H1. set_solver.
  - rewrite H2. f_equal. lia.
Qed.

Lemma inv_resting l : quiet l -> resting (Shared l Idle []).
Proof.
  intros ((H1 & H2 & H3 & H4 & H5 & H6) & Hl & Hd). split_and!; try done. split; cbn; try done.
  - clear -H1. set_solver.
  - etransitivity; done.
  - rewrite H2. f_equal. lia.
Qed.

(** The moves of the accept thread, one after the other, are [registerSession]. *)
Lemma register_moves p ok l :
  p ∈ dom (objects l) ->
  iterM perform [Minsert; Mpoll ok; Mcount] (Shared l (Made p) []) =
    (Done tt, Shared (EventLoop.registerSession p ok l).2 Idle []).
Proof.
  intros [o Ho]%elem_of_dom.
  set (l1 := set_sessions ({[p]} ∪ m_sessions l) l).
  assert (E : perform (Mpoll ok) (Shared l1 (Listed p) []) =
    (Done tt, if ok then Shared (set_epoll ({[p]} ∪ epoll l1) l1) (Polled p) [] else Shared l1 Idle [])).
  { unfold perform, bind, gets, try_catch, on_loop, register_poll, get_object, bind. cbn [accepting loop].
    change (objects l1 !! p) with (objects l !! p). rewrite Ho. by destruct ok. }
  cbn [iterM]. rewrite (bind_next (perform Minsert) _ (Shared l (Made p) []) tt (Shared l1 (Listed p) []) eq_refl).
  rewrite (bind_next _ _ _ _ _ E). by destruct ok.
Qed.

(** * Properties *)

(** C7. In every interleaving, at the grain of the critical sections, of the
    event loop's passes with the accept thread's registrations and with wake-ups
    and shutdowns from any thread, as long as the sessions under registration
    are fresh when a pass looks at them: no thread uses a freed object, every
    pass ends (the loop that reads the eventfd too, although others write to
    it meanwhile), every move of the other threads succeeds, and the counter the
    server balances load by is the number of registered sockets, less the one
    the accept thread added to epoll and has not counted yet.  Whenever no
    registration is in progress the state satisfies the invariant of the
    uninterrupted loop. *)
Theorem interleaved_safe s :
  ireachable s ->
  m_activeSessions (loop s) = wrap32 (Z.of_nat (size (epoll (loop s))) - uncounted (accepting s)) /\
  m_deleteLaterObjects (loop s) = ∅ /\ (accepting s = Idle -> inv (loop s)) /\
  (forall m, exists s', perform m s = (Done tt, s') /\ ireachable s') /\
  (forall balanced evs now sch, calm now ∅ (set_schedule sch s) -> polled_events evs s ->
     exists t s', loop_pass balanced evs now (set_schedule sch s) = (Done t, s') /\ sane t /\
       ireachable (set_schedule [] s')).
Proof.
  intros Hr. pose proof (ireachable_resting s Hr) as Hq. split_and!.
  - destruct Hq as [[] _]. by rewrite ci_active0, Z.add_0_r.
  - apply Hq.
  - by apply resting_inv.
  - intros m. destruct (resting_move m s Hq) as (s' & E & _). exists s'. split; [done|]. by eapply ir_step, i_move.
  - intros balanced evs now sch Hc Hev. destruct (resting_pass balanced evs now sch s Hq Hc Hev) as (t & s' & E & Ht & _).
    exists t, s'. split_and!; [done|done|]. by eapply ir_step, i_pass.
Qed.

(** A session is polled but not counted when the loop passes: it is served, times
    out and is freed, while a second one is created and listed; the eventfd is
    written between two reads. *)
Definition racing : shared :=
  Shared (Loop {[64%N]} 0 ∅ false {[64%N]} 7 0 false (<[64%N := Object 0 [5%Z; 0%Z] false 5]> ∅)) (Polled 64) [].

Definition racing_schedule : list (list move) :=
  [[]; [Mwakeup 96]; []; [Mcount; Mcreate 96 (Object 1 [99%Z] false 99)]; [Minsert]; []; [Mwakeup 64; Mwakeup 8]; []; [Mpoll true]].

Lemma racing_reachable : ireachable racing.
Proof.
  eapply ir_step; [eapply ir_step; [eapply ir_step; [apply (ir_new 7)|]|]|];
    [apply (i_move _ (Mcreate 64 (Object 0 [5%Z; 0%Z] false 5)))|apply (i_move _ Minsert)|apply (i_move _ (Mpoll true))];
    vm_compute; reflexivity.
Qed.

Lemma interleaved_safe_witness :
  exists t s', loop_pass true [(64, EPOLLIN); (7, EPOLLIN)]%N 50 (set_schedule racing_schedule racing) = (Done t, s') /\
    sane t /\ ireachable (set_schedule [] s') /\ objects (loop s') !! 64%N = None /\ accepting s' = Polled 96%N /\
    m_activeSessions (loop s') = 0%Z.
Proof.
  destruct (interleaved_safe racing racing_reachable) as (_ & _ & _ & _ & Hp).
  destruct (Hp true [(64, EPOLLIN); (7, EPOLLIN)]%N 50%Z racing_schedule) as (t & s' & E & Ht & Hr).
  - split; [|done]. repeat constructor; cbn; try lia; (by left) || by right.
  - intros ev Hev. repeat (apply elem_of_cons in Hev as [->|Hev]); try (by apply elem_of_nil in Hev);
      intros Hi; (split; [decided|]) || discriminate Hi; discriminate.
  - exists t, s'. split; [exact E|]. split; [exact Ht|]. split; [exact Hr|].
    vm_compute in E. injection E as _ <-. by vm_compute.
Defined.



(** Without the freshness the threads race: [registerSession] puts the
    session in [m_sessions] before it uses it for [epoll_ctl], so a pass in
    between that finds the deadline passed, or a wake-up left over from a
    session that lived at the same address whose first step fails, deletes the
    session, and the accept thread goes on with a freed object.  And since the
    socket is counted after it was added to epoll, a loop that serves and deletes
    the session first takes its counter of active sessions below zero, to the
    largest 32 bit number, which the server takes for the busiest loop. *)
Theorem registration_race :
  exists late failing : object,
    (next_timeout late <= 10)%Z /\ (10 < next_timeout failing)%Z /\
    ((loop_pass false [] 10 >>> perform (Mpoll true))
       (Shared (new_loop 7) Idle [[Mcreate 64 late; Minsert]])).1 = Undefined /\
    ((loop_pass false [(7, EPOLLIN)]%N 10 >>> perform (Mpoll true))
       (Shared (new_loop 7) Idle [[Mwakeup 64; Mcreate 64 failing; Minsert]])).1 = Undefined /\
    m_activeSessions (loop (loop_pass false [(64, EPOLLERR)]%N 10 racing).2) = 4294967295%Z.
Proof.
  exists (Object 0 [0%Z] false 5), (Object 0 [99%Z] true 99). by vm_compute.
Qed.
