(* ===== verification/Config.v ===== *)
(** The command line and the configuration file: the first part of [Server::exec]
    (src/server/server.cpp), with what it asks of OpenSSL, and [Server::~Server].

    The state is what this code assigns: the server's members and static variables,
    the local variables of [exec], the working directory, and the calls to OpenSSL. *)

From Stdlib Require Import Ascii String NArith ZArith Lia.
From stdpp Require Import base gmap strings list.
From S2P Require Import Prelude Http Effects.
Local Open Scope getodac_scope.

(** * Property trees *)

(** [boost::property_tree::ptree] *)
Inductive ptree : Type :=
| Node (data : bytes) (children : list (bytes * ptree)).

Definition pt_data (t : ptree) : bytes := match t with Node d _ => d end.
Definition pt_children (t : ptree) : list (bytes * ptree) := match t with Node _ c => c end.

Definition child_path (prevNodes key : bytes) : bytes :=
  match prevNodes with [] => key | _ => prevNodes ++ str "." ++ key end.

(** [mergedProperties]: the leaves with their dotted paths. *)
Fixpoint mergedProperties (node : ptree) (prevNodes : bytes) : list (bytes * bytes) :=
  match node with
  | Node data [] => [(prevNodes, data)]
  | Node data children =>
      mjoin ((fun kn : bytes * ptree => let '(k, n) := kn in mergedProperties n (child_path prevNodes k)) <$> children)
  end.

(** [ptree::find]: the first child with the key. *)
Definition pt_find (k : bytes) (t : ptree) : option ptree :=
  (list_find (fun kn => kn.1 = k) (pt_children t)) ≫= fun r => Some r.2.2.

(** [get_child] along the keys of a path. *)
Fixpoint pt_get (path : list bytes) (t : ptree) : option ptree :=
  match path with
  | [] => Some t
  | k :: rest => pt_find k t ≫= pt_get rest
  end.

(** How a value's text is read ([boost::property_tree]'s translators). *)
Class Translators := {
  parse_int : bytes -> option Z;
  parse_uint32 : bytes -> option Z;
  parse_bool : bytes -> option bool
}.

(** [get(path, default)]: the default for a missing node and for a text that is none. *)
Definition get_int `{Translators} (path : list bytes) (dflt : Z) (t : ptree) : Z :=
  default dflt (pt_get path t ≫= fun n => parse_int (pt_data n)).

Definition get_uint32 `{Translators} (path : list bytes) (dflt : Z) (t : ptree) : Z :=
  default dflt (pt_get path t ≫= fun n => parse_uint32 (pt_data n)).

Definition get_bool `{Translators} (path : list bytes) (dflt : bool) (t : ptree) : bool :=
  default dflt (pt_get path t ≫= fun n => parse_bool (pt_data n)).

(** [get_child(path)] and [get<std::string>(path)] throw [ptree_bad_path]. *)
Definition bad_path (path : list bytes) : exn :=
  ex_std (runtime_error (str "No such node (" ++ fold_left child_path path [] ++ str ")")).

Definition get_child (path : list bytes) (t : ptree) : result exn ptree :=
  match pt_get path t with
  | Some n => Ok n
  | None => Throw (bad_path path)
  end.

Definition get_string (path : list bytes) (t : ptree) : result exn bytes :=
  let* n := get_child path t in Ok (pt_data n).

(** [boost::algorithm::to_lower_copy] *)
Definition to_lower (c : ascii) : ascii :=
  let n := N_of_ascii c in if ((65 <=? n) && (n <=? 90))%N then ascii_of_N (n + 32) else c.
Definition to_lower_copy (s : bytes) : bytes := to_lower <$> s.

Inductive ssl_method : Type := TLS_server_method | DTLS_server_method.


Inductive ssl_mode : Type := SSL_MODE_RELEASE_BUFFERS | SSL_MODE_ENABLE_PARTIAL_WRITE.

(** * The command line *)

(** An option with an implicit value: not there, there without or with a value. *)
Inductive argument (A : Type) : Type :=
| absent
| implicit
| given (a : A).
Arguments absent {A}.
Arguments implicit {A}.
Arguments given {A} _.

(** What [parse_command_line] found. *)
Record arguments := {
  arg_conf : argument bytes;
  arg_plugins_dir : argument bytes;
  arg_workers : argument Z;
  arg_user : option bytes;
  arg_group : option bytes;
  arg_pid : bool;
  arg_help : bool
}.

(** The variables the options are bound to. *)
Record options := {
  confDir : bytes;
  pluginsPath : bytes;
  eventLoopsSize : Z;
  dropUser : bytes;
  dropGroup : bytes;
  printPID : bool
}.

(** [path::parent_path] of an absolute path without a trailing separator. *)
Fixpoint drop_name (rpath : bytes) : bytes :=
  match rpath with
  | [] => []
  | c :: rest => if decide (c = "/"%char) then rest else drop_name rest
  end.

Definition parent_path (path : bytes) : bytes :=
  match reverse (drop_name (reverse path)) with
  | [] => str "/"
  | dir => dir
  end.

(** [path::append] of a relative path. *)
Definition append (dir name : bytes) : bytes :=
  match last dir with
  | Some c => if decide (c = "/"%char) then dir ++ name else dir ++ str "/" ++ name
  | None => name
  end.

(** What [exec] starts from: [exe] is the canonical path of [argv[0]]. *)
Definition default_options (exe : bytes) (hardware_concurrency : Z) : options :=
  let prefix := parent_path (parent_path exe) in
  {| confDir := append prefix (str "etc/GETodac"); pluginsPath := append prefix (str "lib/getodac/plugins");
     eventLoopsSize := Z.max 2 hardware_concurrency; dropUser := []; dropGroup := []; printPID := false |}.

(** The implicit value of an option is the value of its variable. *)
Definition value {A : Type} (variable : A) (a : argument A) : A :=
  match a with
  | absent | implicit => variable
  | given v => v
  end.

(** [po::notify] *)
Definition notify (a : arguments) (o : options) : options := {|
  confDir := value (confDir o) (arg_conf a);
  pluginsPath := value (pluginsPath o) (arg_plugins_dir a);
  eventLoopsSize := value (eventLoopsSize o) (arg_workers a);
  dropUser := default (dropUser o) (arg_user a);
  dropGroup := default (dropGroup o) (arg_group a);
  printPID := arg_pid a |}.

(** * The state *)

Record config := {
  httpPort : Z;
  httpsPort : Z;
  s_keepAliveTimeout : Z;
  s_headersTimeout : Z;
  s_sslAcceptTimeout : Z;
  s_sslShutdownTimeout : Z;
  enableServerStatus : bool;
  queuedConnections : Z;
  maxConnectionsPerIp : Z;
  workloadBalancing : bool;
  loggingSettings : list (bytes * bytes);
  m_sslContext : option ssl_method;
  (** the local variables [uid] and [gid] *)
  drop_uid : Z;
  drop_gid : Z
}.

(** Without a configuration directory the server runs with these. *)
Definition default_config : config := {|
  httpPort := 8080; httpsPort := 8443; s_keepAliveTimeout := 10; s_headersTimeout := 5;
  s_sslAcceptTimeout := 5; s_sslShutdownTimeout := 2; enableServerStatus := false;
  queuedConnections := 20000; maxConnectionsPerIp := 500; workloadBalancing := true;
  loggingSettings := []; m_sslContext := None; drop_uid := UINT32_MAX; drop_gid := UINT32_MAX |}.

Definition set_logging (x : list (bytes * bytes)) (c : config) : config := {|
  httpPort := httpPort c; httpsPort := httpsPort c; s_keepAliveTimeout := s_keepAliveTimeout c;
  s_headersTimeout := s_headersTimeout c; s_sslAcceptTimeout := s_sslAcceptTimeout c;
  s_sslShutdownTimeout := s_sslShutdownTimeout c; enableServerStatus := enableServerStatus c;
  queuedConnections := queuedConnections c; maxConnectionsPerIp := maxConnectionsPerIp c;
  workloadBalancing := workloadBalancing c; loggingSettings := x; m_sslContext := m_sslContext c;
  drop_uid := drop_uid c; drop_gid := drop_gid c |}.
Definition set_https_values (port accept shut : Z) (c : config) : config := {|
  httpPort := httpPort c; httpsPort := port; s_keepAliveTimeout := s_keepAliveTimeout c;
  s_headersTimeout := s_headersTimeout c; s_sslAcceptTimeout := accept;
  s_sslShutdownTimeout := shut; enableServerStatus := enableServerStatus c;
  queuedConnections := queuedConnections c; maxConnectionsPerIp := maxConnectionsPerIp c;
  workloadBalancing := workloadBalancing c; loggingSettings := loggingSettings c; m_sslContext := m_sslContext c;
  drop_uid := drop_uid c; drop_gid := drop_gid c |}.
Definition set_sslContext (x : option ssl_method) (c : config) : config := {|
  httpPort := httpPort c; httpsPort := httpsPort c; s_keepAliveTimeout := s_keepAliveTimeout c;
  s_headersTimeout := s_headersTimeout c; s_sslAcceptTimeout := s_sslAcceptTimeout c;
  s_sslShutdownTimeout := s_sslShutdownTimeout c; enableServerStatus := enableServerStatus c;
  queuedConnections := queuedConnections c; maxConnectionsPerIp := maxConnectionsPerIp c;
  workloadBalancing := workloadBalancing c; loggingSettings := loggingSettings c; m_sslContext := x;
  drop_uid := drop_uid c; drop_gid := drop_gid c |}.
Definition set_drop (uid gid : Z) (c : config) : config := {|
  httpPort := httpPort c; httpsPort := httpsPort c; s_keepAliveTimeout := s_keepAliveTimeout c;
  s_headersTimeout := s_headersTimeout c; s_sslAcceptTimeout := s_sslAcceptTimeout c;
  s_sslShutdownTimeout := s_sslShutdownTimeout c; enableServerStatus := enableServerStatus c;
  queuedConnections := queuedConnections c; maxConnectionsPerIp := maxConnectionsPerIp c;
  workloadBalancing := workloadBalancing c; loggingSettings := loggingSettings c; m_sslContext := m_sslContext c;
  drop_uid := uid; drop_gid := gid |}.

(** A call to OpenSSL; a null [value] is [None]. *)
Inductive ssl_call : Type :=
| SSL_CTX_new (method : ssl_method)
| SSL_CONF_CTX_new
| SSL_CONF_cmd (cmd : bytes) (value : option bytes)
| SSL_CONF_CTX_finish
| SSL_CTX_check_private_key
| SSL_CTX_set_read_ahead
| SSL_CTX_set_mode (mode : ssl_mode)
| SSL_CONF_CTX_free
| SSL_CTX_free.

(** The library: whether a call succeeds after those made before, and the text of
    its last error. *)
Class OpenSSL := {
  ssl_ok : list (ssl_call * bool) -> ssl_call -> bool;
  ERR_error_string : list (ssl_call * bool) -> bytes
}.

Record setup := Setup {
  conf : config;
  current_path : bytes;
  (** the calls with their results *)
  openssl_calls : list (ssl_call * bool)
}.

Definition new_setup (cwd : bytes) : setup := Setup default_config cwd [].

Definition assign (f : config -> config) : M setup unit :=
  modify (fun s => Setup (f (conf s)) (current_path s) (openssl_calls s)).

(** * The configuration file *)

Definition fail {X : Type} (text : bytes) : M setup X := throw (ex_std (runtime_error text)).

(** A block with a local object whose destructor is [cleanup]. *)
Definition finally {X : Type} (m : M setup X) (cleanup : M setup unit) : M setup X := fun s =>
  match m s with
  | (Done x, s') => (cleanup >>> ret x) s'
  | (Raise e, s') => (cleanup >>> throw e) s'
  | r => r
  end.

Section Configure.
Context `{Translators} `{OpenSSL}.

Definition ssl (c : ssl_call) : M setup bool :=
  calls <-- gets openssl_calls ;;
  let ok := ssl_ok calls c in
  modify (fun s => Setup (conf s) (current_path s) (openssl_calls s ++ [(c, ok)])) >>>
  ret ok.

Definition ssl_error {X : Type} : M setup X :=
  calls <-- gets openssl_calls ;; fail (ERR_error_string calls).

Definition conf_cmd (kv : bytes * bytes) : M setup unit :=
  ok <-- ssl (SSL_CONF_cmd kv.1 (match kv.2 with [] => None | v => Some v end)) ;;
  if (ok : bool) then skip else ssl_error.

(** What is done while [ctxConf] lives. *)
Definition configure_context (properties : ptree) : M setup unit :=
  settings <-- lift (get_child [str "https"; str "ssl"; str "cxt_settings"] properties) ;;
  iterM conf_cmd (mergedProperties settings []) >>>
  finished <-- ssl SSL_CONF_CTX_finish ;;
  checked <-- (if (finished : bool) then ssl SSL_CTX_check_private_key else ret false) ;;
  if negb checked then ssl_error
  else
    ssl SSL_CTX_set_read_ahead >>>
    ssl (SSL_CTX_set_mode SSL_MODE_RELEASE_BUFFERS) >>>
    ssl (SSL_CTX_set_mode SSL_MODE_ENABLE_PARTIAL_WRITE) >>>
    skip.

Definition init_ssl (properties : ptree) : M setup unit :=
  ctx <-- lift (get_string [str "https"; str "ssl"; str "ctx_method"] properties) ;;
  let ctxMethod := to_lower_copy ctx in
  let method := if decide (ctxMethod = str "DTLS") then DTLS_server_method else TLS_server_method in
  made <-- ssl (SSL_CTX_new method) ;;
  assign (set_sslContext (if (made : bool) then Some method else None)) >>>
  if negb made then fail (str "Can't create SSL Context")
  else
    ctxConf <-- ssl SSL_CONF_CTX_new ;;
    if negb ctxConf then ssl_error
    else finally (configure_context properties) (ssl SSL_CONF_CTX_free >>> skip).

(** The [https] section. *)
Definition https_section (properties : ptree) : M setup unit :=
  if get_bool [str "https"; str "enabled"] false properties then
    assign (fun c => set_https_values (get_int [str "https"; str "port"] (httpsPort c) properties)
                       (get_int [str "accept_timeout"] (s_sslAcceptTimeout c) properties)
                       (get_int [str "shutdown_timeout"] (s_sslShutdownTimeout c) properties) c) >>>
    init_ssl properties
  else assign (fun c => set_https_values (-1) (s_sslAcceptTimeout c) (s_sslShutdownTimeout c) c).

Definition quoted (s : bytes) : bytes := ascii_of_N 34 :: s ++ [ascii_of_N 34].

(** [uid] is that of the process; then the user and group data bases. *)
Context (uid : Z) (getpwnam : bytes -> option (Z * Z)) (getgrnam : bytes -> option Z) (o : options).

Definition wants_drop (properties : ptree) : bool :=
  ((uid =? 0)%Z && (negb (bool_decide (dropUser o = [])) ||
     (bool_decide (is_Some (pt_find (str "privileges") properties)) &&
      get_bool [str "privileges"; str "drop"] false properties)))%bool.

Definition privileges_section (properties : ptree) : M setup unit :=
  when (wants_drop properties) (
    usr <-- (if decide (dropUser o = []) then lift (get_string [str "privileges"; str "user"] properties)
             else ret (dropUser o)) ;;
    match getpwnam usr with
    | None => fail (str "Can't find user " ++ quoted usr)
    | Some (pw_uid, pw_gid) =>
        assign (set_drop pw_uid pw_gid) >>>
        grp <-- (if decide (dropGroup o = []) then lift (get_string [str "privileges"; str "group"] properties)
                 else ret (dropGroup o)) ;;
        when (negb (bool_decide (grp = [])))
          (match getgrnam grp with
           | None => fail (str "Can't find group " ++ quoted grp)
           | Some gr_gid => assign (set_drop pw_uid gr_gid)
           end)
    end).

(** The values at the top of the file. *)
Definition read_values (properties : ptree) (c : config) : config := {|
  httpPort := get_int [str "http_port"] (-1) properties;
  httpsPort := httpsPort c;
  s_keepAliveTimeout := get_int [str "keepalive_timeout"] (s_keepAliveTimeout c) properties;
  s_headersTimeout := get_int [str "headers_timeout"] (s_headersTimeout c) properties;
  s_sslAcceptTimeout := s_sslAcceptTimeout c;
  s_sslShutdownTimeout := s_sslShutdownTimeout c;
  enableServerStatus := get_bool [str "server_status"] false properties;
  queuedConnections := get_uint32 [str "queued_connections"] (queuedConnections c) properties;
  maxConnectionsPerIp := get_uint32 [str "max_connections_per_ip"] (maxConnectionsPerIp c) properties;
  workloadBalancing := get_bool [str "workload_balancing"] (workloadBalancing c) properties;
  loggingSettings := loggingSettings c; m_sslContext := m_sslContext c;
  drop_uid := drop_uid c; drop_gid := drop_gid c |}.

(** Changing to a directory, and reading server.conf in the one given. *)
Context (chdir : bytes -> result exn unit) (read_info : bytes -> result exn ptree).

Definition change_path (dir : bytes) : M setup unit :=
  lift (chdir dir) >>>
  modify (fun s => Setup (conf s) dir (openssl_calls s)).

Definition configure : M setup unit :=
  when (negb (bool_decide (confDir o = []))) (
    curPath <-- gets current_path ;;
    change_path (confDir o) >>>
    dir <-- gets current_path ;;
    properties <-- lift (read_info dir) ;;
    logging <-- lift (get_child [str "logging"] properties) ;;
    assign (set_logging (mergedProperties logging [])) >>>
    assign (read_values properties) >>>
    when (bool_decide (is_Some (pt_find (str "https") properties)))
      (https_section properties >>> privileges_section properties) >>>
    change_path curPath).

(** The check after it. *)
Definition has_port (c : config) : bool := negb ((httpPort c <? 0) && (httpsPort c <? 0))%Z.

(** [Server::~Server] *)
Definition destroy_Server : M setup unit :=
  ctx <-- gets (fun s => m_sslContext (conf s)) ;;
  when (bool_decide (is_Some ctx)) (ssl SSL_CTX_free >>> skip).
End Configure.

(** * Lemmas *)

(** The leaves of a tree with the keys that lead to them. *)
Fixpoint leaves (t : ptree) : list (list bytes * bytes) :=
  match t with
  | Node data [] => [([], data)]
  | Node data children =>
      mjoin ((fun kn : bytes * ptree => let '(k, n) := kn in
                (fun kd : list bytes * bytes => (k :: kd.1, kd.2)) <$> leaves n) <$> children)
  end.

Definition dotted (prev : bytes) (ks : list bytes) : bytes := fold_left child_path ks prev.

Fixpoint mergedProperties_leaves (t : ptree) (prev : bytes) {struct t} :
  mergedProperties t prev = (fun kd : list bytes * bytes => (dotted prev kd.1, kd.2)) <$> leaves t.
Proof.
  destruct t as [data [|c children]]; [reflexivity|].
  cbn [mergedProperties leaves].
  set (l := c :: children). clearbody l. induction l as [|[k n] l IH]; [reflexivity|].
  csimpl. rewrite fmap_app, <- IH, mergedProperties_leaves, <- list_fmap_compose. reflexivity.
Qed.

Lemma to_lower_not_D c : to_lower c <> "D"%char.
Proof. destruct c as [[] [] [] [] [] [] [] []]; vm_compute; discriminate. Qed.

(** The method name is lowered before it is compared with "DTLS". *)
Lemma never_DTLS s : to_lower_copy s <> str "DTLS".
Proof.
  destruct s as [|c s]; [discriminate|]. intros E. change (str "DTLS") with ("D"%char :: str "TLS") in E.
  unfold to_lower_copy in E. csimpl in E. injection E as E _. by apply to_lower_not_D in E.
Qed.

(** ** Outcomes *)

(** Code of the main thread returns or throws. *)
Definition settles {X : Type} (m : M setup X) : Prop :=
  forall s, match (m s).1 with Done _ | Raise _ => True | _ => False end.

Lemma settles_bind {X Y} (m : M setup X) (k : X -> M setup Y) :
  settles m -> (forall x, settles (k x)) -> settles (bind m k).
Proof. intros Hm Hk s. specialize (Hm s). unfold bind. destruct (m s) as [[x|e| |] s1]; try done. apply Hk. Qed.

Lemma settles_finally {X} (m : M setup X) c : settles m -> settles c -> settles (finally m c).
Proof.
  intros Hm Hc s. specialize (Hm s). unfold finally, bind. destruct (m s) as [[x|e| |] s1]; try done;
    specialize (Hc s1); by destruct (c s1) as [[[]|e'| |] s2].
Qed.

Lemma settles_iter {A} (f : A -> M setup unit) l : (forall a, settles (f a)) -> settles (iterM f l).
Proof. intros Hf. induction l as [|a l IH]; cbn [iterM]; [by intros s|]. by apply settles_bind. Qed.

Ltac settling :=
  repeat first
    [ by intros ?
    | apply settles_bind; [|intros ?]
    | apply settles_finally
    | apply settles_iter; intros ?
    | progress unfold when, fail, lift, ssl_error, assign, ssl, change_path, conf_cmd
    | match goal with
      | |- settles (if ?b then _ else _) => destruct b
      | |- settles (match ?x with _ => _ end) => destruct x
      end ].

(** ** OpenSSL's objects *)

(** How many contexts, and how many objects that configure one, are alive after some
    calls. *)
Definition contexts (l : list (ssl_call * bool)) : Z :=
  foldr (fun c n => match c with (SSL_CTX_new _, true) => n + 1 | (SSL_CTX_free, _) => n - 1 | _ => n end)%Z 0%Z l.

Definition conf_contexts (l : list (ssl_call * bool)) : Z :=
  foldr (fun c n => match c with (SSL_CONF_CTX_new, true) => n + 1 | (SSL_CONF_CTX_free, _) => n - 1 | _ => n end)%Z
    0%Z l.

Lemma contexts_snoc l c : contexts (l ++ [c]) = (contexts l + contexts [c])%Z.
Proof.
  induction l as [|[x b] l IH]; [by rewrite Z.add_0_l|]. cbn [app contexts foldr] in *. unfold contexts in *.
  rewrite IH. destruct x, b; lia.
Qed.

Lemma conf_contexts_snoc l c : conf_contexts (l ++ [c]) = (conf_contexts l + conf_contexts [c])%Z.
Proof.
  induction l as [|[x b] l IH]; [by rewrite Z.add_0_l|]. cbn [app conf_contexts foldr] in *. unfold conf_contexts in *.
  rewrite IH. destruct x, b; lia.
Qed.

(** What a state says of them: the server's context, and the objects alive. *)
Definition tally (s : setup) : option ssl_method * Z * Z :=
  (m_sslContext (conf s), contexts (openssl_calls s), conf_contexts (openssl_calls s)).

Definition keeps_tally (s s' : setup) : Prop := tally s' = tally s.

#[export] Instance keeps_tally_preorder : PreOrder keeps_tally.
Proof. unfold keeps_tally. split; [by intros s|]. intros s1 s2 s3. congruence. Qed.

(** Calls that neither make nor free an object. *)
Definition neutral (c : ssl_call) : bool :=
  match c with SSL_CTX_new _ | SSL_CONF_CTX_new | SSL_CONF_CTX_free | SSL_CTX_free => false | _ => true end.

Section Tally.
Context `{Translators} `{OpenSSL}.

Lemma ssl_run c s :
  exists ok, ssl c s = (Done ok, Setup (conf s) (current_path s) (openssl_calls s ++ [(c, ok)])).
Proof. eexists. unfold ssl, bind, gets, modify. reflexivity. Qed.

Lemma ssl_tally c s :
  exists ok s', ssl c s = (Done ok, s') /\ conf s' = conf s /\
    tally s' = (m_sslContext (conf s), contexts (openssl_calls s) + contexts [(c, ok)],
                conf_contexts (openssl_calls s) + conf_contexts [(c, ok)])%Z.
Proof.
  destruct (ssl_run c s) as [ok ->]. exists ok. eexists. split; [reflexivity|]. split; [done|].
  unfold tally. cbn [conf openssl_calls]. by rewrite contexts_snoc, conf_contexts_snoc.
Qed.

Lemma ssl_neutral c : neutral c = true -> respects keeps_tally (ssl c).
Proof.
  intros Hc s. destruct (ssl_tally c s) as (ok & s' & -> & _ & E). cbn. unfold keeps_tally. rewrite E. unfold tally.
  destruct c; try done; destruct ok; cbn; by rewrite !Z.add_0_r.
Qed.
#[local] Hint Extern 1 (respects keeps_tally (ssl _)) => (apply ssl_neutral; reflexivity) : effects.

Lemma assign_tally f : (forall c, m_sslContext (f c) = m_sslContext c) -> respects keeps_tally (assign f).
Proof. intros Hf s. unfold keeps_tally, tally. cbn. by rewrite Hf. Qed.
#[local] Hint Extern 1 (respects keeps_tally (assign _)) => (apply assign_tally; reflexivity) : effects.

Lemma conf_cmds_tally l : respects keeps_tally (iterM conf_cmd l).
Proof. induction l as [|kv l IH]; cbn [iterM]; unfold conf_cmd, ssl_error, fail; respecting. Qed.
#[local] Hint Resolve conf_cmds_tally : effects.

Lemma configure_context_tally properties : respects keeps_tally (configure_context properties).
Proof. unfold configure_context, ssl_error, fail. respecting. Qed.

Lemma configure_context_settles properties : settles (configure_context properties).
Proof. unfold configure_context. settling. Qed.

(** The server's context is the only one alive, and nothing else is left over. *)
Definition tidy (s : setup) : Prop :=
  tally s = (m_sslContext (conf s), match m_sslContext (conf s) with Some _ => 1 | None => 0 end, 0)%Z.

Lemma tidy_keeps s s' : keeps_tally s s' -> tidy s -> tidy s'.
Proof. unfold keeps_tally, tidy, tally. intros [= -> -> ->]. done. Qed.

Lemma init_ssl_tidy properties s :
  m_sslContext (conf s) = None -> tidy s -> tidy (init_ssl properties s).2.
Proof.
  intros Hn Ht. unfold tidy, tally in Ht. rewrite Hn in Ht. injection Ht as Hc Hf.
  unfold init_ssl. unfold bind at 1, lift. destruct (get_string _ properties) as [ctx|e]; cbn [ret throw];
    [|unfold tidy, tally; cbn; by rewrite Hn, Hc, Hf].
  set (method := if decide _ then _ else _). clearbody method. unfold bind at 1.
  destruct (ssl_tally (SSL_CTX_new method) s) as (made & s1 & -> & E1 & T1). injection T1 as M1 C1 F1.
  unfold bind at 1. destruct made; cbn [assign modify negb].
  2:{ unfold tidy, tally. cbn [fail throw snd conf openssl_calls set_sslContext m_sslContext].
      by rewrite C1, F1, Hc, Hf. }
  unfold bind at 1. set (s2 := Setup _ _ _).
  destruct (ssl_tally SSL_CONF_CTX_new s2) as (ctxConf & s3 & -> & E3 & T3). injection T3 as M3 C3 F3.
  unfold s2 in C3, F3, M3, E3. cbn [openssl_calls conf] in *. rewrite C1, Hc in C3. rewrite F1, Hf in F3.
  destruct ctxConf; cbn [negb]; [|unfold tidy, tally; cbn; by rewrite M3, C3, F3].
  unfold finally. pose proof (configure_context_tally properties s3) as Hk.
  pose proof (configure_context_settles properties s3) as Hs.
  destruct (configure_context properties s3) as [r s4]. cbn [snd] in Hk. unfold keeps_tally, tally in Hk.
  rewrite M3, C3, F3 in Hk. injection Hk as M4 C4 F4.
  destruct (ssl_tally SSL_CONF_CTX_free s4) as (ok & s5 & E5 & _ & T5). rewrite M4, C4, F4 in T5.
  assert (Ht5 : tidy s5).
  { unfold tidy. rewrite T5. injection T5 as -> _ _. done. }
  destruct r as [[]|e| |]; try done; unfold bind; by rewrite E5.
Qed.

Context (uid : Z) (getpwnam : bytes -> option (Z * Z)) (getgrnam : bytes -> option Z) (o : options).
Context (chdir : bytes -> result exn unit) (read_info : bytes -> result exn ptree).

Lemma configure_settles : settles (configure uid getpwnam getgrnam o chdir read_info).
Proof. unfold configure, https_section, init_ssl, configure_context, privileges_section. settling. Qed.

Lemma privileges_tally properties : respects keeps_tally (privileges_section uid getpwnam getgrnam o properties).
Proof. unfold privileges_section, fail. respecting. Qed.

Lemma change_path_tally dir : respects keeps_tally (change_path chdir dir).
Proof. unfold change_path. respecting. by intros s. Qed.

(** After code that keeps the objects, what is left to do may assume them. *)
Lemma tidy_bind {X Y} (m : M setup X) (k : X -> M setup Y) s :
  respects keeps_tally m -> m_sslContext (conf s) = None -> tidy s ->
  (forall x s', m_sslContext (conf s') = None -> tidy s' -> tidy (k x s').2) -> tidy (bind m k s).2.
Proof.
  intros Hm Hn Ht Hk. specialize (Hm s). unfold bind. destruct (m s) as [[x|e| |] s1]; cbn [snd] in *;
    try by eapply tidy_keeps.
  apply Hk; [|by eapply tidy_keeps]. unfold keeps_tally, tally in Hm. injection Hm as -> _ _. done.
Qed.

(** Once the context is there, what keeps the objects keeps them tidy. *)
Lemma tidy_after {X Y} (m : M setup X) (k : X -> M setup Y) s :
  tidy (m s).2 -> (forall x, respects keeps_tally (k x)) -> tidy (bind m k s).2.
Proof.
  intros Hm Hk. unfold bind. destruct (m s) as [[x|e| |] s1]; cbn [snd] in *; try done. by eapply tidy_keeps; [apply Hk|].
Qed.

Lemma https_section_tidy properties s :
  m_sslContext (conf s) = None -> tidy s -> tidy (https_section properties s).2.
Proof.
  intros Hn Ht. unfold https_section. case_match; [|eapply tidy_keeps; [|exact Ht]; by apply assign_tally].
  apply tidy_bind; [by apply assign_tally|done..|]. intros _ s' Hn' Ht'. by apply init_ssl_tidy.
Qed.

Lemma configure_tidy s :
  m_sslContext (conf s) = None -> tidy s -> tidy (configure uid getpwnam getgrnam o chdir read_info s).2.
Proof.
  intros Hn Ht. unfold configure, when at 1. case_match; [|done].
  do 6 (apply tidy_bind;
    [first [apply change_path_tally|by apply assign_tally|respecting]|done..|];
    clear s Hn Ht; intros ? s Hn Ht).
  apply tidy_bind; [by apply assign_tally|done..|]. clear s Hn Ht; intros _ s Hn Ht.
  apply tidy_after; [|intros _; apply change_path_tally].
  unfold when. case_match; [|done].
  apply tidy_after; [by apply https_section_tidy|intros _; apply privileges_tally].
Qed.

(** The destructor leaves none. *)
Lemma destroy_Server_run s :
  tidy s -> exists s', destroy_Server s = (Done tt, s') /\ conf s' = conf s /\
    contexts (openssl_calls s') = 0%Z /\ conf_contexts (openssl_calls s') = 0%Z.
Proof.
  intros Ht. unfold tidy, tally in Ht. injection Ht as Hc Hf. unfold destroy_Server, bind at 1, gets.
  destruct (m_sslContext (conf s)) as [m|]; cbn [when].
  - destruct (ssl_tally SSL_CTX_free s) as (ok & s' & E & Ec & T). injection T as _ C F. exists s'.
    rewrite bool_decide_true by done. unfold when, bind. rewrite E. split; [done|]. split; [done|].
    rewrite C, F, Hc, Hf. done.
  - exists s. rewrite bool_decide_false by (by intros []). done.
Qed.
End Tally.

(** ** What an accepted configuration is *)

Section Result.
Context `{Translators} `{OpenSSL}.
Context (uid : Z) (getpwnam : bytes -> option (Z * Z)) (getgrnam : bytes -> option Z) (o : options).
Context (chdir : bytes -> result exn unit) (read_info : bytes -> result exn ptree).

(** Code that leaves the configuration as it is. *)
Definition keeps_conf (s s' : setup) : Prop := conf s' = conf s /\ current_path s' = current_path s.

#[export] Instance keeps_conf_preorder : PreOrder keeps_conf.
Proof. unfold keeps_conf. split; [by intros s|]. intros s1 s2 s3 [-> ->] [-> ->]. done. Qed.

Lemma ssl_conf c : respects keeps_conf (ssl c).
Proof. intros s. by destruct (ssl_run c s) as [ok ->]. Qed.
#[local] Hint Resolve ssl_conf : effects.

Lemma conf_cmds_conf l : respects keeps_conf (iterM conf_cmd l).
Proof. induction l as [|kv l IH]; cbn [iterM]; unfold conf_cmd, ssl_error, fail; respecting. Qed.
#[local] Hint Resolve conf_cmds_conf : effects.

Lemma context_block_conf properties :
  respects keeps_conf (finally (configure_context properties) (ssl SSL_CONF_CTX_free >>> skip)).
Proof.
  intros s. assert (Hb : respects keeps_conf (configure_context properties))
    by (unfold configure_context, ssl_error, fail; respecting).
  specialize (Hb s). unfold finally. destruct (configure_context properties s) as [r s1]. cbn [snd] in Hb.
  destruct (ssl_run SSL_CONF_CTX_free s1) as [ok E]. destruct r; try done; unfold bind; by rewrite E.
Qed.

(** A context that could be set up is one for TLS. *)
Lemma init_ssl_Done properties s s' :
  init_ssl properties s = (Done tt, s') ->
  conf s' = set_sslContext (Some TLS_server_method) (conf s) /\ current_path s' = current_path s.
Proof.
  unfold init_ssl. intros E. apply bind_Done in E as (ctx & s1 & E1 & E).
  apply lift_Done in E1 as [_ ->].
  rewrite decide_False in E by apply never_DTLS. apply bind_Done in E as (made & s2 & E2 & E).
  destruct (ssl_conf (SSL_CTX_new TLS_server_method) s) as [C2 P2]. rewrite E2 in C2, P2. cbn [snd] in C2, P2.
  destruct made; apply bind_Done in E as ([] & s3 & [= <-] & E); [|done]. cbn [negb] in E.
  apply bind_Done in E as (ctxConf & s4 & E4 & E).
  pose proof (ssl_conf SSL_CONF_CTX_new (Setup (set_sslContext (Some TLS_server_method) (conf s2)) (current_path s2)
    (openssl_calls s2))) as [C4 P4]. rewrite E4 in C4, P4. cbn [snd conf current_path] in C4, P4.
  destruct ctxConf; [|by unfold negb, ssl_error, bind, gets, fail in E]. cbn [negb] in E.
  destruct (context_block_conf properties s4) as [C5 P5]. rewrite E in C5, P5. cbn [snd] in C5, P5.
  by rewrite C5, C4, C2, P5, P4, P2.
Qed.

(** The user and the group to change to: those of the command line, else those of the
    file; without a group, the user's own. *)
Definition identity (properties : ptree) (u g : Z) : Prop :=
  exists usr pw_gid grp,
    (if decide (dropUser o = []) then get_string [str "privileges"; str "user"] properties else Ok (dropUser o)) = Ok usr /\
    (if decide (dropGroup o = []) then get_string [str "privileges"; str "group"] properties
     else Ok (dropGroup o)) = Ok grp /\
    getpwnam usr = Some (u, pw_gid) /\
    match grp with [] => g = pw_gid | _ => getgrnam grp = Some g end.

Lemma or_else_Done (b : bytes) (r : result exn bytes) (s s' : setup) x :
  (if decide (b = []) then lift r else ret b) s = (Done x, s') ->
  (if decide (b = []) then r else Ok b) = Ok x /\ s' = s.
Proof. case_decide; [apply lift_Done|]. intros [= -> ->]. done. Qed.

Lemma privileges_Done properties s s' :
  privileges_section uid getpwnam getgrnam o properties s = (Done tt, s') ->
  current_path s' = current_path s /\
  if wants_drop uid o properties then
    exists u g, identity properties u g /\ conf s' = set_drop u g (conf s)
  else conf s' = conf s.
Proof.
  unfold privileges_section, when at 1. destruct (wants_drop uid o properties); [|intros [= <-]; done].
  intros E. apply bind_Done in E as (usr & s1 & E1 & E). apply or_else_Done in E1 as [Hu ->].
  destruct (getpwnam usr) as [[u pw_gid]|] eqn:Ep; [|done].
  apply bind_Done in E as ([] & s1 & [= <-] & E). apply bind_Done in E as (grp & s2 & E2 & E).
  apply or_else_Done in E2 as [Hg ->]. unfold when in E. destruct grp as [|c grp]; cbn [bool_decide negb] in E.
  - injection E as <-. split; [done|]. exists u, pw_gid. split; [by eexists usr, pw_gid, []|done].
  - destruct (getgrnam (c :: grp)) as [g|] eqn:Eg; [|done]. injection E as <-. split; [done|].
    exists u, g. split; [by eexists usr, pw_gid, (c :: grp)|done].
Qed.

Lemma https_Done properties s s' :
  https_section properties s = (Done tt, s') ->
  current_path s' = current_path s /\
  conf s' =
    if get_bool [str "https"; str "enabled"] false properties then
      set_sslContext (Some TLS_server_method)
        (set_https_values (get_int [str "https"; str "port"] (httpsPort (conf s)) properties)
           (get_int [str "accept_timeout"] (s_sslAcceptTimeout (conf s)) properties)
           (get_int [str "shutdown_timeout"] (s_sslShutdownTimeout (conf s)) properties) (conf s))
    else set_https_values (-1) (s_sslAcceptTimeout (conf s)) (s_sslShutdownTimeout (conf s)) (conf s).
Proof.
  unfold https_section. case_match; [|intros [= <-]; done]. intros E. apply bind_Done in E as ([] & s1 & [= <-] & E).
  apply init_ssl_Done in E as [Ec Ep]. by split.
Qed.

Lemma change_path_Done dir s s' : change_path chdir dir s = (Done tt, s') -> s' = Setup (conf s) dir (openssl_calls s).
Proof. unfold change_path. intros E. apply bind_Done in E as (u & s1 & E1 & [= <-]). by apply lift_Done in E1 as [_ ->]. Qed.
End Result.

(** * Properties *)


(** [mergedProperties] flattens a property tree without losing or reordering
    anything: its result lists exactly the leaves, in document order, each under
    the dot-joined keys that lead to it. *)
Theorem mergedProperties_flattens t :
  mergedProperties t [] = (fun kd : list bytes * bytes => (dotted [] kd.1, kd.2)) <$> leaves t.
Proof. apply mergedProperties_leaves. Qed.

Definition sample_number (b : bytes) : option Z :=
  match b with
  | [] => None
  | _ => let ds := lead_digits b in
         if decide (length ds = length b) then Some (Z.of_N (of_digits 10 ds)) else None
  end.

Definition sample_translators : Translators := {|
  parse_int := sample_number; parse_uint32 := sample_number;
  parse_bool := fun b => if decide (b = str "true") then Some true
                         else if decide (b = str "false") then Some false else None |}.

Definition sample_openssl : OpenSSL := {| ssl_ok := fun _ _ => true; ERR_error_string := fun _ => [] |}.

Definition sample_options : options :=
  default_options (str "/usr/bin/GETodac") 4.

Definition sample_conf : ptree :=
  Node [] [(str "logging", Node [] [(str "Core", Node [] [(str "Filter", Node (str "trace") [])])]);
           (str "max_connections_per_ip", Node (str "20") []);
           (str "https", Node []
              [(str "enabled", Node (str "true") []); (str "port", Node (str "443") []);
               (str "accept_timeout", Node (str "60") []);
               (str "ssl", Node [] [(str "ctx_method", Node (str "DTLS") []);
                                    (str "cxt_settings", Node [] [(str "Certificate", Node (str "c.pem") [])])])]);
           (str "privileges", Node []
              [(str "drop", Node (str "true") []); (str "user", Node (str "daemon") []); (str "group", Node [] [])])].

Abbreviation sample_configure :=
  (@configure sample_translators sample_openssl 0 (fun _ => Some (2, 2)%Z) (fun _ => None) sample_options
     (fun _ => Ok tt) (fun _ => Ok sample_conf) (new_setup (str "/"))).

