(* ===== verification/Server.v ===== *)
(** The server: accepting connections (src/server/server.cpp), and the status page
    (src/server/serverservicesessions.cpp). *)

From Stdlib Require Import Ascii String NArith ZArith Lia.
From stdpp Require Import base gmap strings list sorting.
From S2P Require Import Prelude Http Effects Stream.
Local Open Scope getodac_scope.

(** * Connections

    The server's books: the open connections of every address, and the live
    session objects with their peer addresses. *)

Record server := Server {
  m_connectionsPerIp : gmap bytes Z;
  m_activeSessions : gmap N bytes;
  m_peakSessions : nat
}.

Definition new_server : server := Server ∅ ∅ 0.

(** The counter as [operator[]] reads it: a missing entry is created as zero. *)
Definition connections (addr : bytes) (s : server) : Z := default 0%Z (m_connectionsPerIp s !! addr).

Definition set_connections (addr : bytes) (n : Z) (s : server) : server :=
  Server (<[addr := n]> (m_connectionsPerIp s)) (m_activeSessions s) (m_peakSessions s).

(** The block under [m_connectionsPerIpMutex] in the accept loop: [None] when the
    connection is refused, else the order of the new session. *)
Definition admitConnection (maxConnectionsPerIp : Z) (addr : bytes) (s : server) : option Z * server :=
  let n := connections addr s in
  if (maxConnectionsPerIp <? n)%Z then (None, set_connections addr n s)
  else (Some n, set_connections addr (wrap32 (n + 1)) s).

Definition serverSessionCreated (p : N) (addr : bytes) (s : server) : server :=
  Server (m_connectionsPerIp s) (<[p := addr]> (m_activeSessions s)) (m_peakSessions s).

(** [None]: the assertion that the address is known fails. *)
Definition serverSessionDeleted (p : N) (addr : bytes) (s : server) : option server :=
  let s1 := Server (m_connectionsPerIp s) (delete p (m_activeSessions s)) (m_peakSessions s) in
  match m_connectionsPerIp s !! addr with
  | None => None
  | Some n =>
      let n' := wrap32 (n - 1) in
      Some (Server (if (n' =? 0)%Z then delete addr (m_connectionsPerIp s)
                    else <[addr := n']> (m_connectionsPerIp s))
              (m_activeSessions s1) (m_peakSessions s))
  end.

(** The statistics at the top of the accept loop. *)
Definition update_peak (s : server) : server :=
  Server (m_connectionsPerIp s) (m_activeSessions s) (Nat.max (m_peakSessions s) (size (m_activeSessions s))).

(** How the creation of the session object goes: [ServerSession]'s constructor can
    throw after that of its base class, whose destructor then runs; when
    [initSession] throws, the object stays, unregistered. *)
Inductive creation : Type := created | constructor_throws | initSession_throws.

(** A connection of the accept loop; [p] is the address of its session object. *)
Definition accept (maxConnectionsPerIp : Z) (c : creation) (p : N) (addr : bytes) (s : server) : option server :=
  match admitConnection maxConnectionsPerIp addr s with
  | (None, s') => Some s'
  | (Some _, s') =>
      let s1 := serverSessionCreated p addr s' in
      match c with
      | created | initSession_throws => Some s1
      | constructor_throws => serverSessionDeleted p addr s1
      end
  end.

(** "Find the least used session": the index of the chosen loop, given the loops'
    active sessions. *)
Fixpoint bestLoop_from (best : nat) (load : Z) (i : nat) (loads : list Z) : nat :=
  match loads with
  | [] => best
  | l :: rest => if (l <? load)%Z then bestLoop_from i l (S i) rest else bestLoop_from best load (S i) rest
  end.

Definition bestLoop (loads : list Z) : nat :=
  match loads with
  | [] => 0
  | l :: rest => bestLoop_from 0 l 1 rest
  end.

(** * The status page *)

Record statistics := {
  activeSessions : Z;
  peakSessions : Z;
  uptime : Z;
  servedSessions : Z
}.

(** [Server::uptime], of times in nanoseconds. *)
Definition uptime_at (m_startTime now : Z) : Z := Z.quot (now - m_startTime) 1000000000.

(** What the page asks the server for: [activeSessions], [peakSessions], [uptime] and
    [servedSessions]. *)
Definition server_statistics (m_startTime now served : Z) (s : server) : statistics :=
  {| activeSessions := Z.of_nat (size (m_activeSessions s)); peakSessions := Z.of_nat (m_peakSessions s);
     uptime := uptime_at m_startTime now; servedSessions := served |}.

(** Days, hours, minutes and seconds. *)
Definition uptime_parts (seconds : Z) : Z * Z * Z * Z :=
  let days := Z.quot seconds (60 * 60 * 24) in
  let seconds := (seconds - days * (60 * 60 * 24))%Z in
  let hours := Z.quot seconds (60 * 60) in
  let seconds := (seconds - hours * (60 * 60))%Z in
  let minutes := Z.quot seconds 60 in
  (days, hours, minutes, seconds - minutes * 60)%Z.

Definition print_Z (z : Z) : bytes := print_dec (Z.to_N z).

Definition status_body (st : statistics) : bytes :=
  let '(days, hours, minutes, seconds) := uptime_parts (uptime st) in
  str "Active sessions: " ++ print_Z (activeSessions st) ++ [LF] ++
  str "Sessions peak: " ++ print_Z (Z.max (peakSessions st) (activeSessions st)) ++ [LF] ++
  str "Uptime: " ++ print_Z days ++ str " days, " ++ print_Z hours ++ str " hours, " ++
  print_Z minutes ++ str " minutes and " ++ print_Z seconds ++ str " seconds" ++ [LF] ++
  str "Serverd sessions: " ++ print_Z (servedSessions st) ++ [LF].

Definition status_response (st : statistics) : Response :=
  setBody (status_body st) (setField (str "Refresh") (str "5") (response1 200)).

Section Status.
Context {B S : Type} `{A : AbstractStream B S} `{IterationOrder}.
Context (strerror : Z -> bytes).

Definition status_error (e : exn) : Response :=
  match e with
  | ex_response res => res
  | ex_code ec => response2 500 (strerror ec)
  | ex_std e => response2 500 (what e)
  | ex_int _ | ex_other => response1 500
  end.

(** [ServerSessions::writeResponse]: errors are answered only while nothing of
    the response has been written. *)
Definition writeResponse (st : statistics) (req : Request B) : M S unit :=
  ok <-- try_catch (read_request req >>> ret true)
           (fun e => write_response (status_error e) >>> ret false) ;;
  if ok then try_catch (write_response (status_response st)) (fun _ => skip) else skip.

(** [ServerSessions::createSession] *)
Definition status_createSession (st : statistics) (req : Request B) : option (Request B -> M S unit) :=
  if decide (m_url req = str "/server_status" /\ m_method req = str "GET") then Some (writeResponse st)
  else None.
End Status.

(** * Lemmas on the books *)

(** The live sessions of an address. *)
Definition live (addr : bytes) (s : server) : nat :=
  size (filter (fun kv : N * bytes => kv.2 = addr) (m_activeSessions s)).

Definition books_ok (maxConn : Z) (s : server) : Prop :=
  forall addr, connections addr s = Z.of_nat (live addr s) /\ (Z.of_nat (live addr s) <= maxConn + 1)%Z /\
    (live addr s <> 0 -> is_Some (m_connectionsPerIp s !! addr)).

Inductive sv_step (maxConn : Z) : server -> server -> Prop :=
| sv_accept s c p addr s' :
    m_activeSessions s !! p = None -> accept maxConn c p addr s = Some s' -> sv_step maxConn s s'
| sv_delete s p addr s' :
    m_activeSessions s !! p = Some addr -> serverSessionDeleted p addr s = Some s' -> sv_step maxConn s s'
| sv_peak s : sv_step maxConn s (update_peak s).

Inductive sv_reachable (maxConn : Z) : server -> Prop :=
| sv_new : sv_reachable maxConn new_server
| sv_next s s' : sv_reachable maxConn s -> sv_step maxConn s s' -> sv_reachable maxConn s'.

Lemma live_insert p a addr s :
  m_activeSessions s !! p = None ->
  live addr (serverSessionCreated p a s) = if decide (a = addr) then S (live addr s) else live addr s.
Proof.
  intros Hp. unfold live, serverSessionCreated. simpl. case_decide as Ha.
  - rewrite map_filter_insert_True by done. rewrite map_size_insert_None; [done|].
    apply map_lookup_filter_None. by left.
  - rewrite map_filter_insert_False by done. by rewrite delete_id.
Qed.

Lemma live_delete p a addr s m n :
  m_activeSessions s !! p = Some a ->
  live addr (Server m (delete p (m_activeSessions s)) n) =
  if decide (a = addr) then live addr s - 1 else live addr s.
Proof.
  intros Hp. unfold live. simpl. rewrite map_filter_delete. case_decide as Ha.
  - rewrite map_size_delete_Some; [lia|]. exists a. by apply map_lookup_filter_Some.
  - rewrite delete_id; [done|]. apply map_lookup_filter_None. right. by intros x Hx; simplify_eq.
Qed.

Lemma live_positive p addr s : m_activeSessions s !! p = Some addr -> 0 < live addr s.
Proof.
  intros Hp. unfold live. apply Nat.neq_0_lt_0. intros E%map_size_empty_inv.
  assert (Hf : filter (fun kv : N * bytes => kv.2 = addr) (m_activeSessions s) !! p = Some addr)
    by (by apply map_lookup_filter_Some).
  by rewrite E in Hf.
Qed.

Lemma wrap32_small z : (0 <= z < 2 ^ 32)%Z -> wrap32 z = z.
Proof. apply Z.mod_small. Qed.

Lemma refused_books maxConn addr s :
  books_ok maxConn s -> books_ok maxConn (set_connections addr (connections addr s) s).
Proof.
  intros Hb a. destruct (Hb a) as (Hca & Hla & Hea). unfold live in *. simpl.
  unfold connections in *. simpl. destruct (decide (a = addr)) as [->|Hne].
  - rewrite lookup_insert_eq. simpl. split_and!; [done|done|by eexists].
  - rewrite lookup_insert_ne by done. done.
Qed.

Lemma created_books maxConn p addr s :
  (0 <= maxConn < 2 ^ 32 - 1)%Z -> m_activeSessions s !! p = None -> books_ok maxConn s ->
  (connections addr s <= maxConn)%Z ->
  books_ok maxConn (serverSessionCreated p addr (set_connections addr (wrap32 (connections addr s + 1)) s)).
Proof.
  intros Hm Hp Hb Hge a. destruct (Hb a) as (Hca & Hla & Hea). rewrite live_insert by done.
  unfold connections. simpl. destruct (decide (addr = a)) as [->|Hne].
  - rewrite lookup_insert_eq. change (live a (set_connections _ _ s)) with (live a s). simpl.
    fold (connections a s). rewrite wrap32_small by lia. split_and!; [lia|lia|by eexists].
  - rewrite lookup_insert_ne by done. done.
Qed.

Lemma delete_books maxConn p addr s :
  (0 <= maxConn < 2 ^ 32 - 1)%Z -> m_activeSessions s !! p = Some addr -> books_ok maxConn s ->
  exists s', serverSessionDeleted p addr s = Some s' /\ books_ok maxConn s'.
Proof.
  intros Hm Hp Hb. pose proof (live_positive p addr s Hp) as Hpos.
  destruct (Hb addr) as (Hc & Hl & He). destruct He as [n En]; [lia|].
  unfold serverSessionDeleted. rewrite En. eexists. split; [done|].
  unfold connections in Hc. rewrite En in Hc. simpl in Hc. rewrite wrap32_small by lia.
  cbn [m_activeSessions]. intros a. destruct (Hb a) as (Hca & Hla & Hea). rewrite (live_delete p addr) by done.
  unfold connections in *. simpl. destruct (decide (addr = a)) as [->|Hne].
  - destruct (Z.eqb_spec (n - 1) 0) as [Hz|Hz].
    + rewrite lookup_delete_eq. simpl. split_and!; [lia|lia|lia].
    + rewrite lookup_insert_eq. simpl. split_and!; [lia|lia|by eexists].
  - destruct (n - 1 =? 0)%Z; [rewrite lookup_delete_ne by done|rewrite lookup_insert_ne by done]; done.
Qed.

Lemma accept_books maxConn c p addr s :
  (0 <= maxConn < 2 ^ 32 - 1)%Z -> m_activeSessions s !! p = None -> books_ok maxConn s ->
  exists s', accept maxConn c p addr s = Some s' /\ books_ok maxConn s'.
Proof.
  intros Hm Hp Hb. unfold accept, admitConnection.
  destruct (Z.ltb_spec maxConn (connections addr s)) as [Hlt|Hge]; [eauto using refused_books|].
  pose proof (created_books maxConn p addr s Hm Hp Hb Hge) as Hc. destruct c; [by eauto| |by eauto].
  apply delete_books; [done| |done]. apply lookup_insert_eq.
Qed.

Lemma reachable_books maxConn s :
  (0 <= maxConn < 2 ^ 32 - 1)%Z -> sv_reachable maxConn s -> books_ok maxConn s.
Proof.
  intros Hm. induction 1 as [|s s' _ IH Hs].
  - intros addr. unfold connections, live. simpl. rewrite lookup_empty, map_filter_empty, map_size_empty.
    split_and!; [done|lia|done].
  - destruct Hs as [s c p addr s' Hp E|s p addr s' Hp E|s].
    + destruct (accept_books maxConn c p addr s Hm Hp IH) as (s2 & E2 & Hb). by simplify_eq.
    + destruct (delete_books maxConn p addr s Hm Hp IH) as (s2 & E2 & Hb). by simplify_eq.
    + exact IH.
Qed.

Lemma bestLoop_from_spec best load i loads pre :
  length pre = i -> pre !! best = Some load -> Forall (fun l => load <= l)%Z pre ->
  (forall j l, j < best -> pre !! j = Some l -> (load < l)%Z) ->
  let r := bestLoop_from best load i loads in
  exists m, (pre ++ loads) !! r = Some m /\ Forall (fun l => m <= l)%Z (pre ++ loads) /\
    (forall j l, j < r -> (pre ++ loads) !! j = Some l -> (m < l)%Z).
Proof.
  revert best load i pre; induction loads as [|l loads IH]; intros best load i pre Hi Hb Hmin Hfst; simpl.
  { rewrite app_nil_r. by exists load. }
  assert (Hb' : forall x, (pre ++ [x]) !! best = Some load)
    by (intros x; rewrite lookup_app_l; [done|by apply lookup_lt_Some in Hb]).
  replace (pre ++ l :: loads) with ((pre ++ [l]) ++ loads) by (by rewrite <- app_assoc).
  destruct (Z.ltb_spec l load) as [Hlt|Hge]; apply IH; try (rewrite length_app; simpl; lia); try done.
  - by rewrite lookup_app_r, Hi, Nat.sub_diag by lia.
  - apply Forall_app. split; [|by apply Forall_singleton]. eapply Forall_impl; [exact Hmin|]. simpl. lia.
  - intros j x Hj Hx. rewrite lookup_app_l in Hx by lia.
    assert (x ∈ pre) as Hin by (by eapply list_elem_of_lookup_2).
    rewrite Forall_forall in Hmin. specialize (Hmin x Hin). lia.
  - apply Forall_app. split; [done|by apply Forall_singleton].
  - intros j x Hj Hx. apply lookup_lt_Some in Hb. rewrite lookup_app_l in Hx by lia. by eapply Hfst.
Qed.

Lemma uptime_parts_spec u :
  (0 <= u)%Z ->
  let '(d, h, m, s) := uptime_parts u in
  (d * 86400 + h * 3600 + m * 60 + s = u /\ 0 <= d /\ 0 <= h < 24 /\ 0 <= m < 60 /\ 0 <= s < 60)%Z.
Proof.
  intros Hu. unfold uptime_parts. change (60 * 60 * 24)%Z with 86400%Z. change (60 * 60)%Z with 3600%Z.
  rewrite (Z.quot_div_nonneg u) by lia. pose proof (Z.div_mod u 86400 ltac:(lia)) as E1.
  pose proof (Z.mod_pos_bound u 86400 ltac:(lia)) as B1.
  replace (u - u / 86400 * 86400)%Z with (u mod 86400)%Z by lia. set (v := (u mod 86400)%Z) in *.
  rewrite (Z.quot_div_nonneg v) by lia. pose proof (Z.div_mod v 3600 ltac:(lia)) as E2.
  pose proof (Z.mod_pos_bound v 3600 ltac:(lia)) as B2.
  replace (v - v / 3600 * 3600)%Z with (v mod 3600)%Z by lia. set (w := (v mod 3600)%Z) in *.
  rewrite (Z.quot_div_nonneg w) by lia. pose proof (Z.div_mod w 60 ltac:(lia)) as E3.
  pose proof (Z.mod_pos_bound w 60 ltac:(lia)) as B3.
  pose proof (Z.div_pos u 86400 ltac:(lia) ltac:(lia)). split_and!; lia.
Qed.

(** * Properties *)

(** C25. The books of the accept loop in every reachable state: the counter of an
    address is the number of its live sessions (also when session objects fail to
    be created), it never exceeds the configured maximum by more than one, and
    neither accepting a connection nor deleting a session misses an address. *)
Theorem connections_per_ip maxConn s :
  (0 <= maxConn < 2 ^ 32 - 1)%Z -> sv_reachable maxConn s ->
  forall addr, connections addr s = Z.of_nat (live addr s) /\
    (Z.of_nat (live addr s) <= maxConn + 1)%Z /\
    (forall c p, m_activeSessions s !! p = None -> is_Some (accept maxConn c p addr s)) /\
    forall p, m_activeSessions s !! p = Some addr ->
      exists s', serverSessionDeleted p addr s = Some s' /\ m_activeSessions s' !! p = None.
Proof.
  intros Hm Hr addr. pose proof (reachable_books maxConn s Hm Hr) as Hb.
  destruct (Hb addr) as (Hc & Hl & _). split_and!; [done|done| |].
  { intros c p Hp. destruct (accept_books maxConn c p addr s Hm Hp Hb) as (s' & -> & _). done. }
  intros p Hp.
  destruct (delete_books maxConn p addr s Hm Hp Hb) as (s' & E & _). exists s'. split; [done|].
  unfold serverSessionDeleted in E. destruct (m_connectionsPerIp s !! addr); [|done].
  simplify_eq. simpl. apply lookup_delete_eq.
Qed.

(** Four connections of one address with a maximum of one, the first of which
    gets no session. *)
Definition crowded : option server :=
  s1 ← accept 1 constructor_throws 16 (str "::1") new_server;
  s2 ← accept 1 created 16 (str "::1") s1;
  s3 ← accept 1 initSession_throws 32 (str "::1") s2;
  accept 1 created 48 (str "::1") s3.

Lemma connections_per_ip_witness :
  exists s, crowded = Some s /\
    connections (str "::1") s = Z.of_nat (live (str "::1") s) /\ live (str "::1") s = 2.
Proof.
  assert (Hr : exists s, crowded = Some s /\ sv_reachable 1 s /\ live (str "::1") s = 2).
  { eexists. split; [reflexivity|]. split; [|by vm_compute].
    eapply sv_next; [eapply sv_next; [eapply sv_next; [eapply sv_next; [apply sv_new|]|]|]|].
    - by apply (sv_accept _ _ constructor_throws 16 (str "::1")).
    - by apply (sv_accept _ _ created 16 (str "::1")).
    - by apply (sv_accept _ _ initSession_throws 32 (str "::1")).
    - by apply (sv_accept _ _ created 48 (str "::1")). }
  destruct Hr as (s & E & Hr & Hl). exists s. split; [exact E|]. split; [|exact Hl].
  assert (Hm : (0 <= 1 < 2 ^ 32 - 1)%Z) by lia.
  exact (proj1 (connections_per_ip 1 s Hm Hr (str "::1"))).
Defined.

(** The limit is checked with [>] before counting: with the configured maximum of
    connections open, one more is admitted. *)
Lemma admits_one_more maxConn addr s :
  connections addr s = maxConn -> (admitConnection maxConn addr s).1 = Some maxConn.
Proof. intros <-. unfold admitConnection. by rewrite Z.ltb_irrefl. Qed.

(** A new connection goes to the loop with the fewest active sessions, the
    first of them when there are several. *)
Theorem bestLoop_least loads :
  loads <> [] ->
  exists m, loads !! bestLoop loads = Some m /\ Forall (fun l => m <= l)%Z loads /\
    (forall j l, j < bestLoop loads -> loads !! j = Some l -> (m < l)%Z).
Proof.
  destruct loads as [|l rest]; [done|]. intros _. unfold bestLoop.
  apply (bestLoop_from_spec 0 l 1 rest [l]); [done|done|by apply Forall_singleton|intros j x Hj; lia].
Qed.

Lemma bestLoop_least_witness :
  exists m, [3; 1; 2; 1]%Z !! bestLoop [3; 1; 2; 1]%Z = Some m /\ bestLoop [3; 1; 2; 1]%Z = 1.
Proof.
  destruct (bestLoop_least [3; 1; 2; 1]%Z ltac:(discriminate)) as (m & E & _). by exists m.
Defined.

(** The status page: once the request has been read, the peer gets exactly
    the page's 200 response, whose uptime line breaks the seconds down into
    days, hours, minutes and seconds that add up to it; an error while reading
    is answered with the response it maps to instead. *)
Theorem status_page {B S} `{A : AbstractStream B S} `{L : !StreamLaws A} `{IterationOrder} strerror st req (s s1 s2 : S) :
  good s1 -> (0 <= uptime st)%Z ->
  ((exists r, read_request req s = (Done r, s1)) -> write_response (status_response st) s1 = (Done tt, s2) ->
   writeResponse strerror st req s = (Done tt, s2) /\
   sent s2 = sent s1 ++ toString (keepAlive s1) (status_response st)) /\
  (forall e, read_request req s = (Raise e, s1) -> write_response (status_error strerror e) s1 = (Done tt, s2) ->
   writeResponse strerror st req s = (Done tt, s2)) /\
  let '(d, h, m, sec) := uptime_parts (uptime st) in
  (d * 86400 + h * 3600 + m * 60 + sec = uptime st /\ 0 <= h < 24 /\ 0 <= m < 60 /\ 0 <= sec < 60)%Z.
Proof.
  intros Hg Hu. split_and!.
  - intros [r Hr] Hw. unfold writeResponse, bind, try_catch, ret. rewrite Hr, Hw. split; [done|].
    by apply write_response_spec in Hw as [E _].
  - intros e Hr Hw. unfold writeResponse, bind, try_catch, ret. by rewrite Hr, Hw.
  - pose proof (uptime_parts_spec (uptime st) Hu) as Hp.
    destruct (uptime_parts (uptime st)) as [[[d h] m] sec]. split_and!; apply Hp.
Qed.

Definition sample_stats : statistics :=
  {| activeSessions := 2; peakSessions := 1; uptime := 93784; servedSessions := 7 |}.

Lemma status_page_witness :
  exists s2, @writeResponse _ _ mem_stream listed_order (fun _ => []) sample_stats make_request (Mem [] 0 0) = (Done tt, s2) /\
    mem_sent s2 = @toString listed_order 0 (status_response sample_stats).
Proof.
  set (s2 := (@write_response _ _ mem_stream listed_order (status_response sample_stats) (Mem [] 0 0)).2).
  assert (Hw : @write_response _ _ mem_stream listed_order (status_response sample_stats) (Mem [] 0 0) = (Done tt, s2))
    by (vm_compute; reflexivity).
  assert (Hu : (0 <= uptime sample_stats)%Z) by discriminate.
  assert (Hr : exists r, @read_request _ _ mem_stream listed_order make_request (Mem [] 0 0) = (Done r, Mem [] 0 0))
    by (eexists; vm_compute; reflexivity).
  exists s2. exact (proj1 (@status_page unit mem_state mem_stream mem_laws listed_order (fun _ => []) sample_stats
    make_request (Mem [] 0 0) (Mem [] 0 0) s2 I Hu) Hr Hw).
Defined.
