(* ===== verification/Plugins.v ===== *)
(** The plugins of the server: loading and unloading their libraries
    (src/server/serverplugin.cpp, src/server/serverplugin.h), the order in which they
    are asked for a session, and their place in [Server::exec] (src/server/server.cpp).

    What [dlopen] and [dlsym] find is a parameter; the calls into the libraries are
    recorded in the order in which they are made. *)

From Stdlib Require Import Ascii String NArith ZArith Lia.
From stdpp Require Import base gmap strings list sorting.
From S2P Require Import Prelude Http Effects.
Local Open Scope getodac_scope.

(** A call into the library of the plugin with the number [h]. *)
Inductive event : Type :=
| Opened (h : nat)
| Initialised (h : nat)
| Destroyed (h : nat)
| Closed (h : nat).

Definition handle_of (e : event) : nat :=
  match e with Opened h | Initialised h | Destroyed h | Closed h => h end.

Section Plugins.
Context {R F : Type}.

(** The functions a library exports, with the types of plugin.h; [None] for a missing
    one. *)
Record library := {
  init_plugin : option (bytes -> result exn bool);
  lib_create_session : option (R -> result exn (option F));
  plugin_order : option N;
  destory_plugin : bool
}.

(** A loaded plugin.  [m_handler] is null for the server's own sessions, else the
    number of the library and whether its deleter finds [destory_plugin]. *)
Record ServerPlugin := Plugin {
  m_handler : option (nat * bool);
  m_order : N;
  createSession : R -> result exn (option F)
}.

(** A plugin of the server itself: no library behind it. *)
Definition internal_plugin (create : R -> result exn (option F)) (order : N) : ServerPlugin := Plugin None order create.

(** The server's plugins and the calls made so far. *)
Record host := Host { m_plugins : list ServerPlugin; calls : list event }.

Definition new_host : host := Host [] [].

Definition emit (e : event) : M host unit := modify (fun s => Host (m_plugins s) (calls s ++ [e])).
Definition emplace_back (p : ServerPlugin) : M host unit := modify (fun s => Host (m_plugins s ++ [p]) (calls s)).

Definition fail {X : Type} (text : string) : M host X := throw (ex_std (runtime_error (str text))).

(** The deleter of [m_handler]. *)
Definition release (handler : nat * bool) : M host unit :=
  when handler.2 (emit (Destroyed handler.1)) >>> emit (Closed handler.1).

(** What [ServerPlugin]'s constructor does once the library is open. *)
Definition open_plugin (h : nat) (l : library) (confDir : bytes) : M host ServerPlugin :=
  match init_plugin l with
  | Some init =>
      emit (Initialised h) >>>
      ok <-- lift (init confDir) ;;
      if (ok : bool) then skip else fail "initPlugin failed"
  | None => skip
  end >>>
  match lib_create_session l with
  | None => fail "Can't find create_session function"
  | Some create =>
      match plugin_order l with
      | None => fail "Can't find plugin_order function"
      | Some order => ret (Plugin (Some (h, destory_plugin l)) order create)
      end
  end.

(** [ServerPlugin(path, confDir)]: an exception destroys the member [m_handler]. *)
Definition load_plugin (h : nat) (lib : option library) (confDir : bytes) : M host ServerPlugin :=
  match lib with
  | None => fail "dlerror"
  | Some l =>
      emit (Opened h) >>>
      try_catch (open_plugin h l confDir) (fun e => release (h, destory_plugin l) >>> throw e)
  end.

(** The body of the loading loop, with its [try]. *)
Definition load_file (h : nat) (lib : option library) (confDir : bytes) : M host unit :=
  try_catch (p <-- load_plugin h lib confDir ;; emplace_back p)
    (fun e => match e with ex_std _ => skip | _ => throw e end).

(** The loop over the files of the plugins' directory. *)
Fixpoint load_plugins (h : nat) (libs : list (option library)) (confDir : bytes) : M host unit :=
  match libs with
  | [] => skip
  | lib :: rest => load_file h lib confDir >>> load_plugins (S h) rest confDir
  end.

Definition status_order : N := Z.to_N (UINT32_MAX / 2).

(** [exec]'s part on plugins: the server sessions are added at the end, and the
    plugins sorted by their orders with [std::sort]. *)
Definition install_plugins (sort : list ServerPlugin -> list ServerPlugin) (libs : list (option library))
    (confDir : bytes) (status : option (R -> result exn (option F))) : M host unit :=
  load_plugins 0 libs confDir >>>
  match status with Some create => emplace_back (internal_plugin create status_order) | None => skip end >>>
  modify (fun s => Host (sort (m_plugins s)) (calls s)).

(** [m_plugins.clear()] *)
Definition clear_plugins : M host unit :=
  l <-- gets m_plugins ;;
  iterM (fun p => match m_handler p with Some h => release h | None => skip end) l >>>
  modify (fun s => Host [] (calls s)).

(** [Server::create_session] *)
Fixpoint create_session (plugins : list ServerPlugin) (request : R) : result exn (option F) :=
  match plugins with
  | [] => Ok None
  | p :: rest =>
      let* service := createSession p request in
      match service with
      | Some f => Ok (Some f)
      | None => create_session rest request
      end
  end.

(** What [std::sort] promises: it is not stable. *)
Definition sorts (sort : list ServerPlugin -> list ServerPlugin) : Prop :=
  forall l, sort l ≡ₚ l /\ StronglySorted (fun a b => m_order a <= m_order b)%N (sort l).

(** * Specification *)

(** The plugin a library gives, when it can be loaded. *)
Definition loadable (confDir : bytes) (h : nat) (l : library) : option ServerPlugin :=
  match match init_plugin l with Some init => init confDir | None => Ok true end,
        lib_create_session l, plugin_order l with
  | Ok true, Some create, Some order => Some (Plugin (Some (h, destory_plugin l)) order create)
  | _, _, _ => None
  end.

Definition offered (confDir : bytes) (h : nat) (lib : option library) : list ServerPlugin :=
  match lib with
  | Some l => match loadable confDir h l with Some p => [p] | None => [] end
  | None => []
  end.

Definition available (confDir : bytes) (libs : list (option library)) : list ServerPlugin :=
  mjoin (imap (offered confDir) libs).

(** The calls into a library that is being used, and of one that has been unloaded. *)
Definition opening (h : nat) (l : library) : list event :=
  Opened h :: match init_plugin l with Some _ => [Initialised h] | None => [] end.

Definition closing (h : nat) (l : library) : list event :=
  (if destory_plugin l then [Destroyed h] else []) ++ [Closed h].

(** The initialisation throws something that is no [std::exception], which nothing
    in the loading loop catches. *)
Definition foreign_throw (confDir : bytes) (lib : option library) : Prop :=
  match lib with
  | Some l =>
      match init_plugin l with
      | Some init => match init confDir with Throw (ex_std _) | Ok _ => False | Throw _ => True end
      | None => False
      end
  | None => False
  end.
End Plugins.
Arguments library : clear implicits.
Arguments ServerPlugin : clear implicits.
Arguments host : clear implicits.

(** * Lemmas *)

Lemma filter_all {X} (P : X -> Prop) `{!forall x, Decision (P x)} (l : list X) :
  (forall x, x ∈ l -> P x) -> filter P l = l.
Proof.
  induction l as [|x l IH]; intros Hl; [done|]. rewrite filter_cons_True by (apply Hl; by left).
  f_equal. apply IH. intros y Hy. apply Hl. by right.
Qed.

Lemma filter_none {X} (P : X -> Prop) `{!forall x, Decision (P x)} (l : list X) :
  (forall x, x ∈ l -> ~ P x) -> filter P l = [].
Proof.
  induction l as [|x l IH]; intros Hl; [done|]. rewrite filter_cons_False by (apply Hl; by left).
  apply IH. intros y Hy. apply Hl. by right.
Qed.

(** Blocks of elements with their own keys, concatenated. *)
Lemma filter_imap_join {A X} (key : X -> option nat) (f : nat -> A -> list X) h i (l : list A) :
  (forall j a x, x ∈ f j a -> key x = Some (h + j)) ->
  filter (fun x => key x = Some (h + i)) (mjoin (imap f l)) = default [] (f i <$> l !! i).
Proof.
  revert f h i; induction l as [|a l IH]; intros f h i Hf; [done|].
  rewrite imap_cons. cbn [mjoin list_join]. rewrite filter_app. destruct i as [|i]; cbn.
  - rewrite filter_all by (intros x Hx; by apply (Hf 0 a)). rewrite filter_none, app_nil_r; [done|].
    intros x (b & Hx & (j & y & -> & _)%elem_of_lookup_imap)%list_elem_of_join. apply Hf in Hx. rewrite Hx.
    intros [= E]. lia.
  - rewrite filter_none, app_nil_l.
    + replace (h + S i) with (S h + i) by lia. apply (IH (f ∘ S) (S h)). intros j y x Hx. apply (Hf (S j)) in Hx.
      rewrite Hx. f_equal. lia.
    + intros x Hx. apply Hf in Hx. rewrite Hx. intros [= E]. lia.
Qed.

(** The calls into one library. *)
Definition calls_of (i : nat) (l : list event) : list event := filter (fun e => Some (handle_of e) = Some i) l.

Section PluginLemmas.
Context {R F : Type}.
Implicit Types (l : library R F) (lib : option (library R F)) (p : ServerPlugin R F) (s : host R F).

(** The calls loading makes. *)
Definition loading (confDir : bytes) (h : nat) lib : list event :=
  match lib with
  | Some l => opening h l ++ match loadable confDir h l with Some _ => [] | None => closing h l end
  | None => []
  end.

Lemma emit_run e s : emit e s = (Done tt, Host (m_plugins s) (calls s ++ [e])).
Proof. done. Qed.

Lemma release_run h l s :
  release (h, destory_plugin l) s = (Done tt, Host (m_plugins s) (calls s ++ closing h l)).
Proof.
  unfold release, closing, when. cbn [fst snd]. destruct (destory_plugin l); [|done].
  unfold bind. rewrite !emit_run. cbn. by rewrite <- app_assoc.
Qed.

Lemma open_plugin_run confDir h l s :
  exists o, open_plugin h l confDir s =
      (o, Host (m_plugins s) (calls s ++ match init_plugin l with Some _ => [Initialised h] | None => [] end)) /\
    match loadable confDir h l with
    | Some p => o = Done p /\ ~ foreign_throw confDir (Some l)
    | None => exists e, o = Raise e /\
        match e with ex_std _ => ~ foreign_throw confDir (Some l) | _ => foreign_throw confDir (Some l) end
    end.
Proof.
  unfold open_plugin, loadable, foreign_throw. destruct (init_plugin l) as [init|]; unfold bind.
  - rewrite emit_run. unfold lift. destruct (init confDir) as [[]|e]; cbn.
    + destruct (lib_create_session l) as [c|]; [destruct (plugin_order l)|]; eexists; (split; [reflexivity|]); naive_solver.
    + eexists; split; [reflexivity|]. naive_solver.
    + eexists; split; [reflexivity|]. exists e. split; [done|]. destruct e; tauto.
  - rewrite app_nil_r. destruct s as [ps cs].
    cbn. destruct (lib_create_session l) as [c|]; [destruct (plugin_order l)|]; eexists; (split; [reflexivity|]); naive_solver.
Qed.

Lemma load_plugin_run confDir h lib s :
  exists o, load_plugin h lib confDir s = (o, Host (m_plugins s) (calls s ++ loading confDir h lib)) /\
    match lib ≫= loadable confDir h with
    | Some p => o = Done p /\ ~ foreign_throw confDir lib
    | None => exists e, o = Raise e /\
        match e with ex_std _ => ~ foreign_throw confDir lib | _ => foreign_throw confDir lib end
    end.
Proof.
  destruct lib as [l|]; cbn [load_plugin loading mbind option_bind].
  2:{ rewrite app_nil_r. destruct s. eexists. split; [reflexivity|]. cbn. naive_solver. }
  unfold bind at 1. rewrite emit_run. unfold try_catch.
  destruct (open_plugin_run confDir h l (Host (m_plugins s) (calls s ++ [Opened h]))) as (o & -> & Ho).
  cbn [m_plugins calls]. unfold opening. rewrite <- app_assoc. cbn [app].
  destruct (loadable confDir h l) as [p|]; [destruct Ho as [-> Ho]|destruct Ho as (e & -> & Ho)].
  - rewrite app_nil_r. eauto.
  - unfold bind. rewrite release_run. cbn. rewrite <- app_assoc. cbn. eauto.
Qed.

Lemma load_file_run confDir h lib s :
  exists o, load_file h lib confDir s =
      (o, Host (m_plugins s ++ offered confDir h lib) (calls s ++ loading confDir h lib)) /\
    (o = Done tt /\ ~ foreign_throw confDir lib \/
     exists e, o = Raise e /\ foreign_throw confDir lib /\ offered confDir h lib = []).
Proof.
  destruct (load_plugin_run confDir h lib s) as (o & E & Ho).
  unfold load_file, try_catch, bind. rewrite E. unfold offered.
  destruct lib as [l|]; cbn [mbind option_bind] in Ho.
  - destruct (loadable confDir h l) as [p|]; [destruct Ho as [-> Ho]; eauto|].
    destruct Ho as (e & -> & Ho). rewrite app_nil_r. destruct e; (eexists; split; [reflexivity|]); eauto 6.
  - destruct Ho as (e & -> & Ho). rewrite (app_nil_r (m_plugins s)). destruct e; (eexists; split; [reflexivity|]); eauto 6.
Qed.

Lemma load_plugins_run confDir libs h s :
  exists n o, n <= length libs /\
    load_plugins h libs confDir s =
      (o, Host (m_plugins s ++ mjoin (imap (fun i => offered confDir (h + i)) (take n libs)))
               (calls s ++ mjoin (imap (fun i => loading confDir (h + i)) (take n libs)))) /\
    (o = Done tt /\ n = length libs /\ Forall (fun lib => ~ foreign_throw confDir lib) libs \/
     exists e lib, o = Raise e /\ lib ∈ libs /\ foreign_throw confDir lib).
Proof.
  revert h s; induction libs as [|lib libs IH]; intros h s.
  { exists 0, (Done tt). split; [done|]. cbn. rewrite !app_nil_r. destruct s. split; [done|]. left. auto. }
  cbn [load_plugins]. unfold bind at 1.
  destruct (load_file_run confDir h lib s) as (o & -> & [[-> Hf]|(e & -> & Hf & Hoff)]).
  - destruct (IH (S h) (Host (m_plugins s ++ offered confDir h lib) (calls s ++ loading confDir h lib)))
      as (n & o' & Hn & -> & Ho'). exists (S n), o'. split; [cbn; lia|]. split.
    + cbn [take m_plugins calls]. rewrite !imap_cons. cbn [mjoin list_join]. rewrite Nat.add_0_r, !app_assoc.
      do 3 f_equal; (f_equal; apply imap_ext; intros i x _; cbn; f_equal; lia).
    + destruct Ho' as [(-> & -> & Ha)|(e & lib' & -> & Hin & Hl)]; [left; auto|right].
      exists e, lib'. split_and!; [done|by right|done].
  - exists 1, (Raise e). split; [cbn; lia|]. split; [|right; exists e, lib; split_and!; [done|by left|done]].
    cbn. by rewrite Nat.add_0_r, !app_nil_r.
Qed.

(** ** Unloading *)

Definition release_calls p : list event :=
  match m_handler p with
  | Some (h, destroys) => (if destroys then [Destroyed h] else []) ++ [Closed h]
  | None => []
  end.

Lemma clear_plugins_run s :
  clear_plugins s = (Done tt, Host [] (calls s ++ mjoin (release_calls <$> m_plugins s))).
Proof.
  unfold clear_plugins, bind at 1. cbn [gets].
  set (step p := match m_handler p with Some h => release h | None => skip end).
  assert (Hs : forall p s', step p s' = (Done tt, Host (m_plugins s') (calls s' ++ release_calls p))).
  { intros p s'. unfold step, release_calls. destruct (m_handler p) as [[h []]|]; cbn;
      [rewrite emit_run; cbn; by rewrite <- app_assoc|done|by rewrite app_nil_r; destruct s']. }
  assert (Hl : forall ps s', iterM step ps s' = (Done tt, Host (m_plugins s') (calls s' ++ mjoin (release_calls <$> ps)))).
  { induction ps as [|p ps IH]; intros s'; cbn [iterM]; [by rewrite app_nil_r; destruct s'|].
    unfold bind. rewrite Hs, IH. cbn. by rewrite <- app_assoc. }
  unfold bind. by rewrite Hl.
Qed.

Lemma calls_of_app i (a b : list event) : calls_of i (a ++ b) = calls_of i a ++ calls_of i b.
Proof. apply filter_app. Qed.

Lemma release_calls_of i p :
  calls_of i (release_calls p) = if decide (fst <$> m_handler p = Some i) then release_calls p else [].
Proof.
  unfold release_calls, calls_of. destruct (m_handler p) as [[h d]|]; cbn [fmap option_fmap option_map fst].
  - case_decide as Hd; [apply filter_all|apply filter_none]; intros e He; destruct d; cbn in He;
      repeat (apply elem_of_cons in He as [->|He]; [done|]); by apply elem_of_nil in He.
  - by case_decide.
Qed.

(** Unloading plugins in any order: each library is called by its own plugin. *)
Lemma calls_of_release i (ps : list (ServerPlugin R F)) :
  calls_of i (mjoin (release_calls <$> ps)) =
  mjoin (release_calls <$> filter (fun p => fst <$> m_handler p = Some i) ps).
Proof.
  induction ps as [|p ps IH]; [done|]. rewrite fmap_cons. cbn [mjoin list_join].
  rewrite calls_of_app, release_calls_of, filter_cons. etransitivity; [apply (f_equal (app _) IH)|].
  by case_decide.
Qed.

Lemma offered_handler confDir h i lib p : p ∈ offered confDir (h + i) lib -> fst <$> m_handler p = Some (h + i).
Proof.
  destruct lib as [l|]; cbn; [|by intros ?%elem_of_nil]. destruct (loadable confDir (h + i) l) as [q|] eqn:E.
  - intros ->%list_elem_of_singleton. unfold loadable in E. repeat case_match; by simplify_eq.
  - by intros ?%elem_of_nil.
Qed.

Lemma loading_handle confDir h i lib e : e ∈ loading confDir (h + i) lib -> Some (handle_of e) = Some (h + i).
Proof.
  destruct lib as [l|]; cbn; [|by intros ?%elem_of_nil]. unfold opening, closing.
  destruct (init_plugin l), (loadable _ _ _), (destory_plugin l); cbn; intros He;
    repeat (apply elem_of_cons in He as [->|He]; [done|]); by apply elem_of_nil in He.
Qed.

(** What unloading adds to the calls of a plugin that was loaded. *)
Lemma release_offered confDir i l :
  mjoin (release_calls <$> offered confDir i (Some l)) =
  match loadable confDir i l with Some _ => closing i l | None => [] end.
Proof.
  unfold offered, loadable, closing.
  destruct (match init_plugin l with Some init => init confDir | None => Ok true end) as [[]|]; try done.
  destruct (lib_create_session l), (plugin_order l); try done. cbn. unfold release_calls. cbn. by rewrite app_nil_r.
Qed.

(** The calls into a library after loading the first files, and after unloading. *)
Lemma loaded_calls confDir i n (libs : list (option (library R F))) ps more :
  m_handler <$> more = (fun _ => None) <$> more ->
  ps ≡ₚ mjoin (imap (offered confDir) (take n libs)) ++ more ->
  let cs := mjoin (imap (loading confDir) (take n libs)) in
  calls_of i cs = default [] (loading confDir i <$> take n libs !! i) /\
  calls_of i (cs ++ mjoin (release_calls <$> ps)) =
    match take n libs !! i with Some (Some l) => opening i l ++ closing i l | _ => [] end.
Proof.
  intros Hmore Hps cs.
  assert (E1 : calls_of i cs = default [] (loading confDir i <$> take n libs !! i)).
  { apply (filter_imap_join (fun e => Some (handle_of e)) (loading confDir) 0 i).
    intros j lib e. apply (loading_handle confDir 0 j). }
  split; [done|]. rewrite calls_of_app, E1, calls_of_release.
  assert (E2 : filter (fun p => fst <$> m_handler p = Some i) ps ≡ₚ
               default [] (offered confDir i <$> take n libs !! i)).
  { rewrite Hps, filter_app, (filter_none _ more), app_nil_r.
    - rewrite (filter_imap_join (fun p => fst <$> m_handler p) (offered confDir) 0 i); [done|].
      intros j lib p. apply (offered_handler confDir 0 j).
    - intros p Hp. assert (Hn : m_handler p = None); [|by rewrite Hn].
      clear Hps E1. induction more as [|q more IH]; [by apply elem_of_nil in Hp|].
      rewrite !fmap_cons in Hmore. injection Hmore as Hq Hmore.
      apply elem_of_cons in Hp as [->|Hp]; [done|by apply IH]. }
  destruct (take n libs !! i) as [[l|]|]; cbn [fmap option_fmap option_map default] in *.
  - assert (E3 : filter (fun p => fst <$> m_handler p = Some i) ps = offered confDir i (Some l)).
    { unfold offered in *. destruct (loadable confDir i l); [by apply Permutation_singleton_r|by apply Permutation_nil_r]. }
    rewrite E3, release_offered. unfold loading. destruct (loadable confDir i l); [by rewrite app_nil_r|].
    by rewrite app_nil_r.
  - apply Permutation_nil_r in E2. by rewrite E2.
  - apply Permutation_nil_r in E2. by rewrite E2.
Qed.

Definition refuses (request : R) p : Prop := createSession p request = Ok None.

Lemma create_session_sorted (ps : list (ServerPlugin R F)) request :
  StronglySorted (fun a b => m_order a <= m_order b)%N ps ->
  let answer := create_session ps request in
  answer = Ok None /\ (forall q, q ∈ ps -> refuses request q) \/
  exists p, p ∈ ps /\ ~ refuses request p /\ createSession p request = answer /\
    forall q, q ∈ ps -> (m_order q < m_order p)%N -> refuses request q.
Proof.
  cbn zeta. induction 1 as [|p ps Hs IH Hp]; cbn [create_session]; [left; split; [done|by intros q ?%elem_of_nil]|].
  destruct (createSession p request) as [[f|]|e] eqn:E; cbn.
  2:{ destruct IH as [[-> IH]|(p' & Hp' & Hr & <- & Hq)]; [left|right].
      - split; [done|]. intros q [->|Hin]%elem_of_cons; [done|by apply IH].
      - exists p'. split_and!; [by right|done|done|]. intros q [->|Hin]%elem_of_cons; [done|by apply Hq]. }
  all: right; exists p; split_and!; [by left|unfold refuses; by rewrite E|done|].
  all: intros q [->|Hq]%elem_of_cons Hlt; [lia|]; rewrite Forall_forall in Hp; specialize (Hp q Hq); lia.
Qed.

(** The server's own sessions. *)
Definition status_plugins (status : option (R -> result exn (option F))) : list (ServerPlugin R F) :=
  match status with Some create => [internal_plugin create status_order] | None => [] end.

Lemma install_plugins_run sort libs confDir status :
  sorts sort ->
  exists n o ps more, install_plugins sort libs confDir status new_host =
      (o, Host ps (mjoin (imap (loading confDir) (take n libs)))) /\
    m_handler <$> more = (fun _ => None) <$> more /\ ps ≡ₚ mjoin (imap (offered confDir) (take n libs)) ++ more /\
    (o = Done tt /\ n = length libs /\ more = status_plugins status /\ Forall (fun lib => ~ foreign_throw confDir lib) libs /\
       StronglySorted (fun a b => m_order a <= m_order b)%N ps \/
     exists e lib, o = Raise e /\ lib ∈ libs /\ foreign_throw confDir lib).
Proof.
  intros Hs. unfold install_plugins, bind at 1.
  destruct (load_plugins_run confDir libs 0 new_host) as (n & o & _ & -> & Ho). cbn [new_host m_plugins calls app Nat.add].
  destruct Ho as [(-> & -> & Hf)|(e & lib & -> & Hl)].
  - destruct (Hs (mjoin (imap (offered confDir) (take (length libs) libs)) ++ status_plugins status)) as [Hp Ho].
    exists (length libs), (Done tt), (sort (mjoin (imap (offered confDir) (take (length libs) libs)) ++ status_plugins status)),
      (status_plugins status). split; [|split; [by destruct status|split; [done|left; auto]]].
    destruct status as [f|]; cbn; [done|]. by rewrite app_nil_r.
  - exists n, (Raise e), (mjoin (imap (offered confDir) (take n libs))), [].
    split; [done|]. rewrite app_nil_r. split_and!; [done|done|]. right. eauto.
Qed.

(** No plugin is left, and the libraries that were opened have been unloaded. *)
Definition unloaded (libs : list (option (library R F))) s : Prop :=
  m_plugins s = [] /\
  forall i, match libs !! i with
            | Some (Some l) => calls_of i (calls s) = [] \/ calls_of i (calls s) = opening i l ++ closing i l
            | _ => calls_of i (calls s) = []
            end.

Lemma install_unloaded sort libs confDir status :
  sorts sort ->
  let '(o, s1) := install_plugins sort libs confDir status new_host in
  (o = Done tt \/ exists e, o = Raise e) /\
  exists s2, clear_plugins s1 = (Done tt, s2) /\ unloaded libs s2 /\ clear_plugins s2 = (Done tt, s2).
Proof.
  intros Hs. destruct (install_plugins_run sort libs confDir status Hs) as (n & o & ps & more & -> & Hm & Hp & Ho).
  split; [destruct Ho as [[-> _]|(e & lib & -> & _)]; eauto|].
  rewrite clear_plugins_run. eexists. split; [reflexivity|]. split; [|rewrite clear_plugins_run; cbn; by rewrite app_nil_r].
  split; [done|]. intros i. destruct (loaded_calls confDir i n libs ps more Hm Hp) as [_ E].
  cbn zeta in E. cbn [calls m_plugins].
  destruct (decide (i < n)); [rewrite lookup_take_lt in E by done|rewrite lookup_take_ge in E by lia];
    destruct (libs !! i) as [[?|]|]; auto.
Qed.

(** A sorting function. *)
Definition order_le (p q : ServerPlugin R F) : Prop := (m_order p <= m_order q)%N.

#[export] Instance order_le_dec : RelDecision order_le.
Proof. intros p q. unfold order_le. apply _. Defined.

#[export] Instance order_le_transitive : Transitive order_le.
Proof. intros p q r. unfold order_le. lia. Qed.

#[export] Instance order_le_total : Total order_le.
Proof. intros p q. unfold order_le. lia. Qed.

Definition sort_plugins : list (ServerPlugin R F) -> list (ServerPlugin R F) := merge_sort order_le.

Lemma sort_plugins_sorts : sorts sort_plugins.
Proof.
  intros ps. split; [apply merge_sort_Permutation|].
  apply (StronglySorted_merge_sort order_le).
Qed.
End PluginLemmas.

(** * Examples *)

Definition sample_library (n : N) (init : bool) (f : nat -> option nat) : library nat nat :=
  {| init_plugin := Some (fun _ => Ok init); lib_create_session := Some (fun r => Ok (f r));
     plugin_order := Some n; destory_plugin := true |}.

(** A plugin that always answers, a file that is no library, a plugin that fails to
    initialise, and one that answers to the request 7 only. *)
Definition sample_libraries : list (option (library nat nat)) :=
  [Some (sample_library 5 true (fun _ => Some 1)); None; Some (sample_library 0 false (fun _ => Some 3));
   Some (sample_library 1 true (fun r => if decide (r = 7) then Some 0 else None))].

(** * Properties *)

(** Which plugin serves a request: after the plugins have been installed, the
    installed ones are those whose library loads, has its functions and
    initialises successfully, and the status page with the order [UINT32_MAX / 2];
    the answer to a request, a service or an exception, is that of one with the
    least order among those that do not refuse it, and there is none exactly
    when all refuse it.  Installing fails only when a plugin throws something that
    is no standard exception. *)
Theorem create_session_least {R F} sort (libs : list (option (library R F))) confDir status request :
  sorts sort ->
  match install_plugins sort libs confDir status new_host with
  | (Done _, s) =>
      let ps := available confDir libs ++ status_plugins status in
      m_plugins s ≡ₚ ps /\
      (create_session (m_plugins s) request = Ok None /\ (forall q, q ∈ ps -> refuses request q) \/
       exists p, p ∈ ps /\ ~ refuses request p /\ createSession p request = create_session (m_plugins s) request /\
         forall q, q ∈ ps -> (m_order q < m_order p)%N -> refuses request q)
  | (o, _) => (exists e, o = Raise e) /\ exists lib, lib ∈ libs /\ foreign_throw confDir lib
  end.
Proof.
  intros Hs. destruct (install_plugins_run sort libs confDir status Hs) as (n & o & ps & more & -> & _ & Hp & Ho).
  destruct Ho as [(-> & -> & -> & _ & Hsort)|(e & lib & -> & Hl)]; [|eauto].
  rewrite firstn_all in Hp. fold (available confDir libs) in Hp. cbn. split; [done|].
  destruct (create_session_sorted ps request Hsort) as [[E H]|(p & Hin & Hr & E & H)].
  - left. split; [done|]. intros q. rewrite <- Hp. apply H.
  - right. exists p. rewrite <- Hp. split_and!; [done..|]. intros q. rewrite <- Hp. apply H.
Qed.

Lemma create_session_least_witness :
  exists s, install_plugins sort_plugins sample_libraries [] (Some (fun _ => Ok (Some 2))) new_host = (Done tt, s) /\
    create_session (m_plugins s) 3 = Ok (Some 1) /\ create_session (m_plugins s) 7 = Ok (Some 0) /\
    forall q, q ∈ available [] sample_libraries -> (m_order q < 5)%N -> refuses 3 q.
Proof.
  pose (s := (install_plugins sort_plugins sample_libraries [] (Some (fun _ => Ok (Some 2))) new_host).2).
  exists s. split; [vm_compute; reflexivity|]. split; [vm_compute; reflexivity|]. split; [vm_compute; reflexivity|].
  pose proof (create_session_least sort_plugins sample_libraries [] (Some (fun _ => Ok (Some 2))) 3 sort_plugins_sorts) as H.
  change (install_plugins sort_plugins sample_libraries [] (Some (fun _ => Ok (Some 2))) new_host) with (Done tt, s) in H.
  destruct H as [_ [[E _]|(p & Hp & _ & E & H)]]; [vm_compute in E; discriminate E|].
  intros q Hq Hlt. apply H; [apply elem_of_app; left; exact Hq|]. eapply N.lt_le_trans; [exact Hlt|].
  change (create_session (m_plugins s) 3) with (@Ok exn _ (Some 1)) in E.
  repeat (apply elem_of_cons in Hp as [->|Hp]; [first [discriminate E|vm_compute; discriminate]|]).
  by apply elem_of_nil in Hp.
Defined.

(** C29. The life of the plugins' libraries: whether the start succeeds or is cut short
    by an exception, once the plugins have been cleared every library that was opened
    has been initialised at most once, then destroyed (when it has the function) and
    then closed, each exactly once and in this order; a library that did not become
    a plugin was closed at once, and one that did is neither destroyed nor closed
    before the plugins are cleared.  A start that succeeds has opened all of them. *)
Theorem plugins_life {R F} sort (libs : list (option (library R F))) confDir status :
  sorts sort ->
  let '(o, s1) := install_plugins sort libs confDir status new_host in
  let '(o2, s2) := clear_plugins s1 in
  o2 = Done tt /\ m_plugins s2 = [] /\
  forall i,
    match libs !! i with
    | Some (Some l) =>
        calls_of i (calls s1) = opening i l ++ match loadable confDir i l with Some _ => [] | None => closing i l end /\
        calls_of i (calls s2) = opening i l ++ closing i l \/
        o <> Done tt /\ calls_of i (calls s2) = []
    | _ => calls_of i (calls s2) = []
    end.
Proof.
  intros Hs. destruct (install_plugins_run sort libs confDir status Hs) as (n & o & ps & more & -> & Hm & Hp & Ho).
  rewrite clear_plugins_run. cbn [m_plugins calls]. split_and!; [done..|]. intros i.
  destruct (loaded_calls confDir i n libs ps more Hm Hp) as [E1 E2]. cbn in E1, E2. rewrite E1, E2.
  destruct (decide (i < n)) as [Hi|Hi].
  - rewrite lookup_take_lt by done. destruct (libs !! i) as [[l|]|]; [left|..]; done.
  - rewrite lookup_take_ge by lia. destruct (libs !! i) as [[l|]|] eqn:El; [|done..]. right. split; [|done].
    destruct Ho as [(_ & -> & _)|(e & lib & -> & _)]; [|done]. apply lookup_lt_Some in El. lia.
Qed.

Lemma plugins_life_witness :
  exists s1 s2, install_plugins sort_plugins sample_libraries [] None new_host = (Done tt, s1) /\
    clear_plugins s1 = (Done tt, s2) /\
    calls_of 0 (calls s1) = [Opened 0; Initialised 0] /\
    calls_of 2 (calls s1) = [Opened 2; Initialised 2; Destroyed 2; Closed 2] /\
    forall i, i ∈ [0; 2; 3] -> calls_of i (calls s2) = [Opened i; Initialised i; Destroyed i; Closed i].
Proof.
  pose (s1 := (install_plugins sort_plugins sample_libraries [] None new_host).2).
  exists s1, (clear_plugins s1).2. do 2 (split; [vm_compute; reflexivity|]). do 2 (split; [vm_compute; reflexivity|]).
  pose proof (plugins_life sort_plugins sample_libraries [] None sort_plugins_sorts) as H.
  change (install_plugins sort_plugins sample_libraries [] None new_host) with (Done tt, s1) in H. cbv beta iota in H.
  destruct (clear_plugins s1) as [o2 s2]. destruct H as (_ & _ & H).
  intros i Hi. specialize (H i).
  repeat (apply elem_of_cons in Hi as [->|Hi]; [destruct H as [[_ E]|[E _]]; [exact E|by destruct E]|]).
  by apply elem_of_nil in Hi.
Defined.
