(* ===== verification/World.v ===== *)
(** The running server: [Server::exec]'s accept loop and shutdown
    (src/server/server.cpp) together with the event loops and the session objects
    they own (src/server/serversession.cpp).

    The world is the server's books, the event loops with their session objects,
    the sessions' sockets and the history of [accept4] and [close] calls. *)

From Stdlib Require Import Ascii String NArith ZArith Lia.
From stdpp Require Import base gmap strings list sorting.
From S2P Require Import Prelude Http Effects EventLoop LoopLife Server.
Local Open Scope getodac_scope.

Record world := World {
  books : server;
  loops : list eloop;
  (** the [m_sock] of each session object *)
  socks : gmap N N;
  m_shutdown : bool;
  (** the sockets [accept4] returned and those given to [close] *)
  accepted_socks : list N;
  closed_socks : list N
}.

Definition set_books (x : server) (w : world) : world :=
  World x (loops w) (socks w) (m_shutdown w) (accepted_socks w) (closed_socks w).
Definition set_loops (x : list eloop) (w : world) : world :=
  World (books w) x (socks w) (m_shutdown w) (accepted_socks w) (closed_socks w).
Definition set_socks (x : gmap N N) (w : world) : world :=
  World (books w) (loops w) x (m_shutdown w) (accepted_socks w) (closed_socks w).
Definition set_shutdown (x : bool) (w : world) : world :=
  World (books w) (loops w) (socks w) x (accepted_socks w) (closed_socks w).
Definition accept4 (sock : N) (w : world) : world :=
  World (books w) (loops w) (socks w) (m_shutdown w) (accepted_socks w ++ [sock]) (closed_socks w).
Definition close (sock : N) (w : world) : world :=
  World (books w) (loops w) (socks w) (m_shutdown w) (accepted_socks w) (closed_socks w ++ [sock]).

(** An operation on the [i]-th event loop. *)
Definition on_loop {X : Type} (i : nat) (m : M eloop X) : M world X := fun w =>
  match loops w !! i with
  | None => (Undefined, w)
  | Some l => let '(o, l') := m l in (o, set_loops (<[i := l']> (loops w)) w)
  end.

(** [Server::exitSignalHandler] *)
Definition exitSignalHandler : M world unit := modify (set_shutdown true).

(** * Session objects *)

(** [BasicServerSession]'s constructor. *)
Definition session_created (p : N) (addr : bytes) (sock : N) : M world unit :=
  modify (fun w => set_socks (<[p := sock]> (socks w)) (set_books (serverSessionCreated p addr (books w)) w)).

(** [~BasicServerSession]: undefined when the assertion of [serverSessionDeleted]
    fails. *)
Definition session_deleted (p : N) : M world unit := fun w =>
  match m_activeSessions (books w) !! p with
  | None => (Undefined, w)
  | Some addr =>
      match serverSessionDeleted p addr (books w) with
      | None => (Undefined, w)
      | Some b => (Done tt, set_socks (delete p (socks w)) (set_books b w))
      end
  end.

(** The world's part of [~ServerSession]: the event loop's part is
    [EventLoop.destroy]. *)
Definition session_destroyed (p : N) : M world unit :=
  sock <-- gets (fun w => socks w !! p) ;;
  match sock with
  | None => undefined
  | Some fd => modify (close fd) >>> session_deleted p
  end.

(** A pass, or the destructor, of a loop: the objects it frees leave the books. *)
Definition freed (l l' : eloop) : list N := addresses (dom (objects l) ∖ dom (objects l')).

Definition loop_step {X : Type} (i : nat) (m : M eloop X) : M world X := fun w =>
  match loops w !! i with
  | None => (Undefined, w)
  | Some l =>
      let '(o, l') := m l in
      let w1 := set_loops (<[i := l']> (loops w)) w in
      match iterM session_destroyed (freed l l') w1 with
      | (Done _, w2) => (o, w2)
      | (_, w2) => (Undefined, w2)
      end
  end.

(** * The accept loop *)

(** [addressText]: the host [getnameinfo] writes to [hbuf], or nothing when it
    fails. *)
Definition addressText (hbuf : option bytes) : bytes := match hbuf with Some text => text | None => [] end.

(** A connection [accept4] returns, with what the environment decides about it: its
    socket and what [getnameinfo] says of its peer, the address of its session object, how the object's
    creation goes, and the coroutine it will run. *)
Record connection := {
  c_sock : N;
  c_host : option bytes;
  c_ptr : N;
  c_creation : creation;
  c_co : list Z;
  c_fails : bool;
  c_deadline : Z
}.

Definition c_addr (c : connection) : bytes := addressText (c_host c).

Section Accept.
Context (maxConnections : Z).

(** [ServerSession]'s constructor; when it throws, the base class is destroyed. *)
Definition make_ServerSession (i : nat) (c : connection) (order : Z) : M world unit :=
  session_created (c_ptr c) (c_addr c) (c_sock c) >>>
  match c_creation c with
  | constructor_throws =>
      session_deleted (c_ptr c) >>> throw (ex_std (runtime_error (str "Can't set socket option TCP_NODELAY")))
  | created | initSession_throws =>
      on_loop i (modify (fun l => set_objects
        (<[c_ptr c := Object (Z.to_N order) (c_co c) (c_fails c) (c_deadline c)]> (objects l)) l))
  end.

(** [(new ServerSession(bestLoop, sock, addr, order))->initSession()] and the [catch]
    clauses. *)
Definition create_ServerSession (i : nat) (c : connection) (order : Z) : M world unit :=
  try_catch
    (make_ServerSession i c order >>>
     on_loop i (registerSession (c_ptr c) (match c_creation c with created => true | _ => false end)))
    (fun _ => modify (close (c_sock c))).

(** The body of the loop around [accept4]. *)
Definition accept_one (c : connection) : M world unit := fun w0 =>
  let w := accept4 (c_sock c) w0 in
  match admitConnection maxConnections (c_addr c) (books w) with
  | (None, b) => (Done tt, close (c_sock c) (set_books b w))
  | (Some order, b) =>
      create_ServerSession (bestLoop (EventLoop.m_activeSessions <$> loops w)) c order (set_books b w)
  end.

(** [while (!m_shutdown)]: until [accept4] has no more connections. *)
Fixpoint accept_all (cs : list connection) : M world unit :=
  quit <-- gets m_shutdown ;;
  if (quit : bool) then skip
  else match cs with
       | [] => skip
       | c :: rest => accept_one c >>> accept_all rest
       end.

(** A listening socket reported by [epoll_wait], with the connections waiting on it. *)
Definition listen_event (ev : N * list connection) : M world unit :=
  let '(events, cs) := ev in
  if negb (N.land events error_events =? 0)%N then
    throw (ex_std (runtime_error (str "listen socket error")))
  else when (negb (N.land events (N.lor EPOLLIN EPOLLPRI) =? 0)%N) (accept_all cs).

(** What happens while the accept loop waits: a loop makes a pass, a session is woken
    up, or a signal to exit arrives. *)
Inductive happening : Type :=
| Pass (i : nat) (balanced : bool) (evs : list (N * N)) (now : Z)
| Wake (i : nat) (p : N)
| ExitSignal.

Definition happens (h : happening) : M world unit :=
  match h with
  | Pass i b evs now => loop_step i (loop_pass b evs now) >>> skip
  | Wake i p => on_loop i (wakeupper_wakeup p)
  | ExitSignal => exitSignalHandler
  end.

(** "Wait for incoming connections": the loop of [exec]; each round is what happens
    during its [epoll_wait] and the events it returns.  When the rounds are used
    up the server is still waiting. *)
Fixpoint accept_loop (rounds : list (list happening * list (N * list connection))) : M world unit :=
  quit <-- gets m_shutdown ;;
  if (quit : bool) then skip
  else match rounds with
       | [] => fun w => (Suspended, w)
       | (hs, evs) :: rest =>
           iterM happens hs >>>
           modify (fun w => set_books (update_peak (books w)) w) >>>
           iterM listen_event evs >>>
           accept_loop rest
       end.
End Accept.

(** * Shutdown *)

(** The destructor of the last event loop of the array. *)
Definition destroy_last (balanced : bool) (current : option round) : M world unit := fun w =>
  match last (loops w) with
  | None => (Undefined, w)
  | Some l =>
      let '(o, l') := destroy_loop balanced current l in
      let w1 := set_loops (take (length (loops w) - 1) (loops w)) w in
      match iterM session_destroyed (freed l l') w1 with
      | (Done _, w2) => (o, w2)
      | (_, w2) => (Undefined, w2)
      end
  end.

(** [eventLoops.reset()]: the array is destroyed from its end.  [currents] are the
    rounds the loops' threads are in. *)
Fixpoint destroy_loops (balanced : bool) (currents : list (option round)) (n : nat) : M world unit :=
  match n with
  | O => skip
  | S i => destroy_last balanced (default None (currents !! i)) >>>
           destroy_loops balanced currents i
  end.

Fixpoint shutdown_loops (i n : nat) : M world unit :=
  match n with
  | O => skip
  | S n' => on_loop i shutdown >>> shutdown_loops (S i) n'
  end.

(** What [exec] does after the accept loop.  The last loop deletes the sessions left
    in [m_activeSessions]: their event loop is gone and each deletion erases the
    element the iterator points to, so that any is undefined behaviour. *)
Definition finish (balanced : bool) (currents : list (option round)) : M world unit :=
  n <-- gets (fun w => length (loops w)) ;;
  shutdown_loops 0 n >>>
  destroy_loops balanced currents n >>>
  left_ <-- gets (fun w => m_activeSessions (books w)) ;;
  if decide (left_ = ∅) then skip else undefined.

(** * Invariant *)

(** Each live session is in the books with its socket, and is an object of exactly
    one event loop, where it is registered; every accepted socket is closed or
    belongs to a live session, where [failed] are the sockets whose registration
    failed: those are closed at once although their session keeps them. *)
Definition owned (w : world) (p : N) : Prop := exists i l, loops w !! i = Some l /\ p ∈ dom (objects l).

Definition accounts (w : world) : list N := closed_socks w ++ (map_to_list (socks w)).*2.

Definition winv (maxConn : Z) (failed : list N) (w : world) : Prop :=
  books_ok maxConn (books w) /\ Forall settled (loops w) /\
  (forall i j li lj, loops w !! i = Some li -> loops w !! j = Some lj -> i <> j ->
     dom (objects li) ## dom (objects lj)) /\
  (forall p, p ∈ dom (m_activeSessions (books w)) <-> owned w p) /\
  dom (socks w) = dom (m_activeSessions (books w)) /\
  accounts w ≡ₚ accepted_socks w ++ failed.

(** * Lemmas *)

Section Sessions.
Context (maxConn : Z) (Hmax : (0 <= maxConn < 2 ^ 32 - 1)%Z).

(** What ending the sessions [ps] does. *)
Definition sessions_ended (ps : list N) (w w' : world) : Prop :=
  books_ok maxConn (books w') /\
  (forall p, p ∈ dom (m_activeSessions (books w')) <-> p ∈ dom (m_activeSessions (books w)) /\ p ∉ ps) /\
  dom (socks w') = dom (m_activeSessions (books w')) /\
  accounts w' ≡ₚ accounts w /\
  loops w' = loops w /\ accepted_socks w' = accepted_socks w /\ m_shutdown w' = m_shutdown w.

Lemma deleted_sessions p addr b b' :
  serverSessionDeleted p addr b = Some b' -> m_activeSessions b' = delete p (m_activeSessions b).
Proof. unfold serverSessionDeleted. case_match; [|done]. by intros [= <-]. Qed.

Lemma session_destroyed_spec p w :
  books_ok maxConn (books w) -> dom (socks w) = dom (m_activeSessions (books w)) ->
  p ∈ dom (m_activeSessions (books w)) ->
  exists w', session_destroyed p w = (Done tt, w') /\ sessions_ended [p] w w'.
Proof.
  intros Hb Hs Hp. pose proof Hp as Hp'. rewrite <- Hs in Hp'.
  apply elem_of_dom in Hp as [addr Ha], Hp' as [fd Hfd].
  destruct (delete_books maxConn p addr (books w) Hmax Ha Hb) as (b' & Eb & Hb').
  pose proof (deleted_sessions _ _ _ _ Eb) as Em.
  unfold session_destroyed, bind, gets, modify. rewrite Hfd. unfold session_deleted.
  cbn [close books]. rewrite Ha, Eb. eexists. split; [reflexivity|].
  unfold sessions_ended. cbn. rewrite Em. split_and!; try done.
  - intros q. rewrite dom_delete. set_solver.
  - by rewrite !dom_delete_L, Hs.
  - unfold accounts. cbn. rewrite <- app_assoc. f_equiv. cbn [app].
    rewrite <- (map_to_list_delete (socks w) p fd Hfd). done.
Qed.

Lemma sessions_destroyed_spec ps w :
  NoDup ps -> books_ok maxConn (books w) -> dom (socks w) = dom (m_activeSessions (books w)) ->
  Forall (fun p => p ∈ dom (m_activeSessions (books w))) ps ->
  exists w', iterM session_destroyed ps w = (Done tt, w') /\ sessions_ended ps w w'.
Proof.
  revert w; induction ps as [|p ps IH]; intros w Hn Hb Hs Hall.
  { exists w. split; [done|]. unfold sessions_ended. split_and!; try done. set_solver. }
  apply NoDup_cons in Hn as [Hp Hn]. apply Forall_cons in Hall as [Hdp Hall].
  destruct (session_destroyed_spec p w Hb Hs Hdp) as (w1 & E1 & (B1 & D1 & S1 & A1 & L1 & C1 & Q1)).
  destruct (IH w1 Hn B1 S1) as (w2 & E2 & (B2 & D2 & S2 & A2 & L2 & C2 & Q2)).
  { rewrite Forall_forall in Hall |- *. intros q Hq. apply D1. split; [by apply Hall|set_solver]. }
  exists w2. cbn [iterM]. unfold bind. rewrite E1. split; [done|].
  unfold sessions_ended. split_and!; try done; try congruence.
  - intros q. rewrite D2, D1. set_solver.
  - by rewrite A2, A1.
Qed.
End Sessions.

Section Loops.
Context (maxConn : Z) (Hmax : (0 <= maxConn < 2 ^ 32 - 1)%Z).

(** A step of one loop that only frees objects of its own. *)
Lemma loop_step_spec {X} failed w i l (m : M eloop X) o l' :
  winv maxConn failed w -> loops w !! i = Some l -> m l = (o, l') ->
  settled l' -> dom (objects l') ⊆ dom (objects l) ->
  exists w', loop_step i m w = (o, w') /\ winv maxConn failed w' /\
    loops w' = <[i := l']> (loops w) /\ m_shutdown w' = m_shutdown w /\
    accepted_socks w' = accepted_socks w.
Proof.
  intros (Hb & Hset & Hdis & Hown & Hs & Hacc) Hl Em Hset' Hsub. unfold loop_step. rewrite Hl, Em.
  set (w1 := set_loops (<[i := l']> (loops w)) w).
  destruct (sessions_destroyed_spec maxConn Hmax (freed l l') w1) as (w2 & E2 & (B2 & D2 & S2 & A2 & L2 & C2 & Q2));
    [apply addresses_NoDup|done|done| |].
  { apply Forall_forall. intros p Hp. unfold freed in Hp. rewrite addresses_elem in Hp.
    apply Hown. exists i, l. split; [done|set_solver]. }
  exists w2. rewrite E2. split; [done|]. split; [|done]. unfold winv. split_and!; try done.
  - rewrite L2. by apply Forall_insert.
  - rewrite L2. intros a b la lb Ha Hb' Hab. unfold w1 in Ha, Hb'. cbn in Ha, Hb'.
    apply list_lookup_insert_Some in Ha as [(<- & <- & _)|[Hna Ha]];
      apply list_lookup_insert_Some in Hb' as [(<- & <- & _)|[Hnb Hb']]; [done|..].
    + specialize (Hdis i b l lb Hl Hb' Hab). set_solver.
    + specialize (Hdis a i la l Ha Hl Hab). set_solver.
    + by eapply Hdis.
  - intros p. rewrite D2. unfold owned, freed. rewrite L2, addresses_elem. unfold w1. cbn. rewrite Hown. split.
    + intros [(a & la & Ha & Hp) Hf]. destruct (decide (a = i)) as [->|Hne].
      * exists i, l'. rewrite list_lookup_insert_eq by (by eapply lookup_lt_Some). split; [done|].
        simplify_eq. destruct (decide (p ∈ dom (objects l'))); [done|]. set_solver.
      * exists a, la. rewrite list_lookup_insert_ne by done. done.
    + intros (a & la & Ha & Hp). apply list_lookup_insert_Some in Ha as [(<- & <- & _)|[Hna Ha]].
      * split; [exists i, l; split; [done|set_solver]|]. set_solver.
      * split; [by exists a, la|]. specialize (Hdis i a l la Hl Ha Hna). set_solver.
  - by rewrite A2, C2.
Qed.

(** A step of a loop that keeps its objects. *)
Lemma on_loop_spec {X} failed w i l (m : M eloop X) o l' :
  winv maxConn failed w -> loops w !! i = Some l -> m l = (o, l') ->
  settled l' -> objects l' = objects l ->
  exists w', on_loop i m w = (o, w') /\ winv maxConn failed w' /\
    loops w' = <[i := l']> (loops w) /\ m_shutdown w' = m_shutdown w.
Proof.
  intros Hw Hl Em Hset' Ho. destruct (loop_step_spec failed w i l m o l' Hw Hl Em Hset') as (w' & E & Hw' & Hl' & Hq & _).
  { by rewrite Ho. }
  unfold loop_step, on_loop in *. rewrite Hl, Em in *.
  assert (Hf : freed l l' = []).
  { unfold freed. rewrite Ho, difference_diag_L. reflexivity. }
  rewrite Hf in E. cbn in E. simplify_eq. by eexists.
Qed.

Lemma shutdown_settled l :
  settled l -> exists l', shutdown l = (Done tt, l') /\ settled l' /\ objects l' = objects l.
Proof.
  intros [Hq Hs]. exists (eventfd_write 1 (set_quit true l)).2. split; [done|].
  assert (Eo : objects (eventfd_write 1 (set_quit true l)).2 = objects l) by (cbn; by case_match).
  assert (Es : EventLoop.m_sessions (eventfd_write 1 (set_quit true l)).2 = EventLoop.m_sessions l)
    by (cbn; by case_match).
  split; [|done]. split; [|congruence]. by apply (eventfd_write_quiet 1 (set_quit true l)).
Qed.
End Loops.

Section Accepting.
Context (maxConn : Z) (Hmax : (0 <= maxConn < 2 ^ 32 - 1)%Z).

Lemma register_settled p o ok l :
  settled l -> p ∉ dom (objects l) ->
  let l1 := set_objects (<[p := o]> (objects l)) l in
  let l2 := (registerSession p ok l1).2 in
  settled l2 /\ dom (objects l2) = {[p]} ∪ dom (objects l) /\
  registerSession p ok l1 = (if ok then Done tt else Raise (ex_std (runtime_error (str "Can't register session"))), l2).
Proof.
  intros [Hq Hs] Hp l1 l2. pose proof Hq as ((_ & _ & Hsub & _) & _).
  assert (Hq1 : quiet l1) by (apply create_quiet; [by apply not_elem_of_dom|done]).
  assert (Eo : objects l2 = <[p := o]> (objects l)) by (by destruct ok).
  assert (Es : EventLoop.m_sessions l2 = {[p]} ∪ EventLoop.m_sessions l) by (by destruct ok).
  split_and!.
  - split; [|by rewrite Eo, Es, dom_insert_L, Hs]. apply register_quiet; [done| |].
    + cbn. rewrite dom_insert. set_solver.
    + cbn. set_solver.
  - by rewrite Eo, dom_insert_L.
  - by destruct ok.
Qed.

(** A new session [p] of the loop [i]. *)
Lemma winv_add failed w i l l2 p addr sock b :
  winv maxConn failed w -> p ∉ dom (m_activeSessions (books w)) -> loops w !! i = Some l ->
  settled l2 -> dom (objects l2) = {[p]} ∪ dom (objects l) ->
  books_ok maxConn b -> m_activeSessions b = <[p := addr]> (m_activeSessions (books w)) ->
  winv maxConn failed
    (World b (<[i := l2]> (loops w)) (<[p := sock]> (socks w)) (m_shutdown w)
       (accepted_socks w ++ [sock]) (closed_socks w)).
Proof.
  intros (Hb & Hset & Hdis & Hown & Hs & Hacc) Hp Hl Hset' Ed Hb' Ea.
  assert (Hfree : forall a la, loops w !! a = Some la -> p ∉ dom (objects la)).
  { intros a la Ha Hin. apply Hp, Hown. by exists a, la. }
  unfold winv. cbn. split_and!; try done.
  - by apply Forall_insert.
  - intros a c la lc Ha Hc Hac.
    apply list_lookup_insert_Some in Ha as [(<- & <- & _)|[Hna Ha]];
      apply list_lookup_insert_Some in Hc as [(<- & <- & _)|[Hnc Hc]]; [done|..].
    + specialize (Hdis i c l lc Hl Hc Hac). specialize (Hfree c lc Hc). set_solver.
    + specialize (Hdis a i la l Ha Hl Hac). specialize (Hfree a la Ha). set_solver.
    + by eapply Hdis.
  - intros q. rewrite Ea, dom_insert, elem_of_union, elem_of_singleton, Hown. unfold owned. cbn. split.
    + intros [->|(a & la & Ha & Hq)].
      * exists i, l2. rewrite list_lookup_insert_eq by (by eapply lookup_lt_Some). set_solver.
      * destruct (decide (a = i)) as [->|Hne].
        -- exists i, l2. rewrite list_lookup_insert_eq by (by eapply lookup_lt_Some). simplify_eq. set_solver.
        -- exists a, la. by rewrite list_lookup_insert_ne.
    + intros (a & la & Ha & Hq). apply list_lookup_insert_Some in Ha as [(<- & <- & _)|[Hna Ha]].
      * rewrite Ed in Hq. apply elem_of_union in Hq as [Hq|Hq]; [left; set_solver|right; by exists i, l].
      * right. by exists a, la.
  - by rewrite Ea, !dom_insert_L, Hs.
  - unfold accounts in *. cbn. rewrite map_to_list_insert.
    + cbn. rewrite <- Permutation_middle, Hacc, <- app_assoc. cbn [app]. by rewrite <- Permutation_middle.
    + apply not_elem_of_dom. by rewrite Hs.
Qed.

(** A socket accepted and closed again. *)
Lemma winv_close failed w b sock :
  winv maxConn failed w -> books_ok maxConn b -> m_activeSessions b = m_activeSessions (books w) ->
  winv maxConn failed
    (World b (loops w) (socks w) (m_shutdown w) (accepted_socks w ++ [sock]) (closed_socks w ++ [sock])).
Proof.
  intros (Hb & Hset & Hdis & Hown & Hs & Hacc) Hb' Ea. unfold winv, owned. cbn. rewrite Ea.
  split_and!; try done. unfold accounts in *. cbn.
  rewrite <- !app_assoc. cbn [app]. rewrite <- !Permutation_middle. by rewrite Hacc.
Qed.

Lemma bestLoop_lookup (ls : list eloop) :
  ls <> [] -> exists l, ls !! bestLoop (EventLoop.m_activeSessions <$> ls) = Some l.
Proof.
  intros Hne. destruct (bestLoop_least (EventLoop.m_activeSessions <$> ls)) as (m & E & _).
  { by destruct ls. }
  rewrite list_lookup_fmap in E. apply fmap_Some in E as (l & E & _). by exists l.
Qed.

Lemma on_loop_run {X} i (m : M eloop X) w l o l' :
  loops w !! i = Some l -> m l = (o, l') -> on_loop i m w = (o, set_loops (<[i := l']> (loops w)) w).
Proof. intros Hl Em. unfold on_loop. by rewrite Hl, Em. Qed.

(** Creating the object in its loop and registering it. *)
Lemma construct_run i p o (ok : bool) sock w l :
  loops w !! i = Some l ->
  let l2 := (registerSession p ok (set_objects (<[p := o]> (objects l)) l)).2 in
  let w2 := set_loops (<[i := l2]> (loops w)) w in
  (on_loop i (modify (fun l => set_objects (<[p := o]> (objects l)) l)) >>>
   try_catch (on_loop i (registerSession p ok)) (fun _ => modify (close sock))) w =
  (Done tt, if ok then w2 else close sock w2).
Proof.
  intros Hl l2 w2. set (l1 := set_objects (<[p := o]> (objects l)) l) in *.
  unfold bind. rewrite (on_loop_run i (modify (fun l => set_objects (<[p := o]> (objects l)) l)) w l (Done tt) l1 Hl eq_refl).
  assert (Hl1 : loops (set_loops (<[i := l1]> (loops w)) w) !! i = Some l1)
    by (cbn; apply list_lookup_insert_eq; by eapply lookup_lt_Some).
  unfold try_catch.
  rewrite (on_loop_run i (registerSession p ok) _ l1 (if ok then Done tt else Raise (ex_std (runtime_error (str "Can't register session")))) l2 Hl1)
    by (by destruct ok).
  destruct ok; cbn; unfold w2, set_loops; cbn; by rewrite list_insert_insert_eq.
Qed.

(** The [catch] clauses close the socket when the constructor or the registration
    throws. *)
Lemma create_run i c order w :
  create_ServerSession i c order w =
  (session_created (c_ptr c) (c_addr c) (c_sock c) >>>
   match c_creation c with
   | constructor_throws => session_deleted (c_ptr c) >>> modify (close (c_sock c))
   | created | initSession_throws =>
       on_loop i (modify (fun l => set_objects
         (<[c_ptr c := Object (Z.to_N order) (c_co c) (c_fails c) (c_deadline c)]> (objects l)) l)) >>>
       try_catch
         (on_loop i (registerSession (c_ptr c) (match c_creation c with created => true | _ => false end)))
         (fun _ => modify (close (c_sock c)))
   end) w.
Proof.
  unfold create_ServerSession, make_ServerSession, try_catch, session_created, bind, modify.
  set (w1 := set_socks _ _). destruct (c_creation c).
  - unfold on_loop at 1 3. by destruct (loops w1 !! i).
  - unfold session_deleted. destruct (m_activeSessions (books w1) !! c_ptr c); [|done]. by destruct (serverSessionDeleted _ _ _).
  - unfold on_loop at 1 3. by destruct (loops w1 !! i).
Qed.

(** The sockets that are closed although their session was created: [failed] grows
    when a registration fails. *)
Lemma accept_one_spec failed w c :
  winv maxConn failed w -> loops w <> [] -> c_ptr c ∉ dom (m_activeSessions (books w)) ->
  exists w' more, accept_one maxConn c w = (Done tt, w') /\ winv maxConn (failed ++ more) w' /\
    (more = [] \/ c_creation c = initSession_throws /\ more = [c_sock c]) /\
    length (loops w') = length (loops w) /\ m_shutdown w' = m_shutdown w.
Proof.
  intros Hw Hne Hp. pose proof Hw as (Hb & Hset & _ & Hown & _).
  unfold accept_one, admitConnection. cbn [books accept4 loops].
  destruct (Z.ltb_spec maxConn (connections (c_addr c) (books w))) as [Hlt|Hge].
  { eexists _, []. split; [reflexivity|]. rewrite app_nil_r. split; [|auto].
    exact (winv_close failed w _ (c_sock c) Hw (refused_books maxConn (c_addr c) (books w) Hb) eq_refl). }
  destruct (bestLoop_lookup (loops w) Hne) as [l Hl]. set (i := bestLoop _) in *.
  assert (Hfresh : m_activeSessions (books w) !! c_ptr c = None) by (by apply not_elem_of_dom).
  pose proof (created_books maxConn (c_ptr c) (c_addr c) (books w) Hmax Hfresh Hb Hge) as Hb1.
  set (b1 := serverSessionCreated _ _ _) in Hb1.
  assert (Ea : m_activeSessions b1 = <[c_ptr c := c_addr c]> (m_activeSessions (books w))) by done.
  assert (Hpl : c_ptr c ∉ dom (objects l)) by (intros Hin; apply Hp, Hown; by exists i, l).
  assert (Hsl : settled l) by (by eapply Forall_lookup_1).
  set (o := Object (Z.to_N (connections (c_addr c) (books w))) (c_co c) (c_fails c) (c_deadline c)).
  rewrite create_run. unfold bind at 1. unfold session_created, modify at 1. fold o b1.
  set (w1 := set_socks _ _).
  assert (Hadd : forall ok, winv maxConn failed
    (set_loops (<[i := (registerSession (c_ptr c) ok (set_objects (<[c_ptr c := o]> (objects l)) l)).2]> (loops w1)) w1)).
  { intros ok. destruct (register_settled (c_ptr c) o ok l Hsl Hpl) as (Hs2 & Hd2 & _).
    exact (winv_add failed w i l _ (c_ptr c) (c_addr c) (c_sock c) b1 Hw Hp Hl Hs2 Hd2 Hb1 Ea). }
  destruct (c_creation c) eqn:Ec.
  - rewrite (construct_run i (c_ptr c) o true (c_sock c) w1 l Hl).
    eexists _, []. split; [reflexivity|]. rewrite app_nil_r. split; [apply Hadd|].
    cbn. rewrite length_insert. auto.
  - destruct (delete_books maxConn (c_ptr c) (c_addr c) b1 Hmax) as (b2 & E2 & Hb2);
      [by rewrite Ea, lookup_insert_eq|done|].
    assert (Ea2 : m_activeSessions b2 = m_activeSessions (books w)).
    { rewrite (deleted_sessions _ _ _ _ E2), Ea. by apply delete_insert_id. }
    unfold bind, session_deleted. change (books w1) with b1. rewrite Ea, lookup_insert_eq, E2.
    eexists _, []. split; [reflexivity|]. rewrite app_nil_r. split; [|auto].
    pose proof (winv_close failed w b2 (c_sock c) Hw Hb2 Ea2) as Hc.
    unfold w1, close, modify, set_socks, set_books, accept4. cbn. rewrite delete_insert_id; [exact Hc|].
    destruct Hw as (_ & _ & _ & _ & Hs & _). apply not_elem_of_dom. by rewrite Hs.
  - rewrite (construct_run i (c_ptr c) o false (c_sock c) w1 l Hl).
    eexists _, [c_sock c]. split; [reflexivity|]. split; [|cbn; rewrite length_insert; auto].
    destruct (Hadd false) as (A1 & A2 & A3 & A4 & A5 & A6). unfold winv. split_and!; try done.
    unfold accounts in *. cbn in *. rewrite <- !app_assoc. cbn [app].
    rewrite <- Permutation_middle, A6, <- app_assoc. cbn [app].
    rewrite (app_comm_cons failed), (app_assoc (accepted_socks w)). apply Permutation_cons_append.
Qed.
End Accepting.

(** * What the environment may do *)

Section Environment.
Context (maxConn : Z).

(** Session objects are allocated at free addresses. *)
Fixpoint fresh_connections (cs : list connection) (w : world) : Prop :=
  match cs with
  | [] => True
  | c :: rest =>
      c_ptr c ∉ dom (m_activeSessions (books w)) /\ fresh_connections rest (accept_one maxConn c w).2
  end.

(** epoll reports registered sockets of existing loops. *)
Definition possible (h : happening) (w : world) : Prop :=
  match h with
  | Pass i _ evs _ => exists l, loops w !! i = Some l /\ reported evs l
  | Wake i _ => i < length (loops w)
  | ExitSignal => True
  end.

Fixpoint possible_all (hs : list happening) (w : world) : Prop :=
  match hs with
  | [] => True
  | h :: rest => possible h w /\ possible_all rest (happens h w).2
  end.

Fixpoint fresh_events (evs : list (N * list connection)) (w : world) : Prop :=
  match evs with
  | [] => True
  | ev :: rest => fresh_connections ev.2 w /\ fresh_events rest (listen_event maxConn ev w).2
  end.

Definition peak (w : world) : world := set_books (update_peak (books w)) w.

Fixpoint possible_rounds (rounds : list (list happening * list (N * list connection))) (w : world) : Prop :=
  match rounds with
  | [] => True
  | (hs, evs) :: rest =>
      possible_all hs w /\
      let w1 := peak (iterM happens hs w).2 in
      fresh_events evs w1 /\ possible_rounds rest (iterM (listen_event maxConn) evs w1).2
  end.

End Environment.

Definition new_world (n : nat) (fd : nat -> N) : world :=
  World new_server ((fun i => new_loop (fd i)) <$> seq 0 n) ∅ false [] [].

(** [socks] are sockets of those of the connections [cs] whose registration fails. *)
Definition unregistered (cs : list connection) (socks : list N) : Prop :=
  Forall (fun sock => exists c, c ∈ cs /\ c_sock c = sock /\ c_creation c = initSession_throws) socks.

Lemma unregistered_mono cs cs' l : cs ⊆ cs' -> unregistered cs l -> unregistered cs' l.
Proof.
  intros Hs H. eapply Forall_impl; [exact H|]. intros sock (c & Hc & E). exists c. split; [by apply Hs|done].
Qed.

Section Running.
Context (maxConn : Z) (Hmax : (0 <= maxConn < 2 ^ 32 - 1)%Z).

(** A step of the server that leaves it in order; [cs] are the connections it may
    have failed to register. *)
Definition orderly (cs : list connection) (w : world) (r : outcome unit * world) : Prop :=
  forall failed, winv maxConn failed w -> loops w <> [] ->
    exists more, winv maxConn (failed ++ more) r.2 /\ length (loops r.2) = length (loops w) /\
      r.1 <> Undefined /\ unregistered cs more.

Lemma orderly_same cs w w' o :
  o <> Undefined -> (forall failed, winv maxConn failed w -> winv maxConn failed w') ->
  length (loops w') = length (loops w) -> orderly cs w (o, w').
Proof.
  intros Ho Hw' Hl failed Hw Hne. exists []. rewrite app_nil_r. split_and!; [by apply Hw'|done|done|by constructor].
Qed.

Lemma orderly_bind cs (m k : M world unit) w :
  orderly cs w (m w) -> orderly cs (m w).2 (k (m w).2) -> orderly cs w ((m >>> k) w).
Proof.
  intros Hm Hk failed Hw Hne. destruct (Hm failed Hw Hne) as (more1 & W1 & L1 & U1 & F1).
  unfold bind. destruct (m w) as [[[]|e| |] w1]; cbn in *; try (by exists more1).
  destruct (Hk (failed ++ more1) W1) as (more2 & W2 & L2 & U2 & F2).
  { intros E. rewrite E in L1. by destruct (loops w). }
  exists (more1 ++ more2). rewrite app_assoc. split_and!; [done|congruence|done|].
  apply Forall_app. by split.
Qed.

Lemma orderly_mono cs cs' w r : cs ⊆ cs' -> orderly cs w r -> orderly cs' w r.
Proof.
  intros Hs H failed Hw Hne. destruct (H failed Hw Hne) as (more & H1 & H2 & H3 & H4).
  exists more. split_and!; try done. by eapply unregistered_mono.
Qed.

Lemma accept_one_orderly c w :
  c_ptr c ∉ dom (m_activeSessions (books w)) -> orderly [c] w (accept_one maxConn c w).
Proof.
  intros Hp failed Hw Hne. destruct (accept_one_spec maxConn Hmax failed w c Hw Hne Hp)
    as (w' & more & -> & Hw' & Hm & Hl & _).
  exists more. split_and!; try done. destruct Hm as [->|[Hc ->]]; [by constructor|].
  apply Forall_singleton. exists c. set_solver.
Qed.

Lemma accept_all_orderly cs w : fresh_connections maxConn cs w -> orderly cs w (accept_all maxConn cs w).
Proof.
  revert w; induction cs as [|c cs IH]; intros w Hf; cbn [accept_all fresh_connections] in *;
    unfold bind at 1, gets; destruct (m_shutdown w); try (by apply orderly_same).
  destruct Hf as [Hp Hf]. apply orderly_bind.
  - eapply orderly_mono; [|by apply accept_one_orderly]. set_solver.
  - eapply orderly_mono; [|by apply IH]. set_solver.
Qed.

Lemma listen_event_orderly ev w : fresh_connections maxConn ev.2 w -> orderly ev.2 w (listen_event maxConn ev w).
Proof.
  destruct ev as [events cs]. intros Hf. unfold listen_event. case_match; [by apply orderly_same|].
  unfold when. case_match; [by apply accept_all_orderly|by apply orderly_same].
Qed.

Lemma listen_events_orderly evs w :
  fresh_events maxConn evs w -> orderly (concat evs.*2) w (iterM (listen_event maxConn) evs w).
Proof.
  revert w; induction evs as [|ev evs IH]; intros w Hf; cbn [iterM fresh_events] in *; [by apply orderly_same|].
  destruct Hf as [Hp Hf]. apply orderly_bind.
  - eapply orderly_mono; [|by apply listen_event_orderly]. set_solver.
  - eapply orderly_mono; [|by apply IH]. set_solver.
Qed.

Lemma wakeup_settled p l :
  settled l -> exists l', wakeupper_wakeup p l = (Done tt, l') /\ settled l' /\ objects l' = objects l.
Proof.
  intros [Hq Hs]. unfold wakeupper_wakeup. exists (eventfd_write (Z.of_N p) l).2. split; [done|].
  assert (Eo : objects (eventfd_write (Z.of_N p) l).2 = objects l) by (cbn; by case_match).
  assert (Es : EventLoop.m_sessions (eventfd_write (Z.of_N p) l).2 = EventLoop.m_sessions l)
    by (cbn; by case_match).
  split; [|done]. split; [by apply eventfd_write_quiet|congruence].
Qed.

Lemma happens_orderly h w : possible h w -> orderly [] w (happens h w).
Proof.
  intros Hp failed Hw Hne. exists []. rewrite app_nil_r. unfold unregistered. rewrite Forall_nil.
  assert (Hset : forall i l, loops w !! i = Some l -> settled l).
  { intros i l Hl. destruct Hw as (_ & Hs & _). by eapply Forall_lookup_1. }
  destruct h as [i b evs now|i p|]; cbn [happens possible] in *.
  - destruct Hp as (l & Hl & Hr).
    destruct (pass_settled b evs now l (Hset i l Hl) Hr) as (t & l' & E & Hs' & Hsub).
    destruct (loop_step_spec maxConn Hmax failed w i l _ _ l' Hw Hl E Hs' Hsub) as (w' & E' & Hw' & Hl' & _).
    unfold bind. rewrite E'. cbn. by rewrite Hl', length_insert.
  - destruct (lookup_lt_is_Some_2 _ _ Hp) as [l Hl].
    destruct (wakeup_settled p l (Hset i l Hl)) as (l' & E & Hs' & Ho).
    destruct (on_loop_spec maxConn Hmax failed w i l _ _ l' Hw Hl E Hs' Ho) as (w' & E' & Hw' & Hl' & _).
    rewrite E'. cbn. by rewrite Hl', length_insert.
  - done.
Qed.

Lemma happenings_orderly hs w : possible_all hs w -> orderly [] w (iterM happens hs w).
Proof.
  revert w; induction hs as [|h hs IH]; intros w Hp; cbn [iterM possible_all] in *; [by apply orderly_same|].
  destruct Hp as [Hp Hps]. apply orderly_bind; [by apply happens_orderly|by apply IH].
Qed.

Definition all_connections (rounds : list (list happening * list (N * list connection))) : list connection :=
  concat ((fun r => concat r.2.*2) <$> rounds).

Lemma accept_loop_orderly rounds w :
  possible_rounds maxConn rounds w -> orderly (all_connections rounds) w (accept_loop maxConn rounds w).
Proof.
  revert w; induction rounds as [|[hs evs] rounds IH]; intros w Hp; cbn [accept_loop possible_rounds] in *;
    unfold bind at 1, gets; destruct (m_shutdown w); try (by apply orderly_same).
  destruct Hp as (Hh & He & Hr). unfold all_connections. cbn [fmap list_fmap concat].
  apply orderly_bind; [eapply orderly_mono; [|by apply happenings_orderly]; set_solver|].
  apply orderly_bind; [by apply orderly_same|].
  apply orderly_bind; [eapply orderly_mono; [|by apply listen_events_orderly]; set_solver|].
  eapply orderly_mono; [|by apply IH]. set_solver.
Qed.
End Running.

(** * Shutting down *)

(** The round a loop's thread may be in when the server stops: sessions may be woken
    up, and epoll reports registered sockets; nobody registers sessions any
    more. *)
Definition last_round (current : option round) (l : eloop) : Prop :=
  forall r, current = Some r ->
    Forall (fun a => exists p, a = Wakes p) (meanwhile r) /\
    forall evs now, waited r = Some (evs, now) -> reported evs l.

(** Only the eventfd and the quit flag may differ. *)
Definition same_sessions (l l' : eloop) : Prop :=
  EventLoop.m_sessions l' = EventLoop.m_sessions l /\ epoll l' = epoll l /\ objects l' = objects l /\
  m_eventFd l' = m_eventFd l.

#[export] Instance same_sessions_preorder : PreOrder same_sessions.
Proof.
  unfold same_sessions. split; [by intros l|].
  intros l1 l2 l3 (? & ? & ? & ?) (? & ? & ? & ?). split_and!; congruence.
Qed.

Lemma eventfd_write_same v l : same_sessions l (eventfd_write v l).2.
Proof. unfold same_sessions. cbn. by case_match. Qed.

Lemma shutdown_same l : same_sessions l (shutdown l).2.
Proof. etransitivity; [|apply (eventfd_write_same 1 (set_quit true l))]. done. Qed.

Lemma same_reported evs l l' : same_sessions l l' -> reported evs l -> reported evs l'.
Proof.
  intros (_ & He & _ & Hf) Hr ev Hin Hs. rewrite He. apply Hr; [done|].
  unfold is_session in *. by rewrite <- Hf.
Qed.

Lemma same_settled l l' : same_sessions l l' -> quiet l' -> settled l -> settled l'.
Proof. intros (Hm & _ & Ho & _) Hq [_ Hs]. split; [done|congruence]. Qed.

Lemma wakes_same acts l :
  Forall (fun a => exists p, a = Wakes p) acts -> quiet l ->
  allowed_actions acts l /\ same_sessions l (iterM act acts l).2 /\ quiet (iterM act acts l).2 /\
  (iterM act acts l).1 = Done tt.
Proof.
  intros Ha. revert l; induction Ha as [|a acts [p ->] _ IH]; intros l Hq; [done|].
  cbn [allowed_actions iterM]. unfold bind. cbn [act].
  change (wakeupper_wakeup p l) with (Done tt, (eventfd_write (Z.of_N p) l).2).
  destruct (IH (eventfd_write (Z.of_N p) l).2 (eventfd_write_quiet _ _ Hq)) as (H1 & H2 & H3 & H4).
  cbn [snd] in *. split_and!; try done. etransitivity; [apply eventfd_write_same|done].
Qed.

Lemma last_round_settled b r l :
  settled l -> last_round (Some r) l ->
  allowed_round r l /\ exists l', finish_round b r l = (Done tt, l') /\ settled l'.
Proof.
  intros Hs Hr. destruct (Hr r eq_refl) as [Ha Hrep].
  destruct (wakes_same (meanwhile r) l Ha) as (H1 & H2 & H3 & H4); [apply Hs|].
  assert (Hs1 : settled (iterM act (meanwhile r) l).2) by (by eapply same_settled).
  unfold allowed_round, finish_round, bind at 1.
  destruct (iterM act (meanwhile r) l) as [o l1]. cbn in *. subst o.
  destruct (waited r) as [[evs now]|]; [|split; [done|by exists l1]].
  assert (Hr1 : reported evs l1) by (eapply same_reported; [done|by eapply Hrep]).
  split; [done|]. destruct (pass_settled b evs now l1 Hs1 Hr1) as (t & l2 & E & Hs2 & _).
  exists l2. unfold bind. by rewrite E.
Qed.

(** Destroying a loop whose objects are all registered leaves none. *)
Lemma destroy_settled b current l :
  settled l -> last_round current l ->
  exists l', destroy_loop b current l = (Done tt, l') /\ objects l' = ∅.
Proof.
  intros Hs Hr. set (l0 := (shutdown l).2).
  assert (Hq0 : quiet l0) by (apply (eventfd_write_quiet 1 (set_quit true l)), Hs).
  assert (Hs0 : settled l0) by (eapply same_settled; [apply shutdown_same|done|done]).
  assert (Hr0 : last_round current l0).
  { intros r Er. destruct (Hr r Er) as [Ha Hrep]. split; [done|]. intros evs now Ew.
    eapply same_reported; [apply shutdown_same|by eapply Hrep]. }
  destruct (destroy_loop_run b current l) as (s1 & s' & E1 & _ & E' & _ & _ & _ & Ho); [apply Hs| |].
  { intros r ->. by apply (last_round_settled b r l0). }
  exists s'. split; [done|]. apply map_eq. intros p. rewrite Ho, lookup_empty. case_decide as Hp; [done|].
  assert (Hs1 : settled s1).
  { unfold bind in E1. change (shutdown l) with (Done tt, l0) in E1.
    destruct current as [r|]; [|by injection E1 as <-].
    destruct (last_round_settled b r l0 Hs0 Hr0) as (_ & l2 & E2 & Hs2). cbv beta iota in E1. rewrite E2 in E1.
    by injection E1 as <-. }
  apply not_elem_of_dom. destruct Hs1 as [_ ->]. done.
Qed.

Section Finishing.
Context (maxConn : Z) (Hmax : (0 <= maxConn < 2 ^ 32 - 1)%Z).

Lemma destroy_last_spec b current failed w ls l :
  winv maxConn failed w -> loops w = ls ++ [l] -> last_round current l ->
  exists w', destroy_last b current w = (Done tt, w') /\ winv maxConn failed w' /\ loops w' = ls.
Proof.
  intros (Hb & Hset & Hdis & Hown & Hs & Hacc) El Hr.
  assert (Hl : loops w !! length ls = Some l) by (rewrite El; by apply list_lookup_middle).
  assert (Hsl : settled l) by (by eapply Forall_lookup_1).
  destruct (destroy_settled b current l Hsl Hr) as (l' & E' & Ho).
  unfold destroy_last. rewrite El, last_snoc, E', length_app, Nat.add_sub, take_app_length.
  set (w1 := set_loops ls w).
  assert (Hf : forall p, p ∈ freed l l' <-> p ∈ dom (objects l)).
  { intros p. unfold freed. rewrite addresses_elem, Ho, dom_empty. set_solver. }
  destruct (sessions_destroyed_spec maxConn Hmax (freed l l') w1) as (w2 & E2 & (B2 & D2 & S2 & A2 & L2 & C2 & Q2));
    [apply addresses_NoDup|done|done| |].
  { apply Forall_forall. intros p Hp%Hf. apply Hown. by exists (length ls), l. }
  exists w2. rewrite E2. split; [done|]. split; [|by rewrite L2]. unfold winv. rewrite L2. cbn.
  split_and!; try done.
  - rewrite El in Hset. by apply Forall_app in Hset as [? _].
  - intros i j li lj Hi Hj. apply (Hdis i j); rewrite El; by apply lookup_app_l_Some.
  - intros p. rewrite D2, Hf. unfold w1. cbn [books set_loops]. rewrite Hown. unfold owned. rewrite L2. cbn. split.
    + intros [(i & li & Hi & Hp) Hn]. rewrite El in Hi.
      apply lookup_snoc_Some in Hi as [[_ Hi]|[_ <-]]; [by exists i, li|done].
    + intros (i & li & Hi & Hp). pose proof (lookup_lt_Some _ _ _ Hi) as Hlt. split.
      * exists i, li. split; [rewrite El; by apply lookup_app_l_Some|done].
      * assert (Hd : dom (objects li) ## dom (objects l)).
        { apply (Hdis i (length ls)); [rewrite El; by apply lookup_app_l_Some|done|lia]. }
        set_solver.
  - by rewrite A2, C2.
Qed.

Lemma destroy_loops_spec b currents failed w :
  winv maxConn failed w ->
  (forall i l, loops w !! i = Some l -> last_round (default None (currents !! i)) l) ->
  exists w', destroy_loops b currents (length (loops w)) w = (Done tt, w') /\ winv maxConn failed w' /\
    loops w' = [].
Proof.
  remember (loops w) as ls eqn:El. revert w El. induction ls as [|l ls IH] using rev_ind; intros w El Hw Hr.
  { exists w. by rewrite <- El. }
  rewrite length_app, Nat.add_comm. cbn [length Nat.add destroy_loops].
  destruct (destroy_last_spec b (default None (currents !! length ls)) failed w ls l Hw)
    as (w1 & E1 & Hw1 & Hl1); [done|apply Hr; by apply list_lookup_middle|].
  destruct (IH w1) as (w2 & E2 & Hw2 & Hl2); [done|done| |].
  { intros i li Hi. apply Hr. by apply lookup_app_l_Some. }
  exists w2. unfold bind. rewrite E1. done.
Qed.

Lemma shutdown_loops_spec failed n i w :
  winv maxConn failed w -> i + n <= length (loops w) ->
  exists w', shutdown_loops i n w = (Done tt, w') /\ winv maxConn failed w' /\
    Forall2 same_sessions (loops w) (loops w').
Proof.
  revert i w; induction n as [|n IH]; intros i w Hw Hn; cbn [shutdown_loops].
  { exists w. split; [done|]. split; [done|]. apply Forall_Forall2_diag, Forall_true. intros l. reflexivity. }
  destruct (lookup_lt_is_Some_2 (loops w) i) as [l Hl]; [lia|].
  assert (Hsl : settled l) by (destruct Hw as (_ & Hs & _); by eapply Forall_lookup_1).
  destruct (shutdown_settled l Hsl) as (l' & E' & Hs' & Ho').
  destruct (on_loop_spec maxConn Hmax failed w i l _ _ l' Hw Hl E' Hs' Ho') as (w1 & E1 & Hw1 & Hl1 & _).
  assert (Hsame : same_sessions l l') by (pose proof (shutdown_same l) as H; by rewrite E' in H).
  destruct (IH (S i) w1 Hw1) as (w2 & E2 & Hw2 & H2); [rewrite Hl1, length_insert; lia|].
  exists w2. unfold bind. rewrite E1. split; [done|]. split; [done|].
  transitivity (loops w1); [|exact H2]. rewrite Hl1. apply Forall2_same_length_lookup. split; [by rewrite length_insert|].
  intros j x y Hx Hy. apply list_lookup_insert_Some in Hy as [(<- & <- & _)|[_ Hy]]; simplify_eq; done.
Qed.

Lemma finish_spec b currents failed w :
  winv maxConn failed w ->
  (forall i l, loops w !! i = Some l -> last_round (default None (currents !! i)) l) ->
  exists w', finish b currents w = (Done tt, w') /\ winv maxConn failed w' /\ loops w' = [] /\
    m_activeSessions (books w') = ∅.
Proof.
  intros Hw Hr. unfold finish, bind at 1, gets at 1.
  destruct (shutdown_loops_spec failed (length (loops w)) 0 w Hw) as (w1 & E1 & Hw1 & H1); [lia|].
  unfold bind at 1. rewrite E1. rewrite (Forall2_length _ _ _ H1).
  destruct (destroy_loops_spec b currents failed w1 Hw1) as (w2 & E2 & Hw2 & L2).
  { intros i l Hl. destruct (Forall2_lookup_r _ _ _ _ _ H1 Hl) as (l0 & Hl0 & Hsame).
    intros r Er. destruct (Hr i l0 Hl0 r Er) as [Ha Hrep]. split; [done|]. intros evs now Ew.
    eapply same_reported; [done|by eapply Hrep]. }
  assert (Em : m_activeSessions (books w2) = ∅).
  { apply dom_empty_inv_L, set_eq. intros p. destruct Hw2 as (_ & _ & _ & Hown & _). rewrite Hown.
    unfold owned. rewrite L2. split; [intros (i & l & Hi & _); by rewrite lookup_nil in Hi|set_solver]. }
  exists w2. unfold bind. rewrite E2. unfold gets. rewrite Em, decide_True by done. done.
Qed.
End Finishing.

Lemma fresh_world_inv maxConn ls :
  (0 <= maxConn)%Z -> Forall (fun l => exists fd, l = new_loop fd) ls ->
  winv maxConn [] (World new_server ls ∅ false [] []).
Proof.
  intros Hm Hls. rewrite Forall_lookup in Hls. unfold winv, accounts, owned. cbn. split_and!; try done.
  - intros addr. unfold connections, live. cbn. rewrite lookup_empty, map_filter_empty, map_size_empty.
    split_and!; [done|lia|done].
  - apply Forall_lookup. intros i l Hl. destruct (Hls i l Hl) as [fd ->]. split; [|done].
    apply reachable_quiet, r_new.
  - intros i j li lj Hi _ _. destruct (Hls i li Hi) as [fd ->]. cbn. set_solver.
  - intros p. rewrite dom_empty. split; [set_solver|]. intros (i & l & Hl & Hp).
    destruct (Hls i l Hl) as [fd ->]. cbn in Hp. set_solver.
Qed.

Lemma new_world_inv maxConn n fd : (0 <= maxConn)%Z -> winv maxConn [] (new_world n fd).
Proof.
  intros Hm. apply fresh_world_inv; [done|]. apply Forall_fmap, Forall_true. intros i. by exists (fd i).
Qed.

(** Two connections of one address, the second of which cannot be registered, a
    third that is refused, a pass, and the signal to exit. *)
Definition sample_connection (sock p : N) (c : creation) : connection :=
  {| c_sock := sock; c_host := Some (str "10.0.0.1"); c_ptr := p; c_creation := c; c_co := [0%Z]; c_fails := false;
     c_deadline := 5000 |}.

Definition sample_rounds : list (list happening * list (N * list connection)) :=
  [([], [(EPOLLIN, [sample_connection 11 16 created; sample_connection 12 32 initSession_throws;
                    sample_connection 13 48 created])]);
   ([Wake 0 16; Pass 0 true [(16, EPOLLIN); (7, EPOLLIN)]%N 9; ExitSignal], [])].

Definition sample_world : world := new_world 2 (fun i => N.of_nat (7 + i)).

Lemma sample_rounds_possible : possible_rounds 1 sample_rounds sample_world.
Proof.
  cbn [possible_rounds sample_rounds possible_all fresh_events fresh_connections].
  split; [exact I|]. split; [split; [|exact I]; split; [decided|split; [decided|split; [decided|exact I]]]|].
  split; [|split; exact I].
  split; [cbn [possible]; decided|]. split; [|split; exact I].
  eexists. split; [vm_compute; reflexivity|].
  intros ev Hev Hi. repeat (apply elem_of_cons in Hev as [->|Hev]); try (by apply elem_of_nil in Hev).
  - split; [decided|discriminate].
  - exfalso. revert Hi. vm_compute. discriminate.
Qed.

(** * Properties *)



(** C9. A clean shutdown: when the accept loop ends, the rest of [exec] ends, every
    event loop is gone and every session was destroyed once; no session is left for
    the final loop over [m_activeSessions] (which would use destroyed event loops and an
    invalidated iterator); all counts per address are back to zero; and every
    accepted socket was closed exactly once, except that those whose registration
    failed were closed twice. *)
Theorem clean_shutdown maxConn n fd rounds b currents w1 :
  (0 <= maxConn < 2 ^ 32 - 1)%Z -> 0 < n -> possible_rounds maxConn rounds (new_world n fd) ->
  accept_loop maxConn rounds (new_world n fd) = (Done tt, w1) ->
  (forall i l, loops w1 !! i = Some l -> last_round (default None (currents !! i)) l) ->
  exists w2 failed, finish b currents w1 = (Done tt, w2) /\ loops w2 = [] /\
    m_activeSessions (books w2) = ∅ /\ (forall addr, connections addr (books w2) = 0%Z) /\
    closed_socks w2 ≡ₚ accepted_socks w2 ++ failed /\ unregistered (all_connections rounds) failed.
Proof.
  intros Hm Hn Hp E Hc. pose proof (accept_loop_orderly maxConn Hm rounds _ Hp) as H.
  destruct (H [] (new_world_inv maxConn n fd ltac:(lia))) as (failed & Hw & _ & _ & Hf).
  { unfold new_world. cbn. destruct n; [lia|done]. }
  rewrite E in Hw. destruct (finish_spec maxConn Hm b currents failed w1 Hw Hc) as (w2 & E2 & Hw2 & L2 & M2).
  exists w2, failed. destruct Hw2 as (Hb & _ & _ & _ & Hs & Hacc). split_and!; try done.
  - intros addr. destruct (Hb addr) as [-> _]. unfold live. by rewrite M2, map_filter_empty, map_size_empty.
  - rewrite M2, dom_empty_L in Hs. apply dom_empty_inv_L in Hs. unfold accounts in Hacc.
    rewrite Hs, map_to_list_empty in Hacc. cbn in Hacc. by rewrite app_nil_r in Hacc.
Qed.

Lemma clean_shutdown_witness :
  exists w1 w2 failed, accept_loop 1 sample_rounds sample_world = (Done tt, w1) /\
    finish true [Some (Round [Wakes 16] None)] w1 = (Done tt, w2) /\
    m_activeSessions (books w2) = ∅ /\ closed_socks w2 ≡ₚ accepted_socks w2 ++ failed.
Proof.
  pose (w1 := (accept_loop 1 sample_rounds sample_world).2).
  assert (E1 : accept_loop 1 sample_rounds sample_world = (Done tt, w1)) by (vm_compute; reflexivity).
  destruct (clean_shutdown 1 2 (fun i => N.of_nat (7 + i)) sample_rounds true [Some (Round [Wakes 16] None)] w1
    ltac:(lia) ltac:(lia) sample_rounds_possible E1) as (w2 & failed & E2 & _ & Hm & _ & Hc & _).
  - intros i l _ r Er. destruct i as [|i]; cbn in Er; [|discriminate Er].
    injection Er as <-. split; [apply Forall_singleton; by exists 16%N|discriminate].
  - exists w1, w2, failed. split; [exact E1|]. split; [exact E2|]. split; [exact Hm|exact Hc].
Defined.
