(* ===== verification/Startup.v ===== *)
(** Starting and stopping the process: [Server::bind], the start sequence of
    [Server::exec], the registration of its signal handler (src/server/server.cpp) and [main]
    (src/server/main.cpp), around the accept loop and the shutdown of [World]. *)

From Stdlib Require Import Ascii String NArith ZArith Lia.
From stdpp Require Import base gmap strings list.
From S2P Require Import Prelude Http CharBuffer Effects Signals EventLoop LoopLife Config Server Plugins World.
Local Open Scope getodac_scope.

(** * Signals *)

(** [Server::Server]: [registered] is whether [sigaction] succeeds. *)
Fixpoint register_signals (registered : signal -> bool) (sigs : list (signal * string))
    : result std_exception unit :=
  match sigs with
  | [] => Ok tt
  | (sig, name) :: rest =>
      if registered sig then register_signals registered rest
      else Throw (runtime_error (str "Can't register " ++ str name ++ str " signal callback"))
  end.

Definition make_Server (registered : signal -> bool) : result std_exception unit :=
  register_signals registered
    [(SIGFPE, "SIGFPE"%string); (SIGILL, "SIGILL"%string); (SIGINT, "SIGINT"%string);
     (SIGSEGV, "SIGSEGV"%string); (SIGTERM, "SIGTERM"%string)].

(** * The process *)

Inductive SocketType : Type := IPV4 | IPV6.

#[export] Instance SocketType_eq_dec : EqDecision SocketType.
Proof. solve_decision. Defined.

(** A listening socket, and the user the process had when it was bound. *)
Record listener := Listener { l_sock : N; l_type : SocketType; l_port : Z; l_uid : Z }.

Record process := Process {
  p_uid : Z;
  p_gid : Z;
  listeners : list listener;
  m_eventsSize : Z;
  m_https4Sock : option N;
  m_https6Sock : option N;
  (** the event loops, and the user their threads were started with *)
  eventLoops : list (SessionsEventLoop * Z)
}.

Definition new_process (uid gid : Z) : process := Process uid gid [] 0 None None [].

Definition add_listener (l : listener) (p : process) : process :=
  Process (p_uid p) (p_gid p) (listeners p ++ [l]) (m_eventsSize p + 1) (m_https4Sock p) (m_https6Sock p)
    (eventLoops p).
Definition set_gid (g : Z) (p : process) : process :=
  Process (p_uid p) g (listeners p) (m_eventsSize p) (m_https4Sock p) (m_https6Sock p) (eventLoops p).
Definition set_uid (u : Z) (p : process) : process :=
  Process u (p_gid p) (listeners p) (m_eventsSize p) (m_https4Sock p) (m_https6Sock p) (eventLoops p).
Definition set_https (s4 s6 : option N) (p : process) : process :=
  Process (p_uid p) (p_gid p) (listeners p) (m_eventsSize p) s4 s6 (eventLoops p).
Definition set_eventLoops (x : list (SessionsEventLoop * Z)) (p : process) : process :=
  Process (p_uid p) (p_gid p) (listeners p) (m_eventsSize p) (m_https4Sock p) (m_https6Sock p) x.

(** What the system calls of [Server::bind] return. *)
Record bind_results := {
  socket_result : option N;
  reuseaddr_ok : bool;
  v6only_ok : bool;
  bind_ok : bool;
  listen_ok : bool;
  epoll_add_ok : bool
}.

Section Start.
(** The kernel: what binding a socket of the given type to a port gives a user, and
    whether [setuid] fails although the user may call it. *)
Context (kernel_bind : Z -> SocketType -> Z -> bind_results) (setuid_fails : bool).

Definition fail {X : Type} (text : string) : M process X := throw (ex_std (runtime_error (str text))).

(** [Server::bind]; [htons] takes the low 16 bits of the port. *)
Definition bind_socket (type : SocketType) (port : Z) : M process N :=
  uid <-- gets p_uid ;;
  let r := kernel_bind uid type (wrap16 port) in
  match socket_result r with
  | None => fail "Can't create the socket"
  | Some sock =>
      if negb (reuseaddr_ok r) then fail "Can't set the socket SO_REUSEADDR option"
      else if (match type with IPV6 => negb (v6only_ok r) | IPV4 => false end) then
        fail "Can't set the socket IPV6_V6ONLY option"
      else if negb (bind_ok r) then fail "Can't bind the socket"
      else if negb (listen_ok r) then fail "Can't listen on the socket"
      else if negb (epoll_add_ok r) then fail "Can't  epoll_ctl"
      else modify (add_listener (Listener sock type (wrap16 port) uid)) >>> ret sock
  end.

Definition bind_ports (c : config) : M process unit :=
  when (0 <? httpPort c)%Z
    (bind_socket IPV4 (httpPort c) >>> bind_socket IPV6 (httpPort c) >>> skip) >>>
  when (0 <? httpsPort c)%Z
    (s4 <-- bind_socket IPV4 (httpsPort c) ;;
     modify (fun p => set_https (Some s4) (m_https6Sock p) p) >>>
     s6 <-- bind_socket IPV6 (httpsPort c) ;;
     modify (fun p => set_https (m_https4Sock p) (Some s6) p)).

(** [setgid] and [setuid]: only root changes to another identity.  The value is
    whether the call failed. *)
Definition setgid (g : Z) : M process bool := fun p =>
  if ((p_uid p =? 0) || (g =? p_gid p))%Z then (Done false, set_gid g p) else (Done true, p).

Definition setuid (u : Z) : M process bool := fun p =>
  if (negb setuid_fails && ((p_uid p =? 0) || (u =? p_uid p)))%Z%bool then (Done false, set_uid u p)
  else (Done true, p).

Definition drop_privileges (c : config) : M process unit :=
  uid <-- gets p_uid ;;
  if ((uid =? 0) && negb (drop_gid c =? UINT32_MAX) && negb (drop_uid c =? UINT32_MAX))%Z%bool then
    e1 <-- setgid (drop_gid c) ;;
    e2 <-- (if (e1 : bool) then ret true else setuid (drop_uid c)) ;;
    if (e2 : bool) then fail "Can't drop privileges" else skip
  else skip.

(** [std::make_unique<SessionsEventLoop[]>(n)] and the balancing switch; [make i] is
    how the construction of the [i]-th loop goes. *)
Fixpoint make_loops (make : nat -> result exn SessionsEventLoop) (i n : nat) : M process unit :=
  match n with
  | O => skip
  | S n' =>
      l <-- lift (make i) ;;
      modify (fun p => set_eventLoops (eventLoops p ++ [(l, p_uid p)]) p) >>>
      make_loops make (S i) n'
  end.

Definition balance_loops (on : bool) : M process unit :=
  modify (fun p => set_eventLoops ((fun lu : SessionsEventLoop * Z => (setWorkloadBalancing on lu.1, lu.2)) <$> eventLoops p) p).

(** From binding the ports to the worker threads; [init_logging] is what setting up the
    log throws. *)
Definition start (c : config) (init_logging : list (bytes * bytes) -> result exn unit)
    (make : nat -> result exn SessionsEventLoop) (eventLoopsSize : nat) : M process unit :=
  bind_ports c >>>
  drop_privileges c >>>
  lift (init_logging (loggingSettings c)) >>>
  make_loops make 0 eventLoopsSize >>>
  balance_loops (workloadBalancing c).
End Start.

(** * The whole program *)

(** What the program finds: its path and the command line, as [program_options] gives it
    or throws, the user and group data bases, and the files. *)
Record environment := {
  canonical : bytes -> result exn bytes;
  argv0 : bytes;
  hardware_concurrency : Z;
  command_line : result exn arguments;
  getpwnam : bytes -> option (Z * Z);
  getgrnam : bytes -> option Z;
  chdir : bytes -> result exn unit;
  read_info : bytes -> result exn ptree;
  working_directory : bytes
}.

(** What the program leaves: the process, the world once the workers run, the plugins,
    and the configuration with the calls to OpenSSL. *)
Record machine (R F : Type) := Machine {
  m_process : process;
  m_world : option world;
  m_host : host R F;
  m_setup : setup
}.
Arguments Machine {R F} _ _ _ _.
Arguments m_process {R F} _.
Arguments m_world {R F} _.
Arguments m_host {R F} _.
Arguments m_setup {R F} _.

(** The server when its workers have been started. *)
Definition initial_world (p : process) : world :=
  World new_server ((fun lu : SessionsEventLoop * Z => state lu.1) <$> eventLoops p) ∅ false [] [].

Section Exec.
Context `{Translators} `{OpenSSL}.
Context (kernel_bind : Z -> SocketType -> Z -> bind_results) (setuid_fails : bool) (e : environment).
Context (init_logging : list (bytes * bytes) -> result exn unit) (make : nat -> result exn SessionsEventLoop).
(** The libraries in a directory of plugins, none for something else,
    [ServerSessions::createSession] and [std::sort]. *)
Context {R F : Type} (libs : bytes -> list (option (library R F))) (status : R -> result exn (option F))
  (sort : list (ServerPlugin R F) -> list (ServerPlugin R F)).
(** What happens while the server runs and when it stops. *)
Context (rounds : list (list happening * list (N * list connection))) (currents : list (option round)).

(** The accept loop and the shutdown; an exception of the accept loop destroys the
    event loops on its way out. *)
Definition run (c : config) (p : process) : outcome Z * world :=
  match accept_loop (maxConnectionsPerIp c) rounds (initial_world p) with
  | (Done _, w1) =>
      match finish (workloadBalancing c) currents w1 with
      | (Done _, w2) => (Done 0%Z, w2)
      | (Raise e, w2) => (Raise e, w2)
      | (Suspended, w2) => (Suspended, w2)
      | (Undefined, w2) => (Undefined, w2)
      end
  | (Raise e, w1) =>
      match destroy_loops (workloadBalancing c) currents (length (loops w1)) w1 with
      | (Done _, w2) | (Raise _, w2) => (Raise e, w2)
      | (Suspended, w2) => (Suspended, w2)
      | (Undefined, w2) => (Undefined, w2)
      end
  | (Suspended, w1) => (Suspended, w1)
  | (Undefined, w1) => (Undefined, w1)
  end.

(** From the plugins to the end of [exec]. *)
Definition serve_plugins (o : options) (st : setup) (p : process) : outcome Z * machine R F :=
  let c := conf st in
  match install_plugins sort (libs (pluginsPath o)) (confDir o)
          (if enableServerStatus c then Some status else None) new_host with
  | (Done _, h) =>
      match start kernel_bind setuid_fails c init_logging make (Z.to_nat (eventLoopsSize o)) p with
      | (Done _, p1) =>
          match run c p1 with
          | (Done z, w) =>
              match clear_plugins h with
              | (Done _, h') => (Done z, Machine p1 (Some w) h' st)
              | (Raise ex, h') => (Raise ex, Machine p1 (Some w) h' st)
              | (Suspended, h') => (Suspended, Machine p1 (Some w) h' st)
              | (Undefined, h') => (Undefined, Machine p1 (Some w) h' st)
              end
          | (r, w) => (r, Machine p1 (Some w) h st)
          end
      | (Raise ex, p1) => (Raise ex, Machine p1 None h st)
      | (Suspended, p1) => (Suspended, Machine p1 None h st)
      | (Undefined, p1) => (Undefined, Machine p1 None h st)
      end
  | (Raise ex, h) => (Raise ex, Machine p None h st)
  | (Suspended, h) => (Suspended, Machine p None h st)
  | (Undefined, h) => (Undefined, Machine p None h st)
  end.

(** [Server::exec]; nothing reads the flag [m_shutdown] that the help sets. *)
Definition exec (p : process) : outcome Z * machine R F :=
  let st := new_setup (working_directory e) in
  let error (text : string) := Raise (ex_std (runtime_error (str text))) in
  match canonical e (argv0 e) with
  | Throw ex => (Raise ex, Machine p None new_host st)
  | Ok exe =>
      match command_line e with
      | Throw ex => (Raise ex, Machine p None new_host st)
      | Ok a =>
          let o := notify a (default_options exe (hardware_concurrency e)) in
          if arg_help a then (Done 0%Z, Machine p None new_host st)
          else if (eventLoopsSize o <? 1)%Z then (error "Invalid workers count"%string, Machine p None new_host st)
          else
            match configure (p_uid p) (getpwnam e) (getgrnam e) o (chdir e) (read_info e) st with
            | (Done _, st1) =>
                if negb (has_port (conf st1)) then
                  (error "No HTTP nor HTTPS ports specified"%string, Machine p None new_host st1)
                else serve_plugins o st1 p
            | (Raise ex, st1) => (Raise ex, Machine p None new_host st1)
            | (Suspended, st1) => (Suspended, Machine p None new_host st1)
            | (Undefined, st1) => (Undefined, Machine p None new_host st1)
            end
      end
  end.

(** The static server object is destroyed after [main]: its destructor, then its
    members. *)
Definition at_exit (m : machine R F) : machine R F :=
  Machine (m_process m) (m_world m) (clear_plugins (m_host m)).2 (destroy_Server (m_setup m)).2.

(** [main]: the exit status; [None] while the program runs.  A server whose
    constructor throws is not destroyed. *)
Definition main (registered : signal -> bool) (p : process) : option Z * machine R F :=
  match make_Server registered with
  | Throw _ => (Some (-1)%Z, Machine p None new_host (new_setup (working_directory e)))
  | Ok _ =>
      match exec p with
      | (Done r, m) => (Some r, at_exit m)
      | (Raise _, m) => (Some (-1)%Z, at_exit m)
      | (_, m) => (None, m)
      end
  end.
End Exec.

(** * Lemmas *)

Section StartLemmas.
Context (kernel_bind : Z -> SocketType -> Z -> bind_results) (setuid_fails : bool).

(** The identity and the workers of a process. *)
Definition same_process (p p' : process) : Prop :=
  p_uid p' = p_uid p /\ p_gid p' = p_gid p /\ eventLoops p' = eventLoops p.

(** Binding adds listeners bound by the current user. *)
Definition binds (ls : list (SocketType * Z)) (p p' : process) : Prop :=
  same_process p p' /\
  exists new, listeners p' = listeners p ++ new /\
    ((fun l => (l_type l, l_port l)) <$> new) = ls /\ Forall (fun l => l_uid l = p_uid p) new /\
    m_eventsSize p' = (m_eventsSize p + Z.of_nat (length new))%Z.

Lemma binds_trans ls1 ls2 p1 p2 p3 : binds ls1 p1 p2 -> binds ls2 p2 p3 -> binds (ls1 ++ ls2) p1 p3.
Proof.
  intros ((U1 & G1 & L1) & n1 & N1 & M1 & F1 & E1) ((U2 & G2 & L2) & n2 & N2 & M2 & F2 & E2).
  split; [split_and!; congruence|]. exists (n1 ++ n2). rewrite N2, N1, <- app_assoc, fmap_app, M1, M2, length_app.
  split_and!; [done|done| |lia]. apply Forall_app. split; [done|]. by rewrite <- U1.
Qed.

Lemma binds_refl p p' :
  same_process p p' -> listeners p' = listeners p -> m_eventsSize p' = m_eventsSize p -> binds [] p p'.
Proof. intros H1 H2 H3. split; [done|]. exists []. rewrite app_nil_r, H2, H3. split_and!; [done..|cbn; lia]. Qed.

Lemma bind_socket_Done type port p sock p' :
  bind_socket kernel_bind type port p = (Done sock, p') -> binds [(type, wrap16 port)] p p'.
Proof.
  unfold bind_socket, fail. intros E. inv_done. destruct (socket_result _) as [fd|]; [|done].
  repeat (case_match; [done|]). inv_done.
  all: split; [done|]; eexists [_]; split; [reflexivity|]; split; [reflexivity|]; split; [by apply Forall_singleton|done].
Qed.

(** The sockets [bind_ports] opens. *)
Definition family (port : Z) : list (SocketType * Z) := [(IPV4, wrap16 port); (IPV6, wrap16 port)].

Definition ports_of (c : config) : list (SocketType * Z) :=
  (if (0 <? httpPort c)%Z then family (httpPort c) else []) ++
  (if (0 <? httpsPort c)%Z then family (httpsPort c) else []).

Lemma bind_ports_Done c p p' : bind_ports kernel_bind c p = (Done tt, p') -> binds (ports_of c) p p'.
Proof.
  unfold bind_ports, when, ports_of. intros E. apply bind_Done in E as (u & p1 & E1 & E2).
  eapply binds_trans.
  - destruct (0 <? httpPort c)%Z; [|inv_done; by apply binds_refl].
    apply bind_Done in E1 as (s4 & q1 & B1 & E1). apply bind_Done in E1 as (s6 & q2 & B2 & [= _ <-]).
    apply (binds_trans [_] [_] p q1 q2); by eapply bind_socket_Done.
  - destruct (0 <? httpsPort c)%Z; [|inv_done; by apply binds_refl].
    apply bind_Done in E2 as (s4 & q1 & B1 & E2). apply bind_Done in E2 as (u1 & q2 & [= <- <-] & E2).
    apply bind_Done in E2 as (s6 & q3 & B2 & [= <-]).
    apply (binds_trans [_] [_] p1 q1); [by eapply bind_socket_Done|].
    apply bind_socket_Done in B2. destruct B2 as ((? & ? & ?) & new & ?). split; [done|]. by exists new.
Qed.

(** The loops made, up to a constructor that throws; their threads run as the
    current user. *)
Lemma make_loops_run mk i n p :
  let '(o, p') := make_loops mk i n p in
  p_uid p' = p_uid p /\ p_gid p' = p_gid p /\ listeners p' = listeners p /\ m_eventsSize p' = m_eventsSize p /\
  exists new, eventLoops p' = eventLoops p ++ new /\ (o = Done tt -> length new = n) /\
    Forall (fun lu : SessionsEventLoop * Z => lu.2 = p_uid p /\ exists j, mk j = Ok lu.1) new.
Proof.
  revert i p; induction n as [|n IH]; intros i p; cbn [make_loops].
  { split_and!; try done. exists []. by rewrite app_nil_r. }
  unfold bind at 1, lift. destruct (mk i) as [l|e] eqn:Em.
  - cbn [ret]. unfold bind, modify. set (p1 := set_eventLoops _ p). specialize (IH (S i) p1).
    destruct (make_loops mk (S i) n p1) as [o p'].
    destruct IH as (U & G & L & S & new & N & Hn & F). split_and!; try done.
    exists ((l, p_uid p) :: new). rewrite N. cbn. rewrite <- app_assoc. split_and!; [done| |].
    + intros Ho. by rewrite Hn.
    + constructor; [split; [done|by exists i]|done].
  - split_and!; try done. exists []. by rewrite app_nil_r.
Qed.

(** The process is to run as [u] and [g] instead of root. *)
Definition drops (c : config) (p : process) (u g : Z) : Prop :=
  p_uid p = 0%Z /\ drop_uid c = u /\ drop_gid c = g /\ u <> UINT32_MAX /\ g <> UINT32_MAX.

Lemma drop_privileges_Done c p p' :
  drop_privileges setuid_fails c p = (Done tt, p') ->
  listeners p' = listeners p /\ m_eventsSize p' = m_eventsSize p /\ eventLoops p' = eventLoops p /\
  (forall u g, drops c p u g -> p_uid p' = u /\ p_gid p' = g) /\
  ((forall u g, ~ drops c p u g) -> p_uid p' = p_uid p /\ p_gid p' = p_gid p).
Proof.
  clear kernel_bind. unfold drop_privileges. intros E.
  apply bind_Done in E as (uid & q & [= <- <-] & E). unfold drops.
  destruct (Z.eqb_spec (p_uid p) 0) as [H0|H0]; cbn in E; [|inv_done; naive_solver].
  destruct (Z.eqb_spec (drop_gid c) UINT32_MAX) as [Hg|Hg]; cbn in E; [inv_done; naive_solver|].
  destruct (Z.eqb_spec (drop_uid c) UINT32_MAX) as [Hu|Hu]; cbn in E; [inv_done; naive_solver|].
  unfold bind, setgid in E. rewrite H0 in E. cbn in E. unfold setuid in E. cbn [p_uid set_gid] in E.
  rewrite H0 in E. cbn in E. rewrite andb_true_r in E. destruct setuid_fails; cbn in E; [done|].
  injection E as <-. cbn. split_and!; try done; [naive_solver|]. intros Hn. exfalso. by apply (Hn (drop_uid c) (drop_gid c)).
Qed.

Definition keeps_workers (p p' : process) : Prop := eventLoops p' = eventLoops p.

#[local] Instance keeps_workers_preorder : PreOrder keeps_workers.
Proof. unfold keeps_workers. split; [by intros p|]. intros p1 p2 p3. congruence. Qed.

#[local] Hint Extern 1 (respects keeps_workers (modify _)) => intros ?; reflexivity : effects.

Lemma bind_socket_workers type port : respects keeps_workers (bind_socket kernel_bind type port).
Proof. unfold bind_socket, fail. respecting. Qed.
#[local] Hint Resolve bind_socket_workers : effects.

Lemma setgid_workers g : respects keeps_workers (setgid g).
Proof. intros p. unfold setgid. by case_match. Qed.

Lemma setuid_workers u : respects keeps_workers (setuid setuid_fails u).
Proof. intros p. unfold setuid. by case_match. Qed.
#[local] Hint Resolve setgid_workers setuid_workers : effects.

(** Up to the creation of the workers there are none. *)
Lemma start_workers c : respects keeps_workers (bind_ports kernel_bind c >>> drop_privileges setuid_fails c).
Proof. unfold bind_ports, drop_privileges, fail. respecting. Qed.
End StartLemmas.

(** Starting involves no undefined behaviour. *)
Definition defined {X : Type} (m : M process X) : Prop := forall p, (m p).1 <> Undefined.

Lemma defined_bind {X Y} (m : M process X) (k : X -> M process Y) :
  defined m -> (forall x, defined (k x)) -> defined (bind m k).
Proof.
  intros Hm Hk p. specialize (Hm p). unfold bind. destruct (m p) as [[x|e| |] p1]; try done. apply Hk.
Qed.

Ltac defining :=
  repeat first
    [ apply defined_bind; [|intros ?]
    | progress unfold when, fail, lift
    | match goal with
      | |- defined (if ?b then _ else _) => destruct b
      | |- defined (match ?x with _ => _ end) => destruct x
      end
    | by intros ? ].

Lemma start_defined kernel_bind setuid_fails c init_logging mk n :
  defined (start kernel_bind setuid_fails c init_logging mk n).
Proof.
  assert (Hb : forall t port, defined (bind_socket kernel_bind t port))
    by (intros t port; unfold bind_socket; defining).
  assert (Hg : forall g, defined (setgid g)) by (intros g p; unfold setgid; by case_match).
  assert (Hu : forall u, defined (setuid setuid_fails u)) by (intros u p; unfold setuid; by case_match).
  assert (Hl : forall i, defined (make_loops mk i n)) by (induction n as [|n IH]; intros i; cbn; defining; apply IH).
  unfold start, bind_ports, drop_privileges, balance_loops. defining; auto.
Qed.

(** ** Running *)

(** Constructed event loops are new. *)
Definition makes_loops (mk : nat -> result exn SessionsEventLoop) : Prop :=
  forall i, exists rmem wmem epollHandler eventFd ok,
    mk i = make_SessionsEventLoop rmem wmem epollHandler eventFd ok.

Lemma started_loops kernel_bind setuid_fails c init_logging mk n p p' :
  makes_loops mk -> eventLoops p = [] ->
  start kernel_bind setuid_fails c init_logging mk n p = (Done tt, p') ->
  length (loops (initial_world p')) = n /\
  Forall (fun l => exists fd, l = new_loop fd) (loops (initial_world p')).
Proof.
  intros Hmk Hp E. unfold start in E.
  rewrite <- bind_assoc in E. apply bind_Done in E as ([] & p1 & E1 & E).
  pose proof (start_workers kernel_bind setuid_fails c p) as Hw. rewrite E1 in Hw. cbn in Hw.
  unfold keeps_workers in Hw. rewrite Hp in Hw. apply bind_Done in E as ([] & p2 & E2 & E).
  apply lift_Done in E2 as [_ ->].
  apply bind_Done in E as ([] & p3 & E3 & [= <-]). pose proof (make_loops_run mk 0 n p1) as Hm.
  rewrite E3 in Hm. destruct Hm as (_ & _ & _ & _ & new & N & Hn & F). rewrite Hw, app_nil_l in N.
  cbn. rewrite N, !length_fmap. split; [by apply Hn|]. rewrite <- list_fmap_compose. apply Forall_fmap.
  eapply Forall_impl; [exact F|]. intros [l u] (_ & j & Ej). cbn in *. destruct (Hmk j) as (rm & wm & ep & fd & ok & E').
  rewrite E' in Ej. unfold make_SessionsEventLoop in Ej. destruct ep, ok; simplify_eq. by exists fd.
Qed.

Section Run.
Context (rounds : list (list happening * list (N * list connection))) (currents : list (option round)).

(** The outside world while the server runs: sessions are created at free
    addresses, epoll reports registered sockets, and the rounds the threads are in
    at the end register nothing. *)
Definition sane_outside (c : config) (p : process) : Prop :=
  possible_rounds (maxConnectionsPerIp c) rounds (initial_world p) /\
  forall i l, loops (accept_loop (maxConnectionsPerIp c) rounds (initial_world p)).2 !! i = Some l ->
    last_round (default None (currents !! i)) l.

Definition all_closed (w : world) : Prop :=
  loops w = [] /\ m_activeSessions (books w) = ∅ /\ forall addr, connections addr (books w) = 0%Z.

Lemma run_spec c p :
  (0 <= maxConnectionsPerIp c < 2 ^ 32 - 1)%Z -> loops (initial_world p) <> [] ->
  Forall (fun l => exists fd, l = new_loop fd) (loops (initial_world p)) -> sane_outside c p ->
  let '(o, w) := run rounds currents c p in
  o <> Undefined /\ (forall r, o = Done r -> r = 0%Z /\ all_closed w).
Proof.
  intros Hm Hne Hls [Hp Hc]. unfold run.
  pose proof (accept_loop_orderly (maxConnectionsPerIp c) Hm rounds _ Hp) as H.
  destruct (H [] (fresh_world_inv _ _ (proj1 Hm) Hls) Hne) as (failed & Hw & _ & Hu & _).
  destruct (accept_loop (maxConnectionsPerIp c) rounds (initial_world p)) as [[[]|e| |] w1]; cbn [fst snd] in *; try done.
  - destruct (finish_spec _ Hm (workloadBalancing c) currents failed w1 Hw Hc) as (w2 & -> & Hw2 & L2 & M2).
    split; [done|]. intros r [= <-]. split; [done|]. split_and!; try done.
    intros addr. destruct Hw2 as (Hb & _). destruct (Hb addr) as [-> _]. unfold live.
    by rewrite M2, map_filter_empty, map_size_empty.
  - destruct (destroy_loops_spec _ Hm (workloadBalancing c) currents failed w1 Hw Hc) as (w2 & -> & _). done.
Qed.
End Run.

Section Main.
Context (kernel_bind : Z -> SocketType -> Z -> bind_results) (setuid_fails : bool).
Context (init_logging : list (bytes * bytes) -> result exn unit) (mk : nat -> result exn SessionsEventLoop).
Context {R F : Type} (libs : bytes -> list (option (library R F))) (status : R -> result exn (option F))
  (sort : list (ServerPlugin R F) -> list (ServerPlugin R F)).
Context (rounds : list (list happening * list (N * list connection))) (currents : list (option round)).

(** Unloading the plugins a machine is left with. *)
Definition unloads (dir : bytes) (m : machine R F) : Prop :=
  exists h, clear_plugins (m_host m) = (Done tt, h) /\ unloaded (libs dir) h.

Lemma fresh_unloads dir p w st : unloads dir (Machine p w new_host st).
Proof. exists new_host. split; [done|]. split; [done|]. intros i. destruct (libs dir !! i) as [[l|]|]; auto. Qed.

(** The options the program runs with, and where it looks for plugins. *)
Definition asked (e : environment) : option options :=
  match canonical e (argv0 e), command_line e with
  | Ok exe, Ok a => Some (notify a (default_options exe (hardware_concurrency e)))
  | _, _ => None
  end.

Definition plugins_dir (e : environment) : bytes := from_option pluginsPath [] (asked e).

(** The environment of a configuration. *)
Definition sane_config (p : process) (c : config) : Prop :=
  (0 <= maxConnectionsPerIp c < 2 ^ 32 - 1)%Z /\
  forall n p1, start kernel_bind setuid_fails c init_logging mk n p = (Done tt, p1) ->
    sane_outside rounds currents c p1.

Lemma serve_plugins_spec st o uid gid :
  let p := new_process uid gid in
  makes_loops mk -> sorts sort -> sane_config p (conf st) -> (1 <= eventLoopsSize o)%Z ->
  let '(r, m) := serve_plugins kernel_bind setuid_fails init_logging mk libs status sort rounds currents o st p in
  r <> Undefined /\ unloads (pluginsPath o) m /\ m_setup m = st /\
  (forall z, r = Done z -> z = 0%Z /\ exists w, m_world m = Some w /\ all_closed w).
Proof.
  intros p Hmk Hsort [Hm Hs] Hw. unfold serve_plugins. set (c := conf st) in *. cbn zeta.
  pose proof (install_unloaded sort (libs (pluginsPath o)) (confDir o)
    (if enableServerStatus c then Some status else None) Hsort) as Hi.
  destruct (install_plugins _ _ _ _ _) as [oi h]. destruct Hi as [Hoi (h2 & E2 & U2 & E3)].
  assert (Hh : forall p' w' st', unloads (pluginsPath o) (Machine p' w' h st')) by (intros; by exists h2).
  destruct Hoi as [->|[e ->]]; [|done].
  destruct (start kernel_bind setuid_fails c init_logging mk (Z.to_nat (eventLoopsSize o)) p) as [o1 p1] eqn:Es.
  pose proof (start_defined kernel_bind setuid_fails c init_logging mk (Z.to_nat (eventLoopsSize o)) p) as Hd.
  rewrite Es in Hd. cbn in Hd. destruct o1 as [[]|e| |]; try done.
  destruct (started_loops kernel_bind setuid_fails c init_logging mk _ p p1 Hmk eq_refl Es) as [Hlen Hls].
  pose proof (run_spec rounds currents c p1 Hm) as Hr.
  destruct (run rounds currents c p1) as [r w]. destruct Hr as [Hu Hok]; [|done|by eapply Hs|].
  { intros E. rewrite E in Hlen. cbn in Hlen. lia. }
  destruct r as [z|e| |]; try done.
  rewrite E2. split; [done|]. split; [by exists h2|]. split; [done|]. intros z' [= <-]. destruct (Hok z eq_refl) as [-> Hc]. eauto.
Qed.

Lemma exec_spec `{Translators} `{OpenSSL} e uid gid :
  let p := new_process uid gid in
  makes_loops mk -> sorts sort ->
  (forall o st, asked e = Some o ->
     configure uid (getpwnam e) (getgrnam e) o (chdir e) (read_info e) (new_setup (working_directory e)) = (Done tt, st) ->
     sane_config p (conf st)) ->
  let x := exec kernel_bind setuid_fails e init_logging mk libs status sort rounds currents p in
  x.1 <> Undefined /\ unloads (plugins_dir e) x.2 /\ tidy (m_setup x.2) /\
  forall z, x.1 = Done z -> z = 0%Z /\
    ((exists a, command_line e = Ok a /\ arg_help a = true) \/ exists w, m_world x.2 = Some w /\ all_closed w).
Proof.
  intros p Hmk Hsort Hout. unfold exec, plugins_dir, asked in *. set (st := new_setup _).
  assert (Hst : tidy st) by done.
  destruct (canonical e (argv0 e)) as [exe|ex]; [|split_and!; [done|apply fresh_unloads|done|done]].
  destruct (command_line e) as [a|ex]; [|split_and!; [done|apply fresh_unloads|done|done]].
  destruct (arg_help a) eqn:Eh; [split_and!; [done|apply fresh_unloads|done|]; intros z [= <-]; eauto|].
  set (o := notify a _).
  destruct (Z.ltb_spec (eventLoopsSize o) 1) as [Hlt|Hge]; [split_and!; [done|apply fresh_unloads|done|done]|].
  pose proof (configure_tidy (p_uid p) (getpwnam e) (getgrnam e) o (chdir e) (read_info e) st eq_refl Hst) as Ht.
  pose proof (configure_settles (p_uid p) (getpwnam e) (getgrnam e) o (chdir e) (read_info e) st) as Hs.
  specialize (Hout o). fold o in Hout. destruct (configure _ _ _ _ _ _ st) as [[[]|ex| |] st1] eqn:Ec; cbn [fst snd] in *; try done;
    [|split_and!; [done|apply fresh_unloads|done|done]].
  destruct (has_port (conf st1)); cbn [negb]; [|split_and!; [done|apply fresh_unloads|done|done]].
  pose proof (serve_plugins_spec st1 o uid gid Hmk Hsort) as Hsp. cbn zeta in Hsp.
  destruct (serve_plugins _ _ _ _ _ _ _ _ _ _ _ _) as [r m]. destruct Hsp as (H1 & H2 & H3 & H4); [by apply (Hout st1)|done|].
  cbn [fst snd]. rewrite H3. split_and!; [done|done|done|]. intros z Hz. destruct (H4 z Hz) as [-> Hw]. eauto.
Qed.
End Main.

(** * Properties *)

(** C28. The start sequence and privileges: a start that succeeds has bound exactly the
    configured ports, each for IPv4 and IPv6, as the user the process started with,
    before it changed to the configured user and group; and whether it succeeds
    or fails at any point, no worker thread was ever started as root when
    privileges were to be dropped. *)
Theorem privileges_dropped kernel_bind setuid_fails c init_logging mk n uid gid :
  let p := new_process uid gid in
  let '(o, p') := start kernel_bind setuid_fails c init_logging mk n p in
  (forall u g, drops c p u g -> Forall (fun lu => lu.2 = u) (eventLoops p')) /\
  (o = Done tt ->
     ((fun l => (l_type l, l_port l)) <$> listeners p') = ports_of c /\
     Forall (fun l => l_uid l = uid) (listeners p') /\
     m_eventsSize p' = Z.of_nat (length (listeners p')) /\ length (eventLoops p') = n /\
     Forall (fun lu => m_workloadBalancing lu.1 = workloadBalancing c) (eventLoops p') /\
     (forall u g, drops c p u g -> p_uid p' = u /\ p_gid p' = g)).
Proof.
  intros p. unfold start.
  rewrite <- bind_assoc. unfold bind at 1.
  pose proof (start_workers kernel_bind setuid_fails c p) as Hw.
  destruct ((bind_ports kernel_bind c >>> drop_privileges setuid_fails c) p) as [[[]|e| |] p1] eqn:E1;
    cbn in Hw; unfold keeps_workers in Hw; cbn in Hw; try (by rewrite Hw).
  apply bind_Done in E1 as ([] & p0 & B1 & D1). apply bind_ports_Done in B1 as ((U0 & G0 & W0) & new & L0 & M0 & F0 & S0).
  apply drop_privileges_Done in D1 as (L1 & S1 & W1 & D1 & _).
  assert (Hd : forall u g, drops c p u g -> p_uid p1 = u /\ p_gid p1 = g).
  { intros u g (H0 & H). apply D1. by split; [rewrite U0|]. }
  unfold bind at 1, lift. destruct (init_logging (loggingSettings c)) as [[]|e]; cbn [ret throw]; [|by rewrite Hw].
  unfold bind. pose proof (make_loops_run mk 0 n p1) as Hm.
  destruct (make_loops mk 0 n p1) as [o2 p2]. destruct Hm as (U2 & G2 & L2 & S2 & loops2 & N2 & Hn & F2).
  rewrite Hw, app_nil_l in N2.
  assert (Hu : forall u g, drops c p u g -> Forall (fun lu : SessionsEventLoop * Z => lu.2 = u) loops2).
  { intros u g Hdr. destruct (Hd u g Hdr) as [<- _]. eapply Forall_impl; [exact F2|]. by intros lu [? _]. }
  destruct o2 as [[]|e| |]; try (by rewrite N2).
  cbn. rewrite N2. split.
  { intros u g Hdr. apply Forall_fmap. exact (Hu u g Hdr). }
  intros _. rewrite L2, L1, L0, S2, S1, S0, length_fmap, U2, G2, Hn by done. cbn.
  split_and!; [done|done|done|done| |done]. apply Forall_fmap, Forall_true. done.
Qed.


Definition sample_kernel (uid : Z) (t : SocketType) (port : Z) : bind_results :=
  {| socket_result := Some (Z.to_N port + match t with IPV4 => 0 | IPV6 => 1 end)%N; reuseaddr_ok := true;
     v6only_ok := true; bind_ok := ((uid =? 0) || (1023 <? port))%Z%bool; listen_ok := true;
     epoll_add_ok := true |}.

Definition sample_make (i : nat) : result exn SessionsEventLoop :=
  make_SessionsEventLoop (Some (str "64")) (Some (str "32")) (Some 3%N) (N.of_nat (7 + i)) true.

Definition sample_environment : environment := {|
  canonical := fun path => Ok path; argv0 := str "/usr/bin/GETodac"; hardware_concurrency := 4;
  command_line := Ok {| arg_conf := implicit; arg_plugins_dir := absent; arg_workers := given 2%Z; arg_user := None;
                        arg_group := None; arg_pid := false; arg_help := false |};
  getpwnam := fun _ => Some (2, 2)%Z; getgrnam := fun _ => None; chdir := fun _ => Ok tt;
  read_info := fun _ => Ok sample_conf; working_directory := str "/"
|}.

Abbreviation sample_main :=
  (@main sample_translators sample_openssl sample_kernel false sample_environment (fun _ => Ok tt) sample_make _ _
     (fun _ => sample_libraries) (fun _ => Ok None) sort_plugins [([ExitSignal], [])] [] (fun _ => true)
     (new_process 0 0)).


(** A port of zero passes the check and is not bound: without another port the server
    starts with nothing to listen on. *)
Lemma port_zero_unbound c :
  httpPort c = 0%Z -> (httpsPort c <= 0)%Z -> has_port c = true /\ ports_of c = [].
Proof.
  intros E H. unfold has_port, ports_of. rewrite E. cbn. by rewrite (proj2 (Z.ltb_ge _ _)).
Qed.
