(* ===== verification/StaticContent.v ===== *)
(** The static content plugin (src/plugins/staticContent): mapping URLs to files
    under configured roots, with a cache of mapped files.

    Paths are [std::filesystem::path]s on POSIX; the file system is a parameter,
    reached through the path's string.  The mutex of the cache is part of the
    state: it is held while the response is written, also across suspensions. *)

From Stdlib Require Import Ascii String NArith ZArith Lia.
From stdpp Require Import base gmap strings list.
From S2P Require Import Prelude Url LruCache Http Effects Stream.
Local Open Scope getodac_scope.

(** * Paths *)

(** A path in its generic format: the root directory, the names, and whether a
    separator follows the last name. *)
Record path := Path { root_dir : bool; names : list bytes; slash : bool }.

Definition sep : ascii := "/"%char.

(** The pieces of [s] between separators, empty ones included. *)
Fixpoint components (s : bytes) : list bytes :=
  match s with
  | [] => [[]]
  | c :: s' =>
      if decide (c = sep) then [] :: components s'
      else match components s' with
           | [] => [[c]]
           | p :: ps => (c :: p) :: ps
           end
  end.

Definition ends_with_sep (s : bytes) : bool := bool_decide (last s = Some sep).

Definition parse_path (s : bytes) : path :=
  let ns := filter (fun n => n <> []) (components s) in
  Path (bool_decide (head s = Some sep)) ns
    (ends_with_sep s && negb (bool_decide (ns = [])))%bool.

(** [p / q] *)
Definition append (p q : path) : path :=
  if root_dir q then q
  else Path (root_dir p) (names p ++ names q)
         (match names q with
          | [] => negb (bool_decide (names p = []))
          | _ => slash q
          end).

(** What iterating over a path yields. *)
Definition elements (p : path) : list bytes :=
  (if root_dir p then [[sep]] else []) ++ names p ++ (if slash p then [[]] else []).

Fixpoint join_names (ns : list bytes) : bytes :=
  match ns with
  | [] => []
  | [n] => n
  | n :: rest => n ++ sep :: join_names rest
  end.

Definition path_string (p : path) : bytes :=
  (if root_dir p then [sep] else []) ++ join_names (names p) ++ (if slash p then [sep] else []).

Definition dot : bytes := str ".".
Definition dotdot : bytes := str "..".

(** One name met by the normalisation; [stack] holds the names kept so far, the
    last one first. *)
Definition normal_step (root : bool) (stack : list bytes) (n : bytes) : list bytes :=
  if decide (n = dot) then stack
  else if decide (n = dotdot) then
    match stack with
    | [] => if root then [] else [dotdot]
    | x :: rest => if decide (x = dotdot) then dotdot :: stack else rest
    end
  else n :: stack.

Definition lexically_normal (p : path) : path :=
  let stack := fold_left (normal_step (root_dir p)) (names p) [] in
  let ends_in_dir := (slash p || bool_decide (last (names p) = Some dot)
                      || bool_decide (last (names p) = Some dotdot))%bool in
  match stack with
  | [] =>
      if (root_dir p || bool_decide (names p = []))%bool then Path (root_dir p) [] false
      else Path false [dot] false
  | x :: _ => Path (root_dir p) (rev stack) (ends_in_dir && negb (bool_decide (x = dotdot)))%bool
  end.

(** [path::extension] *)
Fixpoint last_dot (s : bytes) : option nat :=
  match s with
  | [] => None
  | c :: s' => match last_dot s' with
               | Some i => Some (S i)
               | None => if decide (c = "."%char) then Some 0 else None
               end
  end.

Definition extension (p : path) : bytes :=
  match (if slash p then None else last (names p)) with
  | None => []
  | Some f =>
      if decide (f = dot \/ f = dotdot) then []
      else match last_dot f with
           | None | Some 0 => []
           | Some i => drop i f
           end
  end.

Definition mimeType (ext : bytes) : bytes :=
  let ext_is e := bool_decide (ext = str e) in
  if ext_is ".htm" then str "text/html"
  else if ext_is ".html" then str "text/html"
  else if ext_is ".php" then str "text/html"
  else if ext_is ".css" then str "text/css"
  else if ext_is ".js" then str "application/javascript"
  else if ext_is ".json" then str "application/json"
  else if ext_is ".xml" then str "application/xml"
  else if ext_is ".png" then str "image/png"
  else if ext_is ".jpe" then str "image/jpeg"
  else if ext_is ".jpeg" then str "image/jpeg"
  else if ext_is ".jpg" then str "image/jpeg"
  else if ext_is ".gif" then str "image/gif"
  else if ext_is ".bmp" then str "image/bmp"
  else if ext_is ".tiff" then str "image/tiff"
  else if ext_is ".tif" then str "image/tiff"
  else if ext_is ".svg" then str "image/svg+xml"
  else if ext_is ".svgz" then str "image/svg+xml"
  else if ext_is ".txt" then str "text/plain"
  else if ext_is ".webp" then str "image/webp"
  else if ext_is ".webm" then str "video/webmx"
  else if ext_is ".weba" then str "audio/webm"
  else if ext_is ".swf" then str "application/x-shockwave-flash"
  else if ext_is ".flv" then str "video/x-flv"
  else str "application/octet-stream".

(** * The file system *)

(** The calls of [std::filesystem] the plugin makes; they throw
    [filesystem_error]s.  [canonical] returns an absolute path without dot,
    dot-dot and empty names. *)
Class FileSystem := {
  canonical : bytes -> result exn path;
  is_directory : bytes -> bool;
  last_write_time : bytes -> result exn Z;
  file_data : bytes -> result exn bytes;
  canonical_normal s p : canonical s = Ok p ->
    root_dir p = true /\ Forall (fun n => n <> dot /\ n <> dotdot) (names p)
}.

Record FileMap := { fm_data : bytes; fm_time : Z }.

(** The plugin's state next to the stream it serves. *)
Record static (S : Type) := Static {
  st_stream : S;
  s_filesCache : @LruCache bytes (option FileMap) _ _;
  s_filesCacheMutex : bool
}.
Arguments Static {S} _ _ _.
Arguments st_stream {S} _.
Arguments s_filesCache {S} _.
Arguments s_filesCacheMutex {S} _.

Section Session.
Context {B S : Type} `{A : AbstractStream B S} `{IterationOrder} `{FileSystem}.
(** [s_default_file], [s_allow_symlinks] and [s_customFields] *)
Context (s_default_file : bytes) (s_allow_symlinks : bool) (s_customFields : Fields).
Abbreviation st := (static S).

Definition with_stream {X : Type} (m : M S X) : M st X := fun x =>
  let '(r, s') := m (st_stream x) in (r, Static s' (s_filesCache x) (s_filesCacheMutex x)).

Definition set_cache (c : @LruCache bytes (option FileMap) _ _) : M st unit :=
  modify (fun x => Static (st_stream x) c (s_filesCacheMutex x)).

(** [std::unique_lock] around [m]: waits while the mutex is held, releases it when
    [m] returns or throws. *)
Definition with_lock {X : Type} (m : M st X) : M st X := fun x =>
  if s_filesCacheMutex x then (Suspended, x)
  else
    match m (Static (st_stream x) (s_filesCache x) true) with
    | (Done r, x') => (Done r, Static (st_stream x') (s_filesCache x') false)
    | (Raise e, x') => (Raise e, Static (st_stream x') (s_filesCache x') false)
    | r => r
    end.

(** The path to serve. *)
Definition resolve (root file : path) : result exn path :=
  let p0 := lexically_normal (append root file) in
  let* p := (if s_allow_symlinks then Ok p0 else canonical (path_string p0)) in
  if starts_with (elements p) (elements root) then
    Ok (if is_directory (path_string p) then append p (parse_path s_default_file) else p)
  else Throw (ex_response (response1 400)).

(** The cache part: the mapped file, from the cache when it is up to date. *)
Definition map_file (p : path) : M st FileMap :=
  x <-- gets id ;;
  let '(found, c') := value None (path_string p) (s_filesCache x) in
  set_cache c' >>>
  lastWriteTime <-- lift (last_write_time (path_string p)) ;;
  let refresh :=
    data <-- lift (file_data (path_string p)) ;;
    let file := {| fm_data := data; fm_time := lastWriteTime |} in
    modify (fun x => Static (st_stream x) (put (path_string p) (Some file) (s_filesCache x))
                       (s_filesCacheMutex x)) >>>
    ret file in
  match found with
  | Some (Some file) => if (fm_time file =? lastWriteTime)%Z then ret file else refresh
  | Some None => refresh
  | None => undefined
  end.

Definition file_response (p : path) (file : FileMap) : Response :=
  setContentLength (Z.of_nat (length (fm_data file)))
    (setField (str "Content-Type") (mimeType (extension p))
       (make_response 200 [] s_customFields)).

Definition static_content_session (root file : path) (head : bool) (req : Request B) : M st unit :=
  with_stream (read_request req) >>>
  p <-- lift (resolve root file) ;;
  with_lock
    (f <-- map_file p ;;
     with_stream (write_response (file_response p f)) >>>
     when (negb head) (with_stream (write (fm_data f)))).
End Session.

(** * Mapping URLs *)

Section CreateSession.
(** [s_urls], in the order of the configuration file. *)
Context (s_urls : list (bytes * bytes)).

Definition unescape (s : bytes) : result exn bytes := rmap_err ex_std (unescapeUrl s).

(** A home directory: [/~user/file].  [None] stands for the [break]. *)
Definition user_paths (url dir : bytes) : result exn (option (path * path)) :=
  let pos := default (length url) (find url sep 1) in
  let* user := unescape (take (pos - 2) (drop 2 url)) in
  if decide (user = dot \/ user = dotdot) then Ok None
  else
    let root_path := append (append (parse_path dir) (parse_path user)) (parse_path (str "public_html")) in
    let* file_path :=
      (if (1 <? length url - pos)%nat then
         let* f := unescape (drop (pos + 1) url) in Ok (append (parse_path []) (parse_path f))
       else Ok (parse_path [])) in
    Ok (Some (root_path, lexically_normal file_path)).

(** The arguments bound to [static_content_session], if any. *)
Fixpoint find_url (url : bytes) (urls : list (bytes * bytes)) : result exn (option (path * path)) :=
  match urls with
  | [] => Ok None
  | (first, dir) :: rest =>
      if starts_with url first then
        if starts_with first (str "/~") then user_paths url dir
        else
          let* f := unescape (drop (length first) url) in
          Ok (Some (parse_path dir, lexically_normal (parse_path f)))
      else find_url url rest
  end.

Definition static_create_session {B : Type} (req : Request B) : result exn (option (path * path * bool)) :=
  if decide (m_method req = str "GET" \/ m_method req = str "HEAD") then
    let* r := find_url (m_url req) s_urls in
    Ok ((fun rp : path * path => (rp.1, rp.2, bool_decide (m_method req = str "HEAD"))) <$> r)
  else Ok None.
End CreateSession.

(** * Lemmas *)

Lemma normal_step_absolute stack n :
  Forall (fun n => n <> dot /\ n <> dotdot) stack ->
  Forall (fun n => n <> dot /\ n <> dotdot) (normal_step true stack n).
Proof.
  intros Hs. unfold normal_step. repeat case_decide; try done.
  - destruct stack as [|x rest]; [done|]. apply Forall_cons in Hs as [[_ Hx] Hs]. by rewrite decide_False.
  - by constructor.
Qed.

Lemma lexically_normal_absolute p :
  root_dir p = true ->
  root_dir (lexically_normal p) = true /\
  Forall (fun n => n <> dot /\ n <> dotdot) (names (lexically_normal p)).
Proof.
  intros Hr. unfold lexically_normal. rewrite Hr. simpl.
  assert (Hs : forall l stack, Forall (fun n => n <> dot /\ n <> dotdot) stack ->
    Forall (fun n => n <> dot /\ n <> dotdot) (fold_left (normal_step true) l stack)).
  { induction l as [|n l IH]; intros stack Hst; simpl; [done|]. by apply IH, normal_step_absolute. }
  specialize (Hs (names p) [] (Forall_nil_2 _)).
  destruct (fold_left (normal_step true) (names p) []) as [|x rest] eqn:E; simpl; [by split|].
  split; [done|]. change (Forall (fun n => n <> dot /\ n <> dotdot) (rev (x :: rest))).
  by apply List.Forall_rev.
Qed.

Lemma append_absolute p q : root_dir p = true -> root_dir (append p q) = true.
Proof. intros Hp. unfold append. by destruct (root_dir q) eqn:E. Qed.

Section StaticLemmas.
Context `{FS : FileSystem}.
Abbreviation cache := (LruCache bytes (option FileMap)).

(** A cached file that has the modification time of the file on disk has its
    contents. *)
Definition coherent (c : cache) : Prop :=
  wf c /\ bounded c /\
  forall k f, (k, Some f) ∈ Spec.items (abs c) -> last_write_time k = Ok (fm_time f) ->
    file_data k = Ok (fm_data f).

Lemma lookup_key_elem {K V} `{EqDecision K} (k : K) (l : list (K * V)) v :
  Spec.lookup_key k l = Some v -> (k, v) ∈ l.
Proof.
  unfold Spec.lookup_key. destruct (list_find (fun p => p.1 = k) l) as [[i [k' v']]|] eqn:E; [|done].
  simpl. intros [= <-]. apply list_find_Some in E as (E & <- & _). by eapply list_elem_of_lookup_2.
Qed.

Lemma value_spec (k : bytes) (c : cache) :
  coherent c -> exists v c', value None k c = (Some v, c') /\ coherent c' /\
    (forall f, v = Some f -> last_write_time k = Ok (fm_time f) -> file_data k = Ok (fm_data f)).
Proof.
  intros (Hw & Hb & Hc). pose proof (exec_value None c k Hw Hb) as Hs. unfold simulates, exec in Hs.
  destruct (value None k c) as [v c']. destruct Hs as (Hw' & Hb' & [= <- Ha]).
  eexists _, c'. split; [done|]. split.
  - split_and!; [done|done|]. intros k' f. rewrite <- Ha. unfold Spec.touch.
    destruct (Spec.lookup_key k (Spec.items (abs c))) as [v|] eqn:E; [|apply Hc]. simpl.
    intros [[= -> <-]|[_ Hin]%list_elem_of_filter]%elem_of_cons; [|by apply Hc].
    apply Hc. by apply lookup_key_elem.
  - intros f Hf. change (pair_of <$> m_cacheItems c) with (Spec.items (abs c)) in Hf.
    destruct (Spec.lookup_key k (Spec.items (abs c))) as [v|] eqn:E; [|by simpl in Hf].
    apply lookup_key_elem in E. simpl in Hf. subst v. by apply Hc.
Qed.

Lemma put_coherent (k : bytes) (f : FileMap) (c : cache) :
  coherent c -> file_data k = Ok (fm_data f) -> coherent (put k (Some f) c).
Proof.
  intros (Hw & Hb & Hc) Hf. destruct (put_spec c k (Some f) Hw) as (Hw' & Ha & Hb').
  split_and!; [done|done|]. intros k' f'. rewrite Ha. unfold Spec.store. simpl.
  intros Hin%elem_of_take. destruct Hin as (i & Hin & _). apply list_elem_of_lookup_2 in Hin.
  apply elem_of_cons in Hin as [[= -> ->]|[_ Hin]%list_elem_of_filter]; [done|]. by apply Hc.
Qed.

Lemma map_file_spec {S} p (x : static S) :
  coherent (s_filesCache x) ->
  exists o x', map_file p x = (o, x') /\ st_stream x' = st_stream x /\
    s_filesCacheMutex x' = s_filesCacheMutex x /\ coherent (s_filesCache x') /\
    match o with
    | Done f => file_data (path_string p) = Ok (fm_data f) /\
                last_write_time (path_string p) = Ok (fm_time f)
    | Raise _ => True
    | _ => False
    end.
Proof.
  intros Hc. unfold map_file, bind at 1, gets at 1, id.
  destruct (value_spec (path_string p) (s_filesCache x) Hc) as (v & c' & -> & Hc' & Hv).
  unfold bind at 1, set_cache, modify. unfold bind at 1, lift.
  destruct (last_write_time (path_string p)) as [t|e] eqn:Et; [|by eexists _, _]. unfold ret at 1.
  assert (Hfresh : exists o x',
    (data <-- match file_data (path_string p) with Ok a => ret a | Throw e => throw e end ;;
     let file := {| fm_data := data; fm_time := t |} in
     modify (fun x => Static (st_stream x) (put (path_string p) (Some file) (s_filesCache x)) (s_filesCacheMutex x)) >>>
     ret file) (Static (st_stream x) c' (s_filesCacheMutex x)) = (o, x') /\ st_stream x' = st_stream x /\
    s_filesCacheMutex x' = s_filesCacheMutex x /\ coherent (s_filesCache x') /\
    match o with
    | Done f => file_data (path_string p) = Ok (fm_data f) /\ Ok (E := exn) t = Ok (fm_time f)
    | Raise _ => True
    | _ => False
    end).
  { unfold bind. destruct (file_data (path_string p)) as [d|e] eqn:Ed; [|by eexists _, _].
    eexists _, _. split; [reflexivity|]. simpl. split_and!; try done. by apply put_coherent. }
  destruct v as [f|]; [|exact Hfresh].
  destruct (Z.eqb_spec (fm_time f) t) as [Ht|Ht]; [|exact Hfresh].
  eexists _, _. split; [reflexivity|]. simpl. split_and!; try done; [|by rewrite Ht].
  apply (Hv f eq_refl). by rewrite Ht.
Qed.
End StaticLemmas.

Section StaticServes.
Context {B S : Type} `{A : AbstractStream B S} `{L : !StreamLaws A} `{IterationOrder} `{FS : FileSystem}.
Context (s_default_file : bytes) (s_allow_symlinks : bool) (s_customFields : Fields).

Lemma with_stream_Done {X} (m : M S X) (x : static S) r x' :
  with_stream m x = (Done r, x') <->
  exists s', m (st_stream x) = (Done r, s') /\ x' = Static s' (s_filesCache x) (s_filesCacheMutex x).
Proof. unfold with_stream. destruct (m (st_stream x)) as [[y|e| |] s1]; naive_solver. Qed.

Lemma with_lock_Done {X} (m : M (static S) X) (x : static S) r x' :
  with_lock m x = (Done r, x') ->
  s_filesCacheMutex x = false /\
  exists x1, m (Static (st_stream x) (s_filesCache x) true) = (Done r, x1) /\
    x' = Static (st_stream x1) (s_filesCache x1) false.
Proof.
  unfold with_lock. destruct (s_filesCacheMutex x); [done|].
  destruct (m _) as [[y|e| |] x1]; naive_solver.
Qed.

(** The path lies under the root, without dot-dot names; only a directory is
    extended by the default file. *)
Definition under_root (root p : path) : Prop :=
  exists p1 rest, elements p1 = elements root ++ rest /\ root_dir p1 = true /\
    Forall (fun n => n <> dot /\ n <> dotdot) (names p1) /\
    p = if is_directory (path_string p1) then append p1 (parse_path s_default_file) else p1.

Lemma resolve_under_root root file p :
  root_dir root = true -> resolve s_default_file s_allow_symlinks root file = Ok p -> under_root root p.
Proof.
  intros Hr Hp. unfold resolve in Hp.
  set (p0 := lexically_normal (append root file)) in Hp.
  assert (Hn : exists p1, (if s_allow_symlinks then Ok p0 else canonical (path_string p0)) = Ok p1 /\
    root_dir p1 = true /\ Forall (fun n => n <> dot /\ n <> dotdot) (names p1)).
  { destruct s_allow_symlinks; simpl in Hp.
    - exists p0. split; [done|]. apply lexically_normal_absolute, append_absolute, Hr.
    - destruct (canonical (path_string p0)) as [p1|] eqn:E; [|done]. exists p1. split; [done|].
      by eapply canonical_normal. }
  destruct Hn as (p1 & E & Hr1 & Hd1). rewrite E in Hp. simpl in Hp.
  destruct (starts_with (elements p1) (elements root)) eqn:Es; [|done].
  apply starts_with_spec in Es as [rest Es]. exists p1, rest. split_and!; [done|done|done|]. by simplify_eq.
Qed.

Lemma static_serves_spec root file head req x x' :
  root_dir root = true -> coherent (s_filesCache x) ->
  static_content_session s_default_file s_allow_symlinks s_customFields root file head req x = (Done tt, x') ->
  coherent (s_filesCache x') /\ s_filesCacheMutex x' = false /\
  exists r s1 p f, read_request req (st_stream x) = (Done r, s1) /\ under_root root p /\
    file_data (path_string p) = Ok (fm_data f) /\
    (good s1 -> exists ka, sent (st_stream x') =
       sent s1 ++ toString ka (file_response s_customFields p f) ++ (if head then [] else fm_data f)).
Proof.
  intros Hr Hc Hs. unfold static_content_session in Hs.
  apply bind_Done in Hs as (r & x1 & (s1 & Hread & ->)%with_stream_Done & Hs).
  apply bind_Done in Hs as (p & x2 & Hres & Hs). unfold lift in Hres.
  destruct (resolve s_default_file s_allow_symlinks root file) as [p'|] eqn:Er; [|done].
  unfold ret in Hres. simplify_eq. apply resolve_under_root in Er; [|done].
  apply with_lock_Done in Hs as (_ & x3 & Hs & ->). simpl in Hs.
  apply bind_Done in Hs as (f & x4 & Hmap & Hs).
  destruct (map_file_spec p (Static s1 (s_filesCache x) true) Hc) as (o & x5 & E & Hst & _ & Hc' & Ho).
  rewrite Hmap in E. simplify_eq. destruct Ho as [Hd _].
  apply bind_Done in Hs as ([] & x6 & (s6 & Hw & ->)%with_stream_Done & Hs). rewrite Hst in Hw. simpl in Hw.
  assert (Hx : exists s7, st_stream x3 = s7 /\ s_filesCache x3 = s_filesCache x5 /\
    (if head then s7 = s6 else write (fm_data f) s6 = (Done tt, s7))).
  { destruct head; simpl in Hs; [unfold skip, ret in Hs; simplify_eq; by eexists|].
    apply with_stream_Done in Hs as (s7 & Hw7 & ->). by exists s7. }
  destruct Hx as (s7 & E7 & Ec & Hw7). rewrite Ec. split; [done|]. split; [done|].
  exists r, s1, p, f. split; [done|]. split; [done|]. split; [done|]. intros Hg. cbn [st_stream]. rewrite E7.
  apply write_response_spec in Hw as (E6 & Hg6 & _); [|done]. eexists.
  destruct head; cbv iota; [rewrite Hw7, app_nil_r; exact E6|].
  apply write_sent in Hw7 as [-> _]; [|done]. rewrite E6, <- app_assoc. reflexivity.
Qed.

(** While the mutex is held, no other session of the plugin gets anywhere. *)
Lemma locked_out root file head req (x : static S) r x' :
  s_filesCacheMutex x = true ->
  static_content_session s_default_file s_allow_symlinks s_customFields root file head req x <> (Done r, x').
Proof.
  intros Hm Hs. unfold static_content_session in Hs.
  apply bind_Done in Hs as (r1 & x1 & (s1 & Hread & ->)%with_stream_Done & Hs).
  apply bind_Done in Hs as (p & x2 & Hres & Hs).
  assert (Hx : s_filesCacheMutex x2 = true).
  { unfold lift in Hres. destruct (resolve _ _ root file); [|done]. unfold ret in Hres. by simplify_eq. }
  apply with_lock_Done in Hs as [Hf _]. congruence.
Qed.
End StaticServes.

(** * The mutex across suspensions *)

Section Mutex.
Context {S : Type}.

Definition same_mutex (x x' : static S) : Prop := s_filesCacheMutex x' = s_filesCacheMutex x.

#[global] Instance same_mutex_preorder : PreOrder same_mutex.
Proof. split; unfold same_mutex; [done|congruence]. Qed.

Lemma with_stream_mutex {X} (m : M S X) : respects same_mutex (with_stream m).
Proof. intros x. unfold with_stream, same_mutex. by destruct (m (st_stream x)). Qed.

Lemma set_cache_mutex c : respects same_mutex (set_cache c).
Proof. by intros x. Qed.

Lemma put_cache_mutex f :
  respects same_mutex (modify (fun x : static S => Static (st_stream x) (f x) (s_filesCacheMutex x))).
Proof. by intros x. Qed.

Lemma lift_mutex {X} (r : result exn X) : respects same_mutex (lift r).
Proof. intros x. by destruct r. Qed.
End Mutex.

#[export] Hint Resolve with_stream_mutex set_cache_mutex put_cache_mutex lift_mutex : effects.

Lemma map_file_mutex {S} `{FileSystem} p : respects (same_mutex (S := S)) (map_file p).
Proof. unfold map_file. respecting. Qed.
#[export] Hint Resolve map_file_mutex : effects.

Lemma static_suspended {B S} `{A : AbstractStream B S} `{IterationOrder} `{FS : FileSystem}
    def allow custom root file head req (x x' : static S) :
  static_content_session def allow custom root file head req x = (Suspended, x') ->
  (exists s', read_request req (st_stream x) = (Suspended, s')) \/ s_filesCacheMutex x' = true.
Proof.
  unfold static_content_session, bind at 1, with_stream at 1. intros Hs.
  destruct (read_request req (st_stream x)) as [[r|e| |] s1]; try done; [|left; by eexists].
  right. unfold bind at 1 in Hs. unfold lift in Hs. destruct (resolve def allow root file) as [p|]; [|done].
  unfold ret, with_lock in Hs. cbn [s_filesCacheMutex st_stream s_filesCache] in Hs.
  destruct (s_filesCacheMutex x) eqn:E; [by simplify_eq|].
  match type of Hs with context [?m (Static s1 (s_filesCache x) true)] =>
    assert (Hm : respects same_mutex m) by respecting; specialize (Hm (Static s1 (s_filesCache x) true));
    destruct (m (Static s1 (s_filesCache x) true)) as [[?|?| |] x1]; simplify_eq; exact Hm
  end.
Qed.

(** * Examples *)

(** A file system with one file. *)
Definition one_file : FileSystem.
Proof.
  refine {|
    canonical := fun s => Ok (lexically_normal (Path true (names (parse_path s)) false));
    is_directory := fun s => bool_decide (s = str "/var/www");
    last_write_time := fun s => if decide (s = str "/var/www/index.html") then Ok 7%Z else Throw (ex_std (runtime_error []));
    file_data := fun s => if decide (s = str "/var/www/index.html") then Ok (str "<p>") else Throw (ex_std (runtime_error [])) |}.
  intros s p [= <-]. by apply lexically_normal_absolute.
Defined.

Definition www : path := parse_path (str "/var/www").

Definition empty_static : static mem_state := Static (Mem [] 0 0) (make 100) false.

Lemma empty_static_coherent : @coherent one_file (s_filesCache empty_static).
Proof. split_and!; [apply wf_make|apply bounded_make|]. intros k f Hin. by apply elem_of_nil in Hin. Qed.

(** A stream whose peer does not read: writing never returns. *)
Definition stalled_stream : AbstractStream unit unit := {|
  read := fun req => ret (Http.setState Completed req);
  write := fun _ s => (Suspended, s);
  writev := fun _ s => (Suspended, s);
  keepAlive := fun _ => 0%Z; Stream.setKeepAlive := fun _ s => s;
  sessionTimeout := fun _ => 0%Z; setSessionTimeout := fun _ s => s;
  yield := ret 0%Z; peerAddress := fun _ => []; setSocketWriteSize := fun _ => skip; socketReadSize := fun _ => 8;
  setSocketReadSize := fun _ => skip; socketWriteSize := fun _ => 8; isSecuredConnection := fun _ => false |}.

(** * Properties *)



(** One stalled client stops the plugin: a session that is suspended after
    its request was read holds the mutex of the cache, so until it is resumed no
    other request for a static file is ever completed, on any connection. *)
Theorem stalled_client_blocks {B S} `{A : AbstractStream B S} `{IterationOrder} `{FS : FileSystem}
    def allow custom root file head req (x x' : static S) :
  static_content_session def allow custom root file head req x = (Suspended, x') ->
  (exists r s1, read_request req (st_stream x) = (Done r, s1)) ->
  forall root2 file2 head2 req2 s2 r x2,
    static_content_session def allow custom root2 file2 head2 req2
      (Static s2 (s_filesCache x') (s_filesCacheMutex x')) <> (Done r, x2).
Proof.
  intros Hs (r1 & s1 & Hr) root2 file2 head2 req2 s2 r x2.
  destruct (static_suspended def allow custom root file head req x x' Hs) as [[s' E]|Hm]; [congruence|].
  by apply locked_out.
Qed.

Lemma stalled_client_blocks_witness :
  exists x', @static_content_session _ _ stalled_stream listed_order one_file (str "index.html") false ∅ www
      (parse_path []) false make_request (Static tt (make 100) false) = (Suspended, x') /\
    forall x2, @static_content_session _ _ stalled_stream listed_order one_file (str "index.html") false ∅ www
      (parse_path (str "b")) false make_request (Static tt (s_filesCache x') (s_filesCacheMutex x')) <> (Done tt, x2).
Proof.
  set (x' := (@static_content_session _ _ stalled_stream listed_order one_file (str "index.html") false ∅ www
      (parse_path []) false make_request (Static tt (make 100) false)).2).
  assert (E : @static_content_session _ _ stalled_stream listed_order one_file (str "index.html") false ∅ www
      (parse_path []) false make_request (Static tt (make 100) false) = (Suspended, x')) by (vm_compute; reflexivity).
  exists x'. split; [exact E|]. intros x2.
  apply (@stalled_client_blocks unit unit stalled_stream listed_order one_file (str "index.html") false ∅ www
    (parse_path []) false make_request (Static tt (make 100) false) x' E). eexists _, _. vm_compute. reflexivity.
Defined.

(** A home directory URL can leave the configured directory: when the decoded
    user name starts with a slash ([/~%2Fsrv/...]), joining it replaces the
    configured directory, and files are served from under [/srv/public_html]. *)
Theorem user_root_escapes url dir user :
  let pos := default (length url) (find url sep 1) in
  unescape (take (pos - 2) (drop 2 url)) = Ok (sep :: user) -> length url - pos <= 1 ->
  exists file, user_paths url dir =
    Ok (Some (Path true (names (parse_path (sep :: user)) ++ [str "public_html"]) false, file)).
Proof.
  intros pos Hu Hl. unfold user_paths. fold pos. rewrite Hu. cbn [rbind].
  rewrite decide_False by (intros [[=]|[=]]).
  rewrite (proj2 (Nat.ltb_ge 1 (length url - pos))) by lia. cbn [rbind].
  eexists. do 3 f_equal.
Qed.

Lemma user_root_escapes_witness :
  exists file, find_url (str "/~%2Fsrv") [(str "/~", str "/home")] =
    Ok (Some (Path true [str "srv"; str "public_html"] false, file)).
Proof.
  destruct (user_root_escapes (str "/~%2Fsrv") (str "/home") (str "srv")) as [file E];
    [vm_compute; reflexivity|decided|].
  exists file. exact E.
Defined.
