(* ===== verification/StaticInit.v ===== *)
(** The life of the static content plugin
    (src/plugins/staticContent/static_content_plugin.cpp): reading its configuration
    and the timer that empties its file cache. *)

From Stdlib Require Import Ascii String NArith ZArith Lia.
From stdpp Require Import base gmap strings list fin_maps.
From S2P Require Import Prelude Url LruCache Http Effects Stream StaticContent Config Server.
Local Open Scope getodac_scope.

(** * Configuration *)

Record settings := Settings {
  s_urls : list (bytes * bytes);
  s_customFields : Fields;
  s_default_file : bytes;
  s_allow_symlinks : bool;
  g_timer : bool
}.

Definition new_settings : settings := Settings [] ∅ [] false false.

Section Init.
Context `{Translators}.
(** What [get_child] throws for a missing node. *)
Context (bad_path : bytes -> exn).

Definition get_child (name : string) (t : ptree) : M settings ptree :=
  match pt_find (str name) t with Some n => ret n | None => throw (bad_path (str name)) end.

Definition add_url (p : bytes * ptree) : M settings unit :=
  modify (fun s => Settings (s_urls s ++ [(p.1, pt_data p.2)]) (s_customFields s) (s_default_file s)
                     (s_allow_symlinks s) (g_timer s)).

Definition add_field (p : bytes * ptree) : M settings unit :=
  modify (fun s => Settings (s_urls s) (<[p.1 := pt_data p.2]> (s_customFields s)) (s_default_file s)
                     (s_allow_symlinks s) (g_timer s)).

(** [init_plugin]: [conf] is what [read_info] gives or throws. *)
Definition init_plugin (conf : result exn ptree) : M settings bool :=
  properties <-- lift conf ;;
  paths <-- get_child "paths" properties ;;
  iterM add_url (pt_children paths) >>>
  headers <-- get_child "custom_headers" properties ;;
  iterM add_field (pt_children headers) >>>
  modify (fun s => Settings (s_urls s) (s_customFields s)
    (match pt_get [str "default_file"] properties with Some n => pt_data n | None => [] end)
    (get_bool [str "allow_symlinks"] false properties) (g_timer s)) >>>
  modify (fun s => Settings (s_urls s) (s_customFields s) (s_default_file s) (s_allow_symlinks s) true) >>>
  gets (fun s => negb (bool_decide (s_urls s = []))).

(** [destory_plugin] *)
Definition destory_plugin : M settings unit :=
  modify (fun s => Settings (s_urls s) (s_customFields s) (s_default_file s) (s_allow_symlinks s) false).

Definition plugin_order : Z := UINT32_MAX.
End Init.

(** * The timer *)

Section Sweep.
Context {K V : Type} `{Countable K}.
(** [use_count()] of an entry's value: one when only the cache refers to it. *)
Context (use_count : V -> nat).
Implicit Type c : LruCache K V.

(** [++it] *)
Definition next (it : nat) c : option nat :=
  match list_find (fun n => nid n = it) (m_cacheItems c) with
  | Some (i, _) => nid <$> m_cacheItems c !! S i
  | None => None
  end.

(** The loop of the callback; every iteration goes on to the next node, so that the
    length of the list is enough fuel. *)
Fixpoint sweep_from (fuel : nat) (it : option nat) c : LruCache K V :=
  match fuel, it with
  | S fuel', Some i =>
      match deref i (m_cacheItems c) with
      | Some n =>
          if (use_count (nval n) =? 1)%nat then let '(it', c') := erase i c in sweep_from fuel' it' c'
          else sweep_from fuel' (next i c) c
      | None => c
      end
  | _, _ => c
  end.

Definition sweep c : LruCache K V := sweep_from (length (m_cacheItems c)) (begin c) c.
End Sweep.

(** The timer's callback: the loop under the cache's mutex. *)
Definition timer_callback {S : Type} (use_count : option FileMap -> nat) : M (static S) unit :=
  with_lock (modify (fun x => Static (st_stream x) (sweep use_count (s_filesCache x)) (s_filesCacheMutex x))).

(** * Lemmas *)

Section SweepLemmas.
Context {K V : Type} `{Countable K}.
Context (use_count : V -> nat).
Implicit Type c : LruCache K V.

(** The nodes [kept] have been looked at, [rest] are still to come. *)
Lemma sweep_from_spec fuel kept rest c :
  wf c -> m_cacheItems c = kept ++ rest -> length rest <= fuel ->
  let c' := sweep_from use_count fuel (nid <$> head rest) c in
  wf c' /\ m_cacheItems c' = kept ++ filter (fun n => use_count (nval n) <> 1) rest /\
  m_cacheSize c' = m_cacheSize c.
Proof.
  revert kept rest c; induction fuel as [|fuel IH]; intros kept [|n rest] c Hwf E Hf; cbn [sweep_from head fmap option_fmap option_map];
    try (by rewrite E); [simpl in Hf; lia|].
  assert (Hn : m_cacheItems c !! length kept = Some n) by (rewrite E; by apply list_lookup_middle).
  assert (Hnext : nid <$> m_cacheItems c !! S (length kept) = nid <$> head rest).
  { rewrite E, lookup_app_r by lia. replace (S (length kept) - length kept) with 1 by lia. by destruct rest. }
  unfold deref. rewrite (find_at c _ n Hwf Hn). cbn [fmap option_fmap option_map snd].
  rewrite filter_cons. destruct (Nat.eqb_spec (use_count (nval n)) 1) as [Hu|Hu].
  - rewrite decide_False by naive_solver. destruct (erase_at c _ n Hwf Hn) as (c1 & -> & Hwf1 & E1 & S1).
    rewrite Hnext. rewrite <- S1. apply IH; [done| |simpl in Hf; lia].
    rewrite E1, E, take_app_length, drop_app_ge by lia.
    by replace (S (length kept) - length kept) with 1 by lia.
  - rewrite decide_True by done. unfold next. rewrite (find_at c _ n Hwf Hn), Hnext.
    destruct (IH (kept ++ [n]) rest c) as (H1 & H2 & H3); [done|by rewrite E, <- app_assoc|simpl in Hf; lia|].
    rewrite <- app_assoc in H2. done.
Qed.

Lemma sweep_spec c :
  wf c ->
  wf (sweep use_count c) /\ m_cacheSize (sweep use_count c) = m_cacheSize c /\
  m_cacheItems (sweep use_count c) = filter (fun n => use_count (nval n) <> 1) (m_cacheItems c).
Proof.
  intros Hwf. unfold sweep, begin.
  destruct (sweep_from_spec (length (m_cacheItems c)) [] (m_cacheItems c) c Hwf eq_refl) as (H1 & H2 & H3); [lia|].
  done.
Qed.
End SweepLemmas.

Lemma filter_pairs {K V} (use_count : V -> nat) (l : list (node K V)) :
  pair_of <$> filter (fun n => use_count (nval n) <> 1) l =
  filter (fun kv => use_count kv.2 <> 1) (pair_of <$> l).
Proof.
  induction l as [|n l IH]; [done|]. rewrite fmap_cons, !filter_cons. simpl.
  destruct (decide (use_count (nval n) <> 1)); [rewrite fmap_cons; by f_equal|done].
Qed.

Lemma iter_urls l s :
  iterM add_url l s =
    (Done tt, Settings (s_urls s ++ ((fun p => (p.1, pt_data p.2)) <$> l)) (s_customFields s) (s_default_file s)
                (s_allow_symlinks s) (g_timer s)).
Proof.
  revert s; induction l as [|p l IH]; intros s; cbn [iterM].
  - rewrite app_nil_r. by destruct s.
  - unfold bind, add_url at 1, modify. rewrite IH. cbn. by rewrite <- app_assoc.
Qed.

Lemma iter_fields l s :
  iterM add_field l s =
    (Done tt, Settings (s_urls s) (fold_left (fun m p => <[p.1 := pt_data p.2]> m) l (s_customFields s))
                (s_default_file s) (s_allow_symlinks s) (g_timer s)).
Proof.
  revert s; induction l as [|p l IH]; intros s; cbn [iterM fold_left].
  - by destruct s.
  - unfold bind, add_field at 1, modify. by rewrite IH.
Qed.

(** The file of [one_file] as the cache holds it after a request. *)
Definition index_file : FileMap := {| fm_data := str "<p>"; fm_time := 7%Z |}.

Definition one_cached : static mem_state :=
  Static (Mem [] 0 0) (put (str "/var/www/index.html") (Some index_file) (make 100)) false.

Lemma one_cached_coherent : @coherent one_file (s_filesCache one_cached).
Proof. apply (@put_coherent one_file); [apply empty_static_coherent|reflexivity]. Qed.

(** The entries of the configuration as pairs of texts. *)
Definition entry (p : bytes * ptree) : bytes * bytes := (p.1, pt_data p.2).

Definition entries (t : ptree) : list (bytes * bytes) := entry <$> pt_children t.

(** The value of the last pair with the key. *)
Definition last_value (k : bytes) (l : list (bytes * bytes)) : option bytes :=
  Spec.lookup_key k (reverse l).

Lemma fold_insert_lookup (k : bytes) (l : list (bytes * bytes)) (m : Fields) :
  fold_left (fun m p => <[p.1 := p.2]> m) l m !! k =
    match last_value k l with Some v => Some v | None => m !! k end.
Proof.
  unfold last_value. induction l as [|[k' v'] l IH] using rev_ind; [done|].
  rewrite fold_left_app, reverse_snoc. cbn [fold_left fst snd]. unfold Spec.lookup_key in *. simpl.
  destruct (decide (k' = k)) as [->|Hn].
  - by rewrite lookup_insert_eq.
  - rewrite lookup_insert_ne, IH by done. by destruct (list_find _ (reverse l)) as [[i q]|].
Qed.

Lemma fold_fields (l : list (bytes * ptree)) (m : Fields) :
  fold_left (fun m p => <[p.1 := pt_data p.2]> m) l m =
  fold_left (fun m p => <[p.1 := p.2]> m) (entry <$> l) m.
Proof. revert m; induction l as [|p l IH]; intros m; [done|]. cbn. apply IH. Qed.

(** * Properties *)

(** The timer of the static content plugin: when no request holds the cache, the
    callback removes exactly the files that nothing but the cache refers to,
    although it erases while it iterates; the others keep their order, the cache
    keeps its invariant and its capacity, what is cached still has the contents
    it was read with, and the mutex is free again. *)
Theorem timer_sweeps {S} `{FS : FileSystem} use_count (x : static S) :
  s_filesCacheMutex x = false -> coherent (s_filesCache x) ->
  exists x', timer_callback use_count x = (Done tt, x') /\
    s_filesCacheMutex x' = false /\ st_stream x' = st_stream x /\ coherent (s_filesCache x') /\
    abs (s_filesCache x') =
      {| Spec.items := filter (fun kv => use_count kv.2 <> 1) (Spec.items (abs (s_filesCache x)));
         Spec.capacity := Spec.capacity (abs (s_filesCache x)) |}.
Proof.
  intros Hm (Hwf & Hb & Hc). destruct (sweep_spec use_count (s_filesCache x) Hwf) as (H1 & H2 & H3).
  assert (Ha : abs (sweep use_count (s_filesCache x)) =
    {| Spec.items := filter (fun kv => use_count kv.2 <> 1) (Spec.items (abs (s_filesCache x)));
       Spec.capacity := Spec.capacity (abs (s_filesCache x)) |}).
  { unfold abs. rewrite H2, H3. cbn. f_equal. by apply filter_pairs. }
  unfold timer_callback, with_lock. rewrite Hm. eexists. split; [reflexivity|]. cbn.
  split_and!; try done. split_and!; [done| |].
  - unfold bounded in *. simpl. rewrite H2, H3. etransitivity; [apply length_filter|done].
  - intros k f. rewrite Ha. cbn. intros [_ Hin]%list_elem_of_filter. by apply Hc.
Qed.

Lemma timer_sweeps_witness :
  s_filesCacheMutex one_cached = false /\
  exists x', timer_callback (fun _ => 1) one_cached = (Done tt, x') /\ Spec.items (abs (s_filesCache x')) = [].
Proof.
  split; [reflexivity|].
  destruct (@timer_sweeps mem_state one_file (fun _ => 1) one_cached eq_refl one_cached_coherent)
    as (x' & E & _ & _ & _ & Ha).
  exists x'. split; [exact E|]. rewrite Ha. vm_compute. reflexivity.
Defined.

(** Starting the plugin: with both sections in the configuration file, the
    prefixes are the entries of the section paths in the order of the file,
    every custom header has the value of its last entry, the default file and the
    symbolic links are as configured (none and refused by default), the timer
    runs until the plugin is destroyed, and the plugin stays loaded exactly when there is a prefix; without one of the
    sections, or with a file that cannot be read, starting throws and no timer
    is left behind. *)
Theorem static_plugin_init `{Translators} bad_path conf :
  match init_plugin bad_path conf new_settings with
  | (Done loaded, s) => exists t paths headers,
      conf = Ok t /\ pt_find (str "paths") t = Some paths /\ pt_find (str "custom_headers") t = Some headers /\
      s_urls s = entries paths /\ (forall k, s_customFields s !! k = last_value k (entries headers)) /\
      g_timer s = true /\ (loaded = false <-> entries paths = []) /\
      s_default_file s = default [] (pt_data <$> pt_get [str "default_file"] t) /\
      s_allow_symlinks s = get_bool [str "allow_symlinks"] false t /\ g_timer (destory_plugin s).2 = false
  | (Raise e, s) => g_timer s = false /\
      (conf = Throw e \/ exists t, conf = Ok t /\
        (pt_find (str "paths") t = None /\ e = bad_path (str "paths") \/
         pt_find (str "custom_headers") t = None /\ e = bad_path (str "custom_headers")))
  | _ => False
  end.
Proof.
  unfold init_plugin. destruct conf as [t|e]; [|naive_solver].
  unfold bind at 1. cbn [lift ret]. unfold get_child, bind at 1.
  destruct (pt_find (str "paths") t) as [paths|] eqn:Ep; [|naive_solver].
  cbn [ret]. unfold bind at 1. rewrite iter_urls. unfold bind at 1.
  destruct (pt_find (str "custom_headers") t) as [headers|] eqn:Eh; [|naive_solver].
  cbn [ret]. unfold bind at 1. rewrite iter_fields, fold_fields.
  eexists t, paths, headers. split_and!; try done.
  - intros k. cbn. rewrite fold_insert_lookup. by destruct (last_value _ _).
  - cbn. change (_ <$> pt_children paths) with (entries paths). by destruct (entries paths).
  - cbn [modify gets bind s_default_file]. by destruct (pt_get _ t).
Qed.
