(* ===== verification/EndToEnd.v ===== *)
(** A connection of the server end to end: the loop of the session
    (src/server/streams.cpp), the choice of a service among the plugins
    (src/server/server.cpp) and the services themselves.

    [Honest] is what the session's loop needs to know of whoever finds its
    services: each service's answers keep to a contract.  What a peer receives on
    a connection, plain or TLS, is proved against this interface; the list of plugins
    provides it when every plugin does, and the plugins of the repository provide it. *)

From Stdlib Require Import Ascii String NArith ZArith Lia.
From stdpp Require Import base gmap strings list sorting.
From S2P Require Import Prelude Url LruCache CharBuffer Http Effects Stream Transport Session Config Server Plugins StaticContent StaticInit.
Local Open Scope getodac_scope.

(** * What a session's operations do to the peer's view *)

Section Grows.
Context {P B : Type} `{HP : HttpParser P} `{T : Transport P B} `{TL : !TransportLaws T} `{RL : !ReadLaws T}.
Abbreviation sess := (session P B).
Abbreviation stream := (session_stream (P := P) (B := B) (T := T)).

(** More may have been delivered, and writes used up. *)
Definition grows (s s' : sess) : Prop :=
  (exists w, delivered (env s') = delivered (env s) ++ w) /\ writes_suffix s s'.

#[global] Instance grows_preorder : PreOrder grows.
Proof.
  split.
  - intros s. split; [exists []; by rewrite app_nil_r|done].
  - intros s1 s2 s3 [[w1 E1] H1] [[w2 E2] H2]. split; [|by etransitivity].
    exists (w1 ++ w2). by rewrite E2, E1, app_assoc.
Qed.

Lemma quiet_grows (s s' : sess) :
  delivered (env s') = delivered (env s) -> writes (env s') = writes (env s) -> grows s s'.
Proof. intros E1 E2. split; [exists []; by rewrite app_nil_r|]. unfold writes_suffix. by rewrite E2. Qed.

Lemma session_write_grows b : respects grows (session_write b).
Proof.
  intros s. split; [|apply (write_loop_suffix (write_fuel s) b s)].
  destruct (write_loop_spec (write_fuel s) b s) as (o & s' & E & k & _ & Hd & _);
    [unfold rounds, write_fuel; lia|]. unfold session_write. rewrite E. by eexists.
Qed.

Lemma write_grows b : respects grows (write (AbstractStream := stream) b).
Proof. exact (session_write_grows b). Qed.

Lemma writev_grows bs : respects grows (writev (AbstractStream := stream) bs).
Proof.
  intros s. split; [|apply (writev_loop_suffix (write_fuel s) bs s)].
  destruct (writev_loop_spec (write_fuel s) bs s) as (o & s' & E & k & _ & Hd & _);
    [unfold rounds, write_fuel; lia|].
  change (writev bs s) with (writev_loop (write_fuel s) bs s). rewrite E. by eexists.
Qed.

Lemma read_grows r : respects grows (read (AbstractStream := stream) r).
Proof. intros s. destruct (session_read_reads r s) as (E1 & E2 & _). by apply quiet_grows. Qed.

Lemma modify_grows (f : sess -> sess) :
  (forall s, delivered (env (f s)) = delivered (env s) /\ writes (env (f s)) = writes (env s)) ->
  respects grows (modify f).
Proof. intros Hf s. apply quiet_grows; apply Hf. Qed.

#[local] Hint Resolve write_grows writev_grows read_grows : effects.
#[local] Hint Extern 2 (respects grows (modify _)) => apply modify_grows; done : effects.

Lemma write_response_grows `{IterationOrder} res : respects grows (write_response (A := stream) res).
Proof. unfold write_response. respecting. Qed.

#[local] Hint Resolve write_response_grows : effects.

Lemma read_request_grows `{IterationOrder} r : respects grows (read_request (A := stream) r).
Proof. unfold read_request. respecting. Qed.
End Grows.

#[export] Hint Resolve write_grows writev_grows read_grows write_response_grows read_request_grows : effects.

(** * The interface between a connection and its services *)

Section Conversation.
Context {P B : Type} `{HP : HttpParser P} `{T : Transport P B} `{TL : !TransportLaws T} `{RL : !ReadLaws T}.
Context `{IO : IterationOrder}.
Abbreviation sess := (session P B).
Abbreviation service := (Request B -> M sess unit).

(** What a service may answer to a request. *)
Definition contract : Type := Request B -> bytes -> Prop.

(** What services may rely on: a condition on the plugins' variables and on what is to
    come from the socket, which the session's own writes cannot break. *)
Class Steady (I : sess -> Prop) : Prop :=
  steady s s' : body_state s' = body_state s -> writes_suffix s s' -> I s -> I s'.

(** The session offers requests without a body callback yet. A service that completes
    has sent an answer its contract allows, and has kept the invariant [I]. *)
Record fulfils (A : contract) (I : sess -> Prop) (r : Request B) (f : service) : Prop := {
  ful_grows : respects grows (f r);
  ful_done s s' : I s -> f r s = (Done tt, s') ->
    I s' /\ exists w, delivered (env s') = delivered (env s) ++ w /\ A r w
}.

Class Honest (create : Request B -> result exn (option service)) (A : contract) (I : sess -> Prop) : Prop :=
  honest r f : m_callback r = None -> create r = Ok (Some f) -> fulfils A I r f.

Context (conf : timeouts) (strerror : Z -> bytes).
Context (create : Request B -> result exn (option service)) (A : contract) (I : sess -> Prop).
Context `{HI : !Steady I} `{HH : !Honest create A I}.

(** A request that got a service, and the answer to it. *)
Definition exchange (x : Request B * bytes) : Prop := (exists f, create x.1 = Ok (Some f)) /\ A x.1 x.2.

(** What follows the answers when the loop of the connection returns: nothing, the
    503 of a request nobody serves, or the answer to an exception; the exception
    came from reading a request or choosing its service, or from a service (or the
    503) that may have sent [w] already. *)
Inductive ending : bytes -> Prop :=
| kept_no_longer : ending []
| refused r : create r = Ok None -> ending (toString (-1) (response1 503))
| failed e (answered : bool) : ending (if answered then toString (-1) (error_response strerror e) else [])
| broken r o e w (answered : bool) : create r = Ok o ->
    ending (w ++ if answered then toString (-1) (error_response strerror e) else []).

Lemma steady_same s s' : body_state s' = body_state s -> writes (env s') = writes (env s) -> I s -> I s'.
Proof using HI. intros E1 E2. apply steady; [done|]. unfold writes_suffix. by rewrite E2. Qed.

(** One request. *)
Lemma serve_request_cases s :
  I s ->
  match serve_request conf create s with
  | (Done again, s') => I s' /\
      ((exists x, exchange x /\ delivered (env s') = delivered (env s) ++ x.2) \/
       again = false /\ (exists r, create r = Ok None) /\
         delivered (env s') = delivered (env s) ++ toString (-1) (response1 503))
  | (Raise e, s') => exists w, delivered (env s') = delivered (env s) ++ w /\ (w = [] \/ exists r o, create r = Ok o)
  | (_, s') => exists w, delivered (env s') = delivered (env s) ++ w
  end.
Proof.
  intros Hi. unfold serve_request, bind at 1.
  destruct (readHeaders_quiet s) as (E1 & E2 & E3). destruct (readHeaders s) as [[r|e| |] s1] eqn:Er; cbn in E1, E2, E3;
    [|exists []; rewrite app_nil_r; (split; [done|by left]) || done..].
  unfold bind at 1. unfold modify at 1. set (s2 := session_setKeepAlive _ s1).
  assert (Ed2 : delivered (env s2) = delivered (env s)) by done.
  assert (Hi2 : I s2) by (by apply (steady_same s)).
  unfold bind at 1. destruct (create r) as [[f|]|e] eqn:Ec; cbn [lift ret throw]; cycle 2.
  { exists []. rewrite app_nil_r. by auto. }
  - unfold bind at 1. unfold modify at 1. set (s3 := session_setSessionTimeout _ s2).
    assert (Hi3 : I s3) by (by apply (steady_same s2)).
    destruct (honest r f (readHeaders_callback _ _ _ Er) Ec) as [Hg Hd]. specialize (Hg s3). unfold bind at 1.
    destruct (f r s3) as [[[]|e| |] s4] eqn:Ef; cbn in Hg; destruct Hg as [[w Ew] Hs];
    change (delivered (env s3)) with (delivered (env s2)) in Ew; rewrite Ed2 in Ew;
      [|exists w; rewrite Ew; (split; [done|by eauto]) || done..].
    destruct (Hd s3 s4 Hi3 Ef) as (Hi4 & w' & Ew' & Ha). cbn. split; [by apply (steady_same s4)|].
    left. exists (r, w'). split; [split; [by eexists|done]|].
    cbn. rewrite Ew'. change (delivered (env s3)) with (delivered (env s2)). by rewrite Ed2.
  - unfold bind at 1. destruct (session_write_grows (toString (-1) (response1 503)) s2) as [[w Ew] Hs].
    destruct (session_write (toString (-1) (response1 503)) s2) as [[[]|e| |] s3] eqn:Es; cbn in Ew, Hs; cbn.
    + destruct (session_write_sent _ _ _ Es) as [Ed _].
      split; [apply (steady s2); [by eapply session_write_body|done|done]|]. right. rewrite <- Ed2. split_and!; [done|by exists r|done].
    + exists w. rewrite Ew, E1. eauto.
    + exists w. by rewrite Ew, E1.
    + exists w. by rewrite Ew, E1.
Qed.

(** The requests of a connection. *)
Lemma serve_loop_cases n s :
  I s ->
  exists xs w, Forall exchange xs /\
    match serve_loop conf create n s with
    | (Done _, s') => delivered (env s') = delivered (env s) ++ concat xs.*2 ++ w /\
        (w = [] \/ exists r, create r = Ok None /\ w = toString (-1) (response1 503))
    | (Raise e, s') => delivered (env s') = delivered (env s) ++ concat xs.*2 ++ w /\
        (w = [] \/ exists r o, create r = Ok o)
    | (_, s') => delivered (env s') = delivered (env s) ++ concat xs.*2 ++ w
    end.
Proof.
  revert s; induction n as [|n IH]; intros s Hi; cbn [serve_loop].
  { exists [], []. by rewrite app_nil_r. }
  pose proof (serve_request_cases s Hi) as Hc. unfold bind.
  destruct (serve_request conf create s) as [[again|e| |] s1]; [|destruct Hc as (w & Hk); by exists [], w|
    destruct Hc as (w & Ew); by exists [], w..].
  destruct Hc as (Hi1 & Hc). destruct again.
  - destruct Hc as [(x & Hx & Ex)|[[=] _]]. destruct (IH s1 Hi1) as (xs & w & Hxs & Hm).
    exists (x :: xs), w. split; [by apply Forall_cons|]. cbn. rewrite <- app_assoc, (app_assoc (delivered _)), <- Ex. exact Hm.
  - destruct Hc as [(x & Hx & Ex)|(_ & [r Hr] & Ed)]; cbn.
    + exists [x], []. split; [by apply Forall_singleton|]. cbn. rewrite !app_nil_r. by auto.
    + exists [], (toString (-1) (response1 503)). split; [done|]. split; [done|]. right. by exists r.
Qed.

Lemma error_answer e (s : sess) :
  match (can_write <-- gets m_can_write_errror ;;
         when can_write (session_write (toString (-1) (error_response strerror e)))) s with
  | (Done _, s') => exists answered : bool, delivered (env s') = delivered (env s) ++
      (if answered then toString (-1) (error_response strerror e) else [])
  | (_, s') => exists w, delivered (env s') = delivered (env s) ++ w
  end.
Proof.
  unfold bind, gets. destruct (m_can_write_errror s); cbn [when]; [|exists false; by rewrite app_nil_r].
  destruct (session_write_grows (toString (-1) (error_response strerror e)) s) as [Hd _].
  destruct (session_write (toString (-1) (error_response strerror e)) s) as [[[]|e'| |] s'] eqn:E; try exact Hd.
  exists true. by destruct (session_write_sent _ _ _ E).
Qed.

(** What the peer receives on a connection. *)
Definition transcript (s s' : sess) (complete : bool) : Prop :=
  exists xs w, Forall exchange xs /\ delivered (env s') = delivered (env s) ++ concat xs.*2 ++ w /\
    (complete = true -> ending w /\ closed (env s') = true).

(** Shutting the connection down adds nothing. *)
Lemma transcript_shutdown s s1 xs w :
  Forall exchange xs -> delivered (env s1) = delivered (env s) ++ concat xs.*2 ++ w -> ending w ->
  let '(o, s') := shutdown s1 in transcript s s' (match o with Done _ => true | _ => false end).
Proof.
  intros Hxs Ed He. destruct (shutdown_law s1) as (o & s' & -> & Es & Ho). exists xs, w.
  rewrite Es, Ed. split_and!; [done|done|]. destruct Ho as [[-> Hc]|[_ ->]]; [done|done].
Qed.

Lemma ioLoop_transcript s o s' :
  I s -> ioLoop conf strerror create s = (o, s') ->
  transcript s s' (match o with Done _ => true | _ => false end).
Proof.
  intros Hi. unfold ioLoop, serve. unfold bind at 1. unfold try_catch at 1.
  unfold bind at 1. unfold modify at 1. set (s1 := session_setSessionTimeout _ s). unfold bind at 1, gets at 1.
  assert (Hi1 : I s1) by (by apply (steady_same s)).
  destruct (serve_loop_cases (S (input_left s1)) s1 Hi1) as (xs & w & Hxs & Hc).
  destruct (serve_loop conf create (S (input_left s1)) s1) as [[[]|e| |] s2].
  - destruct Hc as [Ed Hk]. pose proof (transcript_shutdown s s2 xs w Hxs Ed) as Ht. intros E. rewrite E in Ht.
    apply Ht. destruct Hk as [-> |(r & Hr & ->)]; [constructor|by apply (refused r)].
  - destruct Hc as (Ed & Hk). pose proof (error_answer e s2) as He.
    assert (Hd : forall w' (s3 : sess), delivered (env s3) = delivered (env s2) ++ w' ->
      delivered (env s3) = delivered (env s) ++ concat xs.*2 ++ w ++ w').
    { intros w' s3 ->. rewrite Ed, <- !app_assoc. done. }
    destruct (bind (gets m_can_write_errror) _ s2) as [[[]|e'| |] s3];
      [|destruct He as [w' E]; intros [= <- <-]; exists xs, (w ++ w'); (split_and!; [done|by apply Hd|done])..].
    destruct He as [answered E]. pose proof (transcript_shutdown s s3 xs _ Hxs (Hd _ _ E)) as Ht. intros Es. rewrite Es in Ht.
    apply Ht. destruct Hk as [-> |(r & o' & Hr)]; [apply failed|by eapply broken].
  - intros [= <- <-]. by exists xs, w.
  - intros [= <- <-]. by exists xs, w.
Qed.
End Conversation.

(** * The list of plugins *)

Section Plugins.
Context {P B : Type} `{HP : HttpParser P}.
Abbreviation sess := (session P B).
Abbreviation service := (Request B -> M sess unit).
Abbreviation plugin := (ServerPlugin (Request B) service).

(** The answer of the plugin [create_session] chooses. *)
Definition plugins_contract (ps : list plugin) (A : plugin -> contract (B := B)) : contract := fun r w =>
  exists p, p ∈ ps /\ A p r w /\ (exists f, createSession p r = Ok (Some f)) /\
    forall q, q ∈ ps -> (m_order q < m_order p)%N -> refuses r q.

Lemma fulfils_impl (A A' : contract (B := B)) (I : sess -> Prop) r (f : service) :
  (forall w, A r w -> A' r w) -> fulfils A I r f -> fulfils A' I r f.
Proof.
  intros Ha [H1 H2]. split; [done|]. intros s s' Hi E.
  destruct (H2 s s' Hi E) as (Hi' & w & Ew & Hr). split; [done|]. exists w. auto.
Qed.

(** Plugins that are honest, sorted by their orders, are an honest server. *)
Lemma plugins_honest (ps : list plugin) A I :
  StronglySorted (fun a b => m_order a <= m_order b)%N ps ->
  Forall (fun p => Honest (createSession p) (A p) I) ps ->
  Honest (create_session ps) (plugins_contract ps A) I.
Proof.
  intros Hs Hh r f Hn Hc. destruct (create_session_sorted ps r Hs) as [[E _]|(p & Hp & _ & E & Hq)]; [congruence|].
  rewrite Hc in E. rewrite Forall_forall in Hh. eapply fulfils_impl; [|exact (Hh p Hp r f Hn E)].
  intros w Hw. exists p. split_and!; [done|done|by exists f|exact Hq].
Qed.
End Plugins.


(** * The static content plugin *)

(** The plugin's global variables, which all the connections share: [s_filesCache]
    and whether [s_filesCacheMutex] is held. *)
Definition globals : Type := @LruCache bytes (option FileMap) _ _ * bool.

Section Static.
Context {P : Type} `{HP : HttpParser P} `{T : Transport P globals} `{TL : !TransportLaws T} `{RL : !ReadLaws T}.
Context `{IO : IterationOrder} `{FS : FileSystem}.
Abbreviation sess := (session P globals).
Abbreviation stream := (session_stream (P := P) (B := globals) (T := T)).

(** A function of the plugin, run by a session. *)
Definition with_globals {X : Type} (m : M (static sess) X) : M sess X := fun s =>
  let '(o, x) := m (Static s (body_state s).1 (body_state s).2) in
  (o, set_body_state (s_filesCache x, s_filesCacheMutex x) (st_stream x)).

Context (s_urls : list (bytes * bytes)) (s_default_file : bytes) (s_allow_symlinks : bool) (s_customFields : Fields).

(** The plugin's [create_session]: the service with its arguments bound. *)
Definition static_service (r : Request globals) : result exn (option (Request globals -> M sess unit)) :=
  let* found := static_create_session s_urls r in
  Ok ((fun '(root, file, head) req => with_globals
         (static_content_session (A := stream) s_default_file s_allow_symlinks s_customFields root file head req)) <$> found).

(** The answer to a request of the plugin: perhaps a 100, then the file a path under
    the root has now, as its 200 response. *)
Definition static_contract : contract (B := globals) := fun r w =>
  exists root file head pre p f ka,
    static_create_session s_urls r = Ok (Some (root, file, head)) /\ interim pre /\
    under_root s_default_file root p /\ file_data (path_string p) = Ok (fm_data f) /\
    w = pre ++ toString ka (file_response s_customFields p f) ++ (if head : bool then [] else fm_data f).

(** What the plugin relies on: its cache is coherent with the disk. *)
Definition cached (s : sess) : Prop := coherent (body_state s).1.

#[global] Instance cached_steady : Steady cached.
Proof. intros s s' E _. unfold cached. by rewrite E. Qed.

(** The roots of the configuration are absolute paths. *)
Definition absolute_roots : Prop := Forall (fun u => head u.2 = Some sep) s_urls.

Lemma parse_path_absolute dir : head dir = Some sep -> root_dir (parse_path dir) = true.
Proof. intros E. cbn. by rewrite bool_decide_eq_true. Qed.

Lemma user_paths_absolute url dir root file :
  head dir = Some sep -> user_paths url dir = Ok (Some (root, file)) -> root_dir root = true.
Proof.
  intros Hd. unfold user_paths. set (pos := default _ _).
  destruct (unescape (take (pos - 2) (drop 2 url))) as [user|]; cbn [rbind]; [|done]. case_decide; [done|].
  match goal with |- context [rbind ?x _] => destruct x as [f|]; cbn [rbind]; [|done] end.
  intros [= <- _]. by apply append_absolute, append_absolute, parse_path_absolute.
Qed.

Lemma find_url_absolute url root file :
  absolute_roots -> find_url url s_urls = Ok (Some (root, file)) -> root_dir root = true.
Proof.
  unfold absolute_roots. induction 1 as [|[first dir] urls Hd _ IH]; cbn [find_url]; [done|].
  destruct (starts_with url first); [|exact IH].
  destruct (starts_with first (str "/~")); [by apply user_paths_absolute|].
  destruct (unescape _); cbn [rbind]; [|done]. intros [= <- _]. by apply parse_path_absolute.
Qed.

(** ** What the service does to the session *)

Definition sgrows (x x' : static sess) : Prop := grows (st_stream x) (st_stream x').

#[global] Instance sgrows_preorder : PreOrder sgrows.
Proof. split; unfold sgrows; [by intros x|intros x1 x2 x3 H1 H2; by etransitivity]. Qed.

Lemma with_stream_grows {X} (m : M sess X) : respects grows m -> respects sgrows (with_stream m).
Proof. intros Hm x. specialize (Hm (st_stream x)). unfold with_stream, sgrows. by destruct (m (st_stream x)). Qed.

Lemma same_stream_grows {X} (m : M (static sess) X) :
  (forall x, st_stream (m x).2 = st_stream x) -> respects sgrows m.
Proof. intros Hm x. unfold sgrows. by rewrite Hm. Qed.

Lemma with_lock_grows {X} (m : M (static sess) X) : respects sgrows m -> respects sgrows (with_lock m).
Proof.
  intros Hm x. unfold with_lock. destruct (s_filesCacheMutex x); [reflexivity|].
  specialize (Hm (Static (st_stream x) (s_filesCache x) true)).
  by destruct (m (Static (st_stream x) (s_filesCache x) true)) as [[]].
Qed.

#[local] Hint Extern 2 (respects sgrows (modify _)) => by apply same_stream_grows : effects.

Lemma map_file_grows p : respects sgrows (map_file p).
Proof.
  unfold map_file, set_cache. respecting.
Qed.

Lemma static_session_grows root file head req :
  respects sgrows (static_content_session (A := stream) s_default_file s_allow_symlinks s_customFields root file head req).
Proof.
  unfold static_content_session. apply respects_bind; [apply _|apply with_stream_grows; respecting|intros _].
  apply respects_bind; [apply _|apply respects_lift; apply _|intros p]. apply with_lock_grows.
  apply respects_bind; [apply _|apply map_file_grows|intros f].
  apply respects_bind; [apply _|apply with_stream_grows; respecting|intros _].
  apply respects_when; [apply _|]. apply with_stream_grows. respecting.
Qed.

Lemma static_honest :
  absolute_roots -> Honest static_service static_contract cached.
Proof.
  intros Hr r f _ Hc. unfold static_service in Hc.
  destruct (static_create_session s_urls r) as [[[[root file] head]|]|] eqn:Es; cbn in Hc; simplify_eq.
  assert (Hroot : root_dir root = true).
  { unfold static_create_session in Es. case_decide; [|done].
    destruct (find_url (m_url r) s_urls) as [[[root' file']|]|] eqn:Ef; cbn in Es; simplify_eq.
    by eapply find_url_absolute. }
  split.
  - intros s. pose proof (static_session_grows root file head r (Static s (body_state s).1 (body_state s).2)) as Hg.
    unfold with_globals. by destruct (static_content_session _ _ _ _ _ _ _ _).
  - intros s s' Hi E. unfold with_globals in E.
    destruct (static_content_session _ _ _ _ _ _ _ _) as [o x] eqn:Ex. injection E as -> <-.
    destruct (static_serves_spec _ _ _ _ _ _ _ (Static s (body_state s).1 (body_state s).2) x Hroot Hi Ex)
      as (Hc & _ & r' & s1 & p & fm & Hread & Hu & Hf & Hsent).
    split; [done|]. destruct (read_request_spec (L := session_stream_laws (T := T)) r s r' s1 I Hread) as (pre & Hpre & Epre & Hg1 & _).
    destruct (Hsent Hg1) as [ka Eka]. cbn in Epre, Eka. exists (pre ++ toString ka (file_response s_customFields p fm) ++
      (if head : bool then [] else fm_data fm)).
    split; [etransitivity; [exact Eka|]; by rewrite Epre, <- app_assoc|]. by exists root, file, head, pre, p, fm, ka.
Qed.
End Static.

(** * The status page *)

Section Status.
Context {P B : Type} `{HP : HttpParser P} `{T : Transport P B} `{TL : !TransportLaws T} `{RL : !ReadLaws T}.
Context `{IO : IterationOrder}.
Abbreviation sess := (session P B).
Abbreviation stream := (session_stream (P := P) (B := B) (T := T)).
Context (strerror : Z -> bytes) (stats : Request B -> statistics).

Definition status_service (r : Request B) : result exn (option (Request B -> M sess unit)) :=
  Ok (status_createSession (A := stream) strerror (stats r) r).

(** A response as far as the socket took it. *)
Definition part_of (res : Response) (w : bytes) : Prop := exists ka k, w = take k (toString ka res).

(** The page, cut short if writing it failed, or the answer to the error that
    reading the request ended with. *)
Definition status_contract : contract (B := B) := fun r w =>
  m_url r = str "/server_status" /\ m_method r = str "GET" /\
  exists pre page, part_of (response1 100) pre /\ w = pre ++ page /\
    (part_of (status_response (stats r)) page \/ exists e ka, page = toString ka (status_error strerror e)).

Lemma write_response_part res (s : sess) :
  exists ka k, delivered (env (write_response (A := stream) res s).2) = delivered (env s) ++ take k (toString ka res) /\
    ((write_response (A := stream) res s).1 = Done tt -> k = length (toString ka res)).
Proof.
  assert (Hw : forall b s0, delivered (env s0) = delivered (env s) -> exists k,
    delivered (env (session_write b s0).2) = delivered (env s) ++ take k b /\
    ((session_write b s0).1 = Done tt -> k = length b)).
  { intros b s0 E0. destruct (write_loop_spec (write_fuel s0) b s0) as (o & s' & E & k & _ & Hd & Hk);
      [unfold rounds, write_fuel; lia|].
    exists k. unfold session_write. rewrite E.
    split; [cbn; by rewrite Hd, E0|]. cbn. by intros ->. }
  unfold write_response, when. unfold bind at 1 2 3 4 5 6.
  destruct (negb (m_keep_alive res =? -1)%Z), (negb (m_contentLength res =? ChunkedData)%Z); cbn [skip ret modify gets];
    eexists; apply Hw; done.
Qed.

Lemma write_keeps_body b (s : sess) : body_state (write (AbstractStream := stream) b s).2 = body_state s.
Proof. exact (write_loop_body (write_fuel s) b s). Qed.

Lemma write_response_body res (s : sess) : body_state (write_response (A := stream) res s).2 = body_state s.
Proof.
  unfold write_response, when. unfold bind at 1 2 3.
  destruct (negb (m_keep_alive res =? -1)%Z), (negb (m_contentLength res =? ChunkedData)%Z); cbn [skip ret modify gets];
    by rewrite write_keeps_body.
Qed.

Lemma read_quiet r (s : sess) :
  m_callback r = None ->
  delivered (env (read (AbstractStream := stream) r s).2) = delivered (env s) /\ body_state (read (AbstractStream := stream) r s).2 = body_state s.
Proof.
  intros Hn. destruct (session_read_reads r s) as (E1 & _ & parts & E3). split; [done|].
  destruct parts as [|p parts]; cbn in E3; [by injection E3 as ->|]. unfold appendBody in E3. by rewrite Hn in E3.
Qed.

Lemma read_request_part r (s : sess) :
  m_callback r = None ->
  exists pre, part_of (response1 100) pre /\
    delivered (env (read_request (A := stream) r s).2) = delivered (env s) ++ pre /\
    body_state (read_request (A := stream) r s).2 = body_state s.
Proof.
  intros Hn. assert (H0 : part_of (response1 100) []) by (by exists 0%Z, 0).
  unfold read_request, bind. case_decide; [destruct (_ && _)%bool|].
  - exists []. rewrite app_nil_r. by split_and!.
  - destruct (write_response_part (response1 100) s) as (ka & k & Ed & _).
    pose proof (write_response_body (response1 100) s) as Eb.
    exists (take k (toString ka (response1 100))). split; [by exists ka, k|].
    destruct (write_response (A := stream) (response1 100) s) as [[[]|e| |] s1]; cbn in Ed, Eb; try done.
    destruct (read_quiet r s1 Hn) as [E1 E2]. split; [by etransitivity; [exact E1|]|by etransitivity; [exact E2|]].
  - cbn. destruct (read_quiet r s Hn) as [E1 E2]. exists []. rewrite app_nil_r. by split_and!.
Qed.

Lemma writeResponse_grows st (r : Request B) :
  respects grows (writeResponse (A := stream) strerror st r).
Proof. unfold writeResponse. respecting. Qed.

Lemma status_honest (I : sess -> Prop) `{!Steady I} : Honest status_service status_contract I.
Proof.
  intros r f Hn Hc. unfold status_service, status_createSession in Hc. case_decide as Hr; [|done]. injection Hc as <-.
  split; [apply writeResponse_grows|]. intros s s' Hi E.
  pose proof (writeResponse_grows (stats r) r s) as [_ Hsuf]. rewrite E in Hsuf. cbn [snd] in Hsuf.
  assert (Hst : body_state s' = body_state s -> I s') by (intros; by apply (steady s)). unfold writeResponse, try_catch, bind in E.
  destruct (read_request_part r s Hn) as (pre & Hp & Ed & Eb).
  destruct (read_request (A := stream) r s) as [[r'|e| |] s1]; cbn in Ed, Eb; try done.
  - cbv beta iota delta [ret skip] in E. destruct (write_response_part (status_response (stats r)) s1) as (ka & k & Ew & _).
    pose proof (write_response_body (status_response (stats r)) s1) as Ebw.
    assert (Es : (write_response (A := stream) (status_response (stats r)) s1).2 = s').
    { destruct (write_response _ s1) as [[[]|e| |] s2]; by simplify_eq/=. }
    rewrite Es in Ew, Ebw. split; [apply Hst; by rewrite Ebw, Eb|].
    eexists. split; [by rewrite Ew, Ed, <- app_assoc|]. split; [apply Hr|]. split; [apply Hr|].
    eexists pre, _. split; [done|]. split; [done|]. left. by exists ka, k.
  - destruct (write_response_part (status_error strerror e) s1) as (ka & k & Ew & Hk).
    pose proof (write_response_body (status_error strerror e) s1) as Ebw.
    destruct (write_response _ s1) as [[[]|e'| |] s2]; cbn [fst snd] in Ew, Ebw, Hk; try done. injection E as <-.
    split; [apply Hst; by rewrite Ebw, Eb|]. rewrite (Hk eq_refl), firstn_all in Ew.
    eexists. split; [by rewrite Ew, Ed, <- app_assoc|]. split; [apply Hr|]. split; [apply Hr|].
    eexists pre, _. split; [done|]. split; [done|]. right. by exists e, ka.
Qed.
End Status.

(** * A server of static files *)

Section Site.
Context {P : Type} `{HP : HttpParser P} `{T : Transport P globals} `{TL : !TransportLaws T} `{RL : !ReadLaws T}.
Context `{IO : IterationOrder} `{FS : FileSystem} `{TR : Translators}.
Abbreviation sess := (session P globals).
(** What [boost::property_tree] makes of the plugin's file in a configuration
    directory, and what it throws for a missing node. *)
Context (read_conf : bytes -> result exn ptree) (bad_path : bytes -> exn).

(** The plugin's variables once [init_plugin] has run. *)
Definition site_settings (confDir : bytes) : settings :=
  (StaticInit.init_plugin bad_path (read_conf confDir) new_settings).2.

Definition site_create (confDir : bytes) : Request globals -> result exn (option (Request globals -> M sess unit)) :=
  let st := site_settings confDir in
  static_service (s_urls st) (s_default_file st) (s_allow_symlinks st) (s_customFields st).

(** The plugin's library, in a server whose configuration directory is
    [confDir]. *)
Definition static_library (confDir : bytes) : library (Request globals) (Request globals -> M sess unit) := {|
  Plugins.init_plugin := Some (fun dir => match (StaticInit.init_plugin bad_path (read_conf dir) new_settings).1 with
                                  | Done loaded => Ok loaded
                                  | Raise e => Throw e
                                  | _ => Throw ex_other
                                  end);
  lib_create_session := Some (site_create confDir);
  Plugins.plugin_order := Some (Z.to_N StaticInit.plugin_order);
  Plugins.destory_plugin := true
|}.

Context (strerror : Z -> bytes) (stats : Request globals -> statistics) (confDir : bytes).

Definition site_contract : contract (B := globals) := fun r w =>
  if decide (m_url r = str "/server_status" /\ m_method r = str "GET") then status_contract strerror stats r w
  else static_contract (s_urls (site_settings confDir)) (s_default_file (site_settings confDir))
         (s_customFields (site_settings confDir)) r w.

(** The contract of an installed plugin. *)
Definition plugin_contract (p : ServerPlugin (Request globals) (Request globals -> M sess unit)) : contract :=
  if decide (m_order p = status_order) then status_contract strerror stats
  else static_contract (s_urls (site_settings confDir)) (s_default_file (site_settings confDir))
         (s_customFields (site_settings confDir)).

Lemma offered_static h p :
  p ∈ offered confDir h (Some (static_library confDir)) ->
  createSession p = site_create confDir /\ m_order p = Z.to_N UINT32_MAX.
Proof.
  unfold offered, loadable. cbn [Plugins.init_plugin lib_create_session Plugins.plugin_order static_library].
  destruct (StaticInit.init_plugin _ _ _).1 as [[]|e| |]; intros Hp; try by apply elem_of_nil in Hp.
  by apply list_elem_of_singleton in Hp as ->.
Qed.

Lemma site_plugins p :
  p ∈ available confDir [Some (static_library confDir)] ++ status_plugins (Some (status_service strerror stats)) ->
  createSession p = site_create confDir /\ m_order p = Z.to_N UINT32_MAX \/
  createSession p = status_service strerror stats /\ m_order p = status_order.
Proof.
  unfold available. cbn [imap mjoin]. intros [Hp|Hp]%elem_of_app.
  - left. eapply (offered_static 0). cbn in Hp. by rewrite app_nil_r in Hp.
  - right. by apply list_elem_of_singleton in Hp as ->.
Qed.

Lemma site_honest p :
  absolute_roots (s_urls (site_settings confDir)) ->
  p ∈ available confDir [Some (static_library confDir)] ++ status_plugins (Some (status_service strerror stats)) ->
  Honest (createSession p) (plugin_contract p) cached.
Proof.
  intros Hr Hp. unfold plugin_contract. destruct (site_plugins p Hp) as [[-> ->]|[-> ->]].
  - rewrite decide_False by done. by apply static_honest.
  - rewrite decide_True by done. apply (status_honest _ _ cached).
Qed.

(** The status page has the lesser order. *)
Lemma site_chosen ps r w :
  ps ≡ₚ available confDir [Some (static_library confDir)] ++ status_plugins (Some (status_service strerror stats)) ->
  plugins_contract ps plugin_contract r w -> site_contract r w.
Proof.
  intros Hps (p & Hp & Hc & [f Hf] & Hq). unfold site_contract, plugin_contract in *. rewrite Hps in Hp.
  destruct (site_plugins p Hp) as [[Ep Eo]|[Ep Eo]]; rewrite Eo in Hc.
  - rewrite decide_False in Hc by done. rewrite decide_False; [done|]. intros Hs.
    assert (Hr : refuses r (internal_plugin (status_service strerror stats) status_order)).
    { apply Hq; [rewrite Hps; apply elem_of_app; right; by apply list_elem_of_singleton|]. by rewrite Eo. }
    unfold refuses, status_service, status_createSession in Hr. cbn in Hr. by rewrite decide_True in Hr.
  - rewrite decide_True in Hc by done. rewrite decide_True; [done|]. by destruct Hc as (? & ? & _).
Qed.
End Site.

Lemma installed {R F} sort (libs : list (option (library R F))) confDir status h :
  sorts sort -> install_plugins sort libs confDir status new_host = (Done tt, h) ->
  m_plugins h ≡ₚ available confDir libs ++ status_plugins status /\
  StronglySorted (fun a b => m_order a <= m_order b)%N (m_plugins h).
Proof.
  intros Hs E. destruct (install_plugins_run sort libs confDir status Hs) as (n & o & ps & more & E' & _ & Hp & Ho).
  rewrite E in E'. injection E' as <- ->.
  destruct Ho as [(_ & -> & -> & _ & Hsort)|(e & lib & [=] & _)]. rewrite firstn_all in Hp. by split.
Qed.

Lemma server_transcript {P B} `{HttpParser P} `{T : Transport P B} `{!TransportLaws T} `{!ReadLaws T} `{IterationOrder}
    conf strerror sort (libs : list (option (library (Request B) (Request B -> M (session P B) unit)))) confDir status
    (A : ServerPlugin (Request B) (Request B -> M (session P B) unit) -> contract) I `{!Steady I} h (s s' : session P B) o :
  sorts sort ->
  Forall (fun p => Honest (createSession p) (A p) I) (available confDir libs ++ status_plugins status) ->
  install_plugins sort libs confDir status new_host = (Done tt, h) ->
  I s -> ioLoop conf strerror (create_session (m_plugins h)) s = (o, s') ->
  transcript strerror (create_session (m_plugins h)) (plugins_contract (m_plugins h) A) s s'
    (match o with Done _ => true | _ => false end).
Proof.
  intros Hs Hh E Hi Hr. destruct (installed sort libs confDir status h Hs E) as [Hp Hsort].
  rewrite <- Hp in Hh. pose proof (plugins_honest (m_plugins h) A I Hsort Hh) as HH.
  by eapply ioLoop_transcript.
Qed.

(** * Examples *)

(** A site with one file, and a peer that asks for it, for the status page, and
    then resets the connection. *)
Definition site_conf (_ : bytes) : result exn ptree :=
  Ok (Node [] [(str "paths", Node [] [(str "/", Node (str "/var/www") [])]); (str "custom_headers", Node [] []);
               (str "default_file", Node (str "index.html") [])]).

Definition site_bad_path (path : bytes) : exn := ex_std (runtime_error path).

Definition site_connection : session nat globals := {|
  m_keepAlive := 0; m_sessionTimeout := 0; m_sessionTimeoutTimePoint := 0; m_parser := 0;
  m_can_write_errror := false; m_httpParserBuffer := empty; sharedReadBuffer := reset (CharBuffer.make 64);
  m_peerAddress := []; wmem_max := 64; on_loop_thread := true; body_state := (LruCache.make 100, false); served := 0;
  env := {| yield_value := 0; clock := 1000; sndbuf := 8; rcvbuf := 8; sockopt_buffer := fun z => Some (2 * Z.to_nat z);
            reads := [Arrived (get_request (str "/index.html")); Arrived (get_request (str "/server_status")); ReadError 104];
            writes := [Accept 6; AcceptAll; AcceptAll; Accept 0; Accept 9; AcceptAll; AcceptAll];
            resumes := []; ssl_calls := [(1, 0)%Z]; received := []; delivered := []; closed := false |} |}.

(** The transport of the connection: TLS. *)
Abbreviation site_tls := (@SslSocketSession nat globals sample_timeouts true).
Abbreviation site_library :=
  (@static_library nat line_parser site_tls listed_order one_file sample_translators site_conf site_bad_path []).
Abbreviation site_status := (@status_service nat globals line_parser site_tls listed_order (fun _ => []) (fun _ => sample_stats)).
Abbreviation site_host :=
  (install_plugins sort_plugins [Some site_library] [] (Some site_status) new_host).2.
Abbreviation site_run :=
  (@ioLoop nat globals line_parser site_tls listed_order sample_timeouts (fun _ => []) (create_session (m_plugins site_host))
     site_connection).

Lemma site_run_done : site_run.1 = Done tt.
Proof. vm_compute. reflexivity. Qed.

Lemma site_run_ends : site_run = (Done tt, site_run.2).
Proof. rewrite (surjective_pairing site_run) at 1. by rewrite site_run_done. Qed.

Lemma site_installed :
  install_plugins sort_plugins [Some site_library] [] (Some site_status) new_host = (Done tt, site_host).
Proof.
  assert (E : (install_plugins sort_plugins [Some site_library] [] (Some site_status) new_host).1 = Done tt)
    by (vm_compute; reflexivity).
  rewrite (surjective_pairing (install_plugins _ _ _ _ _)) at 1. by rewrite E.
Qed.

Lemma site_cached : @cached nat one_file site_connection.
Proof. exact empty_static_coherent. Qed.

Lemma site_roots : absolute_roots (s_urls (@site_settings sample_translators site_conf site_bad_path [])).
Proof. vm_compute. by repeat constructor. Qed.


(** * Properties *)




