(* ===== verification/Connection.v ===== *)
(** The coroutine of a connection and how it is made to end: [ServerSession::ioLoop]
    and [quitIoLoop] of src/server/serversession.h.

    [quitIoLoop] resumes the coroutine with an error code until it has ended.  How many
    resumptions that takes depends on everything the coroutine may be doing: the
    handshake of TLS, the reading of a request, a service, the answer to an exception,
    the closing handshake.  [quits n z m] bounds what a computation makes of errors: it
    takes at most [n] of them in a row at its end, at most [z] when it returns normally,
    fewer than [n] when it waits, and it waits only while nothing resumes it.  The bounds of the parts add up to the
    bound of the coroutine. *)

From Stdlib Require Import Ascii String NArith ZArith Lia.
From stdpp Require Import base gmap strings list sorting.
From S2P Require Import Prelude Url LruCache CharBuffer Http Effects Stream Transport Session Config Server Plugins StaticContent StaticInit EndToEnd.
Local Open Scope getodac_scope.

(** * ServerSession::ioLoop *)

(** The template argument of [ServerSession]: [SocketSession], or [SslSocketSession] with
    what [SSL_is_init_finished] says after the handshake. *)
Inductive socket_stream_kind : Type :=
| Plain
| Tls (init_finished : bool).

Section Coroutine.
Context {P B : Type} (conf : timeouts) (kind : socket_stream_kind).
Abbreviation sess := (session P B).

Definition SocketStream : Transport P B :=
  match kind with Plain => SocketSession | Tls fin => SslSocketSession conf fin end.

(** [std::make_unique<SocketStream>] *)
Definition construct : M sess unit :=
  match kind with Plain => skip | Tls fin => ssl_accept conf fin end.

Context `{HP : HttpParser P} `{IO : IterationOrder} (strerror : Z -> bytes).
Context (create : Request B -> result exn (option (Request B -> M sess unit))).

(** The body of the coroutine; true when the [catch] clause asks the event loop to delete
    the session. *)
Definition session_ioLoop : M sess bool :=
  try_catch (construct >>> ioLoop (T := SocketStream) conf strerror create >>> ret false) (fun _ => ret true).
End Coroutine.

(** * Runs of errors *)

(** The number of errors in a row at the end of [u], when [n] preceded it. *)
Definition trail (n : nat) (u : list resumption) : nat :=
  foldl (fun n r => if (r_ec r =? 0)%Z then 0 else S n) n u.

(** The value of the last [m_yield().get()]. *)
Definition last_yield (z : Z) (u : list resumption) : Z := foldl (fun _ r => r_ec r) z u.

Lemma trail_le n u : trail n u <= n + trail 0 u.
Proof.
  induction u as [|r u IH] using rev_ind; [cbn; lia|]. unfold trail in *. rewrite !foldl_app. cbn.
  destruct (r_ec r =? 0)%Z; lia.
Qed.

Lemma trail_app u v : trail 0 (u ++ v) <= trail 0 u + trail 0 v.
Proof. unfold trail at 1. rewrite foldl_app. apply trail_le. Qed.

Lemma trail_errors n u v : Forall (fun r => r_ec r <> 0%Z) v -> length v <= trail n (u ++ v).
Proof.
  induction v as [|r v IH] using rev_ind; intros H; [cbn; lia|]. apply Forall_app in H as [Hv Hr]. apply Forall_cons in Hr as [Hr _].
  specialize (IH Hv). unfold trail in *. rewrite app_assoc, foldl_app. cbn. rewrite (proj2 (Z.eqb_neq _ _)) by done.
  rewrite length_app. cbn. lia.
Qed.

(** No errors at the end when the last value was none. *)
Lemma trail_last z u : last_yield z u = 0%Z -> trail 0 u = 0.
Proof.
  destruct u as [|r u] using rev_ind; [done|]. unfold last_yield, trail. rewrite !foldl_app. cbn. by intros ->.
Qed.

(** * Bounds *)

Section Quits.
Context {S : Type} (k : S -> sock).

Definition quits_at {A} (n z : nat) (m : M S A) (s : S) : Prop :=
  exists u, resumes (k s) = u ++ resumes (k (m s).2) /\
    yield_value (k (m s).2) = last_yield (yield_value (k s)) u /\
    trail 0 u <= n /\ (forall a, (m s).1 = Done a -> trail 0 u <= z) /\
    ((m s).1 = Suspended -> resumes (k (m s).2) = [] /\ trail 0 u < n).

Definition quits {A} (n z : nat) (m : M S A) : Prop := forall s, quits_at n z m s.

Lemma quits_at_weaken {A} n z n' z' (m : M S A) s :
  n <= n' -> z <= z' -> quits_at n z m s -> quits_at n' z' m s.
Proof.
  intros Hn Hz (u & E & Ey & H1 & H2 & H3). exists u. split_and!; [done|done|lia| |].
  - intros a Ea. specialize (H2 a Ea). lia.
  - intros Es. destruct (H3 Es). split; [done|lia].
Qed.

(** What neither waits nor sees a resumption. *)
Lemma quits_still {A} (m : M S A) s :
  resumes (k (m s).2) = resumes (k s) -> yield_value (k (m s).2) = yield_value (k s) -> (m s).1 <> Suspended ->
  quits_at 0 0 m s.
Proof. intros E1 E2 E3. exists []. cbn. split_and!; [done|done|lia|by intros|done]. Qed.

Lemma quits_at_bind {A C} n z n' z' (m : M S A) (f : A -> M S C) s :
  quits_at n z m s -> (forall a s1, m s = (Done a, s1) -> quits_at n' z' (f a) s1) ->
  quits_at (Nat.max n (z + n')) (z + z') (bind m f) s.
Proof.
  intros (u & E & Ey & H1 & H2 & H3) Hf. unfold quits_at, bind. destruct (m s) as [[a|e| |] s1]; cbn in *.
  2-4: exists u; split_and!; solve [done | lia | intros _; destruct (H3 eq_refl); split; [done|lia]].
  destruct (Hf a s1 eq_refl) as (v & Ev & Eyv & G1 & G2 & G3). exists (u ++ v).
  pose proof (trail_app u v). specialize (H2 a eq_refl). split_and!.
  - by rewrite E, Ev, app_assoc.
  - unfold last_yield in *. by rewrite foldl_app, <- Ey.
  - lia.
  - intros c Ec. specialize (G2 c Ec). lia.
  - intros Es. destruct (G3 Es). split; [done|lia].
Qed.

Lemma quits_at_try {A} n z n' z' (m : M S A) h s :
  quits_at n z m s -> (forall e s1, m s = (Raise e, s1) -> quits_at n' z' (h e) s1) ->
  quits_at (n + n') (Nat.max z (n + z')) (try_catch m h) s.
Proof.
  intros (u & E & Ey & H1 & H2 & H3) Hh. unfold quits_at, try_catch. destruct (m s) as [[a|e| |] s1]; cbn in *.
  - exists u. specialize (H2 a eq_refl). split_and!; [done|done|lia| |done]. intros; lia.
  - destruct (Hh e s1 eq_refl) as (v & Ev & Eyv & G1 & G2 & G3). exists (u ++ v).
    pose proof (trail_app u v). split_and!.
    + by rewrite E, Ev, app_assoc.
    + unfold last_yield in *. by rewrite foldl_app, <- Ey.
    + lia.
    + intros c Ec. specialize (G2 c Ec). lia.
    + intros Es. destruct (G3 Es). split; [done|lia].
  - exists u. split_and!; solve [done | lia | intros _; destruct (H3 eq_refl); split; [done|lia]].
  - exists u. split_and!; (done || lia).
Qed.

(** Code that an error always ends. *)
Abbreviation curt := (quits 1 0).

Lemma curt_bind {A C} (m : M S A) (f : A -> M S C) : curt m -> (forall a, curt (f a)) -> curt (bind m f).
Proof. intros Hm Hf s. apply (quits_at_bind 1 0 1 0); [apply Hm|]. intros a s1 _. apply Hf. Qed.

Lemma still_curt {A} (m : M S A) :
  (forall s, resumes (k (m s).2) = resumes (k s) /\ yield_value (k (m s).2) = yield_value (k s) /\ (m s).1 <> Suspended) ->
  curt m.
Proof. intros Hm s. destruct (Hm s) as (? & ? & ?). apply (quits_at_weaken 0 0); [lia|lia|]. by apply quits_still. Qed.

Lemma curt_ret {A} (a : A) : curt (ret a).
Proof. by apply still_curt. Qed.
Lemma curt_throw {A} e : curt (@throw S A e).
Proof. by apply still_curt. Qed.
Lemma curt_undefined {A} : curt (@undefined S A).
Proof. by apply still_curt. Qed.
Lemma curt_gets {A} (f : S -> A) : curt (gets f).
Proof. by apply still_curt. Qed.
Lemma curt_lift {A} (r : result exn A) : curt (lift r).
Proof. apply still_curt. by destruct r. Qed.
Lemma curt_when b (m : M S unit) : curt m -> curt (when b m).
Proof. destruct b; [done|]. intros _. apply curt_ret. Qed.
End Quits.

Abbreviation curt k := (quits k 1 0).

(** [curt_db] holds the operations; [curtly] takes a computation apart down to them. *)
Create HintDb curt_db.
#[export] Hint Resolve curt_ret curt_throw curt_undefined curt_gets curt_lift : curt_db.
#[export] Hint Extern 2 (quits _ 1 0 (modify _)) => by apply still_curt : curt_db.
#[export] Hint Extern 2 (quits _ 1 0 skip) => apply curt_ret : curt_db.

Ltac curt_step :=
  match goal with
  | |- quits _ 1 0 _ => solve [eauto 2 with curt_db]
  | |- quits _ 1 0 (bind _ _) => apply curt_bind; [|intros ?]
  | |- quits _ 1 0 (when _ _) => apply curt_when
  | |- quits _ 1 0 _ => case_match
  end.

Ltac curtly := repeat curt_step.

(** * The session *)

(** What quitting needs of a transport: reading never waits, and an error ends the
    closing handshake. *)
Class QuitLaws {P B} (T : Transport P B) : Prop := {
  readSome_returns s : (readSome s).1 <> Suspended;
  shutdown_quits : quits env 1 1 shutdown
}.

Section Session.
Context {P B : Type} `{HP : HttpParser P} `{T : Transport P B} `{TL : !TransportLaws T} `{RL : !ReadLaws T} `{QL : !QuitLaws T}.
Abbreviation sess := (session P B).
Abbreviation stream := (session_stream (P := P) (B := B) (T := T)).

Lemma yield_quits : quits (S := sess) env 1 1 Transport.yield.
Proof.
  intros s. unfold quits_at, Transport.yield. destruct (resumes (env s)) as [|r rs] eqn:E.
  - exists []. cbn. split_and!; solve [done | lia | split; [done|lia]].
  - exists [r]. cbn. assert (H : (if (r_ec r =? 0)%Z then 0 else 1) <= 1) by (case_match; lia). by split_and!.
Qed.

Lemma yield_or_throw_curt : curt env (yield_or_throw (P := P) (B := B)).
Proof.
  intros s. unfold quits_at, yield_or_throw, bind, Transport.yield. destruct (resumes (env s)) as [|r rs] eqn:E.
  - exists []. cbn. split_and!; solve [done | lia | split; [done|lia]].
  - exists [r]. cbn. destruct (r_ec r =? 0)%Z; cbn; split_and!; (done || lia || by intros).
Qed.

Lemma writeSome_curt b : curt env (writeSome (Transport := T) b).
Proof.
  apply still_curt. intros s. destruct (writeSome_law b s) as (r & s' & -> & _ & (_ & Ey) & Er & _). by split_and!.
Qed.

Lemma writeSomeV_curt bs : curt env (writeSomeV (Transport := T) bs).
Proof.
  apply still_curt. intros s. destruct (writeSomeV_law bs s) as (r & s' & -> & _ & (_ & Ey) & Er & _). by split_and!.
Qed.

Lemma readSome_curt : curt env (readSome (Transport := T)).
Proof.
  apply still_curt. intros s. destruct (readSome_silent s) as (_ & _ & _ & Er & Ey). split_and!; [done|done|].
  apply readSome_returns.
Qed.

#[local] Hint Resolve yield_or_throw_curt writeSome_curt writeSomeV_curt readSome_curt : curt_db.

Lemma write_loop_curt fuel b : curt env (write_loop fuel b).
Proof. revert b; induction fuel as [|fuel IH]; intros [|c b]; cbn [write_loop]; curtly; apply IH. Qed.

Lemma writev_loop_curt fuel bs : curt env (writev_loop fuel bs).
Proof. revert bs; induction fuel as [|fuel IH]; intros bs; cbn [writev_loop]; curtly; apply IH. Qed.

Lemma session_write_curt b : curt env (session_write b).
Proof. intros s. apply (write_loop_curt (write_fuel s) b s). Qed.

Lemma execute_curt d b : curt env (execute (P := P) (B := B) d b).
Proof. apply still_curt. intros s. unfold execute. by destruct (callbacks _ _) as [[]|]. Qed.

Lemma shared_curt f : curt env (shared (P := P) (B := B) f).
Proof. apply still_curt. intros s. unfold shared. by destruct (f _). Qed.

Lemma keep_rest_curt : curt env (keep_rest (P := P) (B := B)).
Proof. apply still_curt. intros s. unfold keep_rest. by case_match. Qed.

#[local] Hint Resolve execute_curt shared_curt keep_rest_curt session_write_curt : curt_db.

Lemma headers_lines_curt fuel d : curt env (headers_lines (P := P) (B := B) fuel d).
Proof. revert d; induction fuel as [|fuel IH]; intros d; cbn [headers_lines]; curtly; apply IH. Qed.

#[local] Hint Resolve headers_lines_curt : curt_db.

Lemma readHeaders_loop_curt fuel d : curt env (readHeaders_loop (P := P) (B := B) fuel d).
Proof.
  revert d; induction fuel as [|fuel IH]; intros d; cbn [readHeaders_loop];
    unfold headers_received, shared_append, sharedReset; curtly; apply IH.
Qed.

Lemma read_loop_curt fuel d : curt env (read_loop (P := P) (B := B) fuel d).
Proof.
  revert d; induction fuel as [|fuel IH]; intros d; cbn [read_loop];
    unfold read_received, shared_append, sharedReset; curtly; apply IH.
Qed.

#[local] Hint Resolve readHeaders_loop_curt read_loop_curt : curt_db.

Lemma readHeaders_curt : curt env (readHeaders (P := P) (B := B)).
Proof. unfold readHeaders. curtly. Qed.

Lemma read_curt r : curt env (read (AbstractStream := stream) r).
Proof. change (curt env (session_read (T := T) r)). unfold session_read, read_pending. curtly. Qed.

Lemma write_curt b : curt env (write (AbstractStream := stream) b).
Proof. exact (session_write_curt b). Qed.

#[local] Hint Resolve readHeaders_curt read_curt write_curt : curt_db.

Context `{IO : IterationOrder}.

Lemma write_response_curt res : curt env (write_response (A := stream) res).
Proof. unfold write_response. curtly. Qed.

#[local] Hint Resolve write_response_curt : curt_db.

Lemma read_request_curt r : curt env (read_request (A := stream) r).
Proof. unfold read_request. curtly. Qed.

(** * The loop of a connection *)

(** What the loop needs to know of whoever finds its services: each takes at most [n]
    errors in a row, and keeps the invariant [I]. *)
Class Prompt (create : Request B -> result exn (option (Request B -> M sess unit))) (I : sess -> Prop) (n : nat) : Prop :=
  prompt r f : m_callback r = None -> create r = Ok (Some f) -> forall s, I s ->
    quits_at env n n (f r) s /\ (forall s', f r s = (Done tt, s') -> I s').

Context (conf : timeouts) (strerror : Z -> bytes).
Context (create : Request B -> result exn (option (Request B -> M sess unit))) (I : sess -> Prop) (n : nat).
Context `{HI : !Steady I} `{HPr : !Prompt create I n}.

(** A computation that an error ends, then [f]. *)
Lemma quits_at_after {A C} N z (m : M sess A) (f : A -> M sess C) s :
  1 <= N -> quits_at env 1 0 m s -> (forall a s1, m s = (Done a, s1) -> quits_at env N z (f a) s1) ->
  quits_at env N z (bind m f) s.
Proof. intros HN Hm Hf. eapply quits_at_weaken; [| |by apply (quits_at_bind _ 1 0 N z)]; lia. Qed.

(** A computation, then one that does not wait. *)
Lemma quits_at_then {A C} N z (m : M sess A) (f : A -> M sess C) s :
  z <= N -> quits_at env N z m s -> (forall a s1, m s = (Done a, s1) -> quits_at env 0 0 (f a) s1) ->
  quits_at env N z (bind m f) s.
Proof. intros HN Hm Hf. eapply quits_at_weaken; [| |by apply (quits_at_bind _ N z 0 0)]; lia. Qed.

(** No errors were the last ones when the last value was none. *)
Lemma quits_at_settled {A} N z (m : M sess A) s :
  quits_at env N z m s -> (forall a, (m s).1 = Done a -> yield_value (env (m s).2) = 0%Z) -> quits_at env N 0 m s.
Proof.
  intros (u & E & Ey & H1 & H2 & H3) Hs. exists u. split_and!; [done|done|done| |done].
  intros a Ea. rewrite (trail_last (yield_value (env s)) u); [done|]. rewrite <- Ey. by eapply Hs.
Qed.

Lemma serve_request_quits s :
  I s -> quits_at env (Nat.max 1 n) (Nat.max 1 n) (serve_request conf create) s /\
    (forall s', serve_request conf create s = (Done true, s') -> I s' /\ yield_value (env s') = 0%Z).
Proof.
  intros Hi. pose proof (readHeaders_quiet s) as (_ & E2 & E3).
  assert (Hs : forall r s1, readHeaders s = (Done r, s1) -> I s1).
  { intros r s1 E. rewrite E in E2, E3. by apply (steady_same I s). }
  unfold serve_request. split.
  - apply quits_at_after; [lia|apply readHeaders_curt|]. intros r s1 Er. specialize (Hs r s1 Er).
    apply quits_at_after; [lia|by apply still_curt|]. intros [] s2 [= <-]. set (s2 := session_setKeepAlive _ s1).
    apply quits_at_after; [lia|apply curt_lift|]. intros [f|] s3 [Ec ->]%lift_Done.
    + apply quits_at_after; [lia|by apply still_curt|]. intros [] s4 [= <-].
      apply quits_at_then; [lia| |by intros [] s5 _; apply quits_still].
      apply (quits_at_weaken _ n n); [lia|lia|]. apply (prompt r f); [by eapply readHeaders_callback|done|].
      by apply (steady_same I s1).
    + apply quits_at_then; [lia| |by intros [] s5 _; apply quits_still].
      apply (quits_at_weaken _ 1 0); [lia|lia|]. apply session_write_curt.
  - intros s' E. inv_done. match goal with H : readHeaders s = (Done ?r, ?s1) |- _ =>
      pose proof (Hs r s1 H) as Hs1; pose proof (readHeaders_callback _ _ _ H) as Hn end.
    match goal with H : lift _ _ = _ |- _ => apply lift_Done in H as [Ec ->] end.
    case_match; inv_done. match goal with H : ?f _ _ = (Done ?x, ?s4), H' : andb _ _ = true |- _ =>
      apply andb_prop in H' as [Hy%Z.eqb_eq _]; destruct x; split; [|exact Hy]; apply (steady_same I s4); [done|done|];
      eapply (prompt _ _ Hn Ec); [|exact H] end.
    by eapply (steady_same I); [| |exact Hs1].
Qed.

Lemma serve_loop_quits rounds s :
  I s -> quits_at env (Nat.max 1 n) (Nat.max 1 n) (serve_loop conf create rounds) s.
Proof.
  revert s; induction rounds as [|rounds IH]; intros s Hi; cbn [serve_loop].
  { apply (quits_at_weaken _ 0 0); [lia|lia|]. by apply quits_still. }
  destruct (serve_request_quits s Hi) as [Hq Ht].
  destruct (serve_request conf create s) as [[[]|e| |] s1] eqn:E.
  2-5: apply quits_at_then; [lia|exact Hq|]; intros [] s2 E2; rewrite E in E2; [done|by apply quits_still].
  destruct (Ht s1 eq_refl) as [Hi1 Hy].
  apply (quits_at_weaken _ (Nat.max (Nat.max 1 n) (0 + Nat.max 1 n)) (0 + Nat.max 1 n)); [lia|lia|].
  apply quits_at_bind; [apply (quits_at_settled _ (Nat.max 1 n)); [exact Hq|by rewrite E]|].
  intros a s2 E2. rewrite E in E2. injection E2 as <- <-. by apply IH.
Qed.

Lemma ioLoop_quits s :
  I s -> quits_at env (S (Nat.max 1 n)) (S (Nat.max 1 n)) (ioLoop conf strerror create) s.
Proof.
  intros Hi. set (N := Nat.max 1 n). unfold ioLoop.
  eapply quits_at_weaken; [| |eapply (quits_at_bind _ (N + 1) (Nat.max N (N + 0)) 1 1)]; [lia|lia| |].
  - apply quits_at_try.
    + apply quits_at_after; [lia|by apply still_curt|]. intros [] s1 [= <-]. unfold serve.
      apply quits_at_after; [lia|apply curt_gets|]. intros fuel s2 [= _ <-]. apply serve_loop_quits.
      by apply (steady_same I s).
    + intros e s1 _. revert s1. change (curt env (can_write <-- gets m_can_write_errror ;;
        when can_write (session_write (T := T) (toString (-1) (error_response strerror e))))). curtly.
  - intros [] s1 _. apply shutdown_quits.
Qed.
End Session.

(** * The two transports *)

Lemma sys_read_returns {P B} n (s : session P B) : (sys_read n s).1 <> Suspended.
Proof. unfold sys_read. repeat case_match; done. Qed.

Section SslQuits.
Context {P B : Type} (conf : timeouts).
Implicit Types s : session P B.

Lemma ssl_call_still s : quits_at env 0 0 Transport.ssl_call s.
Proof. apply quits_still; unfold Transport.ssl_call; by case_match. Qed.

(** An error ends the closing handshake. *)
Lemma ssl_shutdown_loop_quits count s : quits_at env 1 1 (ssl_shutdown_loop count) s.
Proof.
  revert s; induction count as [|count IH]; intros s; cbn [ssl_shutdown_loop].
  { apply (quits_at_weaken _ 0 0); [lia|lia|]. by apply quits_still. }
  apply (quits_at_bind _ 0 0 1 1); [apply ssl_call_still|]. intros [res err] s1 _. cbn [fst].
  destruct (res =? 0)%Z; [|apply (quits_at_weaken _ 0 0); [lia|lia|]; by apply quits_still].
  destruct (Transport.yield s1) as [[ec|e| |] s2] eqn:Ey.
  2-4: apply (quits_at_bind _ 1 1 0 0); [apply yield_quits|by rewrite Ey].
  destruct (decide (ec = 0%Z)) as [-> |Hne].
  - apply (quits_at_bind _ 1 0 1 1).
    + apply (quits_at_settled 1 1); [apply yield_quits|]. rewrite Ey. intros _ _.
      unfold Transport.yield in Ey. destruct (resumes (env s1)); [done|]. injection Ey as E <-. exact E.
    + intros a s3 E. rewrite Ey in E. injection E as <- <-. apply IH.
  - apply (quits_at_bind _ 1 1 0 0); [apply yield_quits|]. intros a s3 E. rewrite Ey in E. injection E as <- <-.
    rewrite (proj2 (Z.eqb_neq _ _)) by done. by apply quits_still.
Qed.

Lemma ssl_accept_curt fin : curt env (ssl_accept (P := P) (B := B) conf fin).
Proof.
  assert (Hl : forall fuel, curt env (ssl_accept_loop (P := P) (B := B) fuel)).
  { induction fuel as [|fuel IH]; cbn [ssl_accept_loop]; curtly; [|apply yield_or_throw_curt].
    intros s. apply (quits_at_weaken _ 0 0); [lia|lia|]. apply ssl_call_still. }
  unfold ssl_accept. curtly.
Qed.

(** The handshake leaves the services' variables and what is to come of writes alone. *)
Definition undisturbed s s' : Prop := body_state s' = body_state s /\ writes (env s') = writes (env s).

#[local] Instance undisturbed_preorder : PreOrder undisturbed.
Proof. split; [by intros s|]. intros s1 s2 s3 [E1 E2] [E3 E4]. split; congruence. Qed.

Lemma ssl_accept_undisturbed fin : respects undisturbed (ssl_accept conf fin).
Proof.
  assert (Hc : respects undisturbed Transport.ssl_call) by (intros s; unfold Transport.ssl_call; by case_match).
  assert (Hy : respects undisturbed yield_or_throw).
  { intros s. unfold yield_or_throw, bind, Transport.yield. destruct (resumes (env s)); [done|]. by destruct (_ =? _)%Z. }
  assert (Hl : forall fuel, respects undisturbed (ssl_accept_loop fuel)).
  { induction fuel as [|fuel IH]; cbn [ssl_accept_loop]; respecting; done. }
  unfold ssl_accept. apply respects_bind; [apply _|by intros s|intros _]. respecting.
Qed.
End SslQuits.

#[export] Instance SocketStream_laws {P B} conf kind : TransportLaws (@SocketStream P B conf kind).
Proof. destruct kind; apply _. Qed.

#[export] Instance SocketStream_reads {P B} conf kind : ReadLaws (@SocketStream P B conf kind).
Proof. destruct kind; apply _. Qed.

#[export] Instance SocketStream_quits {P B} conf kind : QuitLaws (@SocketStream P B conf kind).
Proof.
  destruct kind as [|fin]; split; simpl.
  - intros s. unfold tcp_readSome, bind, gets. pose proof (sys_read_returns (currentSize (sharedReadBuffer s)) s).
    by destruct (sys_read _ s) as [[]].
  - intros s. apply (quits_at_weaken _ 0 0); [lia|lia|]. by apply quits_still.
  - intros s. unfold ssl_readSome, bind, gets. pose proof (sys_read_returns (int_limit (currentSize (sharedReadBuffer s))) s).
    by destruct (sys_read _ s) as [[]].
  - intros s. unfold ssl_shutdown. apply quits_at_after; [lia|by apply still_curt|]. intros [] s1 _.
    apply quits_at_then; [lia| |by intros [] s2 _; apply quits_still]. destruct fin; [apply ssl_shutdown_loop_quits|].
    apply (quits_at_weaken _ 0 0); [lia|lia|]. by apply quits_still.
Qed.

(** * The services of the repository *)

Section StaticQuits.
Context {P : Type} `{HP : HttpParser P} `{T : Transport P globals} `{TL : !TransportLaws T} `{RL : !ReadLaws T} `{QL : !QuitLaws T}.
Context `{IO : IterationOrder} `{FS : FileSystem}.
Abbreviation sess := (session P globals).
Abbreviation stream := (session_stream (P := P) (B := globals) (T := T)).
Context (s_urls : list (bytes * bytes)) (s_default_file : bytes) (s_allow_symlinks : bool) (s_customFields : Fields).

(** No connection holds the mutex of the plugin's cache. *)
Definition unlocked (s : sess) : Prop := (body_state s).2 = false.

#[global] Instance unlocked_steady : Steady unlocked.
Proof. intros s s' E _. unfold unlocked. by rewrite E. Qed.

Abbreviation sock_of := (fun x : static sess => env (st_stream x)).

Lemma with_stream_curt {X} (m : M sess X) : curt env m -> curt sock_of (with_stream m).
Proof. intros Hm x. specialize (Hm (st_stream x)). unfold quits_at, with_stream in *. by destruct (m (st_stream x)). Qed.

Lemma map_file_curt p : curt sock_of (map_file (S := sess) p).
Proof. unfold map_file, set_cache. curtly. Qed.

Lemma with_lock_quits {X} n z (m : M (static sess) X) x :
  s_filesCacheMutex x = false -> quits sock_of n z m -> quits_at sock_of n z (with_lock m) x.
Proof.
  intros Hx Hm. specialize (Hm (Static (st_stream x) (s_filesCache x) true)). unfold quits_at, with_lock in *. rewrite Hx.
  by destruct (m (Static (st_stream x) (s_filesCache x) true)) as [[a|e| |] x'].
Qed.

Lemma static_session_quits root file head req x :
  s_filesCacheMutex x = false ->
  quits_at sock_of 1 0
    (static_content_session (A := stream) s_default_file s_allow_symlinks s_customFields root file head req) x.
Proof.
  intros Hx. unfold static_content_session.
  apply (quits_at_bind _ 1 0 1 0); [apply with_stream_curt, read_request_curt|]. intros r x1 E1.
  apply (quits_at_bind _ 1 0 1 0); [apply curt_lift|]. intros p x2 [_ ->]%lift_Done.
  apply with_lock_quits.
  - unfold with_stream in E1. destruct (read_request _ _). by injection E1 as _ <-.
  - apply curt_bind; [apply map_file_curt|intros f]. apply curt_bind; [apply with_stream_curt, write_response_curt|intros _].
    apply curt_when, with_stream_curt, write_curt.
Qed.

Lemma static_session_unlocks root file head req x x' :
  static_content_session (A := stream) s_default_file s_allow_symlinks s_customFields root file head req x = (Done tt, x') ->
  s_filesCacheMutex x' = false.
Proof.
  unfold static_content_session. intros E. inv_done. unfold with_lock in E.
  destruct (s_filesCacheMutex _); [done|]. by destruct (bind _ _ _) as [[]]; simplify_eq.
Qed.

Lemma static_prompt : Prompt (static_service s_urls s_default_file s_allow_symlinks s_customFields) unlocked 1.
Proof.
  intros r f _ Hc s Hs. unfold static_service in Hc.
  destruct (static_create_session s_urls r) as [[[[root file] head]|]|]; cbn in Hc; simplify_eq.
  pose proof (static_session_quits root file head r (Static s (body_state s).1 (body_state s).2) Hs) as Hq.
  pose proof (static_session_unlocks root file head r (Static s (body_state s).1 (body_state s).2)) as Hu.
  unfold quits_at, with_globals in *.
  destruct (static_content_session _ _ _ _ _ _ _ _) as [o x']. split; [|intros s' [= -> <-]; by apply Hu].
  apply (quits_at_weaken env 1 0 1 1 (fun _ => (o, set_body_state (s_filesCache x', s_filesCacheMutex x') (st_stream x'))) s);
    [lia|lia|exact Hq].
Qed.
End StaticQuits.

Section StatusQuits.
Context {P B : Type} `{HP : HttpParser P} `{T : Transport P B} `{TL : !TransportLaws T} `{RL : !ReadLaws T} `{QL : !QuitLaws T}.
Context `{IO : IterationOrder} (strerror : Z -> bytes) (stats : Request B -> statistics).

(** The status page answers the error that reading the request ends with, and then may
    be given another one. *)
Lemma status_prompt (I : session P B -> Prop) `{!Steady I} : Prompt (status_service strerror stats) I 2.
Proof.
  intros r f Hn Hc s Hi. split; [|intros s' E; by destruct (ful_done _ _ _ _ (status_honest strerror stats I r f Hn Hc) s s' Hi E)].
  unfold status_service, status_createSession in Hc. case_decide; [|done]. injection Hc as <-. unfold writeResponse.
  apply (quits_at_bind _ 2 1 1 1).
  - apply (quits_at_try _ 1 0 1 0); [|intros e s1 _]; (apply curt_bind; [|intros; apply curt_ret]).
    + apply read_request_curt.
    + apply write_response_curt.
  - intros ok s1 _. destruct ok; [|apply (quits_at_weaken _ 0 0); [lia|lia|]; by apply quits_still].
    apply (quits_at_weaken _ (1 + 0) (Nat.max 0 (1 + 0))); [lia|lia|].
    apply quits_at_try; [apply write_response_curt|]. intros e s2 _. by apply quits_still.
Qed.
End StatusQuits.

(** * The list of plugins *)

Lemma prompt_weaken {P B} (create : Request B -> result exn (option (Request B -> M (session P B) unit))) I n n' :
  n <= n' -> Prompt create I n -> Prompt create I n'.
Proof.
  intros Hn Hp r f Hc E s Hi. destruct (Hp r f Hc E s Hi). split; [|done]. by apply (quits_at_weaken _ n n).
Qed.

Lemma plugins_prompt {P B} (ps : list (ServerPlugin (Request B) (Request B -> M (session P B) unit))) I n :
  StronglySorted (fun a b => m_order a <= m_order b)%N ps ->
  Forall (fun p => Prompt (createSession p) I n) ps -> Prompt (create_session ps) I n.
Proof.
  intros Hs Hh r f Hn Hc. destruct (create_session_sorted ps r Hs) as [[E _]|(p & Hp & _ & E & _)]; [congruence|].
  rewrite Hc in E. rewrite Forall_forall in Hh. by apply (Hh p Hp r f Hn).
Qed.

(** The site of static files: three errors in a row end each of its connections. *)
Lemma site_prompt {P} `{HttpParser P} `{T : Transport P globals} `{!TransportLaws T} `{!ReadLaws T} `{!QuitLaws T}
    `{IterationOrder} `{FileSystem} `{Translators} read_conf bad_path strerror stats confDir p :
  p ∈ available confDir [Some (static_library (T := T) read_conf bad_path confDir)] ++
      status_plugins (Some (status_service (T := T) strerror stats)) ->
  Prompt (createSession p) unlocked 2.
Proof.
  intros Hp. destruct (site_plugins _ _ _ _ _ p Hp) as [[-> _]|[-> _]].
  - apply (prompt_weaken _ _ 1); [lia|]. apply static_prompt.
  - apply status_prompt, _.
Qed.

(** * Quitting *)

Section Quitting.
Context {P B : Type} `{HP : HttpParser P} `{IO : IterationOrder}.
Context (conf : timeouts) (kind : socket_stream_kind) (strerror : Z -> bytes).
Context (create : Request B -> result exn (option (Request B -> M (session P B) unit))) (I : session P B -> Prop) (n : nat).
Context `{HI : !Steady I} `{HPr : !Prompt create I n}.

Lemma construct_curt : curt env (construct (P := P) (B := B) conf kind).
Proof. destruct kind; [apply curt_ret|apply ssl_accept_curt]. Qed.

Lemma construct_steady s s' : I s -> construct conf kind s = (Done tt, s') -> I s'.
Proof.
  intros Hi E. destruct kind as [|fin]; cbn in E; [by injection E as <-|].
  destruct (respects_run _ _ _ _ _ (ssl_accept_undisturbed conf fin) E). by apply (steady_same I s).
Qed.

Lemma session_ioLoop_quits s :
  I s -> quits_at env (S (Nat.max 1 n)) (S (Nat.max 1 n)) (session_ioLoop conf kind strerror create) s.
Proof.
  intros Hi. set (N := S (Nat.max 1 n)). unfold session_ioLoop.
  apply (quits_at_weaken _ (N + 0) (Nat.max N (N + 0))); [lia|lia|]. apply quits_at_try; [|by intros; apply quits_still].
  apply quits_at_after; [lia|apply construct_curt|]. intros [] s1 E.
  apply quits_at_then; [lia| |by intros; apply quits_still]. apply (ioLoop_quits _ _ _ I n). by eapply construct_steady.
Qed.

Lemma session_ioLoop_catches s e : (session_ioLoop conf kind strerror create s).1 <> Raise e.
Proof. unfold session_ioLoop, try_catch. by destruct (bind _ _ s) as [[]]. Qed.

Lemma quit_bound s pre errs :
  I s -> resumes (env s) = pre ++ errs -> Forall (fun r => r_ec r <> 0%Z) errs -> S (Nat.max 1 n) <= length errs ->
  (session_ioLoop conf kind strerror create s).1 <> Suspended /\
  length errs <= length (resumes (env (session_ioLoop conf kind strerror create s).2)) + S (Nat.max 1 n).
Proof.
  intros Hi E He Hl. destruct (session_ioLoop_quits s Hi) as (u & Eu & _ & H1 & _ & H3).
  set (s' := (session_ioLoop conf kind strerror create s).2) in *. rewrite E in Eu.
  assert (Hu : length errs <= length (resumes (env s')) + trail 0 u).
  { destruct (decide (length pre <= length u)) as [Hle|Hgt].
    - assert (Et : u = pre ++ take (length u - length pre) errs).
      { rewrite <- (take_app_length u (resumes (env s'))), <- Eu at 1. by rewrite take_app, take_ge by done. }
      rewrite Et. etransitivity; [|apply Nat.add_le_mono_l, trail_errors, Forall_take, He].
      apply (f_equal length) in Eu. rewrite !length_app in Eu. rewrite length_take. lia.
    - apply (f_equal length) in Eu. rewrite !length_app in Eu. lia. }
  split; [|lia]. intros Es. destruct (H3 Es) as [E0 Ht]. rewrite E0 in Hu. cbn in Hu. lia.
Qed.
End Quitting.

(** * Examples *)

(** The site of [EndToEnd] over TLS, with a peer that asks for its file and reads nothing:
    the connection is resumed once without an error, then told to quit. *)
Definition quitting_connection : session nat globals :=
  on_env (fun k => set_ssl_calls [(1, 0)%Z; (0, 0)%Z] (set_writes [Accept 6]
    (set_resumes (Resume 0 1001 empty :: replicate 5 (Resume ETIMEDOUT 1002 empty)) k))) site_connection.

Abbreviation quitting_run :=
  (@session_ioLoop nat globals sample_timeouts (Tls true) line_parser listed_order (fun _ => [])
     (create_session (m_plugins site_host)) quitting_connection).

Lemma quitting_ends : quitting_run.1 = Done false.
Proof. vm_compute. reflexivity. Qed.

(** * Properties *)

(** C13. Quitting ends a connection: [quitIoLoop]'s loop [while (m_ioYield) m_ioYield(ec)].
    Whatever plugins are installed, when each of their services takes at most [n] errors in
    a row, then over either transport, at whatever point of the handshake, of reading a
    request, of a service, of answering an exception or of the closing handshake the
    coroutine is waiting after any resumptions [pre], resuming it with errors ends it after
    at most [max 1 n + 1] of them: its exceptions are caught, and no further error is
    taken. *)
Theorem quit_ends {P B} `{HttpParser P} `{IterationOrder} conf kind strerror sort
    (libs : list (option (library (Request B) (Request B -> M (session P B) unit)))) confDir status
    I `{!Steady I} n h (s : session P B) pre errs :
  sorts sort ->
  Forall (fun p => Prompt (createSession p) I n) (available confDir libs ++ status_plugins status) ->
  install_plugins sort libs confDir status new_host = (Done tt, h) ->
  I s -> resumes (env s) = pre ++ errs -> Forall (fun r => r_ec r <> 0%Z) errs -> S (Nat.max 1 n) <= length errs ->
  exists o s', session_ioLoop conf kind strerror (create_session (m_plugins h)) s = (o, s') /\
    ((exists deleted, o = Done deleted) \/ o = Undefined) /\
    length errs <= length (resumes (env s')) + S (Nat.max 1 n).
Proof.
  intros Hs Hp E Hi Er He Hl. destruct (installed sort libs confDir status h Hs E) as [Hperm Hsort].
  rewrite <- Hperm in Hp. pose proof (plugins_prompt (m_plugins h) I n Hsort Hp) as HP.
  destruct (quit_bound conf kind strerror (create_session (m_plugins h)) I n s pre errs Hi Er He Hl) as [Hn Hb].
  pose proof (session_ioLoop_catches conf kind strerror (create_session (m_plugins h)) s) as Hc.
  destruct (session_ioLoop _ _ _ _ s) as [[b|e| |] s']; cbn in *; [by eauto 8|by destruct (Hc e)|done|by eauto 8].
Qed.

Lemma quit_ends_witness :
  exists deleted s', quitting_run = (Done deleted, s') /\ 2 <= length (resumes (env s')).
Proof.
  destruct (quit_ends (H := line_parser) (H0 := listed_order) sample_timeouts (Tls true) (fun _ => []) sort_plugins
    [Some site_library] [] (Some site_status) unlocked 2 site_host quitting_connection [Resume 0 1001 empty]
    (replicate 5 (Resume ETIMEDOUT 1002 empty)) sort_plugins_sorts) as (o & s' & E & Ho & Hl).
  - apply Forall_forall. intros p. apply (site_prompt (T := SocketStream sample_timeouts (Tls true))).
  - exact site_installed.
  - reflexivity.
  - reflexivity.
  - by repeat constructor.
  - decided.
  - destruct Ho as [[deleted ->] | ->]; [exists deleted, s'; split; [exact E|]; cbn in Hl; lia|].
    apply (f_equal fst) in E. rewrite quitting_ends in E. discriminate E.
Defined.
