(* ===== verification/Devices.v ===== *)
(** The plugin template of template/src/main.cpp: a REST service over a list of
    device names shared by every connection, its routes and its configuration.

    The JSON library is a parameter ([Json]); the stream a handler is given is
    any stream with the laws of [Stream]. *)

From Stdlib Require Import Ascii String NArith ZArith Lia.
From stdpp Require Import base gmap strings list fin_maps.
From S2P Require Import Prelude Url Http Effects Stream Restful Transport Session.
Local Open Scope getodac_scope.

(** * Libraries *)

(** What the plugin uses of [nlohmann::json]: a value is built with [array], [object],
    [push_back] and conversions, written with [dump], read with [parse]; a range
    [for] goes through [elements], [operator[]] finds a member, and the
    conversion to [std::string] fails on anything but a string. *)
Class Json (J : Type) := {
  is_array : J -> bool;
  json_array : J;
  json_object : list (bytes * J) -> J;
  json_number : Z -> J;
  json_string : bytes -> J;
  push_back : J -> J -> J;
  dump : J -> result exn bytes;
  json_parse : bytes -> result exn J;
  elements : J -> list J;
  member : bytes -> J -> result exn J;
  to_string : J -> result exn bytes
}.

(** Its documented behaviour: [push_back] appends to an array, and a string
    converts to its text. *)
Class JsonLaws (J : Type) `{Json J} := {
  array_empty : is_array json_array = true /\ elements json_array = [];
  array_push j x :
    is_array j = true ->
    is_array (push_back j x) = true /\ elements (push_back j x) = elements j ++ [x];
  member_object k v l : (k, v) ∈ l -> NoDup l.*1 -> member k (json_object l) = Ok v;
  to_string_string s : to_string (json_string s) = Ok s
}.

(** The [std::string] made from a string's [c_str()]. *)
Definition until_nul (s : bytes) : bytes :=
  match index_of Ascii.zero s with Some i => take i s | None => s end.

(** [std::stoul] *)
Definition stoul (s : bytes) : result exn Z :=
  let s1 := drop (lead_spaces s) s in
  let '(neg, sg) := lead_sign s1 in
  match lead_digits (drop sg s1) with
  | [] => Throw (ex_std (invalid_argument (str "stoul")))
  | ds =>
      let n := Z.of_N (of_digits 10 ds) in
      if (SIZE_MAX <? n)%Z then Throw (ex_std (out_of_range (str "stoul")))
      else Ok (if neg then wrap64 (- n) else n)
  end.

(** * The shared state *)

(** A [std::shared_mutex]; [Readers n] is held by [S n] readers. *)
Inductive shared_mutex : Type :=
| Unlocked
| Readers (n : nat)
| Writer.

(** What a handler reaches: its connection's stream and the plugin's variables. *)
Record plugin (S : Type) := Plugin {
  stream : S;
  s_devices : list bytes;
  s_mutex : shared_mutex
}.
Arguments Plugin {S} _ _ _.
Arguments stream {S} _.
Arguments s_devices {S} _.
Arguments s_mutex {S} _.

Section Locks.
Context {S : Type}.

Definition set_stream (x : S) (p : plugin S) : plugin S := Plugin x (s_devices p) (s_mutex p).
Definition set_s_devices (x : list bytes) (p : plugin S) : plugin S := Plugin (stream p) x (s_mutex p).
Definition set_s_mutex (x : shared_mutex) (p : plugin S) : plugin S :=
  Plugin (stream p) (s_devices p) x.

(** A call on the stream. *)
Definition streaming {X : Type} (m : M S X) : M (plugin S) X :=
  fun p => let '(r, x) := m (stream p) in (r, set_stream x p).

(** Waiting for a lock blocks the thread. *)
Definition lock_shared : M (plugin S) unit := fun p =>
  match s_mutex p with
  | Unlocked => (Done tt, set_s_mutex (Readers 0) p)
  | Readers n => (Done tt, set_s_mutex (Readers (Datatypes.S n)) p)
  | Writer => (Suspended, p)
  end.

Definition unlock_shared : M (plugin S) unit := fun p =>
  match s_mutex p with
  | Readers 0 => (Done tt, set_s_mutex Unlocked p)
  | Readers (Datatypes.S n) => (Done tt, set_s_mutex (Readers n) p)
  | _ => (Undefined, p)
  end.

Definition lock : M (plugin S) unit := fun p =>
  match s_mutex p with
  | Unlocked => (Done tt, set_s_mutex Writer p)
  | _ => (Suspended, p)
  end.

Definition unlock : M (plugin S) unit := fun p =>
  match s_mutex p with
  | Writer => (Done tt, set_s_mutex Unlocked p)
  | _ => (Undefined, p)
  end.

(** A block whose first statement declares a lock: it is released when the block
    is left, normally or by an exception, and kept while the block is suspended. *)
Definition scoped {X : Type} (acquire release : M (plugin S) unit) (m : M (plugin S) X)
    : M (plugin S) X :=
  acquire >>>
  fun p => match m p with
           | (Done x, p') => (release >>> ret x) p'
           | (Raise e, p') => (release >>> throw e) p'
           | r => r
           end.

Definition with_shared_lock {X : Type} : M (plugin S) X -> M (plugin S) X :=
  scoped lock_shared unlock_shared.
Definition with_unique_lock {X : Type} : M (plugin S) X -> M (plugin S) X := scoped lock unlock.
End Locks.

(** * The handlers *)

Definition device_id : bytes := str "device".
Definition body_limit : Z := 512 * 1024.

(** The callback of [postDevices] and [patchDevice]; [body] is the variable it
    captures. *)
Definition append_limited : BodyCallback bytes := fun buff body =>
  let body' := body ++ buff in
  if (body_limit <? Z.of_nat (length body'))%Z then Throw (ex_int 400) else Ok body'.

Definition json_headers : Fields := {[ str "Content-Type" := str "application/json" ]}.

Section Handlers.
Context {S J : Type} `{A : AbstractStream bytes S} `{V : BodyState bytes S} `{Json J} `{IterationOrder}.
Abbreviation handler := (ParsedRoute -> Request bytes -> M (plugin S) unit).

(** [{ {"id:", idx}, {"name", name} }] *)
Definition device_entry (idx : Z) (name : bytes) : J :=
  json_object [(str "id:", json_number idx); (str "name", json_string name)].

(** The loop over all devices. *)
Fixpoint push_devices (i : nat) (devices : list bytes) (res : J) : J :=
  match devices with
  | [] => res
  | name :: devices' =>
      push_devices (Datatypes.S i) devices' (push_back res (device_entry (Z.of_nat i) name))
  end.

(** The body of a handler's lookup of one device: its index, when it is one. *)
Definition device_index (text : bytes) : M (plugin S) Z := lift (stoul (until_nul text)).

Definition in_range (idx : Z) : M (plugin S) unit :=
  size <-- gets (fun p => Z.of_nat (length (s_devices p))) ;;
  if (size <=? idx)%Z then throw (ex_int 400) else skip.

(** The block of [getDevices] under the shared lock. *)
Definition listing (route : ParsedRoute) : M (plugin S) J :=
  with_shared_lock
    (match capturedResources route !! device_id with
     | Some text =>
         idx <-- device_index text ;;
         in_range idx >>>
         found <-- gets (fun p => s_devices p !! Z.to_nat idx) ;;
         match found with
         | Some name => ret (push_back json_array (device_entry idx name))
         | None => undefined
         end
     | None => gets (fun p => push_devices 0 (s_devices p) json_array)
     end).

Definition getDevices : handler := fun route req =>
  streaming (read_request req) >>>
  res <-- listing route ;;
  text <-- lift (dump res) ;;
  streaming (write_response (make_response 200 text json_headers)).

(** [std::string body; req.appendBodyCallback(...); stream >> req;] *)
Definition read_body (req : Request bytes) : M (plugin S) bytes :=
  streaming (modify (set_body [])) >>>
  streaming (read_request (appendBodyCallback append_limited body_limit req)) >>>
  gets (fun p => body_of (stream p)).

Definition push_name (jv : J) : M (plugin S) unit :=
  name <-- lift (to_string jv) ;; modify (fun p => set_s_devices (s_devices p ++ [name]) p).

Definition postDevices : handler := fun _ req =>
  body <-- read_body req ;;
  jb <-- lift (json_parse body) ;;
  with_unique_lock (modify (set_s_devices []) >>> iterM push_name (elements jb)) >>>
  streaming (write_response (response1 200)).

Definition patchDevice : handler := fun route req =>
  body <-- read_body req ;;
  match capturedResources route !! device_id with
  | None => throw (ex_int 404)
  | Some text =>
      with_unique_lock
        (idx <-- device_index text ;;
         in_range idx >>>
         jb <-- lift (json_parse body) ;;
         jn <-- lift (member (str "name") jb) ;;
         name <-- lift (to_string jn) ;;
         modify (fun p => set_s_devices (<[Z.to_nat idx := name]> (s_devices p)) p)) >>>
      streaming (write_response (response1 200))
  end.

Definition deleteDevice : handler := fun route req =>
  streaming (read_request req) >>>
  match capturedResources route !! device_id with
  | None => throw (ex_int 404)
  | Some text =>
      idx <-- device_index text ;;
      with_unique_lock
        (in_range idx >>>
         modify (fun p => set_s_devices (delete (Z.to_nat idx) (s_devices p)) p)) >>>
      streaming (write_response (response1 200))
  end.

(** ** The variant built with [__USE_CHUNCKED] *)

Context `{StringCapacity}.

(** [str << text]: an exception of the buffer sets [badbit] and is not passed on. *)
Definition ostream_insert {O : AbstractStream bytes S} (text : bytes) : M (obuf S) unit :=
  try_catch (xsputn text >>> skip) (fun _ => skip).

(** The end of the scope of [chunkedStream] and [buff]; [text] is what [dump]
    gives, [cap0] the capacity of an empty string. *)
Definition chunked_tail (cap0 : nat) (text : result exn bytes) (s : S) : destroyed S :=
  let o := ostream_make (A := ChunkedStream) cap0 s in
  let inserted := match text with
                  | Ok t => ostream_insert (O := ChunkedStream) t o
                  | Throw _ => (Done tt, o)
                  end in
  match inserted with
  | (Suspended, o1) => Waiting (m_stream o1)
  | (Undefined, _) => Broken
  | (_, o1) =>
      match ostream_destroy (A := ChunkedStream) o1 with
      | Finished s1 =>
          match chunked_destroy s1 with
          | (Suspended, s2) => Waiting s2
          | (Undefined, _) => Broken
          | (_, s2) => Finished s2
          end
      | d => d
      end
  end.

(** [None] when [std::terminate] is called. *)
Definition getDevices_chunked (cap0 : nat) (route : ParsedRoute) (req : Request bytes) (p : plugin S)
    : option (outcome unit * plugin S) :=
  let head :=
    streaming (read_request req) >>>
    res <-- listing route ;;
    streaming (write_response (setContentLength ChunkedData (make_response 200 [] json_headers))) >>>
    ret res in
  match head p with
  | (Done res, p1) =>
      match chunked_tail cap0 (dump res) (stream p1) with
      | Finished s2 =>
          Some (match dump res with Ok _ => Done tt | Throw e => Raise e end, set_stream s2 p1)
      | Terminated => None
      | Waiting s2 => Some (Suspended, set_stream s2 p1)
      | Broken => Some (Undefined, p1)
      end
  | (Raise e, p1) => Some (Raise e, p1)
  | (Suspended, p1) => Some (Suspended, p1)
  | (Undefined, p1) => Some (Undefined, p1)
  end.
End Handlers.

(** * The plugin's functions *)

(** [Dracon::sessionHandler]; an [HttpSession] is a [std::function], [None] when it is
    empty. *)
Abbreviation HttpSession S := (option (Request bytes -> M (plugin S) unit)).

Definition sessionHandler {S} (function : ParsedRoute -> Request bytes -> M (plugin S) unit)
    : MethodHandler (HttpSession S) := fun route => Ok (Some (function route)).

(** The values of the configuration file by their paths. *)
Abbreviation ptree := (gmap bytes bytes).

Record globals (S : Type) := Globals {
  s_restullV1RootNode : RestfulRouter (HttpSession S);
  g_tokenAlgorithm : bytes;
  g_tokenSecret : bytes
}.
Arguments Globals {S} _ _ _.
Arguments s_restullV1RootNode {S} _.
Arguments g_tokenAlgorithm {S} _.
Arguments g_tokenSecret {S} _.

(** [boost::to_upper] in the C locale. *)
Definition to_upper (c : ascii) : ascii :=
  let n := N_of_ascii c in if ((97 <=? n) && (n <=? 122))%N then ascii_of_N (n - 32) else c.

Definition supportedAlgorithms : list bytes := [str "HS256"; str "HS384"; str "HS512"].

Section Plugin.
Context {S J : Type} `{A : AbstractStream bytes S} `{V : BodyState bytes S} `{Json J} `{IterationOrder}.

Definition initial_globals : globals S := Globals (make_router (str "/v1/")) [] [].

(** The part built with [__READ_CONF__]: [conf] is what [read_info] gives or throws,
    [bad_path] what [get] throws for a missing value, [random] the characters of
    the generator. *)
Definition read_conf (conf : result exn ptree) (bad_path : bytes -> exn) (random : nat -> ascii)
    : M (globals S) unit :=
  match conf with
  | Throw e => throw e
  | Ok properties =>
      modify (fun g => Globals (s_restullV1RootNode g)
        (to_upper <$> default (str "HS256") (properties !! str "signing.algorithm")) (g_tokenSecret g)) >>>
      algorithm <-- gets g_tokenAlgorithm ;;
      (if decide (algorithm ∈ supportedAlgorithms) then skip
       else throw (ex_std (runtime_error (str "Invalid algorithm")))) >>>
      match properties !! str "signing.secret" with
      | None => throw (bad_path (str "signing.secret"))
      | Some secret =>
          modify (fun g => Globals (s_restullV1RootNode g) (g_tokenAlgorithm g)
            (match secret with [] => random <$> seq 0 31 | _ => secret end))
      end
  end.

(** [createRoute(route)->addMethodHandler(...)...] *)
Definition add_route (route : bytes) (handlers : list (bytes * MethodHandler (HttpSession S)))
    : M (globals S) unit := fun g =>
  match createRoute route (s_restullV1RootNode g) with
  | Ok (i, rr) =>
      (Done tt, Globals (fold_left (fun rr mh => route_addMethodHandler i mh.1 mh.2 rr) handlers rr)
                  (g_tokenAlgorithm g) (g_tokenSecret g))
  | Throw e => (Raise e, g)
  end.

(** [init_plugin]; [conf] is the configuration part, nothing by default. *)
Definition init_plugin (conf : M (globals S) unit) : M (globals S) bool :=
  try_catch
    (conf >>>
     add_route (str "devices")
       [(str "GET", sessionHandler getDevices); (str "POST", sessionHandler postDevices)] >>>
     add_route (str "devices/{device}")
       [(str "GET", sessionHandler getDevices); (str "PATCH", sessionHandler patchDevice);
        (str "DELETE", sessionHandler deleteDevice)] >>>
     ret true)
    (fun _ => ret false).

Definition plugin_order : Z := 0.

Definition create_session (g : globals S) (req : Request bytes) : result exn (HttpSession S) :=
  createHandler None (s_restullV1RootNode g) (m_url req) (m_method req).
End Plugin.

(** * What the service promises *)

(** Its state is a list of names. *)
Definition index_in (devices : list bytes) (text : bytes) : result exn nat :=
  let* idx := stoul (until_nul text) in
  if (Z.of_nat (length devices) <=? idx)%Z then Throw (ex_int 400) else Ok (Z.to_nat idx).

Inductive method : Type := GET | POST | PATCH | DELETE.

(** The devices a GET shows: all, or the captured one. *)
Definition view (devices : list bytes) (captured : option bytes) : result exn (list (nat * bytes)) :=
  match captured with
  | None => Ok (imap pair devices)
  | Some text =>
      let* i := index_in devices text in
      match devices !! i with Some name => Ok [(i, name)] | None => Throw (ex_int 400) end
  end.

Section Promise.
Context {J : Type} `{Json J}.

(** [performs m captured body devices devices' answer]: a request of method [m] with
    the captured [{device}] and [body] takes [devices] to [devices'] and gets
    [answer]. *)
Inductive performs (captured : option bytes) (body : bytes) (devices : list bytes)
    : method -> list bytes -> Response -> Prop :=
| performs_get shown (j : J) text :
    view devices captured = Ok shown ->
    elements j = (fun d : nat * bytes => device_entry (Z.of_nat d.1) d.2) <$> shown ->
    dump j = Ok text ->
    performs captured body devices GET devices (make_response 200 text json_headers)
| performs_post (j : J) names :
    json_parse body = Ok j -> Forall2 (fun v name => to_string v = Ok name) (elements j) names ->
    performs captured body devices POST names (response1 200)
| performs_patch text i (j v : J) name :
    captured = Some text -> index_in devices text = Ok i ->
    json_parse body = Ok j -> member (str "name") j = Ok v -> to_string v = Ok name ->
    performs captured body devices PATCH (<[i := name]> devices) (response1 200)
| performs_delete text i :
    captured = Some text -> index_in devices text = Ok i ->
    performs captured body devices DELETE (delete i devices) (response1 200).
End Promise.

(** The handler of each method. *)
Definition handler_of {S J : Type} `{A : AbstractStream bytes S} `{V : BodyState bytes S} `{Json J}
    `{IterationOrder} (m : method) : ParsedRoute -> Request bytes -> M (plugin S) unit :=
  match m with
  | GET => getDevices
  | POST => postDevices
  | PATCH => patchDevice
  | DELETE => deleteDevice
  end.

(** * Lemmas *)

Definition of_result {X : Type} (r : result exn X) : outcome X :=
  match r with Ok x => Done x | Throw e => Raise e end.

Lemma lift_run {St X : Type} (r : result exn X) (s : St) : lift r s = (of_result r, s).
Proof. by destruct r. Qed.

Section Critical.
Context {S : Type}.

(** A block under the shared lock only looks at the devices. *)
Lemma with_shared_lock_run {X} (f : list bytes -> result exn X) (m : M (plugin S) X) p :
  (forall p, m p = (of_result (f (s_devices p)), p)) ->
  with_shared_lock m p =
    match s_mutex p with Writer => (Suspended, p) | _ => (of_result (f (s_devices p)), p) end.
Proof.
  intros Hm. unfold with_shared_lock, scoped, lock_shared, bind.
  destruct p as [s d [|n|]]; cbn; [..|done]; rewrite Hm; cbn; by destruct (f d).
Qed.

(** A block under the exclusive lock changes the devices, and may fail halfway. *)
Lemma with_unique_lock_run {X} (f : list bytes -> list bytes * result exn X) (m : M (plugin S) X) p :
  (forall p, m p = (of_result (f (s_devices p)).2, set_s_devices (f (s_devices p)).1 p)) ->
  with_unique_lock m p =
    match s_mutex p with
    | Unlocked => (of_result (f (s_devices p)).2, set_s_devices (f (s_devices p)).1 p)
    | _ => (Suspended, p)
    end.
Proof.
  intros Hm. unfold with_unique_lock, scoped, lock, bind.
  destruct p as [s d [|n|]]; cbn; [|done..]. rewrite Hm. cbn. by destruct (f d) as [d' []].
Qed.

Lemma in_range_run idx (p : plugin S) :
  in_range idx p =
    (if (Z.of_nat (length (s_devices p)) <=? idx)%Z then Raise (ex_int 400) else Done tt, p).
Proof. unfold in_range, bind, gets. by case_match. Qed.
End Critical.

Lemma stoul_nonneg s z : stoul s = Ok z -> (0 <= z)%Z.
Proof.
  unfold stoul. destruct (lead_sign _) as [neg sg]. case_match; [done|].
  case_match; [done|]. intros [= <-]. destruct neg; [|lia]. unfold wrap64. by apply Z.mod_pos_bound.
Qed.

Lemma index_in_lt devices text i : index_in devices text = Ok i -> i < length devices.
Proof.
  unfold index_in. destruct (stoul _) as [z|] eqn:E; simpl; [|done]. apply stoul_nonneg in E.
  case_match; [done|]. intros [= <-]. lia.
Qed.

Section Blocks.
Context {S J : Type} `{HJ : Json J}.

Lemma push_devices_elements `{!JsonLaws J} i devices (res : J) :
  is_array res = true ->
  elements (push_devices i devices res) =
  elements res ++ imap (fun k name => device_entry (Z.of_nat (i + k)) name) devices.
Proof.
  revert i res; induction devices as [|name devices IH]; intros i res Ha; cbn [push_devices imap].
  - by rewrite app_nil_r.
  - destruct (array_push res (device_entry (Z.of_nat i) name) Ha) as [Ha1 E1].
    rewrite IH, E1, <- app_assoc by done. cbn [app]. rewrite Nat.add_0_r.
    do 2 f_equal. apply imap_ext. intros k x _. cbn. do 2 f_equal. lia.
Qed.

(** The JSON value a GET builds. *)
Definition listed (captured : option bytes) (devices : list bytes) : result exn J :=
  match captured with
  | None => Ok (push_devices 0 devices json_array)
  | Some text =>
      let* i := index_in devices text in
      match devices !! i with
      | Some name => Ok (push_back json_array (device_entry (Z.of_nat i) name))
      | None => Throw (ex_int 400)
      end
  end.

Lemma listed_view `{!JsonLaws J} captured devices j :
  listed captured devices = Ok j ->
  exists shown, view devices captured = Ok shown /\
    elements j = (fun d : nat * bytes => device_entry (Z.of_nat d.1) d.2) <$> shown.
Proof.
  destruct array_empty as [Ha E0]. unfold listed, view. destruct captured as [text|].
  - destruct (index_in devices text) as [i|]; simpl; [|done].
    destruct (devices !! i) as [name|]; [|done]. intros [= <-].
    eexists. split; [done|]. by rewrite (proj2 (array_push _ _ Ha)), E0.
  - intros [= <-]. eexists. split; [done|]. by rewrite push_devices_elements, E0, fmap_imap.
Qed.

Lemma listing_run route (p : plugin S) :
  listing route p =
    match s_mutex p with
    | Writer => (Suspended, p)
    | _ => (of_result (listed (capturedResources route !! device_id) (s_devices p)), p)
    end.
Proof.
  unfold listing. apply (with_shared_lock_run (listed (capturedResources route !! device_id))).
  clear p. intros p. unfold listed. destruct (capturedResources route !! device_id) as [text|]; [|done].
  unfold device_index, index_in, bind. rewrite lift_run.
  destruct (stoul (until_nul text)) as [idx|e] eqn:E; simpl; [|done]. rewrite in_range_run.
  apply stoul_nonneg in E. destruct (Z.leb_spec (Z.of_nat (length (s_devices p))) idx); [done|].
  destruct (lookup_lt_is_Some_2 (s_devices p) (Z.to_nat idx)) as [name En]; [lia|].
  simpl. rewrite En. simpl. by rewrite Z2Nat.id.
Qed.

(** The names [postDevices] stores before it is done or meets a value that is no
    string. *)
Fixpoint converted (l : list J) : list bytes * result exn unit :=
  match l with
  | [] => ([], Ok tt)
  | jv :: l' =>
      match to_string jv with
      | Ok name => (name :: (converted l').1, (converted l').2)
      | Throw e => ([], Throw e)
      end
  end.

Lemma converted_Ok l names : converted l = (names, Ok tt) -> Forall2 (fun v n => to_string v = Ok n) l names.
Proof.
  revert names; induction l as [|v l IH]; intros names; simpl; [intros [= <-]; constructor|].
  destruct (to_string v) as [name|] eqn:E; [|done]. destruct (converted l) as [ns r]. simpl.
  intros [= <- ->]. constructor; [done|]. by apply IH.
Qed.

Lemma push_names_run l (p : plugin S) :
  iterM push_name l p =
    (of_result (converted l).2, set_s_devices (s_devices p ++ (converted l).1) p).
Proof.
  revert p; induction l as [|v l IH]; intros p; cbn [iterM converted].
  - rewrite app_nil_r. by destruct p.
  - unfold bind at 1, push_name. unfold bind at 1. rewrite lift_run.
    destruct (to_string v) as [name|e]; simpl; [|rewrite app_nil_r; by destruct p].
    rewrite IH. destruct p. simpl. unfold set_s_devices. simpl. by rewrite <- app_assoc.
Qed.

(** The block of [postDevices]. *)
Definition replaced (jb : J) (_ : list bytes) : list bytes * result exn unit := converted (elements jb).

Lemma replace_run jb (p : plugin S) :
  with_unique_lock (modify (set_s_devices []) >>> iterM push_name (elements jb)) p =
    match s_mutex p with
    | Unlocked => (of_result (replaced jb (s_devices p)).2, set_s_devices (replaced jb (s_devices p)).1 p)
    | _ => (Suspended, p)
    end.
Proof.
  apply (with_unique_lock_run (replaced jb)). clear p. intros p. unfold bind, modify.
  by rewrite push_names_run.
Qed.

(** The block of [patchDevice]. *)
Definition renamed (text body : bytes) (devices : list bytes) : list bytes * result exn unit :=
  match
    let* i := index_in devices text in
    let* jb := json_parse body in
    let* jn := member (str "name") jb in
    let* name := to_string jn in
    Ok (<[i := name]> devices)
  with
  | Ok devices' => (devices', Ok tt)
  | Throw e => (devices, Throw e)
  end.

Lemma rename_run text body (p : plugin S) :
  with_unique_lock
    (idx <-- device_index text ;;
     in_range idx >>>
     jb <-- lift (json_parse body) ;;
     jn <-- lift (member (str "name") jb) ;;
     name <-- lift (to_string jn) ;;
     modify (fun p => set_s_devices (<[Z.to_nat idx := name]> (s_devices p)) p)) p =
    match s_mutex p with
    | Unlocked => (of_result (renamed text body (s_devices p)).2,
                   set_s_devices (renamed text body (s_devices p)).1 p)
    | _ => (Suspended, p)
    end.
Proof.
  apply (with_unique_lock_run (renamed text body)). clear p. intros p.
  unfold renamed, device_index, index_in, bind. rewrite lift_run.
  assert (E : set_s_devices (s_devices p) p = p) by (by destruct p).
  destruct (stoul (until_nul text)) as [idx|e]; simpl; [|by rewrite E]. rewrite in_range_run.
  destruct (_ <=? idx)%Z; simpl; [by rewrite E|]. rewrite lift_run.
  destruct (json_parse body) as [jb|e]; simpl; [|by rewrite E]. rewrite lift_run.
  destruct (member _ jb) as [jn|e]; simpl; [|by rewrite E]. rewrite lift_run.
  destruct (to_string jn) as [name|e]; simpl; [|by rewrite E]. done.
Qed.

(** The block of [deleteDevice]; the index is read before it. *)
Definition removed (idx : Z) (devices : list bytes) : list bytes * result exn unit :=
  if (Z.of_nat (length devices) <=? idx)%Z then (devices, Throw (ex_int 400))
  else (delete (Z.to_nat idx) devices, Ok tt).

Lemma remove_run idx (p : plugin S) :
  with_unique_lock
    (in_range idx >>> modify (fun p => set_s_devices (delete (Z.to_nat idx) (s_devices p)) p)) p =
    match s_mutex p with
    | Unlocked => (of_result (removed idx (s_devices p)).2, set_s_devices (removed idx (s_devices p)).1 p)
    | _ => (Suspended, p)
    end.
Proof.
  apply (with_unique_lock_run (removed idx)). clear p. intros p. unfold removed, bind.
  rewrite in_range_run. destruct (_ <=? idx)%Z; [by destruct p|done].
Qed.
End Blocks.

Lemma accept_limited req parts b b' :
  accept_parts (appendBodyCallback append_limited body_limit req) parts b = Ok b' ->
  b' = b ++ concat parts /\ (Z.of_nat (length b) <= body_limit -> Z.of_nat (length b') <= body_limit)%Z.
Proof.
  revert b; induction parts as [|x parts IH]; intros b; cbn [accept_parts].
  - intros [= <-]. by rewrite app_nil_r.
  - unfold appendBody. cbn [m_callback appendBodyCallback]. unfold append_limited at 1.
    destruct (Z.ltb_spec body_limit (Z.of_nat (length (b ++ x)))); cbn [rbind]; [done|].
    intros E. apply IH in E as [-> Hl]. split; [by rewrite <- app_assoc|]. by auto.
Qed.

Section Runs.
Context {S J : Type} `{A : AbstractStream bytes S} `{L : !StreamLaws A} `{V : BodyState bytes S}.
Context `{BL : !BodyLaws A} `{HJ : Json J} `{HO : IterationOrder}.
Implicit Types p : plugin S.

Lemma streaming_run {X} (m : M S X) p o s :
  m (stream p) = (o, s) -> streaming m p = (o, set_stream s p).
Proof. unfold streaming. by intros ->. Qed.

Lemma streaming_Done {X} (m : M S X) p x p' :
  streaming m p = (Done x, p') -> exists s, m (stream p) = (Done x, s) /\ p' = set_stream s p.
Proof.
  unfold streaming. destruct (m (stream p)) as [o s]. intros [= -> <-]. by exists s.
Qed.

Lemma read_body_Done req p body p' :
  good (stream p) -> read_body req p = (Done body, p') ->
  (Z.of_nat (length body) <= body_limit)%Z /\
  exists s pre, p' = set_stream s p /\ interim pre /\ sent s = sent (stream p) ++ pre /\ good s.
Proof.
  intros Hg E. unfold read_body in E.
  apply bind_Done in E as ([] & p1 & E1 & E). apply streaming_Done in E1 as (s1 & [= <-] & ->).
  apply bind_Done in E as (r & p2 & E2 & [= <- <-]). apply streaming_Done in E2 as (s2 & E2 & ->).
  apply read_request_spec in E2 as (pre & Hp & Es & Hg2 & parts & Ha); [|by apply set_body_good].
  simpl in *. rewrite body_of_set in Ha. apply accept_limited in Ha as [_ Hl].
  split; [by apply Hl|]. exists s2, pre. rewrite set_body_sent in Es. by destruct p.
Qed.

Lemma reply_Done res s0 p p' :
  good s0 -> streaming (write_response res) (set_stream s0 p) = (Done tt, p') ->
  exists s ka, p' = set_stream s p /\ sent s = sent s0 ++ toString ka res.
Proof.
  intros Hg E. apply streaming_Done in E as (s & E & ->).
  apply write_response_spec in E as (Es & _); [|done]. by eexists s, _.
Qed.
End Runs.

(** Every block leaves the handlers' common frame alone: runs of the four handlers,
    after the request has been read. *)
Section Cases.
Context {S J : Type} `{A : AbstractStream bytes S} `{V : BodyState bytes S}.
Context `{HJ : Json J} `{HO : IterationOrder}.
Implicit Types p : plugin S.

(** What a run may have done to the plugin's variables, whatever its outcome. *)
Definition stored (m : method) (captured : option bytes) p (r : outcome unit * plugin S) : Prop :=
  let '(o, p') := r in
  s_mutex p' = s_mutex p /\
  (s_devices p' = s_devices p \/
   (exists body answer, performs captured body (s_devices p) m (s_devices p') answer) \/
   (m = POST /\ exists body j vs v rest e, json_parse body = Ok j /\ elements j = vs ++ v :: rest /\
      Forall2 (fun v name => to_string v = Ok name) vs (s_devices p') /\
      to_string v = Throw e /\ o = Raise e)).

Lemma converted_Throw l names e :
  converted l = (names, Throw e) ->
  exists vs v rest, l = vs ++ v :: rest /\ Forall2 (fun v n => to_string v = Ok n) vs names /\
    to_string v = Throw e.
Proof.
  revert names; induction l as [|v l IH]; intros names; simpl; [done|].
  destruct (to_string v) as [name|e1] eqn:E.
  - destruct (converted l) as [ns r]. simpl. intros [= <- ->].
    destruct (IH _ eq_refl) as (vs & v1 & rest & -> & Hf & Hv). exists (v :: vs), v1, rest.
    split; [done|]. split; [by constructor|done].
  - intros [= <- <-]. by exists [], v, l.
Qed.

Lemma renamed_cases text body devices :
  (exists e, renamed text body devices = (devices, Throw e)) \/
  exists devices', renamed text body devices = (devices', Ok tt) /\
    performs (Some text) body devices PATCH devices' (response1 200).
Proof.
  unfold renamed. destruct (index_in devices text) as [i|e] eqn:Ei; simpl; [|by left; eexists].
  destruct (json_parse body) as [jb|e] eqn:Ej; simpl; [|by left; eexists].
  destruct (member _ jb) as [jn|e] eqn:Em; simpl; [|by left; eexists].
  destruct (to_string jn) as [name|e] eqn:En; simpl; [|by left; eexists].
  right. eexists. split; [done|]. by eapply performs_patch.
Qed.

Lemma removed_cases text idx devices :
  stoul (until_nul text) = Ok idx ->
  (exists e, removed idx devices = (devices, Throw e)) \/
  exists devices', removed idx devices = (devices', Ok tt) /\
    forall body, performs (Some text) body devices DELETE devices' (response1 200).
Proof.
  intros E. unfold removed. destruct (_ <=? idx)%Z eqn:El; [by left; eexists|].
  right. eexists. split; [done|]. intros body. eapply performs_delete; [done|].
  unfold index_in. rewrite E. simpl. by rewrite El.
Qed.

Lemma streaming_keeps {X} (m : M S X) p :
  s_devices (streaming m p).2 = s_devices p /\ s_mutex (streaming m p).2 = s_mutex p.
Proof. unfold streaming. by destruct (m (stream p)). Qed.

Definition same_plugin p p' : Prop := s_devices p' = s_devices p /\ s_mutex p' = s_mutex p.

#[export] Instance same_plugin_preorder : PreOrder same_plugin.
Proof. unfold same_plugin. split; [by intros p|]. intros p1 p2 p3 [? ?] [? ?]. split; congruence. Qed.

Lemma streaming_same {X} (m : M S X) : respects same_plugin (streaming m).
Proof. intros p. apply streaming_keeps. Qed.
#[local] Hint Resolve streaming_same : effects.

Lemma read_body_same req : respects same_plugin (read_body req).
Proof. unfold read_body. respecting. Qed.

Lemma listing_same route : respects same_plugin (listing (J := J) route).
Proof. intros p. rewrite listing_run. by destruct (s_mutex p). Qed.
#[local] Hint Resolve read_body_same listing_same : effects.

Lemma getDevices_same route req : respects same_plugin (getDevices (J := J) route req).
Proof. unfold getDevices. respecting. Qed.

(** Reading comes first and changes nothing; a run that does not get past it
    stores nothing. *)
Lemma stored_after {X} (m : M (plugin S) X) (k : X -> M (plugin S) unit) mth captured :
  respects same_plugin m ->
  (forall x p1, stored mth captured p1 (k x p1)) ->
  forall p, stored mth captured p (bind m k p).
Proof.
  intros Hm Hk p. specialize (Hm p). unfold bind. destruct (m p) as [[x|e| |] p1]; simpl in Hm;
    destruct Hm as [Hd Hmx]; [|by split; [|left]..].
  specialize (Hk x p1). unfold stored in *. by rewrite <- Hd, <- Hmx.
Qed.

(** Sending the answer stores nothing more. *)
Lemma stored_reply mth captured p o p1 res :
  o = Done tt -> stored mth captured p (o, p1) ->
  stored mth captured p (streaming (write_response res) p1).
Proof.
  intros -> [H1 H2]. destruct (streaming_keeps (write_response res) p1) as [Ed Em].
  destruct (streaming (write_response res) p1) as [o p2]. simpl in *.
  split; [congruence|]. rewrite Ed. destruct H2 as [H2|[H2|(_ & ? & ? & ? & ? & ? & ? & _ & _ & _ & _ & [=])]];
    by auto.
Qed.

Lemma post_stored jb body p :
  json_parse body = Ok jb ->
  let k := with_unique_lock (modify (set_s_devices []) >>> iterM push_name (elements jb)) >>>
           streaming (write_response (response1 200)) in
  forall captured, stored POST captured p (k p).
Proof.
  intros Ej k captured. unfold k, bind at 1. rewrite replace_run.
  destruct (s_mutex p) eqn:Em; [|by split; [|left]..].
  unfold replaced. destruct (converted (elements jb)) as [names [[]|e]] eqn:E; cbn [of_result fst snd].
  - eapply stored_reply; [done|]. split; [done|]. right; left. exists body, (response1 200).
    eapply performs_post; [done|]. by apply converted_Ok.
  - split; [done|]. right; right. split; [done|].
    apply converted_Throw in E as (vs & v & rest & El & Hf & Hv). by exists body, jb, vs, v, rest, e.
Qed.

Lemma patch_stored text body p :
  let k := with_unique_lock
        (idx <-- device_index text ;;
         in_range idx >>>
         jb <-- lift (json_parse body) ;;
         jn <-- lift (member (str "name") jb) ;;
         name <-- lift (to_string jn) ;;
         modify (fun p => set_s_devices (<[Z.to_nat idx := name]> (s_devices p)) p)) >>>
      streaming (write_response (response1 200)) in
  stored PATCH (Some text) p (k p).
Proof.
  intros k. unfold k, bind at 1. rewrite rename_run.
  destruct (s_mutex p) eqn:Em; [|by split; [|left]..].
  destruct (renamed_cases text body (s_devices p)) as [[e ->]|(devices' & -> & Hp)]; cbn [of_result fst snd].
  - by split; [|left].
  - eapply stored_reply; [done|]. split; [done|]. right; left. by exists body, (response1 200).
Qed.

Lemma delete_stored text idx p :
  stoul (until_nul text) = Ok idx ->
  let k := with_unique_lock
        (in_range idx >>>
         modify (fun p => set_s_devices (delete (Z.to_nat idx) (s_devices p)) p)) >>>
      streaming (write_response (response1 200)) in
  stored DELETE (Some text) p (k p).
Proof.
  intros E k. unfold k, bind at 1. rewrite remove_run.
  destruct (s_mutex p) eqn:Em; [|by split; [|left]..].
  destruct (removed_cases text idx (s_devices p) E) as [[e ->]|(devices' & -> & Hp)]; cbn [of_result fst snd].
  - by split; [|left].
  - eapply stored_reply; [done|]. split; [done|]. right; left. by exists [], (response1 200).
Qed.
End Cases.

(** What a request that is answered normally has done. *)
Section Answered.
Context {S J : Type} `{A : AbstractStream bytes S} `{L : !StreamLaws A} `{V : BodyState bytes S}.
Context `{BL : !BodyLaws A} `{HJ : Json J} `{HO : IterationOrder}.
Implicit Types p : plugin S.

Definition answered (m : method) (captured : option bytes) p p' : Prop :=
  exists body answer pre ka,
    performs captured body (s_devices p) m (s_devices p') answer /\
    (m = POST \/ m = PATCH -> (Z.of_nat (length body) <= body_limit)%Z) /\
    interim pre /\ sent (stream p') = sent (stream p) ++ pre ++ toString ka answer.

(** The common end of the handlers: the block has stored [devices], and the answer is
    sent. *)
Lemma answered_reply m captured body devices answer pre s0 p p' :
  good s0 -> sent s0 = sent (stream p) ++ pre -> interim pre ->
  performs captured body (s_devices p) m devices answer ->
  (m = POST \/ m = PATCH -> (Z.of_nat (length body) <= body_limit)%Z) ->
  streaming (write_response answer) (set_stream s0 (set_s_devices devices p)) = (Done tt, p') ->
  answered m captured p p'.
Proof.
  intros Hg Es Hpre Hp Hl E. apply reply_Done in E as (s & ka & -> & Es'); [|done].
  exists body, answer, pre, ka. split; [done|]. split; [done|]. split; [done|]. simpl.
  by rewrite Es', Es, <- app_assoc.
Qed.

Lemma getDevices_answered `{!JsonLaws J} route req p p' :
  good (stream p) -> getDevices (J := J) route req p = (Done tt, p') ->
  answered GET (capturedResources route !! device_id) p p'.
Proof.
  intros Hg E. unfold getDevices in E. apply bind_Done in E as (r & p1 & E1 & E).
  apply streaming_Done in E1 as (s1 & E1 & ->).
  apply read_request_spec in E1 as (pre & Hpre & Es & Hg1 & _); [|done].
  apply bind_Done in E as (j & p2 & E2 & E). rewrite listing_run in E2.
  assert (Hj : listed (capturedResources route !! device_id) (s_devices p) = Ok j /\ p2 = set_stream s1 p).
  { simpl in E2. destruct (s_mutex p), (listed _ _) as [j1|]; simpl in E2; by simplify_eq. }
  destruct Hj as [Hj ->]. apply bind_Done in E as (text & p3 & E3 & E). rewrite lift_run in E3.
  destruct (dump j) as [t|] eqn:Ed; simpl in E3; [|done]. injection E3 as <- <-.
  apply listed_view in Hj as (shown & Hv & Hel).
  apply (answered_reply GET _ [] (s_devices p) (make_response 200 t json_headers) pre s1);
    [done|done|done| |by intros [|]|].
  - by eapply performs_get.
  - by destruct p.
Qed.

Lemma unique_Done (f : list bytes -> list bytes * result exn unit) s p x p' :
  (match s_mutex (set_stream s p) with
   | Unlocked => (of_result (f (s_devices (set_stream s p))).2,
                  set_s_devices (f (s_devices (set_stream s p))).1 (set_stream s p))
   | _ => (Suspended, set_stream s p)
   end) = (Done x, p') ->
  (f (s_devices p)).2 = Ok tt /\ p' = set_stream s (set_s_devices (f (s_devices p)).1 p).
Proof.
  simpl. destruct (s_mutex p); [|done..]. destruct (f (s_devices p)) as [d [[]|]]; simpl; [|done].
  by intros [= _ <-].
Qed.

Lemma postDevices_answered route req p p' :
  good (stream p) -> postDevices (J := J) route req p = (Done tt, p') ->
  answered POST (capturedResources route !! device_id) p p'.
Proof.
  intros Hg E. unfold postDevices in E. apply bind_Done in E as (body & p1 & E1 & E).
  apply read_body_Done in E1 as (Hl & s1 & pre & -> & Hpre & Es & Hg1); [|done].
  apply bind_Done in E as (jb & p2 & E2 & E). rewrite lift_run in E2.
  destruct (json_parse body) as [j|] eqn:Ej; simpl in E2; [|done]. injection E2 as <- <-.
  apply bind_Done in E as (x & p3 & E3 & E). rewrite replace_run in E3.
  apply unique_Done in E3 as [Hr ->].
  eapply (answered_reply POST _ body _ _ pre s1); [done|done|done| |done|exact E].
  eapply performs_post; [done|]. apply converted_Ok. unfold replaced in *.
  destruct (converted (elements j)); simpl in *. by rewrite Hr.
Qed.

Lemma patchDevice_answered route req p p' :
  good (stream p) -> patchDevice (J := J) route req p = (Done tt, p') ->
  answered PATCH (capturedResources route !! device_id) p p'.
Proof.
  intros Hg E. unfold patchDevice in E. apply bind_Done in E as (body & p1 & E1 & E).
  apply read_body_Done in E1 as (Hl & s1 & pre & -> & Hpre & Es & Hg1); [|done].
  destruct (capturedResources route !! device_id) as [text|]; [|done].
  apply bind_Done in E as (x & p3 & E3 & E). rewrite rename_run in E3.
  apply unique_Done in E3 as [Hr ->].
  destruct (renamed_cases text body (s_devices p)) as [[e Er]|(devices' & Er & Hp)];
    rewrite Er in *; [done|].
  by eapply (answered_reply PATCH _ body _ _ pre s1).
Qed.

Lemma deleteDevice_answered route req p p' :
  good (stream p) -> deleteDevice route req p = (Done tt, p') ->
  answered DELETE (capturedResources route !! device_id) p p'.
Proof.
  intros Hg E. unfold deleteDevice in E. apply bind_Done in E as (r & p1 & E1 & E).
  apply streaming_Done in E1 as (s1 & E1 & ->).
  apply read_request_spec in E1 as (pre & Hpre & Es & Hg1 & _); [|done].
  destruct (capturedResources route !! device_id) as [text|]; [|done].
  apply bind_Done in E as (idx & p2 & E2 & E). unfold device_index in E2. rewrite lift_run in E2.
  destruct (stoul (until_nul text)) as [i|] eqn:Ei; simpl in E2; [|done]. injection E2 as <- <-.
  apply bind_Done in E as (x & p3 & E3 & E). rewrite remove_run in E3.
  apply unique_Done in E3 as [Hr ->].
  destruct (removed_cases text i (s_devices p) Ei) as [[e Er]|(devices' & Er & Hp)];
    rewrite Er in *; [done|].
  eapply (answered_reply DELETE _ [] _ _ pre s1); [done|done|done|apply Hp|by intros [|]|exact E].
Qed.
End Answered.

(** * A JSON library and a connection for the examples

    Values without escapes in strings; numbers are only written. *)

Inductive value : Type :=
| VNull
| VNumber (z : Z)
| VString (s : bytes)
| VArray (l : list value)
| VObject (l : list (bytes * value)).

Definition QUOTE : ascii := ascii_of_N 34.

Definition quoted (s : bytes) : bytes := QUOTE :: s ++ [QUOTE].

Fixpoint comma_separated (l : list bytes) : bytes :=
  match l with
  | [] => []
  | [x] => x
  | x :: l' => x ++ ","%char :: comma_separated l'
  end.

Fixpoint value_text (v : value) : bytes :=
  match v with
  | VNull => str "null"
  | VNumber z => print_dec (Z.to_N z)
  | VString s => quoted s
  | VArray l => "["%char :: comma_separated (map value_text l) ++ ["]"%char]
  | VObject l =>
      "{"%char :: comma_separated (map (fun kv => quoted kv.1 ++ ":"%char :: value_text kv.2) l) ++ ["}"%char]
  end.

Definition trim (s : bytes) : bytes := drop (lead_spaces s) s.

(** The text up to the closing quote, and what follows it. *)
Definition string_rest (s : bytes) : option (bytes * bytes) :=
  (fun i => (take i s, drop (i + 1) s)) <$> index_of QUOTE s.

(** A value, the items of an array, the members of an object, and what follows. *)
Fixpoint parse_value (fuel : nat) (s : bytes) : option (value * bytes) :=
  match fuel with
  | O => None
  | S fuel' =>
      match trim s with
      | "034"%char :: s' => (fun r : bytes * bytes => (VString r.1, r.2)) <$> string_rest s'
      | "["%char :: s' =>
          if starts_with (trim s') (str "]") then Some (VArray [], drop 1 (trim s'))
          else (fun r : list value * bytes => (VArray r.1, r.2)) <$> parse_items fuel' s'
      | "{"%char :: s' =>
          if starts_with (trim s') (str "}") then Some (VObject [], drop 1 (trim s'))
          else (fun r : list (bytes * value) * bytes => (VObject r.1, r.2)) <$> parse_members fuel' s'
      | _ => None
      end
  end
with parse_items (fuel : nat) (s : bytes) : option (list value * bytes) :=
  match fuel with
  | O => None
  | S fuel' =>
      match parse_value fuel' s with
      | None => None
      | Some (v, rest) =>
          match trim rest with
          | "]"%char :: rest' => Some ([v], rest')
          | ","%char :: rest' =>
              (fun r : list value * bytes => (v :: r.1, r.2)) <$> parse_items fuel' rest'
          | _ => None
          end
      end
  end
with parse_members (fuel : nat) (s : bytes) : option (list (bytes * value) * bytes) :=
  match fuel with
  | O => None
  | S fuel' =>
      match parse_value fuel' s with
      | Some (VString k, rest) =>
          match trim rest with
          | ":"%char :: rest1 =>
              match parse_value fuel' rest1 with
              | None => None
              | Some (v, rest2) =>
                  match trim rest2 with
                  | "}"%char :: rest' => Some ([(k, v)], rest')
                  | ","%char :: rest' =>
                      (fun r : list (bytes * value) * bytes => ((k, v) :: r.1, r.2)) <$>
                        parse_members fuel' rest'
                  | _ => None
                  end
              end
          | _ => None
          end
      | _ => None
      end
  end.

Definition type_error : exn := ex_std (runtime_error (str "type_error")).

#[local] Instance sample_json : Json value := {|
  is_array := fun j => match j with VArray _ => true | _ => false end;
  json_array := VArray [];
  json_object := VObject;
  json_number := VNumber;
  json_string := VString;
  push_back := fun j x => match j with VArray l => VArray (l ++ [x]) | _ => j end;
  dump := fun j => Ok (value_text j);
  json_parse := fun s =>
    match parse_value (S (length s)) s with
    | Some (v, []) => Ok v
    | _ => Throw (ex_std (runtime_error (str "parse_error")))
    end;
  elements := fun j =>
    match j with VArray l => l | VObject l => l.*2 | VNull => [] | _ => [j] end;
  member := fun k j =>
    match j with
    | VObject l => Ok (default VNull (list_to_map (M := gmap bytes value) l !! k))
    | VNull => Ok VNull
    | _ => Throw type_error
    end;
  to_string := fun j => match j with VString s => Ok s | _ => Throw type_error end
|}.

#[local] Instance sample_json_laws : JsonLaws value.
Proof.
  split; try done.
  - intros [| | |l|l] x; simpl; done.
  - intros k v l Hin Hnd. simpl. by rewrite (elem_of_list_to_map_1 l k v).
Qed.

#[local] Existing Instances conn_stream conn_laws conn_gathers conn_body conn_body_laws.
#[local] Existing Instance listed_order.

Definition no_route : ParsedRoute :=
  {| capturedResources := ∅; queryStrings := []; allButOPTIONSNodeMethods := [] |}.

Definition device_route (id : bytes) : ParsedRoute :=
  {| capturedResources := {[ device_id := id ]}; queryStrings := []; allButOPTIONSNodeMethods := [] |}.

(** [ "dev1", "dev2" ] *)
Definition two_devices : bytes :=
  str "[" ++ quoted (str "dev1") ++ str ", " ++ quoted (str "dev2") ++ str "]".

(** * Properties *)

(** C18. Whatever happens to a request, the plugin's variables stay sound.  However a
    handler ends (normally, by an exception, or suspended on its connection) the mutex is as it
    was before, so a suspended handler blocks no other one; and the list of
    devices is unchanged or changed by the whole operation.  The one exception is
    a POST whose JSON has an element that is not a string: it answers that
    element's conversion error and leaves the names before it as the list. *)
Theorem devices_all_or_nothing {S J} `{A : AbstractStream bytes S} `{V : BodyState bytes S} `{Json J}
    `{IterationOrder} (m : method) route req (p : plugin S) :
  stored m (capturedResources route !! device_id) p
    (handler_of m route req p).
Proof.
  destruct m; simpl.
  - destruct (getDevices_same route req p) as [Ed Em].
    destruct (getDevices route req p) as [o p']. by split; [|left].
  - apply stored_after; [apply read_body_same|]. clear p. intros body p. unfold bind at 1.
    rewrite lift_run. destruct (json_parse body) as [jb|e] eqn:Ej; simpl; [|by split; [|left]].
    by eapply post_stored.
  - apply stored_after; [apply read_body_same|]. clear p. intros body p.
    destruct (capturedResources route !! device_id) as [text|]; [apply patch_stored|by split; [|left]].
  - apply stored_after; [apply streaming_same|]. clear p. intros r p.
    destruct (capturedResources route !! device_id) as [text|]; [|by split; [|left]].
    unfold bind at 1. unfold device_index. rewrite lift_run.
    destruct (stoul (until_nul text)) as [idx|e] eqn:E; simpl; [by apply delete_stored|by split; [|left]].
Qed.



(** The handlers [init_plugin] adds to the two routes, and the methods they list. *)
Definition routed {S J : Type} `{A : AbstractStream bytes S} `{V : BodyState bytes S} `{Json J}
    `{IterationOrder} (id : option bytes) (name : bytes)
    : option (ParsedRoute -> Request bytes -> M (plugin S) unit) :=
  match id with
  | None =>
      if decide (name = str "GET") then Some getDevices
      else if decide (name = str "POST") then Some postDevices else None
  | Some _ =>
      if decide (name = str "GET") then Some getDevices
      else if decide (name = str "PATCH") then Some patchDevice
      else if decide (name = str "DELETE") then Some deleteDevice else None
  end.

Definition allowed (id : option bytes) : bytes :=
  match id with None => str "GET, POST" | Some _ => str "GET, PATCH, DELETE" end.

Section Routes.
Context {S J : Type} `{A : AbstractStream bytes S} `{V : BodyState bytes S} `{HJ : Json J}.
Context `{HO : IterationOrder}.

(** The router after [init_plugin]. *)
Definition v1_routes : list (RestfullRoute (HttpSession S)) :=
  [{| m_routeParts := [(false, str "devices")];
      m_methods := <[str "POST" := sessionHandler postDevices]>
                   (<[str "GET" := sessionHandler getDevices]> ∅);
      m_allMethods := allowed None |};
   {| m_routeParts := [(false, str "devices"); (true, device_id)];
      m_methods := <[str "DELETE" := sessionHandler deleteDevice]>
                   (<[str "PATCH" := sessionHandler patchDevice]>
                   (<[str "GET" := sessionHandler getDevices]> ∅));
      m_allMethods := allowed (Some []) |}].

Lemma init_plugin_routes :
  init_plugin skip initial_globals =
    (Done true, Globals {| m_baseUrl := [str "v1"]; m_routes := v1_routes |} [] []).
Proof. reflexivity. Qed.

Lemma v1_dispatch url qpos q (id : option bytes) method :
  parse_query url qpos = Ok q ->
  dispatch None v1_routes url qpos (str "devices" :: option_list id) method =
    match routed id method with
    | Some h =>
        Ok (Some (h {| capturedResources := match id with Some x => {[ device_id := x ]} | None => ∅ end;
                       queryStrings := q; allButOPTIONSNodeMethods := allowed id |}))
    | None => Throw (ex_response (make_response 405 [] {[ str "Allow" := allowed id ]}))
    end.
Proof.
  intros Eq. unfold v1_routes. destruct id as [x|];
    cbn [dispatch option_list rbind]; unfold route_createHandler at 1; cbn [length m_routeParts].
  - rewrite decide_True by done. cbn [rbind]. unfold route_createHandler.
    cbn [length m_routeParts match_parts]. rewrite decide_False by (intros Hn; by apply Hn).
    rewrite decide_True by done. cbn [m_methods routed].
    rewrite !lookup_insert, lookup_empty.
    repeat case_decide; subst; try done; cbn [rbind]; by rewrite ?Eq.
  - rewrite decide_False by (intros Hn; by apply Hn). cbn [match_parts].
    rewrite decide_True by done. cbn [m_methods routed]. rewrite !lookup_insert, lookup_empty.
    repeat case_decide; subst; try done; cbn [rbind]; by rewrite ?Eq.
Qed.
End Routes.

(** The plugin's routes: after [init_plugin], [/v1/devices] and
    [/v1/devices/{device}] with any query reach the handler of the method, with the
    device captured and the query parsed; any other method is refused with the
    405 response that lists the route's methods. *)
Theorem device_routes {S J} `{A : AbstractStream bytes S} `{V : BodyState bytes S} `{Json J}
    `{IterationOrder} (id : option bytes) (q : QueryStrings) (req : Request bytes) :
  (forall x, id = Some x -> x <> [] /\ "/"%char ∉ x /\ "?"%char ∉ x) ->
  Forall (fun kv => kv.1 <> []) q ->
  m_url req = render_url ([str "v1"; str "devices"] ++ option_list id) q ->
  (N.of_nat (length (m_url req)) < npos)%N ->
  exists g, init_plugin skip (initial_globals (S := S)) = (Done true, g) /\
    create_session g req =
      match routed id (m_method req) with
      | Some h =>
          Ok (Some (h {| capturedResources := match id with Some x => {[ device_id := x ]} | None => ∅ end;
                         queryStrings := q; allButOPTIONSNodeMethods := allowed id |}))
      | None => Throw (ex_response (make_response 405 [] {[ str "Allow" := allowed id ]}))
      end.
Proof.
  intros Hid Hq Hu Hl. eexists. split; [apply init_plugin_routes|]. unfold create_session.
  rewrite Hu in *. cbn [s_restullV1RootNode]. set (rr := {| m_baseUrl := _; m_routes := _ |}).
  destruct (createHandler_render None rr (str "devices" :: option_list id) q (m_method req))
    as (qpos & Eq & E); [|done|done|exact Hl|].
  - apply (Forall_app _ [str "v1"; str "devices"] (option_list id)).
    split; [apply (bool_decide_unpack _); vm_compute; exact I|].
    destruct id; repeat constructor; by apply Hid.
  - etransitivity; [exact E|]. by apply v1_dispatch.
Qed.

Lemma device_routes_witness :
  exists g, init_plugin skip (initial_globals (S := conn)) = (Done true, g) /\
    create_session g (setMethod (str "DELETE") (setUrl (str "/v1/devices/7?force=yes") make_request)) =
    Ok (Some (deleteDevice {| capturedResources := {[ device_id := str "7" ]};
                              queryStrings := [(str "force", str "yes")];
                              allButOPTIONSNodeMethods := str "GET, PATCH, DELETE" |})).
Proof.
  destruct (device_routes (Some (str "7")) [(str "force", str "yes")]
    (setMethod (str "DELETE") (setUrl (str "/v1/devices/7?force=yes") make_request))) as (g & E1 & E2).
  - intros x [= <-]. apply (bool_decide_unpack _). vm_compute. exact I.
  - repeat (constructor; [discriminate|]). constructor.
  - vm_compute. reflexivity.
  - vm_compute. reflexivity.
  - exists g. split; [exact E1|exact E2].
Defined.

(** The two builds of [getDevices] say the same: with [__USE_CHUNCKED] and no
    failing write, a client that decodes the chunked body gets, right after the
    headers, exactly the text that the plain build sends as its body; neither build
    touches the devices or the mutex. *)
Theorem chunked_listing_same {S J} `{A : AbstractStream bytes S} `{L : !StreamLaws A} `{G : !GatherLaws A} `{V : BodyState bytes S}
    `{!BodyLaws A} `{Json J} `{IterationOrder} `{StringCapacity}
    cap0 route req (p : plugin S) (j : J) text r s0 s1 n o s2 s3 s4 :
  good (stream p) -> s_mutex p <> Writer ->
  read_request req (stream p) = (Done r, s0) ->
  listed (capturedResources route !! device_id) (s_devices p) = Ok j -> dump j = Ok text ->
  write_response (setContentLength ChunkedData (make_response 200 [] json_headers)) s0 = (Done tt, s1) ->
  xsputn (A := ChunkedStream) text (ostream_make (A := ChunkedStream) cap0 s1) = (Done n, o) ->
  ostream_destroy (A := ChunkedStream) o = Finished s2 ->
  write EndOfChunckedStream s2 = (Done tt, s3) ->
  write_response (make_response 200 text json_headers) s0 = (Done tt, s4) ->
  getDevices_chunked (J := J) cap0 route req p = Some (Done tt, set_stream s3 p) /\
  (exists w, sent s3 = sent s1 ++ w /\
     forall rest, decode_chunked (Datatypes.S (length w)) (w ++ rest) = Some (text, rest)) /\
  getDevices (J := J) route req p = (Done tt, set_stream s4 p) /\
  sent s4 = sent s0 ++ toString (keepAlive s0) (make_response 200 text json_headers).
Proof.
  intros Hg Hm Hr Hj Hd Hh Hx Ho Hw Hp.
  assert (Hl : forall s, listing route (set_stream s p) = (Done j, set_stream s p)).
  { intros s. rewrite listing_run. simpl. rewrite Hj. by destruct (s_mutex p). }
  pose proof Hr as Hr1. apply read_request_spec in Hr1 as (pre & _ & _ & Hg0 & _); [|done].
  pose proof Hh as Hh1. apply write_response_spec in Hh1 as (_ & Hg1 & _); [|done].
  split; [|split; [|split]].
  - unfold getDevices_chunked, bind. rewrite (streaming_run _ p _ _ Hr), Hl.
    rewrite (streaming_run _ (set_stream s0 p) _ _ Hh). cbn [ret stream set_stream]. rewrite Hd.
    unfold chunked_tail, ostream_insert, try_catch, bind. rewrite Hx. cbn [skip ret].
    rewrite Ho. unfold chunked_destroy, try_catch. by rewrite Hw.
  - by eapply chunked_text_sent.
  - unfold getDevices, bind. rewrite (streaming_run _ p _ _ Hr), Hl, lift_run, Hd. cbn [of_result].
    by rewrite (streaming_run _ (set_stream s0 p) _ _ Hp).
  - apply write_response_spec in Hp as (Es & _); [|done]. exact Es.
Qed.

Lemma chunked_listing_same_witness :
  let p := Plugin (new_conn []) [str "dev1"; str "dev2"] Unlocked in
  exists p1 w, @getDevices_chunked conn value _ _ _ growing_capacity 15 no_route make_request p = Some (Done tt, p1) /\
    decode_chunked (S (length w)) w = Some (value_text (VArray [device_entry 0 (str "dev1");
      device_entry 1 (str "dev2")]), []) /\
    sent (stream p1) = str "HTTP/1.1 200 OK" ++ CRLF ++ str "Content-Type: application/json" ++ CRLF ++
      str "Transfer-Encoding: chunked" ++ CRLF ++ str "Connection: close" ++ CRLF ++ CRLF ++ w.
Proof.
  intros p.
  pose (j := VArray [device_entry 0 (str "dev1"); device_entry 1 (str "dev2")]).
  pose (s0 := new_conn []).
  pose (s1 := (write_response (setContentLength ChunkedData (make_response 200 [] json_headers)) s0).2).
  pose (o := (@xsputn _ _ ChunkedStream growing_capacity (value_text j)
                (@ostream_make _ _ ChunkedStream growing_capacity 15 s1)).2).
  pose (s2 := match @ostream_destroy _ _ ChunkedStream growing_capacity o with Finished s => s | _ => s1 end).
  pose (s3 := (write EndOfChunckedStream s2).2).
  pose (s4 := (write_response (make_response 200 (value_text j) json_headers) s0).2).
  destruct (@chunked_listing_same conn value _ _ _ _ _ _ _ growing_capacity
    15 no_route make_request p j (value_text j) (setState Completed make_request) s0 s1 (length (value_text j)) o s2 s3 s4)
    as (E & (w & Ew & Hw) & _); [exact I|discriminate|vm_compute; reflexivity..|].
  exists (set_stream s3 p), w. split; [exact E|]. split.
  - rewrite <- (app_nil_r w) at 2. exact (Hw []).
  - etransitivity; [exact Ew|]. vm_compute. reflexivity.
Defined.

(** The names a client finds in a listing. *)
Definition names_in {J : Type} `{Json J} (j : J) (names : list bytes) : Prop :=
  Forall2 (fun v name => exists w, member (str "name") v = Ok w /\ to_string w = Ok name) (elements j) names.

Lemma entry_name {J} `{Json J} `{!JsonLaws J} idx name :
  exists w, member (str "name") (device_entry idx name) = Ok w /\ to_string w = Ok name.
Proof.
  exists (json_string name). split; [|apply to_string_string]. apply member_object; [set_solver|].
  apply (bool_decide_unpack _). vm_compute. exact I.
Qed.

Lemma names_in_entries {J} `{Json J} `{!JsonLaws J} (j : J) (f : nat -> Z) names :
  elements j = imap (fun i => device_entry (f i)) names -> names_in j names.
Proof.
  unfold names_in. intros ->. revert f; induction names as [|name names IH]; intros f; cbn [imap]; [done|].
  constructor; [apply entry_name|apply IH].
Qed.

(** Round trip of the service: after a POST of a JSON array of strings, a GET on any
    other connection lists exactly those names, in order, each with its index. *)
Theorem post_get_roundtrip {S J} `{A : AbstractStream bytes S} `{L : !StreamLaws A} `{V : BodyState bytes S}
    `{!BodyLaws A} `{Json J} `{!JsonLaws J} `{IterationOrder}
    route1 req1 (p p1 : plugin S) s2 route2 req2 (p3 : plugin S) :
  good (stream p) -> postDevices route1 req1 p = (Done tt, p1) ->
  good s2 -> capturedResources route2 !! device_id = None ->
  getDevices route2 req2 (set_stream s2 p1) = (Done tt, p3) ->
  exists body posted listing text pre ka,
    json_parse body = Ok posted /\
    Forall2 (fun v name => to_string v = Ok name) (elements posted) (s_devices p1) /\
    dump listing = Ok text /\ names_in listing (s_devices p1) /\
    elements listing = imap (fun i => device_entry (Z.of_nat i)) (s_devices p1) /\
    interim pre /\
    sent (stream p3) = sent s2 ++ pre ++ toString ka (make_response 200 text json_headers).
Proof.
  intros Hg E1 Hg2 Hc E2.
  apply postDevices_answered in E1 as (body & a1 & pre1 & ka1 & P1 & _); [|done].
  apply (getDevices_answered _ _ (set_stream s2 p1) _ Hg2) in E2 as (body2 & a2 & pre & ka & P2 & _ & Hpre & Es).
  inversion P1 as [|posted names Ej Hn| |]; subst.
  inversion P2 as [shown j text Hv He Hd| | |]; subst. rewrite Hc in Hv. injection Hv as <-.
  exists body, posted, j, text, pre, ka.
  assert (El : elements j = imap (fun i => device_entry (Z.of_nat i)) (s_devices p1)).
  { rewrite He, fmap_imap. by apply imap_ext. }
  split_and!; [done|done|done| |done|done|done].
  by eapply names_in_entries.
Qed.

Lemma post_get_roundtrip_witness :
  let p := Plugin (new_conn [take 5 two_devices; drop 5 two_devices]) [str "old"] Unlocked in
  exists p1 p3,
    postDevices no_route make_request p = (Done tt, p1) /\
    getDevices no_route make_request (set_stream (new_conn []) p1) = (Done tt, p3) /\
    exists (listing : value) text pre ka, names_in listing [str "dev1"; str "dev2"] /\
      dump listing = Ok text /\
      sent (stream p3) = pre ++ toString ka (make_response 200 text json_headers).
Proof.
  intros p.
  pose (p1 := (postDevices no_route make_request p).2).
  assert (E1 : postDevices no_route make_request p = (Done tt, p1)) by (vm_compute; reflexivity).
  pose (p3 := (getDevices no_route make_request (set_stream (new_conn []) p1)).2).
  assert (E2 : getDevices no_route make_request (set_stream (new_conn []) p1) = (Done tt, p3))
    by (vm_compute; reflexivity).
  exists p1, p3. split; [exact E1|]. split; [exact E2|].
  destruct (post_get_roundtrip (L := conn_laws) no_route make_request p p1 (new_conn []) no_route
    make_request p3 I E1 I eq_refl E2) as (body & posted & listing & text & pre & ka & _ & _ & Hd & Hn & _ & _ & Es).
  exists listing, text, pre, ka. split; [|split; [exact Hd|exact Es]].
  assert (En : s_devices p1 = [str "dev1"; str "dev2"]) by (vm_compute; reflexivity).
  rewrite <- En. exact Hn.
Defined.

(** The configuration part fails on a file without [signing.secret], whose absence
    the sample configuration allows; an empty one is replaced. *)
Lemma missing_secret {S J} `{A : AbstractStream bytes S} `{V : BodyState bytes S} `{Json J}
    `{IterationOrder} (properties : ptree) bad_path random (g : globals S) :
  properties !! str "signing.secret" = None ->
  (init_plugin (read_conf (Ok properties) bad_path random) g).1 = Done false.
Proof.
  intros Hs. unfold init_plugin, try_catch, read_conf, bind, modify, gets. rewrite Hs.
  cbn [g_tokenAlgorithm]. by case_decide.
Qed.
