(* ===== verification/TestPlugin.v ===== *)
(** The test plugin (src/plugins/test/test_plugin.cpp): the services the server is
    tested with, which use every way of answering a request.

    [rand] and what the worker threads do are parameters.  A service that
    writes through an [OStreamBuffer] can call [std::terminate]; its run is then
    [None]. *)

From Stdlib Require Import Ascii String NArith ZArith Lia.
From stdpp Require Import base gmap strings list.
From S2P Require Import Prelude Url Http Effects Stream Restful.
Local Open Scope getodac_scope.

(** * Scopes of streams *)

(** An [std::ostream] over an [OStreamBuffer], with its [badbit]. *)
Record ostream (S : Type) := OStream { rdbuf : obuf S; bad : bool }.
Arguments OStream {S} _ _.
Arguments rdbuf {S} _.
Arguments bad {S} _.

(** What is inserted into an [std::ostream]. *)
Inductive insertion : Type :=
| Text (t : bytes)
| Endl.

Section Scopes.
Context {S : Type} `{A : AbstractStream bytes S} `{StringCapacity}.

(** A block in which a [ChunkedStream] over the stream lives. *)
Definition in_chunked (m : M S unit) : M S unit := fun s =>
  match m s with
  | (Done x, s1) => (chunked_destroy >>> ret x) s1
  | (Raise e, s1) => (chunked_destroy >>> throw e) s1
  | r => r
  end.

(** A call of the buffer by an inserter: an exception or a count [ok] does not accept
    sets [badbit]; nothing is called once it is set. *)
Definition guarded {X : Type} (m : M (obuf S) X) (ok : X -> bool) : M (ostream S) unit := fun o =>
  if bad o then (Done tt, o)
  else match m (rdbuf o) with
       | (Done x, b) => (Done tt, OStream b (negb (ok x)))
       | (Raise _, b) => (Done tt, OStream b true)
       | (Suspended, b) => (Suspended, OStream b false)
       | (Undefined, b) => (Undefined, OStream b false)
       end.

(** [<< text] and [<< std::endl] *)
Definition insert (i : insertion) : M (ostream S) unit :=
  match i with
  | Text t => guarded (xsputn t) (fun n => (n =? length t)%nat)
  | Endl => guarded (overflow LF) (fun _ => true) >>> guarded sync (fun _ => true)
  end.
End Scopes.

Section Texts.
Context {S : Type} `{A : AbstractStream bytes S} `{StringCapacity}.

(** [ChunkedStream], [OStreamBuffer] and [std::ostream] over the stream, the
    insertions, and the end of their scope; [cap0] is the capacity of an empty
    string. *)
Definition chunked_text (cap0 : nat) (ins : list insertion) (s : S) : destroyed S :=
  match iterM (insert (A := ChunkedStream)) ins (OStream (ostream_make (A := ChunkedStream) cap0 s) false) with
  | (Suspended, o) => Waiting (m_stream (rdbuf o))
  | (Undefined, _) => Broken
  | (_, o) =>
      match ostream_destroy (A := ChunkedStream) (rdbuf o) with
      | Finished s1 =>
          match chunked_destroy s1 with
          | (Suspended, s2) => Waiting s2
          | (Undefined, _) => Broken
          | (_, s2) => Finished s2
          end
      | d => d
      end
  end.

(** A service: [None] when the process is terminated. *)
Definition service : Type := Request bytes -> S -> option (outcome unit * S).

Definition plain (m : Request bytes -> M S unit) : service := fun req s => Some (m req s).

(** A service that ends with text written in such a scope. *)
Definition with_text (cap0 : nat) (m : Request bytes -> M S (list insertion)) : service := fun req s =>
  match m req s with
  | (Done ins, s1) =>
      match chunked_text cap0 ins s1 with
      | Finished s2 => Some (Done tt, s2)
      | Terminated => None
      | Waiting s2 => Some (Suspended, s2)
      | Broken => Some (Undefined, s1)
      end
  | (Raise e, s1) => Some (Raise e, s1)
  | (Suspended, s1) => Some (Suspended, s1)
  | (Undefined, s1) => Some (Undefined, s1)
  end.
End Texts.
Arguments service : clear implicits.

(** * Data *)

Definition test100response : bytes := str "100" ++ replicate 97 "X"%char.

Definition MiB : nat := N.to_nat 1048576.

(** The text [init_plugin] appends. *)
Definition fill (n : nat) : bytes := (fun i => ascii_of_N (33 + N.of_nat i mod 93)) <$> seq 0 n.

(** [Request::operator[]]: a missing field is inserted. *)
Definition field_at (k : bytes) (req : Request bytes) : bytes * Request bytes :=
  match req_fields req !! k with
  | Some v => (v, req)
  | None => ([], req_setField k [] req)
  end.

(** * The services *)

Section Services.
Context {S : Type} `{A : AbstractStream bytes S} `{V : BodyState bytes S} `{IterationOrder} `{StringCapacity}.
Context (cap0 : nat).
(** The results of [rand()]; for every task inserted, how often the session is resumed before the task is done
    and what [rand()] returns in it. *)
Context (rand : nat -> N) (tasks : list (nat * N)).
(** The variable filled by [init_plugin]. *)
Context (test50mresponse : bytes).

Definition chunked_headers (fields : Fields) : Response := setContentLength ChunkedData (make_response 200 [] fields).

Definition sized_headers : Response := setContentLength (Z.of_nat (length test50mresponse)) (response1 200).

Definition unlimited : Z := SIZE_MAX - 1.

(** [std::string body; req.appendBodyCallback([&](buff){body.append(buff);});] *)
Definition collect_body (req : Request bytes) : Request bytes :=
  appendBodyCallback (fun buff body => Ok (body ++ buff)) unlimited req.

Definition test0 (req : Request bytes) : M S unit :=
  read_request req >>> write_response (http_literal 200).

Definition test100 (req : Request bytes) : M S unit :=
  read_request req >>> write_response (response2 200 test100response).

Definition test100Chunked (req : Request bytes) : M S unit :=
  read_request req >>>
  write_response (chunked_headers ∅) >>>
  in_chunked (chunked_write test100response).

Definition test50m (req : Request bytes) : M S unit :=
  read_request req >>> write_response sized_headers >>> write test50mresponse.

(** The [do] loop; [rest] is what follows [pos].  A chunk is not empty while there is
    something left, so that its length is enough fuel. *)
Fixpoint write_chunks (fuel k : nat) (rest : bytes) : M S unit :=
  let chunkSize := Nat.min (1 + N.to_nat (rand k mod 1048576)) (length rest) in
  chunked_write (take chunkSize rest) >>>
  match fuel, drop chunkSize rest with
  | _, [] => skip
  | Datatypes.S fuel', rest' => write_chunks fuel' (Datatypes.S k) rest'
  | O, _ => undefined
  end.

Definition test50mChunked (req : Request bytes) : M S unit :=
  read_request req >>>
  write_response (chunked_headers ∅) >>>
  in_chunked (write_chunks (length test50mresponse) 0 test50mresponse).

(** [do { if (auto ec = stream.yield()) throw ec; } while (wait->load());] *)
Fixpoint wait_task (early : nat) : M S unit :=
  ec <-- yield ;;
  if negb (ec =? 0)%Z then throw (ex_code ec)
  else match early with
       | O => skip
       | Datatypes.S early' => wait_task early'
       end.

(** The text a task leaves in the shared buffer. *)
Definition task_text (r : N) : bytes :=
  (fun i => ascii_of_N (48 + N.of_nat i mod 10)) <$> seq 0 (N.to_nat (1000 + r mod 4 * 1000)).

(** The [do] loop: a task that is never done leaves the session suspended. *)
Fixpoint worker_loop (todo : list (nat * N)) (size : nat) : M S unit :=
  match todo with
  | [] => fun s => (Suspended, s)
  | (early, r) :: rest =>
      wait_task early >>>
      chunked_write (task_text r) >>>
      let size' := size + length (task_text r) in
      if (Z.of_nat size' <? 100000)%Z then worker_loop rest size' else skip
  end.

Definition testWorker (req : Request bytes) : M S unit :=
  read_request req >>>
  write_response (chunked_headers ∅) >>>
  in_chunked (worker_loop tasks 0).

(** The fifty blocks of a mebibyte after the headers. *)
Definition blocks : list bytes := (fun i => take MiB (drop (i * MiB) test50mresponse)) <$> seq 0 50.

Definition test50ms (req : Request bytes) : M S unit :=
  read_request req >>>
  ka <-- gets keepAlive ;;
  writev (toString ka sized_headers :: blocks).

(** The [strtoull] of a field's text, which may be missing. *)
Definition announced (req : Request bytes) : Z * Request bytes :=
  let '(v, req') := field_at (str "Content-Length") req in ((strtoull v).1, req').

Definition echo_text (req : Request bytes) (body : bytes) : list insertion :=
  [Text (str "~~~~ ContentLength: "); Text (field_at (str "Content-Length") req).1; Endl;
   Text (str "~~~~ Headers:" ++ [LF])] ++
  mjoin ((fun kv : bytes * bytes => [Text kv.1; Text (str " : "); Text kv.2; Endl]) <$> iter (req_fields req)) ++
  [Text (str "~~~~ Body:" ++ [LF]); Text body].

Definition echoTest : service S := with_text cap0 (fun req =>
  modify (setSessionTimeout 10) >>>
  modify (set_body []) >>>
  r <-- read_request (collect_body req) ;;
  body <-- gets body_of ;;
  let '(n, r1) := announced r in
  if negb (n =? Z.of_nat (length body))%Z then throw (ex_int 400)
  else write_response (chunked_headers ∅) >>> ret (echo_text r1 body)).

Definition pairs (l : list (bytes * bytes)) : Fields := list_to_map l.

Definition secureOnly (req : Request bytes) : M S unit :=
  secured <-- gets isSecuredConnection ;;
  if negb secured then
    throw (ex_response (make_response 403 (str "Only secured connections allowed")
      (pairs [(str "ErrorKey1", str "Value1"); (str "ErrorKey2", str "Value2")])))
  else read_request req >>> write_response (http_literal 200).

Definition testExpectation (req : Request bytes) : M S unit :=
  let '(expect, req1) := field_at (str "Expect") req in
  match (if decide (expect = str "100-continue") then
           let '(x, req2) := field_at (str "X-Continue") req1 in
           if decide (x = str "100") then Ok req2 else Throw (ex_response (response1 417))
         else Ok req1) with
  | Throw e => throw e
  | Ok req2 =>
      read_request (appendBodyCallback (fun _ b => Ok b) unlimited req2) >>> write_response (http_literal 200)
  end.

Definition testThowFromRequestComplete (req : Request bytes) : M S unit := throw (ex_int 412).

Definition body_refused : exn :=
  ex_response (make_response 400 (str "Body too big, lose some weight")
    (pairs [(str "BodyKey1", str "Value1"); (str "BodyKey2", str "Value2")])).

Definition testThowFromBody (req : Request bytes) : M S unit :=
  read_request (appendBodyCallback (fun _ _ => Throw body_refused) unlimited req) >>>
  write_response (http_literal 200).

Definition testThowFromWriteResponse (req : Request bytes) : M S unit :=
  read_request req >>>
  throw (ex_response (make_response 409 (str "Throw from WriteResponse")
    (pairs [(str "WriteRes1", str "Value1"); (str "WriteRes2", str "Value2")]))).

Definition testThowFromWriteResponseStd (req : Request bytes) : M S unit :=
  read_request req >>> throw (ex_std (runtime_error (str "Throw from WriteResponseStd"))).

Definition testThowFromWriteResponseAfterWrite (req : Request bytes) : M S unit :=
  read_request req >>>
  write_response (chunked_headers ∅) >>>
  throw (ex_std (runtime_error (str "Unexpected error"))).

Definition testThrowAfterWakeup (req : Request bytes) : M S unit :=
  read_request req >>>
  match tasks with
  | [] => fun s => (Suspended, s)
  | (early, _) :: _ => wait_task early
  end >>>
  throw (ex_int 404).

Definition testPPP (req : Request bytes) : M S unit :=
  modify (set_body []) >>>
  r <-- read_request (collect_body req) ;;
  body <-- gets body_of ;;
  let '(n, _) := announced r in
  if negb (n =? Z.of_nat (length test50mresponse))%Z then throw (ex_response (response2 400 (str "Invaid body size")))
  else if decide (body <> test50mresponse) then throw (ex_response (response2 400 (str "Invaid body")))
  else write_response (setContentLength (Z.of_nat (length body)) (response1 200)) >>> write body.

(** [TestRESTGET] *)
Definition rest_text (route : ParsedRoute) : list insertion :=
  let named (what : string) (kv : bytes * bytes) :=
    [Text (str what); Text kv.1; Text (str "  value: "); Text kv.2; Endl] in
  [Text (str "Got "); Text (print_dec (N.of_nat (size (capturedResources route))));
   Text (str " captured resources" ++ [LF]);
   Text (str "and "); Text (print_dec (N.of_nat (length (queryStrings route)))); Text (str " queries" ++ [LF]);
   Text (str "All methods but OPTIONS "); Text (allButOPTIONSNodeMethods route); Text (str " " ++ [LF])] ++
  mjoin (named "Resource name: " <$> iter (capturedResources route)) ++
  mjoin (named "Query name: " <$> queryStrings route).

Definition TestRESTGET (route : ParsedRoute) : service S := with_text cap0 (fun req =>
  read_request req >>>
  write_response (chunked_headers (pairs [(str "Content-Type", str "text/plain")])) >>>
  ret (rest_text route)).

(** * The plugin's functions *)

(** The tests of [create_session] on the URL, in order. *)
Definition url_services : list (string * service S) := [
  ("/test0", plain test0); ("/test100", plain test100); ("/test100Chunked", plain test100Chunked);
  ("/test50m", plain test50m); ("/test50mChunked", plain test50mChunked); ("/testWorker", plain testWorker);
  ("/test50ms", plain test50ms); ("/echoTest", echoTest); ("/secureOnly", plain secureOnly);
  ("/testExpectation", plain testExpectation);
  ("/testThowFromRequestComplete", plain testThowFromRequestComplete);
  ("/testThowFromBody", plain testThowFromBody);
  ("/testThowFromWriteResponse", plain testThowFromWriteResponse);
  ("/testThowFromWriteResponseStd", plain testThowFromWriteResponseStd);
  ("/testThowFromWriteResponseAfterWrite", plain testThowFromWriteResponseAfterWrite);
  ("/testThrowAfterWakeup", plain testThrowAfterWakeup); ("/testPPP", plain testPPP)]%string.

Fixpoint by_url (url : bytes) (l : list (string * service S)) : option (service S) :=
  match l with
  | [] => None
  | (u, f) :: rest => if decide (url = str u) then Some f else by_url url rest
  end.

Definition create_session (router : RestfulRouter (option (service S))) (req : Request bytes)
    : result exn (option (service S)) :=
  match by_url (m_url req) url_services with
  | Some f => Ok (Some f)
  | None => createHandler None router (m_url req) (m_method req)
  end.

(** [createRoute(route)->addMethodHandler("GET", sessionHandler(TestRESTGET))] *)
Definition add_get (route : string) (rr : RestfulRouter (option (service S)))
    : result exn (RestfulRouter (option (service S))) :=
  let* ir := createRoute (str route) rr in
  Ok (route_addMethodHandler ir.1 (str "GET") (fun parsed => Ok (Some (TestRESTGET parsed))) ir.2).
End Services.

Definition s_testRootRestful {S} : RestfulRouter (option (service S)) := make_router (str "/test/rest/v1/").

Section Init.
Context {S : Type} `{A : AbstractStream bytes S} `{IterationOrder} `{StringCapacity}.

(** [init_plugin]: the variable [test50mresponse] and the routes. *)
Definition init_plugin (cap0 : nat) (response : bytes) (rr : RestfulRouter (option (service S)))
    : result exn (bytes * RestfulRouter (option (service S)) * bool) :=
  let* r1 := add_get cap0 "customers" rr in
  let* r2 := add_get cap0 "customers/{customerId}" r1 in
  let* r3 := add_get cap0 "customers/{customerId}/licenses" r2 in
  let* r4 := add_get cap0 "customers/{customerId}/licenses/{licenseId}" r3 in
  Ok (response ++ fill (50 * MiB), r4, true).

Definition plugin_order : Z := 9999999.
End Init.

(** * Lemmas *)

(** A stream whose writes return: the peer reads and the connection lasts. *)
Class Reliable {S : Type} (A : AbstractStream bytes S) : Prop := {
  write_returns b s : exists s', write b s = (Done tt, s');
  writev_returns bs s : exists s', writev bs s = (Done tt, s')
}.

#[export] Instance chunked_reliable {S} `{A : AbstractStream bytes S} `{!Reliable A} : Reliable (ChunkedStream (A := A)).
Proof.
  split; cbn.
  - intros b s. unfold chunked_write. destruct (length b); [by eexists|apply writev_returns].
  - intros bs s. unfold chunked_writev. destruct (sum_list _); [by eexists|apply writev_returns].
Qed.

(** Capacities of strings never shrink. *)
Class Growing (C : StringCapacity) : Prop := reserved_grows cap n : cap <= reserved cap n.

#[export] Instance growing_growing : Growing growing_capacity.
Proof. intros cap n. cbn. lia. Qed.

Section OStreams.
Context {S : Type} `{A : AbstractStream bytes S} `{L : !StreamLaws A} `{G : !GatherLaws A} `{!Reliable A}.
Context `{C : StringCapacity} `{!Growing C}.
Implicit Type b : obuf S.

Lemma on_write_returns t b :
  exists s', on_stream (write t) b = (Done tt, OBuf s' (ob_buffer b) (ob_capacity b)).
Proof. unfold on_stream. destruct (write_returns t (m_stream b)) as [s' ->]. by exists s'. Qed.

Lemma sync_returns b : exists b', sync b = (Done tt, b') /\ ob_capacity b <= ob_capacity b'.
Proof.
  unfold sync, bind at 1. cbn [gets]. destruct (ob_buffer b) as [|c t] eqn:E; [by exists b|].
  unfold bind. destruct (on_write_returns (c :: t) b) as [s' ->]. cbn. eexists. split; [reflexivity|]. cbn.
  apply reserved_grows.
Qed.

(** Inserting a text returns, with the count the stream expects. *)
Lemma xsputn_loop_returns fuel p n b :
  length p <= fuel -> ob_ok b ->
  exists k b', xsputn_loop fuel p n b = (Done k, b') /\
    k = if (ob_capacity b <? length p)%nat then length p else n.
Proof.
  revert p b; induction fuel as [|fuel IH]; intros p b Hf Hok.
  { destruct p; [|cbn in Hf; lia]. exists n, b. by destruct (ob_capacity b). }
  cbn [xsputn_loop]. destruct p as [|c p]; [exists n, b; by destruct (ob_capacity b)|].
  set (q := c :: p) in *. assert (Hq : 0 < length q) by (subst q; cbn; lia). clearbody q. clear c p.
  unfold bind at 1. cbn [gets id]. destruct (Nat.ltb_spec (ob_capacity b) (length q)) as [Hlt|Hge].
  - assert (Hw : exists b1, match ob_buffer b with [] => on_stream (write q) | d :: t => on_stream (writev [d :: t; q]) end b =
      (Done tt, b1)).
    { unfold on_stream. destruct (ob_buffer b) as [|d t].
      - destruct (write_returns q (m_stream b)) as [s' ->]. by eexists.
      - destruct (writev_returns [d :: t; q] (m_stream b)) as [s' ->]. by eexists. }
    destruct Hw as [b1 Hw]. unfold bind. rewrite Hw. cbn. eauto.
  - assert (Hr : exists b1, when (ob_capacity b <=? length (ob_buffer b))%nat sync b = (Done tt, b1) /\
      ob_capacity b <= ob_capacity b1).
    { unfold when. destruct (ob_capacity b <=? length (ob_buffer b))%nat; [apply sync_returns|by exists b]. }
    destruct Hr as (b1 & Hr & Hc). destruct (room_spec b b1 Hok Hr) as (_ & Hok1 & Hroom).
    unfold bind at 1. rewrite Hr. unfold bind at 1. cbn [gets id]. unfold bind at 1. cbn [append_buffer modify].
    set (len := Nat.min (length q) (ob_capacity b1 - length (ob_buffer b1))).
    destruct (IH (drop len q) (OBuf (m_stream b1) (ob_buffer b1 ++ take len q) (ob_capacity b1))) as (k & b' & -> & Hk).
    + rewrite length_drop. lia.
    + apply append_ok; [done|]. rewrite length_take. lia.
    + exists k, b'. split; [done|]. rewrite Hk. cbn [ob_capacity]. rewrite length_drop.
      destruct (Nat.ltb_spec (ob_capacity b1) (length q - len)); [lia|done].
Qed.

Lemma xsputn_returns p b :
  ob_ok b -> exists b', xsputn p b = (Done (length p), b') /\ accepted b' = accepted b ++ p /\ ob_ok b'.
Proof.
  intros Hok. destruct (xsputn_loop_returns (length p) p (length p) b) as (k & b' & E & Hk); [done|done|].
  exists b'. unfold xsputn. destruct (xsputn_loop_spec _ _ _ _ _ _ (reflexivity _) Hok E) as [Ha Hok'].
  rewrite E. split; [|done]. by destruct (ob_capacity b <? length p)%nat; subst k.
Qed.

Lemma overflow_returns c b :
  ob_ok b -> exists b', overflow c b = (Done 1, b') /\ accepted b' = accepted b ++ [c] /\ ob_ok b'.
Proof.
  intros Hok. unfold overflow.
  assert (Hr : exists b1, when (ob_capacity b <=? length (ob_buffer b))%nat sync b = (Done tt, b1)).
  { unfold when. destruct (_ <=? _)%nat; [|by exists b]. destruct (sync_returns b) as (b1 & E & _). by exists b1. }
  destruct Hr as [b1 Hr]. eexists. 
  assert (E : overflow c b = (Done 1, OBuf (m_stream b1) (ob_buffer b1 ++ [c]) (ob_capacity b1))).
  { unfold overflow, bind. cbn [gets]. by rewrite Hr. }
  split; [exact E|]. by destruct (overflow_spec c b _ _ Hok E) as (_ & ? & ?).
Qed.

(** ** Insertions *)

Definition idata (i : insertion) : bytes := match i with Text t => t | Endl => [LF] end.

Lemma insert_returns i b :
  ob_ok b ->
  exists b', insert i (OStream b false) = (Done tt, OStream b' false) /\
    accepted b' = accepted b ++ idata i /\ ob_ok b'.
Proof.
  intros Hok. destruct i as [t|]; cbn [insert idata]; unfold guarded, bind; cbn [bad rdbuf].
  - destruct (xsputn_returns t b Hok) as (b' & -> & Ha & Hok'). exists b'. by rewrite Nat.eqb_refl.
  - destruct (overflow_returns LF b Hok) as (b1 & -> & Ha & Hok1). cbn [bad rdbuf negb].
    destruct (sync_returns b1) as (b2 & Es & _). destruct (sync_spec b1 b2 Hok1 Es) as (Ha2 & _ & Hok2).
    rewrite Es. exists b2. cbn. by rewrite Ha2.
Qed.

Lemma inserts_return ins b :
  ob_ok b ->
  exists b', iterM insert ins (OStream b false) = (Done tt, OStream b' false) /\
    accepted b' = accepted b ++ concat (idata <$> ins) /\ ob_ok b'.
Proof.
  revert b; induction ins as [|i ins IH]; intros b Hok; cbn [iterM].
  { exists b. by rewrite app_nil_r. }
  destruct (insert_returns i b Hok) as (b1 & E1 & Ha1 & Hok1). unfold bind. rewrite E1.
  destruct (IH b1 Hok1) as (b2 & E2 & Ha2 & Hok2). exists b2. split; [done|]. split; [|done].
  rewrite Ha2, Ha1, fmap_cons. cbn. by rewrite app_assoc.
Qed.
End OStreams.

(** ** Answers *)

Section Answers.
Context {S : Type} `{A : AbstractStream bytes S} `{L : !StreamLaws A} `{G : !GatherLaws A} `{V : BodyState bytes S} `{!BodyLaws A}.
Context `{R : !Reliable A} `{IterationOrder} `{C : StringCapacity} `{!Growing C}.
Implicit Type s : S.

(** The peer decodes [text] from what was sent between the two states. *)
Definition chunked_sent (text : bytes) s s' : Prop :=
  exists w, sent s' = sent s ++ w /\
    forall rest, decode_chunked (Datatypes.S (length w)) (w ++ rest) = Some (text, rest).

(** The answer of a service: headers followed by their data, plain or chunked. *)
Definition replied (headers : Response) (data : bytes) s s' : Prop :=
  exists pre ka, interim pre /\ sent s' = sent s ++ pre ++ toString ka headers ++ data.

Definition replied_chunked (headers : Response) (text : bytes) s s' : Prop :=
  exists pre ka s1, interim pre /\ sent s1 = sent s ++ pre ++ toString ka headers /\ chunked_sent text s1 s'.

Lemma chunked_destroy_returns s : exists s', chunked_destroy s = (Done tt, s') /\ write EndOfChunckedStream s = (Done tt, s').
Proof. unfold chunked_destroy, try_catch. destruct (write_returns EndOfChunckedStream s) as [s' E]. exists s'. by rewrite E. Qed.

Lemma chunked_text_returns cap0 ins s :
  good s -> exists s', chunked_text cap0 ins s = Finished s' /\ chunked_sent (concat (idata <$> ins)) s s'.
Proof.
  intros Hg. pose (CL := chunked_laws (sent s)). pose proof (chunked_gathers (sent s) : GatherLaws _ (L := CL)) as CG. destruct (chunked_start s Hg) as [Hg0 E0].
  destruct (inserts_return (L := CL) ins (ostream_make (A := ChunkedStream) cap0 s)) as (b & Eb & Ha & Hok);
    [by apply (ostream_make_ok (L := CL))|].
  destruct (sync_returns (A := ChunkedStream) b) as (b1 & Es & _).
  destruct (sync_spec (L := CL) b b1 Hok Es) as (Ha1 & Eb1 & Hok1).
  destruct (chunked_destroy_returns (m_stream b1)) as (s' & Ed & Ew).
  exists s'. unfold chunked_text. rewrite Eb. cbn [rdbuf]. unfold ostream_destroy. rewrite Es, Ed. split; [done|].
  destruct (chunked_end (sent s) (m_stream b1) s' (proj1 Hok1) Ew) as (w & Hw & Hd). exists w. split; [done|].
  unfold accepted in *. rewrite Eb1, app_nil_r, Ha in Ha1. simpl in Ha1. rewrite E0 in Ha1. simpl in Ha1.
  by rewrite Ha1 in Hd.
Qed.

(** What a loop of chunk writes has done since the [ChunkedStream] was made. *)
Definition delivers (pre text : bytes) s s' : Prop :=
  decoded_after pre (sent s') = decoded_after pre (sent s) ++ text /\ chunked_good pre s'.

Lemma chunk_delivers pre t s s' : chunked_good pre s -> chunked_write t s = (Done tt, s') -> delivers pre t s s'.
Proof. intros Hg E. pose proof Hg as [Hg1 _]. apply chunked_write_sent in E as [E Hg']; [|done]. by apply chunk_delivered. Qed.

Lemma in_chunked_Done m text s s' :
  good s -> (forall s1, m s = (Done tt, s1) -> delivers (sent s) text s s1) ->
  in_chunked m s = (Done tt, s') -> chunked_sent text s s'.
Proof.
  intros Hg Hm E. unfold in_chunked in E. destruct (m s) as [[[]|e| |] s1] eqn:Em; [| |done|done].
  - destruct (chunked_destroy_returns s1) as (s2 & Ed & Ew). unfold bind in E. rewrite Ed in E. injection E as <-.
    destruct (Hm s1 eq_refl) as [Hd Hc]. destruct (chunked_start s Hg) as [_ E0]. rewrite E0 in Hd.
    destruct (chunked_end _ _ _ Hc Ew) as (w & Hw & Hdec). exists w. split; [done|]. by rewrite Hd in Hdec.
  - destruct (chunked_destroy_returns s1) as (s2 & Ed & _). unfold bind in E. rewrite Ed in E. done.
Qed.

(** The chunks of [test50mChunked] cut the response into pieces. *)
Lemma write_chunks_delivers rand pre fuel k rest s s' :
  length rest <= fuel -> chunked_good pre s -> write_chunks rand fuel k rest s = (Done tt, s') ->
  delivers pre rest s s'.
Proof.
  revert k rest s; induction fuel as [|fuel IH]; intros k rest s Hf Hg E; cbn [write_chunks] in E;
    apply bind_Done in E as ([] & s1 & E1 & E); apply (chunk_delivers pre) in E1 as [D1 G1]; try done;
    set (n := Nat.min _ _) in *.
  - destruct rest; [|cbn in Hf; lia]. rewrite take_nil in D1. rewrite drop_nil in E. by injection E as <-.
  - assert (Hn : drop n rest = [] \/ length (drop n rest) <= fuel).
    { rewrite length_drop. destruct rest as [|c rest]; [left; apply drop_nil|right]. subst n.
      generalize (N.to_nat (rand k `mod` 1048576)). cbn [length] in *. intros r. lia. }
    rewrite <- (take_drop n rest). destruct (drop n rest) as [|c t] eqn:Ed.
    + injection E as <-. by rewrite app_nil_r.
    + destruct Hn as [|Hn]; [done|]. destruct (IH _ _ _ Hn G1 E) as [D2 G2]. split; [|done].
      by rewrite D2, D1, <- app_assoc.
Qed.

Lemma chunked_write_returns t s : exists s', chunked_write t s = (Done tt, s').
Proof. apply (write_returns (A := ChunkedStream)). Qed.

(** The loop always has fuel. *)
Lemma write_chunks_returns rand fuel k rest s :
  length rest <= fuel -> exists s', write_chunks rand fuel k rest s = (Done tt, s').
Proof.
  revert k rest s; induction fuel as [|fuel IH]; intros k rest s Hf; cbn [write_chunks]; unfold bind;
    match goal with |- context [chunked_write ?t s] => destruct (chunked_write_returns t s) as [s1 E1] end;
    rewrite E1; set (n := Nat.min _ _) in *.
  - destruct rest; [|cbn in Hf; lia]. rewrite drop_nil. by exists s1.
  - destruct (drop n rest) as [|c t] eqn:Ed; [by exists s1|]. apply IH. rewrite <- Ed, length_drop.
    destruct rest as [|d rest]; [by rewrite drop_nil in Ed|]. subst n. clear Ed E1.
    generalize (N.to_nat (rand k `mod` 1048576)). cbn [length] in *. intros r. lia.
Qed.

(** ** Reading *)

Lemma read_replied req r s s0 :
  good s -> read_request req s = (Done r, s0) ->
  exists pre, interim pre /\ sent s0 = sent s ++ pre /\ good s0.
Proof. intros Hg E. apply read_request_spec in E as (pre & Hp & Es & Hg0 & _); [|done]. by exists pre. Qed.

Lemma replied_after req r headers data s s0 s1 s' :
  good s -> read_request req s = (Done r, s0) -> write_response headers s0 = (Done tt, s1) ->
  sent s' = sent s1 ++ data -> replied headers data s s'.
Proof.
  intros Hg Er Ew Es. destruct (read_replied _ _ _ _ Hg Er) as (pre & Hp & E0 & Hg0).
  apply write_response_spec in Ew as (E1 & _); [|done]. eexists pre, _. split; [done|].
  by rewrite Es, E1, E0, <- !app_assoc.
Qed.

Lemma replied_plain req headers s s' :
  good s -> (read_request req >>> write_response headers) s = (Done tt, s') -> replied headers [] s s'.
Proof.
  intros Hg E. apply bind_Done in E as (r & s0 & Er & E). eapply replied_after; [done|exact Er|exact E|].
  by rewrite app_nil_r.
Qed.

Lemma chunked_headers_replied req r fields text s s0 s1 s' :
  good s -> read_request req s = (Done r, s0) -> write_response (chunked_headers fields) s0 = (Done tt, s1) ->
  (good s1 -> chunked_sent text s1 s') -> replied_chunked (chunked_headers fields) text s s'.
Proof.
  intros Hg Er Ew Ht. destruct (read_replied _ _ _ _ Hg Er) as (pre & Hp & E0 & Hg0).
  apply write_response_spec in Ew as (E1 & Hg1 & _); [|done]. eexists pre, _, s1. split; [done|].
  split; [by rewrite E1, E0, <- app_assoc|]. by apply Ht.
Qed.

(** A service whose answer is chunked. *)
Lemma replied_in_chunked req text m s s' :
  good s ->
  (forall s1 s2, good s1 -> m s1 = (Done tt, s2) -> delivers (sent s1) text s1 s2) ->
  (read_request req >>> write_response (chunked_headers ∅) >>> in_chunked m) s = (Done tt, s') ->
  replied_chunked (chunked_headers ∅) text s s'.
Proof.
  intros Hg Hm E. apply bind_Done in E as (r & s0 & Er & E). apply bind_Done in E as ([] & s1 & Ew & E).
  eapply chunked_headers_replied; [done|exact Er|exact Ew|]. intros Hg1.
  eapply in_chunked_Done; [done| |exact E]. intros s2. by apply Hm.
Qed.

(** The blocks of [test50ms] are the response. *)
Lemma concat_blocks (n k : nat) (l : bytes) :
  length l = n * k -> concat ((fun i => take k (drop (i * k) l)) <$> seq 0 n) = l.
Proof.
  revert l; induction n as [|n IH]; intros l Hl; [by destruct l|].
  cbn [seq]. rewrite fmap_cons. cbn [concat]. etransitivity; [|exact (take_drop k l)].
  f_equal. etransitivity; [|apply (IH (drop k l)); rewrite length_drop; cbn in Hl; lia].
  rewrite <- fmap_S_seq, <- list_fmap_compose. f_equal. apply list_fmap_ext. intros _ i _. cbn.
  by rewrite drop_drop.
Qed.

(** Collected bodies. *)
Lemma read_collected req r s s0 :
  good s -> read_request (collect_body req) s = (Done r, s0) ->
  exists pre parts, interim pre /\ sent s0 = sent s ++ pre /\ good s0 /\ body_of s0 = body_of s ++ concat parts.
Proof.
  intros Hg E. apply read_request_spec in E as (pre & Hp & Es & Hg0 & parts & Ha); [|done].
  exists pre, parts. split; [done|]. split; [done|]. split; [done|]. revert Ha. generalize (body_of s).
  induction parts as [|t parts IH]; intros b; cbn; [intros [= <-]; by rewrite app_nil_r|].
  intros Ha. by rewrite (IH _ Ha), <- app_assoc.
Qed.

(** ** The worker *)

Lemma wait_task_Done early s s' :
  good s -> wait_task early s = (Done tt, s') -> sent s' = sent s /\ good s'.
Proof.
  revert s; induction early as [|early IH]; intros s Hg E; cbn [wait_task] in E;
    apply bind_Done in E as (ec & s1 & E1 & E); destruct (yield_sent _ _ _ Hg E1) as [Es Hg1];
    destruct (ec =? 0)%Z; cbn in E; [by injection E as <-|done| |done].
  destruct (IH s1 Hg1 E) as [E2 Hg2]. by rewrite E2.
Qed.

Lemma length_task_text r :
  Z.of_nat (length (task_text r)) = (1000 + Z.of_N r mod 4 * 1000)%Z.
Proof. unfold task_text. rewrite length_fmap, length_seq, N_nat_Z, N2Z.inj_add, N2Z.inj_mul, N2Z.inj_mod. done. Qed.

Lemma task_text_bounds r : (1000 <= Z.of_nat (length (task_text r)) <= 4000)%Z.
Proof. rewrite length_task_text. pose proof (Z.mod_pos_bound (Z.of_N r) 4). lia. Qed.

Definition texts (l : list (nat * N)) : bytes := concat ((fun t => task_text t.2) <$> l).

Lemma worker_loop_delivers pre todo size s s' :
  chunked_good pre s -> worker_loop todo size s = (Done tt, s') ->
  exists used, used `prefix_of` todo /\ delivers pre (texts used) s s' /\
    (100000 <= Z.of_nat (size + length (texts used)))%Z /\
    (Z.of_nat size < 100000 -> Z.of_nat (size + length (texts used)) < 104000)%Z.
Proof.
  revert size s; induction todo as [|[early r] todo IH]; intros size s Hg E; cbn [worker_loop] in E; [done|].
  apply bind_Done in E as ([] & s1 & E1 & E). apply bind_Done in E as ([] & s2 & E2 & E).
  destruct Hg as (Hg & ds & Eds & Hds). destruct (wait_task_Done _ _ _ Hg E1) as [Es Hg1].
  assert (Hc1 : chunked_good pre s1) by (split; [done|]; exists ds; by rewrite Es).
  destruct (chunk_delivers pre _ _ _ Hc1 E2) as [D2 Hc2]. rewrite Es in D2.
  pose proof (task_text_bounds r) as Hr. destruct (Z.ltb_spec (Z.of_nat (size + length (task_text r))) 100000).
  - destruct (IH _ _ Hc2 E) as (used & [k ->] & [D3 Hc3] & Hlo & Hhi). exists ((early, r) :: used).
    unfold texts in *. rewrite fmap_cons. cbn [concat]. rewrite length_app. split; [by exists k|].
    split; [split; [by rewrite D3, D2, <- app_assoc|done]|]. cbn [snd] in *. lia.
  - injection E as <-. exists [(early, r)]. split; [by exists todo|]. unfold texts. cbn. rewrite app_nil_r.
    split; [done|]. lia.
Qed.

(** With enough tasks and no error the loop returns. *)
Lemma worker_loop_returns todo size s :
  (forall s, exists s', yield s = (Done 0%Z, s')) -> (100000 <= Z.of_nat size + 1000 * Z.of_nat (length todo))%Z ->
  (Z.of_nat size < 100000)%Z -> exists s', worker_loop todo size s = (Done tt, s').
Proof.
  intros Hr. assert (Hw : forall early s, exists s', wait_task early s = (Done tt, s')).
  { induction early as [|early IH]; intros s1; cbn [wait_task]; unfold bind; destruct (Hr s1) as [s2 ->]; cbn; [by exists s2|apply IH]. }
  revert size s; induction todo as [|[early r] todo IH]; intros size s Hn Hs; [cbn in Hn; lia|].
  cbn [worker_loop]. unfold bind. destruct (Hw early s) as [s1 ->]. destruct (chunked_write_returns (task_text r) s1) as [s2 ->].
  pose proof (task_text_bounds r). destruct (Z.ltb_spec (Z.of_nat (size + length (task_text r))) 100000); [|by eexists].
  apply IH; [|done]. cbn [length] in Hn. lia.
Qed.
(** ** What the services promise *)

Section Promises.
Context (test50mresponse : bytes).

(** For each URL, what is sent by a service that returns; [False] where it never does. *)
Definition promises : list (string * (S -> S -> Prop)) := [
  ("/test0", replied (response1 200) []);
  ("/test100", replied (response2 200 test100response) []);
  ("/test100Chunked", replied_chunked (chunked_headers ∅) test100response);
  ("/test50m", replied (sized_headers test50mresponse) test50mresponse);
  ("/test50mChunked", replied_chunked (chunked_headers ∅) test50mresponse);
  ("/testWorker", fun s s' => exists l, replied_chunked (chunked_headers ∅) (texts l) s s' /\
     (100000 <= Z.of_nat (length (texts l)) < 104000)%Z);
  ("/test50ms", replied (sized_headers test50mresponse) test50mresponse);
  ("/echoTest", fun s s' => exists r body, (announced r).1 = Z.of_nat (length body) /\
     replied_chunked (chunked_headers ∅) (concat (idata <$> echo_text (announced r).2 body)) s s');
  ("/secureOnly", fun s s' => isSecuredConnection s = true /\ replied (response1 200) [] s s');
  ("/testExpectation", replied (response1 200) []);
  ("/testThowFromRequestComplete", fun _ _ => False);
  ("/testThowFromBody", replied (response1 200) []);
  ("/testThowFromWriteResponse", fun _ _ => False);
  ("/testThowFromWriteResponseStd", fun _ _ => False);
  ("/testThowFromWriteResponseAfterWrite", fun _ _ => False);
  ("/testThrowAfterWakeup", fun _ _ => False);
  ("/testPPP", replied (sized_headers test50mresponse) test50mresponse)]%string.

Context (cap0 : nat) (rand : nat -> N) (tasks : list (nat * N)).

(** A service keeps a promise. *)
Definition keeps (f : service S) (P : S -> S -> Prop) : Prop :=
  forall req s s', good s -> f req s = Some (Done tt, s') -> P s s'.

Lemma keeps_plain (m : Request bytes -> M S unit) P :
  (forall req s s', good s -> m req s = (Done tt, s') -> P s s') -> keeps (plain m) P.
Proof. intros Hm req s s' Hg [= E]. by eapply Hm. Qed.

Lemma test50m_keeps : keeps (plain (test50m test50mresponse)) (replied (sized_headers test50mresponse) test50mresponse).
Proof.
  apply keeps_plain. intros req s s' Hg E. apply bind_Done in E as (r & s0 & Er & E).
  apply bind_Done in E as ([] & s1 & Ew & E). eapply replied_after; [done|exact Er|exact Ew|].
  destruct (read_replied _ _ _ _ Hg Er) as (pre & _ & _ & Hg0).
  apply write_response_spec in Ew as (_ & Hg1 & _); [|done]. by apply write_sent in E as [? _].
Qed.

Lemma test50ms_keeps :
  length test50mresponse = 50 * MiB ->
  keeps (plain (test50ms test50mresponse)) (replied (sized_headers test50mresponse) test50mresponse).
Proof.
  intros Hl. apply keeps_plain. intros req s s' Hg E. apply bind_Done in E as (r & s0 & Er & E).
  apply bind_Done in E as (ka & s1 & [= <- <-] & E). destruct (read_replied _ _ _ _ Hg Er) as (pre & Hp & E0 & Hg0).
  apply writev_sent in E as [Es _]; [|done]. exists pre, (keepAlive s0). split; [done|].
  rewrite Es, E0, List.concat_cons. unfold blocks. rewrite concat_blocks by exact Hl. by rewrite <- app_assoc.
Qed.

Lemma testWorker_Done req s s' :
  good s -> testWorker tasks req s = (Done tt, s') ->
  exists used, used `prefix_of` tasks /\ replied_chunked (chunked_headers ∅) (texts used) s s' /\
    (100000 <= Z.of_nat (length (texts used)) < 104000)%Z.
Proof.
  intros Hg E. apply bind_Done in E as (r & s0 & Er & E).
  apply bind_Done in E as ([] & s1 & Ew & E). destruct (read_replied _ _ _ _ Hg Er) as (pre & _ & _ & Hg0).
  pose proof Ew as Ew1. apply write_response_spec in Ew1 as (_ & Hg1 & _); [|done].
  destruct (worker_loop tasks 0 s1) as [o s2] eqn:El.
  destruct o as [[]|e| |]; try (unfold in_chunked in E; rewrite El in E;
    destruct (chunked_destroy_returns s2) as (s3 & Ed & _); unfold bind in E; rewrite ?Ed in E; done).
  destruct (worker_loop_delivers (sent s1) tasks 0 s1 s2 (proj1 (chunked_start s1 Hg1)) El)
    as (used & Hp & Hd & Hlo & Hhi).
  exists used. split; [done|]. split; [|split; [exact Hlo|by apply Hhi]].
  eapply chunked_headers_replied; [done|exact Er|exact Ew|]. intros _.
  eapply in_chunked_Done; [done| |exact E]. intros s3 E3. rewrite El in E3. by injection E3 as <-.
Qed.

Lemma testWorker_keeps :
  keeps (plain (testWorker tasks))
    (fun s s' => exists l, replied_chunked (chunked_headers ∅) (texts l) s s' /\
       (100000 <= Z.of_nat (length (texts l)) < 104000)%Z).
Proof. apply keeps_plain. intros req s s' Hg E. destruct (testWorker_Done req s s' Hg E) as (l & _ & H1 & H2). eauto. Qed.

(** A service that ends with text. *)
Lemma with_text_keeps m req s s' :
  (forall ins s1, m req s = (Done ins, s1) -> good s1) ->
  with_text cap0 m req s = Some (Done tt, s') ->
  exists ins s1, m req s = (Done ins, s1) /\ chunked_sent (concat (idata <$> ins)) s1 s'.
Proof.
  intros Hm E. unfold with_text in E. destruct (m req s) as [[ins|e| |] s1] eqn:Em; [|done..].
  destruct (chunked_text_returns cap0 ins s1) as (s2 & Et & Hs); [by eapply Hm|]. rewrite Et in E.
  injection E as <-. eauto.
Qed.

Lemma echoTest_keeps :
  keeps (echoTest cap0)
    (fun s s' => exists r body, (announced r).1 = Z.of_nat (length body) /\
       replied_chunked (chunked_headers ∅) (concat (idata <$> echo_text (announced r).2 body)) s s').
Proof.
  intros req s s' Hg E. pose (sa := set_body [] (setSessionTimeout 10 s)).
  assert (Hga : good sa) by (by apply set_body_good, setSessionTimeout_good).
  assert (Hsa : sent sa = sent s) by (unfold sa; by rewrite set_body_sent, setSessionTimeout_sent).
  assert (Hrun : forall ins s1, (modify (setSessionTimeout 10) >>> modify (set_body []) >>>
      r <-- read_request (collect_body req) ;; body <-- gets body_of ;;
      let '(n, r1) := announced r in
      if negb (n =? Z.of_nat (length body))%Z then throw (ex_int 400)
      else write_response (chunked_headers ∅) >>> ret (echo_text r1 body)) s = (Done ins, s1) ->
    good s1 /\ exists r body pre ka, interim pre /\ sent s1 = sent s ++ pre ++ toString ka (chunked_headers ∅) /\
      (announced r).1 = Z.of_nat (length body) /\ ins = echo_text (announced r).2 body).
  { intros ins s1 E1. apply bind_Done in E1 as ([] & s2 & [= <-] & E1). apply bind_Done in E1 as ([] & s3 & [= <-] & E1).
    apply bind_Done in E1 as (r & s4 & Er & E1). apply bind_Done in E1 as (body & s5 & [= <- <-] & E1).
    destruct (read_replied _ _ _ _ Hga Er) as (pre & Hp & E0 & Hg0). rewrite Hsa in E0.
    destruct (announced r) as [n r1] eqn:Ea. destruct (Z.eqb_spec n (Z.of_nat (length (body_of s4)))) as [Hn|]; [|done].
    apply bind_Done in E1 as ([] & s6 & Ew & [= <- <-]). apply write_response_spec in Ew as (Es & Hg6 & _); [|done].
    split; [done|]. eexists r, (body_of s4), pre, _. rewrite Ea. split_and!; [done| |done|done].
    by rewrite Es, E0, <- app_assoc. }
  unfold echoTest in E. apply with_text_keeps in E as (ins & s1 & E1 & Hs); [|intros ins s1 E1; by destruct (Hrun ins s1 E1)].
  destruct (Hrun ins s1 E1) as (_ & r & body & pre & ka & Hp & Es & Ha & ->).
  exists r, body. split; [done|]. by exists pre, ka, s1.
Qed.

Lemma testPPP_keeps :
  keeps (plain (testPPP test50mresponse)) (replied (sized_headers test50mresponse) test50mresponse).
Proof.
  apply keeps_plain. intros req s s' Hg E. apply bind_Done in E as ([] & sa & [= <-] & E).
  apply bind_Done in E as (r & s0 & Er & E). apply bind_Done in E as (body & s1 & [= <- <-] & E).
  destruct (read_replied _ _ _ _ (set_body_good [] s Hg) Er) as (pre & Hp & E0 & Hg0). rewrite set_body_sent in E0.
  destruct (announced r) as [n r1]. destruct (n =? Z.of_nat (length test50mresponse))%Z; cbn in E; [|done].
  case_decide as Hb; [done|]. rewrite Hb in E.
  apply bind_Done in E as ([] & s2 & Ew & E). apply write_response_spec in Ew as (E2 & Hg2 & _); [|done].
  apply write_sent in E as [Es _]; [|done]. eexists pre, _. split; [done|].
  by rewrite Es, E2, E0, <- !app_assoc.
Qed.

Lemma throw_keeps {X} (m : Request bytes -> M S X) e P : keeps (plain (fun req => m req >>> throw e)) P.
Proof. apply keeps_plain. intros req s s' _ E. by apply bind_Done in E as (x & s1 & _ & E). Qed.

Lemma services_keep :
  length test50mresponse = 50 * MiB ->
  Forall2 (fun uf up => uf.1 = up.1 /\ keeps uf.2 up.2) (url_services cap0 rand tasks test50mresponse) promises.
Proof.
  intros Hl. repeat apply Forall2_cons_2; [..|apply Forall2_nil_2]; (split; [done|]); cbn [fst snd].
  - apply keeps_plain. intros. by eapply replied_plain.
  - apply keeps_plain. intros. by eapply replied_plain.
  - apply keeps_plain. intros req s s' Hg. apply replied_in_chunked; [done|]. intros s1 s2 Hg1.
    apply chunk_delivers. by apply chunked_start.
  - apply test50m_keeps.
  - apply keeps_plain. intros req s s' Hg. apply replied_in_chunked; [done|]. intros s1 s2 Hg1.
    apply write_chunks_delivers; [done|]. by apply chunked_start.
  - apply testWorker_keeps.
  - by apply test50ms_keeps.
  - apply echoTest_keeps.
  - apply keeps_plain. intros req s s' Hg E. unfold secureOnly in E. apply bind_Done in E as (b & s1 & [= <- <-] & E).
    destruct (isSecuredConnection s); cbn in E; [|done]. split; [done|]. by eapply replied_plain.
  - apply keeps_plain. intros req s s' Hg E. unfold testExpectation in E.
    destruct (field_at (str "Expect") req) as [x req1]. case_match; [|done]. by eapply replied_plain.
  - by apply keeps_plain.
  - apply keeps_plain. intros. by eapply replied_plain.
  - apply throw_keeps.
  - apply throw_keeps.
  - apply keeps_plain. intros req s s' _ E. apply bind_Done in E as (r & s1 & _ & E).
    by apply bind_Done in E as ([] & s2 & _ & E).
  - apply keeps_plain. intros req s s' _ E. apply bind_Done in E as (r & s1 & _ & E).
    by apply bind_Done in E as ([] & s2 & _ & E).
  - apply testPPP_keeps.
Qed.

Lemma by_url_keeps (fs : list (string * service S)) (Ps : list (string * (S -> S -> Prop))) u P :
  Forall2 (fun uf up => uf.1 = up.1 /\ keeps uf.2 up.2) fs Ps -> NoDup ((fun up => str up.1) <$> Ps) ->
  (u, P) ∈ Ps -> exists f, by_url (str u) fs = Some f /\ keeps f P.
Proof.
  induction 1 as [|[u1 f1] [u2 P2] fs Ps [Hu Hk] _ IH]; intros Hd Hin; [by apply elem_of_nil in Hin|].
  cbn [fst snd] in *. subst u2. rewrite fmap_cons in Hd. apply NoDup_cons in Hd as [Hn Hd].
  cbn [by_url]. apply elem_of_cons in Hin as [[= -> ->]|Hin]; [rewrite decide_True by done; eauto|].
  rewrite decide_False; [by apply IH|]. intros E. apply Hn, list_elem_of_fmap. by exists (u, P).
Qed.

Lemma urls_distinct : NoDup ((fun up => str up.1) <$> promises).
Proof. apply (bool_decide_unpack _). vm_compute. exact I. Qed.
End Promises.

Lemma write_response_returns res s : exists s', write_response res s = (Done tt, s').
Proof.
  unfold write_response, bind, when, modify, gets. destruct (m_keep_alive res =? -1)%Z, (m_contentLength res =? ChunkedData)%Z; cbn;
    apply write_returns.
Qed.

Lemma in_chunked_returns m s s1 : m s = (Done tt, s1) -> exists s', in_chunked m s = (Done tt, s').
Proof.
  intros E. unfold in_chunked. rewrite E. destruct (chunked_destroy_returns s1) as (s' & Ed & _). exists s'.
  unfold bind. by rewrite Ed.
Qed.
End Answers.

(** * Properties *)

#[local] Existing Instances conn_stream conn_laws conn_gathers conn_body conn_body_laws listed_order growing_capacity.

#[local] Instance conn_reliable : Reliable conn_stream.
Proof. split; cbn; intros; by eexists. Qed.



(** [/testWorker] ends: with workers that finish their tasks, however often the
    session is resumed before they do, and no error on the connection, the service
    returns after at most a hundred tasks, having sent the texts of the first
    tasks in order, between 100000 and 104000 bytes, chunked. *)
Theorem worker_streams {S} `{A : AbstractStream bytes S} `{L : !StreamLaws A} `{G : !GatherLaws A} `{V : BodyState bytes S}
    `{!BodyLaws A} `{!Reliable A} `{IterationOrder} tasks req r s s0 :
  (forall s, exists s', yield s = (Done 0%Z, s')) -> 100 <= length tasks ->
  good s -> read_request req s = (Done r, s0) ->
  exists s' used, testWorker tasks req s = (Done tt, s') /\ used `prefix_of` tasks /\
    replied_chunked (chunked_headers ∅) (texts used) s s' /\
    (100000 <= Z.of_nat (length (texts used)) < 104000)%Z.
Proof.
  intros Hr Hn Hg Er. destruct (write_response_returns (chunked_headers ∅) s0) as [s1 Ew].
  destruct (worker_loop_returns tasks 0 s1) as [s2 El]; [done|lia|lia|].
  destruct (in_chunked_returns _ _ _ El) as [s' Ei].
  assert (E : testWorker tasks req s = (Done tt, s')) by (unfold testWorker, bind; by rewrite Er, Ew).
  exists s'. destruct (testWorker_Done tasks req s s' Hg E) as (used & H1 & H2 & H3). eauto.
Qed.

Lemma worker_streams_witness :
  exists s' used, testWorker (S := conn) (replicate 100 (2, 7%N)) make_request (new_conn []) = (Done tt, s') /\
    used `prefix_of` replicate 100 (2, 7%N) /\
    replied_chunked (chunked_headers ∅) (texts used) (new_conn []) s' /\
    (100000 <= Z.of_nat (length (texts used)) < 104000)%Z.
Proof.
  apply (worker_streams (replicate 100 (2, 7%N)) make_request (Http.setState Completed make_request)
    (new_conn []) (new_conn [])).
  - intros s. exists s. reflexivity.
  - vm_compute. lia.
  - exact I.
  - reflexivity.
Defined.
